(** * ShiftPalette: the constraint engine and the shift generator

    A shallow embedding of [src/lib/constraintChecker.ts] (the constraint
    engine followed by the [ShiftGenerator] class), of the counting helpers
    of [lib/shiftCountUtils.ts], of the handlers of [App.tsx] that edit the
    schedule, of the handlers of [components/StaffList.tsx] that add and
    delete a staff member, and of the data model of [src/types.ts].

    Conventions.
    - A [Record<string, Record<number, ShiftPatternId>>] is a
      [gmap string (gmap Z ShiftPatternId)]; a lookup that yields
      [undefined] in the source yields [None] here.  Staff ids are integers,
      days of the month are natural numbers.
    - [lib/utils.ts] is not part of the sources at hand.  Its four functions
      ([getDaysInMonth], [getFormattedDate], [getDayOfWeek], [isHoliday]) and
      the built-in [new Date(y, m - 1, d).getDay()] are parameters of the
      development; nothing is assumed about them.
    - A sort whose comparator calls [Math.random] leaves the list in an
      order the program does not determine: that order is a parameter too.
      Nothing is assumed about it, but where a theorem takes as a
      hypothesis that the sort reorders its list.
    - A handler of [App.tsx] takes the React state it reads as arguments
      and returns the schedule it passes to [setSchedule], [None] when it
      returns early.
    - The generator is a state passed from phase to phase.  A phase that
      reads a property of [undefined] raises, and the [while (true)] of the
      minimum-count phase runs on fuel: a run ends in [Done], [Throws] or
      [OutOfFuel].
    - The display text of a violation ([message]) is not modelled: a
      violation is its [type] and its [code]. *)

From stdpp Require Import gmap strings list fin_maps pretty.
From Stdlib Require Import ZArith Lia Sorted.

Local Open Scope Z_scope.
Local Open Scope nat_scope.

(** ** Data model ([src/types.ts]) *)

(** ['A' | 'B' | 'C' | 'D' | 'E' | 'J' | '振' | '有' | '休' | ''] *)
Inductive ShiftPatternId : Set :=
| PA | PB | PC | PD | PE | PJ
| Furikyu   (* '振' compensatory day off *)
| Yukyu     (* '有' paid leave *)
| Kokyu     (* '休' regular day off *)
| NoShift.  (* ''  empty cell *)

#[global] Instance ShiftPatternId_eq_dec : EqDecision ShiftPatternId.
Proof. solve_decision. Defined.

(** ['園長' | '主任' | '保育士' | 'パート' | '調理'] *)
Inductive StaffPosition : Set :=
| Director | Chief | Caregiver | PartTimer | Cook.

#[global] Instance StaffPosition_eq_dec : EqDecision StaffPosition.
Proof. solve_decision. Defined.

Inductive StaffShiftType : Set :=
| no_shift | backup | regular | part_time | cooking.

#[global] Instance StaffShiftType_eq_dec : EqDecision StaffShiftType.
Proof. solve_decision. Defined.

(** [StaffRole] without its [null], which is [None] in [role]. *)
Inductive StaffRole : Set :=
| infant | toddler | free | cooking_role.

#[global] Instance StaffRole_eq_dec : EqDecision StaffRole.
Proof. solve_decision. Defined.

Record TimeRange : Set := mkTimeRange {
  tr_start : string;
  tr_end : string;
  countAsShifts : option (list ShiftPatternId)
}.

Record Staff : Set := mkStaff {
  id : Z;
  name : string;
  position : StaffPosition;
  shiftType : StaffShiftType;
  preferredShifts : list ShiftPatternId;
  weeklyDays : Z;
  role : option StaffRole;
  incompatibleWith : list Z;
  earlyShiftLimit : option Z;
  saturdayOnly : bool;
  hasQualification : bool;
  defaultTimeRange : option TimeRange
}.

Record Settings : Set := mkSettings {
  saturdayStaffCount : Z;
  saturdayShiftPattern : ShiftPatternId
}.

Record Holiday : Set := mkHoliday {
  date : string;
  holidayName : string
}.

Abbreviation ShiftSchedule := (gmap string (gmap Z ShiftPatternId)).
Abbreviation TimeRangeSchedule := (gmap string (gmap Z TimeRange)).

Record ShiftPatternDefinition : Set := mkPattern {
  pat_id : ShiftPatternId;
  minCount : nat
}.

(** [SHIFT_PATTERNS], with the two fields the engine reads. *)
Definition SHIFT_PATTERNS : list ShiftPatternDefinition :=
  [ mkPattern PA 2; mkPattern PB 1; mkPattern PC 1;
    mkPattern PD 1; mkPattern PE 1; mkPattern PJ 2 ].

(** ** JavaScript idioms *)

(** [sch[dateStr]?.[staffId]] *)
Definition cellAt (sch : ShiftSchedule) (dateStr : string) (staffId : Z)
  : option ShiftPatternId :=
  sch !! dateStr ≫= (.!! staffId).

(** [x || ''] on a cell: [undefined] and [''] both give ['']. *)
Definition orEmpty (c : option ShiftPatternId) : ShiftPatternId :=
  default NoShift c.

(** Truthiness of a cell: [undefined] and [''] are falsy. *)
Definition truthy (c : option ShiftPatternId) : bool :=
  match c with
  | None | Some NoShift => false
  | Some _ => true
  end.

(** [staff.find(s => s.id === staffId)] *)
Definition findStaff (staff : list Staff) (staffId : Z) : option Staff :=
  List.find (fun s => bool_decide (id s = staffId)) staff.

(** [Array.prototype.sort] with a consistent comparator: the sort is stable,
    so its result is the one of any stable sort; here insertion from the
    right, an element going before the first one it does not exceed. *)
Section Sort.
Context {T : Type} (cmp : T -> T -> Z).

Fixpoint sortInsert (x : T) (l : list T) : list T :=
  match l with
  | [] => [x]
  | y :: l' =>
      if decide (cmp x y <= 0)%Z then x :: y :: l' else y :: sortInsert x l'
  end.

Definition jsSort (l : list T) : list T := foldr sortInsert [] l.
End Sort.

(** ** The constraint engine *)

Inductive ViolationType : Set := hard | soft.

#[global] Instance ViolationType_eq_dec : EqDecision ViolationType.
Proof. solve_decision. Defined.

Inductive ConstraintCode : Set :=
| J_TO_A | CONSECUTIVE_A | CONSECUTIVE_J | INCOMPATIBLE | WEEKLY_AJ_LIMIT
| MIN_COUNT_A | MIN_COUNT_J | MIN_TOTAL
| EARLY_LIMIT | FAIRNESS_A | FAIRNESS_J | FAIRNESS_SAT.

#[global] Instance ConstraintCode_eq_dec : EqDecision ConstraintCode.
Proof. solve_decision. Defined.

Record ConstraintViolation : Set := mkViolation {
  vtype : ViolationType;
  code : ConstraintCode
}.

#[global] Instance ConstraintViolation_eq_dec : EqDecision ConstraintViolation.
Proof. solve_decision. Defined.

Record CandidateEvaluation : Set := mkCandidate {
  staffId : Z;
  staffName : string;
  violations : list ConstraintViolation;
  isAssignable : bool;
  currentShift : ShiftPatternId
}.

Record ConstraintContext : Type := mkContext {
  schedule : ShiftSchedule;
  staff : list Staff;
  holidays : list Holiday;
  settings : Settings;
  year : Z;
  month : Z
}.

Record SwapParty : Set := mkParty {
  party_id : Z;
  party_name : string;
  party_currentShift : ShiftPatternId
}.

Record SwapSuggestion : Set := mkSwap {
  staffA : SwapParty;
  staffB : SwapParty;
  description : string;
  benefit : string
}.

(** The object [getImpactPreview] returns. *)
Record ImpactPreview : Set := mkPreview {
  preview_violations : list ConstraintViolation;
  isAllowed : bool;
  summary : string
}.

(** The text of a cell value inside a template string. *)
Definition shiftText (p : ShiftPatternId) : string :=
  match p with
  | PA => "A" | PB => "B" | PC => "C" | PD => "D" | PE => "E" | PJ => "J"
  | Furikyu => "振" | Yukyu => "有" | Kokyu => "休" | NoShift => EmptyString
  end.

(** [some(v => v.type === 'hard')] *)
Definition hasHard (vs : list ConstraintViolation) : bool :=
  existsb (fun v => bool_decide (vtype v = hard)) vs.

(** [if (v) violations.push(v)] *)
Definition pushIf (v : option ConstraintViolation)
    (vs : list ConstraintViolation) : list ConstraintViolation :=
  match v with
  | Some x => vs ++ [x]
  | None => vs
  end.

(** The number of cells of one date that hold [pattern]
    ([for (const staffId in row) if (row[staffId] === pattern) count++]). *)
Definition countRow (pattern : ShiftPatternId) (row : gmap Z ShiftPatternId)
  : nat :=
  length (filter (fun kv => kv.2 = pattern) (map_to_list row)).

(** ** Outcomes of a run

    A method of the generator either returns, or raises a [TypeError]
    (a property read on [undefined]), or is still looping when the turns
    allotted to its [while (true)] are used up. *)
Inductive Outcome (A : Type) : Type :=
| Done (a : A)
| Throws
| OutOfFuel.
Arguments Done {A} a.
Arguments Throws {A}.
Arguments OutOfFuel {A}.

#[global] Instance Outcome_ret : MRet Outcome := fun A a => Done a.
#[global] Instance Outcome_bind : MBind Outcome := fun A B f m =>
  match m with
  | Done a => f a
  | Throws => Throws
  | OutOfFuel => OutOfFuel
  end.

(** The fields of a [ShiftGenerator] that the constructor sets once and for
    all.  [this.schedule], the one field the methods assign to, is the state
    passed from method to method. *)
Record ShiftGenerator : Type := mkGenerator {
  this_staff : list Staff;
  this_timeRangeSchedule : TimeRangeSchedule;
  this_holidays : list Holiday;
  this_settings : Settings;
  this_year : Z;
  this_month : Z;
  this_daysInMonth : nat
}.

(** [if (!sch[dateStr]) sch[dateStr] = {}; sch[dateStr][staffId] = v] *)
Definition putCell (sch : ShiftSchedule) (dateStr : string) (staffId : Z)
    (v : ShiftPatternId) : ShiftSchedule :=
  <[dateStr := <[staffId := v]> (default ∅ (sch !! dateStr))]> sch.

(** [sch[dateStr][staffId] = v], which raises when [sch[dateStr]] is
    [undefined]. *)
Definition assignCell (sch : ShiftSchedule) (dateStr : string) (staffId : Z)
    (v : ShiftPatternId) : Outcome ShiftSchedule :=
  match sch !! dateStr with
  | None => Throws
  | Some row => Done (<[dateStr := <[staffId := v]> row]> sch)
  end.

(** The places where a comparator that calls [Math.random] sorts a list.
    A run passes each place at most once. *)
Inductive RandomSite : Set :=
| SaturdayShuffle (day : nat)
| DefaultSort (day : nat) (pattern : ShiftPatternId) (secondPass : bool).

(** ** A calendar and a roster to run the engine on

    November 2026 has thirty days and starts on a Sunday; the third is a
    listed holiday. *)
Definition november (_ _ : Z) : nat := 30.

Definition twoDigits (n : nat) : string :=
  String (Ascii.ascii_of_nat (48 + n / 10))
    (String (Ascii.ascii_of_nat (48 + n mod 10)) EmptyString).

Definition isoDate (year month : Z) (day : nat) : string :=
  "20" +:+ twoDigits (Z.to_nat year mod 100) +:+ "-"
  +:+ twoDigits (Z.to_nat month) +:+ "-" +:+ twoDigits day.

Definition novemberDayOfWeek (_ _ : Z) (day : nat) : nat := (day + 6) mod 7.

Definition listedHoliday (dateStr : string) (holidays : list Holiday) : bool :=
  existsb (fun h => bool_decide (date h = dateStr)) holidays.

(** The engine leaves a randomly sorted list reversed. *)
Definition reversing (_ : RandomSite) (l : list Staff) : list Staff := rev l.

Definition member (staffId : Z) (staffName : string) (p : StaffPosition)
    (t : StaffShiftType) (incompatible : list Z) : Staff :=
  mkStaff staffId staffName p t [] 5 (Some free) incompatible None false true
    None.

Definition hanako : Staff := member 1 "Hanako" Caregiver regular [2%Z].
Definition taro : Staff := member 2 "Taro" Caregiver regular [].
Definition yuki : Staff := member 3 "Yuki" Caregiver backup [].
Definition mika : Staff := member 4 "Mika" PartTimer part_time [].
Definition sensei : Staff := member 5 "Sensei" Chief regular [].

Definition roster : list Staff := [hanako; taro; yuki; mika; sensei].

Definition culture : list Holiday := [mkHoliday "2026-11-03" "Culture Day"].

Definition defaults : Settings := mkSettings 3 PB.

(** A schedule with one row: the cells of Wednesday the fourth. *)
Definition oneDay (row : list (Z * ShiftPatternId)) : ShiftSchedule :=
  {[ "2026-11-04" := list_to_map row ]}.

Definition contextOf (sch : ShiftSchedule) : ConstraintContext :=
  mkContext sch roster culture defaults 2026 11.

(** Three on 'A'. *)
Definition threeEarly : ConstraintContext :=
  contextOf (oneDay [(1, PA); (2, PA); (3, PA)]%Z).

(** Hanako, who lists Taro, holds 'C'; Taro lists nobody. *)
Definition hanakoOnC : ConstraintContext :=
  contextOf (oneDay [(1, PC); (2, PB)]%Z).

(** Taro holds 'C' and Yuki is on a regular day off. *)
Definition taroOnC : ConstraintContext :=
  contextOf (oneDay [(1, PB); (2, PC); (3, Kokyu)]%Z).

(** Hanako and Taro both hold 'A'. *)
Definition twoEarly : ConstraintContext :=
  contextOf (oneDay [(1, PA); (2, PA); (3, PB)]%Z).

(** Paid leave for Hanako on the fourth, a compensatory day off for Mika. *)
Definition leaveBooked : ShiftSchedule :=
  oneDay [(1, Yukyu); (4, Furikyu); (2, PA)]%Z.

(** Taro is on a regular day off. *)
Definition taroOff : ConstraintContext :=
  contextOf (oneDay [(2, Kokyu)]%Z).

(** A part-timer and a regular caregiver entered under one id, as the
    staff editor never does. *)
Definition shadow : Staff := member 1 "Mika" PartTimer part_time [].
Definition rin : Staff := member 1 "Rin" Caregiver regular [].

(** Saturdays on the earliest band. *)
Definition earlySaturdays : Settings := mkSettings 3 PA.

(** Hanako alone on 'A'. *)
Definition aloneOnA : ConstraintContext :=
  contextOf (oneDay [(1, PA); (2, PB)]%Z).

(** Mika, the part-timer, entered on 'C' for the fourth. *)
Definition partTimeBooked : ShiftSchedule :=
  oneDay [(4, PC); (1, Yukyu)]%Z.

(** A schedule with a row of the first of December. *)
Definition withDecember : ShiftSchedule :=
  {[ "2026-12-01" := {[ 1%Z := PA ]} ]}.

(** A caregiver who may take one early shift a month. *)
Definition kei : Staff :=
  mkStaff 6 "Kei" Caregiver regular [] 5 (Some free) [] (Some 1%Z) false true
    None.

(** Hanako on 'A' on the fourth and on the fifth, nobody else on 'A' all
    month. *)
Definition earlyTwice : ConstraintContext :=
  contextOf {[ "2026-11-04" := {[ 1%Z := PA ]};
               "2026-11-05" := {[ 1%Z := PA ]} ]}.

(** The director, who takes no shift, and two cooks. *)
Definition encho : Staff := member 7 "Encho" Director no_shift [].
Definition ryo : Staff := member 8 "Ryo" Cook cooking [].
Definition mai : Staff := member 9 "Mai" Cook cooking [].

(** The roster with the director and the kitchen. *)
Definition nursery : list Staff := roster ++ [encho; ryo; mai].

(** The generator of November 2026 for a roster. *)
Definition generatorOf (staff : list Staff) : ShiftGenerator :=
  mkGenerator staff ∅ culture defaults 2026 11 30.

Section Calendar.

(** [lib/utils.ts] and the [Date] built-in. *)
Variable getDaysInMonth : Z -> Z -> nat.
Variable getFormattedDate : Z -> Z -> nat -> string.
Variable getDayOfWeek : Z -> Z -> nat -> nat.
Variable checkIsHoliday : string -> list Holiday -> bool.
(** [dateGetDay y m d] is [new Date(y, m - 1, d).getDay()]. *)
Variable dateGetDay : Z -> Z -> nat -> nat.

(** *** Helper functions *)

Definition getShift (ctx : ConstraintContext) (day : nat) (staffId : Z)
  : ShiftPatternId :=
  let dateStr := getFormattedDate (year ctx) (month ctx) day in
  orEmpty (cellAt (schedule ctx) dateStr staffId).

Definition isHoliday (ctx : ConstraintContext) (day : nat) : bool :=
  let dateStr := getFormattedDate (year ctx) (month ctx) day in
  checkIsHoliday dateStr (holidays ctx).

Definition isSunday (ctx : ConstraintContext) (day : nat) : bool :=
  bool_decide (dateGetDay (year ctx) (month ctx) day = 0).

(** [while (d >= 1) { if (work d) return d; d-- } return 0] *)
Fixpoint scanBack (work : nat -> bool) (d : nat) : nat :=
  match d with
  | 0 => 0
  | S d' => if work d then d else scanBack work d'
  end.

(** [while (d <= last) { if (work d) return d; d++ } return 0], the loop
    running at most [n] times, for the [n] days from [d] to [last]. *)
Fixpoint scanForward (work : nat -> bool) (d n : nat) : nat :=
  match n with
  | 0 => 0
  | S n' => if work d then d else scanForward work (S d) n'
  end.

Definition isWorkDay (ctx : ConstraintContext) (d : nat) : bool :=
  negb (isSunday ctx d) && negb (isHoliday ctx d).

Definition getPreviousWorkDay (ctx : ConstraintContext) (day : nat) : nat :=
  scanBack (isWorkDay ctx) (day - 1).

Definition getNextWorkDay (ctx : ConstraintContext) (day : nat) : nat :=
  let daysInMonth := getDaysInMonth (year ctx) (month ctx) in
  scanForward (isWorkDay ctx) (day + 1) (daysInMonth - day).

(** The days [1 .. daysInMonth] of a [for] loop. *)
Definition monthDays (daysInMonth : nat) : list nat := seq 1 daysInMonth.

Definition countMonthlyPattern (ctx : ConstraintContext) (staffId : Z)
    (pattern : ShiftPatternId) : nat :=
  let daysInMonth := getDaysInMonth (year ctx) (month ctx) in
  length (filter (fun d => getShift ctx d staffId = pattern)
                 (monthDays daysInMonth)).

Definition countEarlyShifts (ctx : ConstraintContext) (staffId : Z) : nat :=
  let daysInMonth := getDaysInMonth (year ctx) (month ctx) in
  length (filter (fun d => getShift ctx d staffId = PA
                           \/ getShift ctx d staffId = PB)
                 (monthDays daysInMonth)).

Definition countDayPattern (ctx : ConstraintContext) (day : nat)
    (pattern : ShiftPatternId) : nat :=
  let dateStr := getFormattedDate (year ctx) (month ctx) day in
  countRow pattern (default ∅ (schedule ctx !! dateStr)).

(** *** Constraint check functions *)

Definition checkJToAViolation (ctx : ConstraintContext) (day : nat)
    (staffId : Z) (shift : ShiftPatternId) : option ConstraintViolation :=
  if decide (shift ≠ PA) then None else
  let prevDay := getPreviousWorkDay ctx day in
  if decide (prevDay = 0) then None else
  let prevShift := getShift ctx prevDay staffId in
  if decide (prevShift = PJ) then Some (mkViolation hard J_TO_A) else None.

Definition checkAToJViolation (ctx : ConstraintContext) (day : nat)
    (staffId : Z) (shift : ShiftPatternId) : option ConstraintViolation :=
  if decide (shift ≠ PJ) then None else
  let nextDay := getNextWorkDay ctx day in
  if decide (nextDay = 0) then None else
  let nextShift := getShift ctx nextDay staffId in
  if decide (nextShift = PA) then Some (mkViolation hard J_TO_A) else None.

Definition consecutiveCode (shift : ShiftPatternId) : ConstraintCode :=
  if decide (shift = PA) then CONSECUTIVE_A else CONSECUTIVE_J.

Definition checkConsecutiveViolation (ctx : ConstraintContext) (day : nat)
    (staffId : Z) (shift : ShiftPatternId) : option ConstraintViolation :=
  if decide (shift ≠ PA /\ shift ≠ PJ) then None else
  let prevDay := getPreviousWorkDay ctx day in
  if decide (0 < prevDay /\ getShift ctx prevDay staffId = shift)
  then Some (mkViolation hard (consecutiveCode shift)) else
  let nextDay := getNextWorkDay ctx day in
  if decide (0 < nextDay /\ getShift ctx nextDay staffId = shift)
  then Some (mkViolation hard (consecutiveCode shift)) else
  None.

Definition checkIncompatibleViolation (ctx : ConstraintContext) (day : nat)
    (staffId : Z) (shift : ShiftPatternId) : option ConstraintViolation :=
  match findStaff (staff ctx) staffId with
  | None => None
  | Some targetStaff =>
      let dateStr := getFormattedDate (year ctx) (month ctx) day in
      if existsb (fun incompatibleId =>
                    bool_decide (cellAt (schedule ctx) dateStr incompatibleId
                                 = Some shift))
                 (incompatibleWith targetStaff)
      then Some (mkViolation hard INCOMPATIBLE)
      else None
  end.

(** The six days [startOfWeek .. startOfWeek + 5] of the week of [day], a
    day of the week [dayOfWeek]; [startOfWeek] may be zero or negative. *)
Definition weekDays (day dayOfWeek : nat) : list Z :=
  let startOfWeek := (Z.of_nat day - (Z.of_nat dayOfWeek - 1))%Z in
  map (fun i => (startOfWeek + Z.of_nat i)%Z) (seq 0 6).

Definition checkWeeklyAJLimitViolation (ctx : ConstraintContext) (day : nat)
    (staffId : Z) (shift : ShiftPatternId) : option ConstraintViolation :=
  if decide (shift ≠ PA /\ shift ≠ PJ) then None else
  let dayOfWeek := dateGetDay (year ctx) (month ctx) day in
  if decide (dayOfWeek = 0) then None else
  let daysInMonth := getDaysInMonth (year ctx) (month ctx) in
  let count :=
    length (filter (fun d : Z =>
                      ¬ (d < 1 \/ d = Z.of_nat day)%Z
                      /\ ¬ (Z.of_nat daysInMonth < d)%Z
                      /\ (getShift ctx (Z.to_nat d) staffId = PA
                          \/ getShift ctx (Z.to_nat d) staffId = PJ))
                   (weekDays day dayOfWeek)) in
  if decide (1 <= count) then Some (mkViolation hard WEEKLY_AJ_LIMIT)
  else None.

Definition checkMinCountViolation (ctx : ConstraintContext) (day : nat)
    (staffId : Z) (_newShift : ShiftPatternId) : option ConstraintViolation :=
  let currentShift := getShift ctx day staffId in
  if decide (currentShift = PA \/ currentShift = PJ) then
    let currentCount := countDayPattern ctx day currentShift in
    if decide (currentCount <= 2)
    then Some (mkViolation hard
                 (if decide (currentShift = PA) then MIN_COUNT_A
                  else MIN_COUNT_J))
    else None
  else None.

Definition checkEarlyLimitViolation (ctx : ConstraintContext) (_day : nat)
    (staffId : Z) (shift : ShiftPatternId) : option ConstraintViolation :=
  if decide (shift ≠ PA /\ shift ≠ PB) then None else
  match findStaff (staff ctx) staffId with
  | None => None
  | Some targetStaff =>
      match earlyShiftLimit targetStaff with
      | None => None
      | Some limit =>
          let currentCount := countEarlyShifts ctx staffId in
          if decide (limit <= Z.of_nat currentCount)%Z
          then Some (mkViolation soft EARLY_LIMIT) else None
      end
  end.

(** [myCount > avg + 1] with [avg = sum / length] is decided on integers,
    as [myCount * length > sum + length]: the two agree on every roster a
    double can count. *)
Definition checkFairnessViolation (ctx : ConstraintContext) (_day : nat)
    (staffId : Z) (shift : ShiftPatternId) : option ConstraintViolation :=
  if decide (shift ≠ PA /\ shift ≠ PJ) then None else
  let regularStaff :=
    filter (fun s => shiftType s = regular) (staff ctx) in
  if decide (length regularStaff = 0) then None else
  let counts := map (fun s => countMonthlyPattern ctx (id s) shift)
                    regularStaff in
  let total := foldl Nat.add 0 counts in
  match findStaff (staff ctx) staffId with
  | None => None
  | Some targetStaff =>
      if decide (shiftType targetStaff ≠ regular) then None else
      let myCount := countMonthlyPattern ctx staffId shift in
      if decide (total + length counts < myCount * length counts)
      then Some (mkViolation soft
                   (if decide (shift = PA) then FAIRNESS_A else FAIRNESS_J))
      else None
  end.

(** *** Main API functions *)

Definition checkConstraints (ctx : ConstraintContext) (day : nat)
    (staffId : Z) (newShift : ShiftPatternId) : list ConstraintViolation :=
  let violations := [] in
  (* Hard constraints *)
  let violations := pushIf (checkJToAViolation ctx day staffId newShift) violations in
  let violations := pushIf (checkAToJViolation ctx day staffId newShift) violations in
  let violations := pushIf (checkConsecutiveViolation ctx day staffId newShift) violations in
  let violations := pushIf (checkIncompatibleViolation ctx day staffId newShift) violations in
  let violations := pushIf (checkWeeklyAJLimitViolation ctx day staffId newShift) violations in
  let violations := pushIf (checkMinCountViolation ctx day staffId newShift) violations in
  (* Soft constraints *)
  let violations := pushIf (checkEarlyLimitViolation ctx day staffId newShift) violations in
  let violations := pushIf (checkFairnessViolation ctx day staffId newShift) violations in
  violations.

(** The comparator of [evaluateCandidates]. *)
Definition candidateOrder (a b : CandidateEvaluation) : Z :=
  if decide (isAssignable a ≠ isAssignable b)
  then (if isAssignable a then -1 else 1)%Z
  else (Z.of_nat (length (violations a))
        - Z.of_nat (length (violations b)))%Z.

Definition isEligible (s : Staff) : Prop :=
  shiftType s = regular \/ shiftType s = backup.

#[global] Instance isEligible_dec s : Decision (isEligible s).
Proof. unfold isEligible. apply _. Defined.

(** One turn of the loop of [evaluateCandidates]: [None] is [continue]. *)
Definition evaluateOne (ctx : ConstraintContext) (day : nat)
    (targetShift : ShiftPatternId) (s : Staff) : option CandidateEvaluation :=
  let currentShift := getShift ctx day (id s) in
  if decide (currentShift = targetShift) then None else
  if decide (currentShift = Yukyu \/ currentShift = Furikyu) then None else
  let violations := checkConstraints ctx day (id s) targetShift in
  let hasHardViolation := hasHard violations in
  Some (mkCandidate (id s) (name s) violations (negb hasHardViolation)
          currentShift).

Definition evaluateCandidates (ctx : ConstraintContext) (day : nat)
    (targetShift : ShiftPatternId) : list CandidateEvaluation :=
  let eligibleStaff := filter isEligible (staff ctx) in
  let candidates := omap (evaluateOne ctx day targetShift) eligibleStaff in
  jsSort candidateOrder candidates.

(** What [evaluateCandidates] records for a staff member it keeps. *)
Definition evaluation (ctx : ConstraintContext) (day : nat)
    (targetShift : ShiftPatternId) (s : Staff) : CandidateEvaluation :=
  mkCandidate (id s) (name s) (checkConstraints ctx day (id s) targetShift)
    (negb (hasHard (checkConstraints ctx day (id s) targetShift)))
    (getShift ctx day (id s)).

(** The staff [evaluateCandidates] keeps: regular or backup, not on the
    target shift, on neither '有' nor '振'. *)
Definition isCandidate (ctx : ConstraintContext) (day : nat)
    (targetShift : ShiftPatternId) (s : Staff) : Prop :=
  isEligible s
  /\ getShift ctx day (id s) ≠ targetShift
  /\ getShift ctx day (id s) ≠ Yukyu
  /\ getShift ctx day (id s) ≠ Furikyu.

#[global] Instance isCandidate_dec ctx day targetShift s :
  Decision (isCandidate ctx day targetShift s).
Proof. unfold isCandidate. apply _. Defined.

(** The number inside the template string of [summary] is written in
    decimal, as [pretty] writes it. *)
Definition getImpactPreview (ctx : ConstraintContext) (day : nat)
    (staffId : Z) (newShift : ShiftPatternId) : ImpactPreview :=
  let violations := checkConstraints ctx day staffId newShift in
  let hardViolations := filter (fun v => vtype v = hard) violations in
  let softViolations := filter (fun v => vtype v = soft) violations in
  let summary :=
    if decide (0 < length hardViolations)
    then "⚠️ " +:+ pretty (length hardViolations) +:+ "件のハード制約違反"
    else if decide (0 < length softViolations)
    then "⚡ " +:+ pretty (length softViolations)
         +:+ "件の推奨違反（変更可能）"
    else "✓ 変更可能" in
  mkPreview violations (bool_decide (length hardViolations = 0)) summary.

Definition createConstraintContext (schedule : ShiftSchedule)
    (staff : list Staff) (holidays : list Holiday) (settings : Settings)
    (year month : Z) : ConstraintContext :=
  mkContext schedule staff holidays settings year month.

(** *** Swap suggestions *)

(** A loop body that may [return] out of the enclosing function. *)
Inductive Loop (A : Type) : Type :=
| Continue (a : A)
| Return (a : A).
Arguments Continue {A} a.
Arguments Return {A} a.

(** [x || '休'] inside the description. *)
Definition orKokyu (p : ShiftPatternId) : ShiftPatternId :=
  if decide (p = NoShift) then Kokyu else p.

Definition swapDescription (candidateA candidateB : Staff)
    (currentShiftA currentShiftB : ShiftPatternId) : string :=
  name candidateA +:+ "(" +:+ shiftText currentShiftA +:+ ") ⇄ "
  +:+ name candidateB +:+ "(" +:+ shiftText (orKokyu currentShiftB) +:+ ")".

Definition swapBenefit (shortagePattern : ShiftPatternId) : string :=
  shiftText shortagePattern +:+ "枠が確保されます".

(** The inner loop of [findSwapSuggestions], over [candidateB]. *)
Fixpoint swapInner (ctx : ConstraintContext) (day : nat)
    (shortagePattern : ShiftPatternId) (candidateA : Staff)
    (currentShiftA : ShiftPatternId) (bs : list Staff)
    (suggestions : list SwapSuggestion) : Loop (list SwapSuggestion) :=
  match bs with
  | [] => Continue suggestions
  | candidateB :: bs' =>
      let next := swapInner ctx day shortagePattern candidateA currentShiftA
                    bs' in
      if decide (id candidateA = id candidateB) then next suggestions else
      let dateStr := getFormattedDate (year ctx) (month ctx) day in
      let currentShiftB :=
        orEmpty (cellAt (schedule ctx) dateStr (id candidateB)) in
      if decide (currentShiftB = Yukyu \/ currentShiftB = Furikyu
                 \/ currentShiftB = currentShiftA)
      then next suggestions else
      let violationsB :=
        checkConstraints ctx day (id candidateB) currentShiftA in
      let canTakeAShift := negb (hasHard violationsB) in
      if negb canTakeAShift then next suggestions else
      let suggestions :=
        suggestions ++
        [ mkSwap (mkParty (id candidateA) (name candidateA) currentShiftA)
                 (mkParty (id candidateB) (name candidateB) currentShiftB)
                 (swapDescription candidateA candidateB
                    currentShiftA currentShiftB)
                 (swapBenefit shortagePattern) ] in
      if decide (3 <= length suggestions) then Return suggestions
      else next suggestions
  end.

(** The outer loop, over [candidateA]. *)
Fixpoint swapOuter (ctx : ConstraintContext) (day : nat)
    (shortagePattern : ShiftPatternId) (regularStaff azs : list Staff)
    (suggestions : list SwapSuggestion) : list SwapSuggestion :=
  match azs with
  | [] => suggestions
  | candidateA :: azs' =>
      let next := swapOuter ctx day shortagePattern regularStaff azs' in
      let dateStr := getFormattedDate (year ctx) (month ctx) day in
      let currentShiftA :=
        orEmpty (cellAt (schedule ctx) dateStr (id candidateA)) in
      if decide (currentShiftA = shortagePattern \/ currentShiftA = Yukyu
                 \/ currentShiftA = Furikyu \/ currentShiftA = Kokyu
                 \/ currentShiftA = NoShift)
      then next suggestions else
      let violationsA :=
        checkConstraints ctx day (id candidateA) shortagePattern in
      let canTakeShortage := negb (hasHard violationsA) in
      if negb canTakeShortage then next suggestions else
      match swapInner ctx day shortagePattern candidateA currentShiftA
              regularStaff suggestions with
      | Return suggestions => suggestions
      | Continue suggestions => next suggestions
      end
  end.

Definition findSwapSuggestions (ctx : ConstraintContext) (day : nat)
    (shortagePattern : ShiftPatternId) : list SwapSuggestion :=
  let regularStaff := filter isEligible (staff ctx) in
  swapOuter ctx day shortagePattern regularStaff regularStaff [].

Record Shortage : Set := mkShortage {
  pattern : ShiftPatternId;
  current : nat;
  required : nat
}.

Definition findShortages (ctx : ConstraintContext) (day : nat)
  : list Shortage :=
  let dateStr := getFormattedDate (year ctx) (month ctx) day in
  let minCounts := [ (PA, 2); (PJ, 2) ] in
  omap (fun '(pattern, min) =>
          let count :=
            countRow pattern (default ∅ (schedule ctx !! dateStr)) in
          if decide (count < min) then Some (mkShortage pattern count min)
          else None)
       minCounts.

(** ** The schedule editor ([App.tsx])

    A handler of the [App] component reads the state of the component
    ([schedule], [staff], [holidays], [settings], the month shown,
    [editingCell]), which is passed to it here, and hands a new schedule to
    [setSchedule], which is what it returns here; [None] is its early
    [return].  Toasts and storage are not modelled. *)

(** [handleShiftUpdate], with the violations it chooses its toast from. *)
Definition handleShiftUpdate (editingCell : option (Z * nat))
    (schedule : ShiftSchedule) (staff : list Staff) (holidays : list Holiday)
    (settings : Settings) (year month : Z) (shiftId : ShiftPatternId)
  : option (ShiftSchedule * list ConstraintViolation) :=
  match editingCell with
  | None => None
  | Some (staffId, day) =>
      let dateStr := getFormattedDate year month day in
      let newSchedule := putCell schedule dateStr staffId shiftId in
      let ctx :=
        createConstraintContext newSchedule staff holidays settings year
          month in
      let violations := checkConstraints ctx day staffId shiftId in
      Some (newSchedule, violations)
  end.

(** [handleSelectStaff]: the shift goes to [targetStaffId]. *)
Definition handleSelectStaff (editingCell : option (Z * nat))
    (schedule : ShiftSchedule) (staff : list Staff) (holidays : list Holiday)
    (settings : Settings) (year month : Z) (targetStaffId : Z)
    (shiftId : ShiftPatternId)
  : option (ShiftSchedule * list ConstraintViolation) :=
  match editingCell with
  | None => None
  | Some (_, day) =>
      let dateStr := getFormattedDate year month day in
      let newSchedule := putCell schedule dateStr targetStaffId shiftId in
      let ctx :=
        createConstraintContext newSchedule staff holidays settings year
          month in
      let violations := checkConstraints ctx day targetStaffId shiftId in
      Some (newSchedule, violations)
  end.

(** [handleSwap], which the swap suggestions are applied with. *)
Definition handleSwap (editingCell : option (Z * nat))
    (schedule : ShiftSchedule) (year month : Z) (staffAId staffBId : Z)
  : option ShiftSchedule :=
  match editingCell with
  | None => None
  | Some (_, day) =>
      let dateStr := getFormattedDate year month day in
      let shiftA := orEmpty (cellAt schedule dateStr staffAId) in
      let shiftB := orEmpty (cellAt schedule dateStr staffBId) in
      let newSchedule := putCell schedule dateStr staffAId shiftB in
      let newSchedule := putCell newSchedule dateStr staffBId shiftA in
      Some newSchedule
  end.

(** The body of [staff.forEach] in [handleReset]. *)
Definition resetCell (dateStr : string) (newSchedule : ShiftSchedule)
    (s : Staff) : ShiftSchedule :=
  let currentShift := cellAt newSchedule dateStr (id s) in
  if negb (truthy currentShift) then newSchedule else
  if decide (shiftType s = part_time) then newSchedule
  else if decide (shiftType s = regular \/ position s = Chief) then
    if decide (currentShift = Some Yukyu) then newSchedule
    else putCell newSchedule dateStr (id s) NoShift
  else putCell newSchedule dateStr (id s) NoShift.

(** [handleReset]; [confirmed] is the answer to [window.confirm]. *)
Definition handleReset (confirmed : bool) (schedule : ShiftSchedule)
    (staff : list Staff) (year month : Z) : option ShiftSchedule :=
  if negb confirmed then None else
  let daysInMonth := getDaysInMonth year month in
  Some (foldl (fun newSchedule d =>
                 let dateStr := getFormattedDate year month d in
                 if decide (newSchedule !! dateStr = None) then newSchedule
                 else foldl (resetCell dateStr) newSchedule staff)
              schedule (monthDays daysInMonth)).

(** ** The staff editor ([components/StaffList.tsx])

    The two handlers that change which ids the roster holds.  Each hands a
    new roster to [onUpdate], which is what it returns here.  The third,
    [handleSave], replaces the member under edit by the form, which keeps
    the id the member had: no field of the form edits it. *)

(** [handleAdd]: the new member gets the id after the largest one in the
    roster, or 1 when there is none above 0. *)
Definition handleAdd (staff : list Staff) : list Staff :=
  let newId := (foldr Z.max 0 (id <$> staff) + 1)%Z in
  let newStaffMember :=
    mkStaff newId "新規職員" Caregiver regular [] 5 (Some infant) [] None
      false true None in
  staff ++ [newStaffMember].

(** [handleDelete]; [confirmed] is the answer to [confirm]. *)
Definition handleDelete (confirmed : bool) (staffId : Z)
    (staff : list Staff) : option (list Staff) :=
  if negb confirmed then None else
  Some (List.filter (fun s => negb (bool_decide (id s = staffId))) staff).

(** ** The shift generator *)

(** The order in which the engine leaves a list sorted with a comparator
    that draws from [Math.random]: a reordering of the list that the program
    does not determine.  Nothing is assumed about it. *)
Variable randomSort : RandomSite -> list Staff -> list Staff.

(** [existingShift ?? ''] *)
Definition orEmptyNullish (c : option ShiftPatternId) : ShiftPatternId :=
  default NoShift c.

(** The cell the constructor writes for [s]. *)
Definition seedCell (s : Staff) (existingShift : option ShiftPatternId)
  : ShiftPatternId :=
  if decide (shiftType s = part_time) then orEmptyNullish existingShift
  else if decide (existingShift = Some Yukyu \/ existingShift = Some Furikyu)
       then orEmptyNullish existingShift
       else NoShift.

Definition constructor (staff : list Staff) (holidays : list Holiday)
    (year month : Z) (settings : Settings) (currentSchedule : ShiftSchedule)
    (timeRangeSchedule : TimeRangeSchedule)
  : ShiftGenerator * ShiftSchedule :=
  let daysInMonth := getDaysInMonth year month in
  let sch :=
    foldl (fun sch d =>
             let dateStr := getFormattedDate year month d in
             let sch := <[dateStr := ∅]> sch in
             foldl (fun sch s =>
                      let existingShift :=
                        cellAt currentSchedule dateStr (id s) in
                      putCell sch dateStr (id s) (seedCell s existingShift))
                   sch staff)
          ∅ (monthDays daysInMonth) in
  (mkGenerator staff timeRangeSchedule holidays settings year month
     daysInMonth, sch).

Section Methods.

Variable this : ShiftGenerator.

Definition dateOf (day : nat) : string :=
  getFormattedDate (this_year this) (this_month this) day.

(** [timeRange?.countAsShifts?.includes(pattern)] *)
Definition creditedTo (timeRange : option TimeRange)
    (pattern : ShiftPatternId) : bool :=
  match timeRange with
  | Some tr =>
      match countAsShifts tr with
      | Some l => bool_decide (pattern ∈ l)
      | None => false
      end
  | None => false
  end.

(** [countEffectiveShift] of [lib/shiftCountUtils.ts]. *)
Definition countEffectiveShift (staff : list Staff) (sch : ShiftSchedule)
    (timeRangeSchedule : TimeRangeSchedule) (dateStr : string)
    (pattern : ShiftPatternId) (qualifiedOnly : bool) : nat :=
  length (List.filter (fun s =>
    if decide (shiftType s = part_time) then
      if qualifiedOnly && negb (hasQualification s) then false
      else creditedTo (timeRangeSchedule !! dateStr ≫= (.!! id s)) pattern
    else
      if qualifiedOnly && negb (hasQualification s) then false
      else bool_decide (cellAt sch dateStr (id s) = Some pattern)) staff).

(** [countQualifiedPartTimers] of [lib/shiftCountUtils.ts]. *)
Definition countQualifiedPartTimers (staff : list Staff)
    (timeRangeSchedule : TimeRangeSchedule) (dateStr : string)
    (pattern : ShiftPatternId) : nat :=
  length (List.filter (fun s =>
    if decide (shiftType s ≠ part_time \/ hasQualification s = false)
    then false
    else creditedTo (timeRangeSchedule !! dateStr ≫= (.!! id s)) pattern)
    staff).

Definition countQualifiedPartTimersForShift (day : nat)
    (shiftPattern : ShiftPatternId) : nat :=
  countQualifiedPartTimers (this_staff this) (this_timeRangeSchedule this)
    (dateOf day) shiftPattern.

Definition hasIncompatibleConflict (sch : ShiftSchedule) (day : nat)
    (staffId : Z) (shift : ShiftPatternId) : bool :=
  match findStaff (this_staff this) staffId with
  | None => false
  | Some staff =>
      existsb (fun incompatibleId =>
                 bool_decide (cellAt sch (dateOf day) incompatibleId
                              = Some shift))
              (incompatibleWith staff)
  end.

Definition gen_getShift (sch : ShiftSchedule) (day : nat) (staffId : Z)
  : ShiftPatternId :=
  orEmpty (cellAt sch (dateOf day) staffId).

Definition isEarlyShiftLimitExceeded (sch : ShiftSchedule) (staffId : Z)
  : bool :=
  match findStaff (this_staff this) staffId with
  | None => false
  | Some staff =>
      match earlyShiftLimit staff with
      | None => false
      | Some limit =>
          let count :=
            length (filter (fun d => gen_getShift sch d staffId = PA
                                     \/ gen_getShift sch d staffId = PB)
                           (monthDays (this_daysInMonth this))) in
          bool_decide (limit <= Z.of_nat count)%Z
      end
  end.

Definition gen_isHoliday (day : nat) : bool :=
  let dateStr := dateOf day in
  let dow := getDayOfWeek (this_year this) (this_month this) day in
  bool_decide (dow = 0) || checkIsHoliday dateStr (this_holidays this).

Definition isSaturday (day : nat) : bool :=
  let dow := getDayOfWeek (this_year this) (this_month this) day in
  bool_decide (dow = 6) && negb (gen_isHoliday day).

Definition gen_getPreviousWorkDay (day : nat) : nat :=
  scanBack (fun d => negb (gen_isHoliday d)) (day - 1).

Definition checkConsecutiveShiftViolation (sch : ShiftSchedule) (day : nat)
    (staffId : Z) (shift : ShiftPatternId) : bool :=
  let prevDay := gen_getPreviousWorkDay day in
  if decide (prevDay = 0) then false else
  let prevShift := gen_getShift sch prevDay staffId in
  if decide (shift = PA /\ prevShift = PA) then true else
  if decide (shift = PJ /\ prevShift = PJ) then true else
  false.

(** [if (!sch[dateStr]) sch[dateStr] = {}] *)
Definition ensureRow (sch : ShiftSchedule) (dateStr : string)
  : ShiftSchedule :=
  if decide (sch !! dateStr = None) then <[dateStr := ∅]> sch else sch.

Definition setShift (day : nat) (staffId : Z) (shift : ShiftPatternId)
    (sch : ShiftSchedule) : ShiftSchedule :=
  let dateStr := dateOf day in
  let sch := ensureRow sch dateStr in
  let current := cellAt sch dateStr staffId in
  (* never overwrite '有' or '振' *)
  if decide (current = Some Yukyu \/ current = Some Furikyu) then sch else
  (* do not overwrite a part-timer's manual shift (except empty or 休) *)
  let staff := findStaff (this_staff this) staffId in
  if decide ((shiftType <$> staff) = Some part_time
             /\ current ≠ Some NoShift /\ current ≠ Some Kokyu)
  then sch
  else putCell sch dateStr staffId shift.

(** A cell that counts as working: [shift && shift !== '休' && shift !==
    '振' && shift !== '有']. *)
Definition isWorking (c : option ShiftPatternId) : bool :=
  truthy c && bool_decide (c ≠ Some Kokyu) && bool_decide (c ≠ Some Furikyu)
  && bool_decide (c ≠ Some Yukyu).

Definition countWorkingStaff (sch : ShiftSchedule) (day : nat) : nat :=
  let dateStr := dateOf day in
  length (List.filter (fun s =>
    if decide (shiftType s = cooking \/ position s = Director) then false
    else isWorking (cellAt sch dateStr (id s))) (this_staff this)).

Definition countPattern (sch : ShiftSchedule) (day : nat)
    (pattern : ShiftPatternId) : nat :=
  countEffectiveShift (this_staff this) sch (this_timeRangeSchedule this)
    (dateOf day) pattern true.

Definition countTotalShifts (sch : ShiftSchedule) (staffId : Z)
    (pattern : ShiftPatternId) : nat :=
  length (filter (fun d => gen_getShift sch d staffId = pattern)
                 (monthDays (this_daysInMonth this))).

(** The days [startOfWeek .. day - 1] of the loop of
    [hasWeeklyAJLimitConflict]. *)
Definition weekSoFar (day dayOfWeek : nat) : list Z :=
  let startOfWeek := (Z.of_nat day - (Z.of_nat dayOfWeek - 1))%Z in
  map (fun i => (startOfWeek + Z.of_nat i)%Z) (seq 0 (dayOfWeek - 1)).

Definition hasWeeklyAJLimitConflict (sch : ShiftSchedule) (day : nat)
    (staffId : Z) : bool :=
  let dayOfWeek := dateGetDay (this_year this) (this_month this) day in
  if decide (dayOfWeek = 0) then false else
  let count :=
    length (filter (fun d : Z =>
                      ¬ (d < 1)%Z
                      /\ (gen_getShift sch (Z.to_nat d) staffId = PA
                          \/ gen_getShift sch (Z.to_nat d) staffId = PJ))
                   (weekSoFar day dayOfWeek)) in
  bool_decide (1 <= count).

(** *** Phases 1 to 3 *)

(** [staff.find(s => s.position === p)] *)
Definition findPosition (p : StaffPosition) : option Staff :=
  List.find (fun s => bool_decide (position s = p)) (this_staff this).

Definition phase1_Director (sch : ShiftSchedule) : ShiftSchedule :=
  match findPosition Director with
  | None => sch
  | Some director =>
      foldl (fun sch d => setShift d (id director) Kokyu sch)
            sch (monthDays (this_daysInMonth this))
  end.

Definition phase2_Chief (sch : ShiftSchedule) : ShiftSchedule :=
  match findPosition Chief with
  | None => sch
  | Some chief => sch
  end.

(** [l.forEach((x, idx) => ...)]: the elements with their indices. *)
Definition indexed {A : Type} (l : list A) : list (nat * A) :=
  zip (seq 0 (length l)) l.

Definition phase2_5_Cooking (sch : ShiftSchedule) : ShiftSchedule :=
  let cooks :=
    List.filter (fun s => bool_decide (shiftType s = cooking))
                (this_staff this) in
  if decide (length cooks = 0) then sch else
  fst (foldl (fun '(sch, saturdayIndex) d =>
    if gen_isHoliday d then
      (foldl (fun sch c => setShift d (id c) Kokyu sch) sch cooks,
       saturdayIndex)
    else if isSaturday d then
      let workingCookIndex := saturdayIndex mod length cooks in
      (foldl (fun sch '(idx, c) =>
                if decide (idx = workingCookIndex)
                then setShift d (id c) PB sch
                else setShift d (id c) Kokyu sch)
             sch (indexed cooks),
       saturdayIndex + 1)
    else
      (foldl (fun sch c => setShift d (id c) PB sch) sch cooks,
       saturdayIndex))
    (sch, 0) (monthDays (this_daysInMonth this))).

(** The search of phase 3 for the weekday of the compensatory day off:
    [offsets] are the values of [offset] still to visit; [bestDay] is
    [None] for [-1]. *)
Fixpoint bestOffDay (sch : ShiftSchedule) (day : nat) (staffId : Z)
    (offsets : list nat) (bestDay : option nat) (minOffCount : nat)
  : option nat :=
  match offsets with
  | [] => bestDay
  | offset :: offsets' =>
      let next := bestOffDay sch day staffId offsets' in
      let targetDay := day - offset in
      if decide (day <= offset) then next bestDay minOffCount else
      if gen_isHoliday targetDay then next bestDay minOffCount else
      let currentShift := gen_getShift sch targetDay staffId in
      if decide (currentShift ≠ NoShift /\ currentShift ≠ Kokyu)
      then next bestDay minOffCount else
      let transferCount := countPattern sch targetDay Furikyu in
      let paidLeaveCount := countPattern sch targetDay Yukyu in
      let totalOffCount := transferCount + paidLeaveCount in
      if decide (totalOffCount < minOffCount)
      then next (Some targetDay) totalOffCount
      else next bestDay minOffCount
  end.

(** [satCounts[id]], every staff id being a key of [satCounts]. *)
Definition satCount (satCounts : gmap Z nat) (staffId : Z) : nat :=
  default 0 (satCounts !! staffId).

(** The body of [saturdays.forEach] in phase 3. *)
Definition saturdayStep (qualifiedRegulars : list Staff)
    (st : ShiftSchedule * gmap Z nat) (day : nat)
  : ShiftSchedule * gmap Z nat :=
  let '(sch, satCounts) := st in
  (* 1. part-timers with a manual entry *)
  let partTimeCount :=
    length (List.filter (fun s =>
      bool_decide (shiftType s = part_time)
      && isWorking (Some (gen_getShift sch day (id s)))) (this_staff this)) in
  (* 2. how many regulars are needed *)
  let targetRegularCount := 3 - partTimeCount in
  (* 3. shuffle, then sort by Saturday count *)
  let candidates :=
    jsSort (fun a b => (Z.of_nat (satCount satCounts (id a))
                        - Z.of_nat (satCount satCounts (id b)))%Z)
           (randomSort (SaturdayShuffle day) qualifiedRegulars) in
  let selected := take targetRegularCount candidates in
  let saturdayPattern := saturdayShiftPattern (this_settings this) in
  let '(sch, satCounts) :=
    foldl (fun '(sch, satCounts) s =>
      let sch := setShift day (id s) saturdayPattern sch in
      let satCounts :=
        <[id s := satCount satCounts (id s) + 1]> satCounts in
      let bestDay :=
        bestOffDay sch day (id s) [5; 4; 3; 2; 1] None 999 in
      match bestDay with
      | Some bestDay => (setShift bestDay (id s) Furikyu sch, satCounts)
      | None => (sch, satCounts)
      end) (sch, satCounts) selected in
  (* day off for the others *)
  let sch :=
    foldl (fun sch s =>
      if decide (position s = Director \/ shiftType s = cooking
                 \/ shiftType s = part_time) then sch
      else match List.find (fun sel => bool_decide (id sel = id s))
                   selected with
           | Some _ => sch
           | None => setShift day (id s) Kokyu sch
           end) sch (this_staff this) in
  (sch, satCounts).

Definition phase3_Saturday (sch : ShiftSchedule) : ShiftSchedule :=
  let saturdays :=
    List.filter isSaturday (monthDays (this_daysInMonth this)) in
  let qualifiedRegulars :=
    List.filter (fun s => hasQualification s
                          && bool_decide (shiftType s = regular)
                          && bool_decide (position s ≠ Director))
                (this_staff this) in
  let satCounts : gmap Z nat :=
    foldl (fun satCounts s => <[id s := 0]> satCounts) ∅ (this_staff this) in
  fst (foldl (saturdayStep qualifiedRegulars) (sch, satCounts) saturdays).

(** *** Phase 4: regular staff on weekdays *)

(** [for (const x of l) { st = f(st, x) }] where [f] may raise. *)
Fixpoint forEachO {A S : Type} (f : S -> A -> Outcome S) (st : S)
    (l : list A) : Outcome S :=
  match l with
  | [] => Done st
  | x :: l' => st' ← f st x; forEachO f st' l'
  end.

(** The checks a candidate for [pattern] on day [d] must pass, in phases 4,
    6 and 7; the weekly limit is checked only when [checkWeekly]. *)
Definition candidateBlocked (sch : ShiftSchedule) (d : nat) (s : Staff)
    (pattern : ShiftPatternId) (checkWeekly : bool) : bool :=
  (bool_decide (pattern = PA)
   && (isEarlyShiftLimitExceeded sch (id s)
       || checkConsecutiveShiftViolation sch d (id s) PA
       || (checkWeekly && hasWeeklyAJLimitConflict sch d (id s))
       || (let prevDay := gen_getPreviousWorkDay d in
           bool_decide (0 < prevDay)
           && bool_decide (gen_getShift sch prevDay (id s) = PJ))))
  || (bool_decide (pattern = PJ)
      && (checkConsecutiveShiftViolation sch d (id s) PJ
          || (checkWeekly && hasWeeklyAJLimitConflict sch d (id s))))
  || hasIncompatibleConflict sch d (id s) pattern.

(** [regulars.filter(s => !isAssigned(s.id))], where [isAssigned] reads
    [this.schedule[dateStr][id]] and so raises on a missing row as soon as
    it is called once. *)
Definition notAssigned (sch : ShiftSchedule) (dateStr : string)
    (assignedIds : gset Z) (regulars : list Staff) : Outcome (list Staff) :=
  match regulars with
  | [] => Done []
  | _ =>
      match sch !! dateStr with
      | None => Throws
      | Some row =>
          Done (List.filter
                  (fun s => negb (bool_decide (row !! id s ≠ Some NoShift)
                                  || bool_decide (id s ∈ assignedIds)))
                  regulars)
      end
  end.

Definition countExistingPattern (sch : ShiftSchedule) (dateStr : string)
    (pattern : ShiftPatternId) : nat :=
  length (List.filter
            (fun s => bool_decide (cellAt sch dateStr (id s) = Some pattern))
            (this_staff this)).

(** [candidates.sort(sortFn || defaultSort)]: [defaultSort] breaks ties
    with [Math.random]. *)
Definition sortCandidates
    (sortFn : option (ShiftSchedule -> Staff -> Staff -> Z))
    (site : RandomSite) (sch : ShiftSchedule) (candidates : list Staff)
  : list Staff :=
  match sortFn with
  | Some cmp => jsSort (cmp sch) candidates
  | None => randomSort site candidates
  end.

(** The loop of [assignPattern] over the sorted candidates. *)
Fixpoint assignLoop (d : nat) (pattern : ShiftPatternId) (neededCount : nat)
    (checkWeekly : bool) (candidates : list Staff) (sch : ShiftSchedule)
    (assignedIds : gset Z) (count : nat)
  : ShiftSchedule * gset Z * nat :=
  match candidates with
  | [] => (sch, assignedIds, count)
  | s :: candidates' =>
      if decide (neededCount <= count) then (sch, assignedIds, count) else
      if candidateBlocked sch d s pattern checkWeekly
      then assignLoop d pattern neededCount checkWeekly candidates' sch
             assignedIds count
      else assignLoop d pattern neededCount checkWeekly candidates'
             (setShift d (id s) pattern sch) ({[ id s ]} ∪ assignedIds)
             (count + 1)
  end.

(** [assignPattern] of phase 4.  Its second loop is its first without the
    weekly limit. *)
Definition assignPattern (regulars : list Staff) (d : nat)
    (pattern : ShiftPatternId) (targetCount : nat) (relaxConstraints : bool)
    (sortFn : option (ShiftSchedule -> Staff -> Staff -> Z))
    (st : ShiftSchedule * gset Z) : Outcome (ShiftSchedule * gset Z) :=
  let '(sch, assignedIds) := st in
  let dateStr := dateOf d in
  let existingCount := countExistingPattern sch dateStr pattern in
  let neededCount := targetCount - existingCount in
  if decide (neededCount = 0) then Done (sch, assignedIds) else
  candidates ← notAssigned sch dateStr assignedIds regulars;
  let candidates :=
    sortCandidates sortFn (DefaultSort d pattern false) sch candidates in
  let '(sch, assignedIds, count) :=
    assignLoop d pattern neededCount (negb relaxConstraints) candidates
      sch assignedIds 0 in
  if bool_decide (count < neededCount) && negb relaxConstraints then
    moreCandidates ← notAssigned sch dateStr assignedIds regulars;
    let moreCandidates :=
      sortCandidates sortFn (DefaultSort d pattern true) sch
        moreCandidates in
    let '(sch, assignedIds, _) :=
      assignLoop d pattern neededCount false moreCandidates
        sch assignedIds count in
    Done (sch, assignedIds)
  else Done (sch, assignedIds).

(** [countTotalShifts] of 'A', 'B' and 'J' together. *)
Definition countABJ (sch : ShiftSchedule) (staffId : Z) : nat :=
  countTotalShifts sch staffId PA + countTotalShifts sch staffId PB
  + countTotalShifts sch staffId PJ.

Definition sortByBurden (sch : ShiftSchedule) (a b : Staff) : Z :=
  (Z.of_nat (countABJ sch (id a)) - Z.of_nat (countABJ sch (id b)))%Z.

Definition sortByPatternCount (pattern : ShiftPatternId)
    (sch : ShiftSchedule) (a b : Staff) : Z :=
  let diff := (Z.of_nat (countTotalShifts sch (id a) pattern)
               - Z.of_nat (countTotalShifts sch (id b) pattern))%Z in
  if decide (diff ≠ 0%Z) then diff else sortByBurden sch a b.

(** The shift of a staff member who fills up the day: 'B', or 'C' past the
    limit of early shifts, moved one band on by an incompatibility. *)
Definition fallbackShift (sch : ShiftSchedule) (d : nat) (s : Staff)
  : ShiftPatternId :=
  let shift := if isEarlyShiftLimitExceeded sch (id s) then PC else PB in
  if hasIncompatibleConflict sch d (id s) shift then
    if decide (shift = PB) then PC
    else if decide (shift = PC) then PD
    else if decide (shift = PD) then PE
    else shift
  else shift.

(** The body of the loop of phase 4 for one weekday [d]. *)
Definition regularWeekday (regulars : list Staff) (sch : ShiftSchedule)
    (d : nat) : Outcome ShiftSchedule :=
  if gen_isHoliday d || isSaturday d then Done sch else
  let dateStr := dateOf d in
  let assignedIds : gset Z := ∅ in
  let dayOfWeek := dateGetDay (this_year this) (this_month this) d in
  let qualifiedPartTimersOnA := countQualifiedPartTimersForShift d PA in
  let qualifiedPartTimersOnJ := countQualifiedPartTimersForShift d PJ in
  let neededA := 2 - qualifiedPartTimersOnA in
  let neededJ := 2 - qualifiedPartTimersOnJ in
  let assign := assignPattern regulars d in
  st ← (if bool_decide (1 <= dayOfWeek) && bool_decide (dayOfWeek <= 3) then
          st ← assign PA neededA false (Some (sortByPatternCount PA))
                 (sch, assignedIds);
          assign PJ neededJ false (Some (sortByPatternCount PJ)) st
        else
          st ← assign PJ neededJ false (Some (sortByPatternCount PJ))
                 (sch, assignedIds);
          assign PA neededA false (Some (sortByPatternCount PA)) st);
  st ← assign PD 1 false None st;
  st ← assign PE 1 false None st;
  st ← assign PC 1 false None st;
  let '(sch, assignedIds) := st in
  remaining ← notAssigned sch dateStr assignedIds regulars;
  let remaining := jsSort (sortByBurden sch) remaining in
  Done (foldl (fun sch s => setShift d (id s) (fallbackShift sch d s) sch)
              sch remaining).

Definition phase4_RegularWeekday (sch : ShiftSchedule)
  : Outcome ShiftSchedule :=
  let regulars :=
    List.filter (fun s => bool_decide (shiftType s = regular))
                (this_staff this) in
  forEachO (regularWeekday regulars) sch (monthDays (this_daysInMonth this)).

(** *** Phases 4.5 and 5 *)

Definition isLateShift (shift : ShiftPatternId) : bool :=
  bool_decide (shift ∈ [PD; PE; PJ]).

(** [staff.find] of a member of role [r] on 'B' or 'C' who may move to
    'D'. *)
Definition lateCandidate (sch : ShiftSchedule) (d : nat) (r : StaffRole)
  : option Staff :=
  List.find (fun s =>
               bool_decide (role s = Some r)
               && bool_decide (gen_getShift sch d (id s) ∈ [PB; PC])
               && negb (hasIncompatibleConflict sch d (id s) PD))
            (this_staff this).

Definition lateShiftDay (sch : ShiftSchedule) (d : nat) : ShiftSchedule :=
  if gen_isHoliday d || isSaturday d then sch else
  let onLate (r : StaffRole) :=
    existsb (fun s => isLateShift (gen_getShift sch d (id s))
                      && bool_decide (role s = Some r)) (this_staff this) in
  let hasInfant := onLate infant in
  let hasToddler := onLate toddler in
  let sch :=
    if negb hasInfant then
      match lateCandidate sch d infant with
      | Some candidate => setShift d (id candidate) PD sch
      | None => sch
      end
    else sch in
  if negb hasToddler then
    match lateCandidate sch d toddler with
    | Some candidate => setShift d (id candidate) PD sch
    | None => sch
    end
  else sch.

Definition phase4_5_LateShiftCoverage (sch : ShiftSchedule)
  : ShiftSchedule :=
  foldl lateShiftDay sch (monthDays (this_daysInMonth this)).

Definition phase5_PartTime (sch : ShiftSchedule) : ShiftSchedule := sch.

(** *** Phase 6: minimum count adjustment *)

(** The loop of phase 6 that pulls [candidates] into [pattern]. *)
Fixpoint pullLoop (d : nat) (pattern : ShiftPatternId) (minCount : nat)
    (candidates : list Staff) (sch : ShiftSchedule) (currentCount : nat)
  : ShiftSchedule :=
  match candidates with
  | [] => sch
  | s :: candidates' =>
      if decide (minCount <= currentCount) then sch else
      if candidateBlocked sch d s pattern false
      then pullLoop d pattern minCount candidates' sch currentCount
      else pullLoop d pattern minCount candidates'
             (setShift d (id s) pattern sch) (currentCount + 1)
  end.

Definition patternMinimum (d : nat) (sch : ShiftSchedule)
    (pattern : ShiftPatternDefinition) : ShiftSchedule :=
  let currentCount := countPattern sch d (pat_id pattern) in
  if decide (currentCount < minCount pattern) then
    let candidates :=
      List.filter (fun s =>
        let shift := gen_getShift sch d (id s) in
        bool_decide (shift ≠ NoShift) && bool_decide (shift ≠ Kokyu)
        && bool_decide (shift ≠ Furikyu) && bool_decide (shift ≠ Yukyu)
        && bool_decide (shift ≠ pat_id pattern)
        && bool_decide (shiftType s ≠ cooking)
        && bool_decide (shiftType s ≠ part_time)
        && bool_decide (position s ≠ Director)) (this_staff this) in
    let candidates :=
      jsSort (fun a b =>
                (Z.of_nat (countTotalShifts sch (id a) (pat_id pattern))
                 - Z.of_nat (countTotalShifts sch (id b) (pat_id pattern)))%Z)
             candidates in
    pullLoop d (pat_id pattern) (minCount pattern) candidates sch currentCount
  else sch.

(** The staff the [while (true)] of phase 6 may still pull in. *)
Definition availableStaff (sch : ShiftSchedule) (d : nat) : list Staff :=
  List.filter (fun s =>
    bool_decide (gen_getShift sch d (id s) = NoShift)
    && bool_decide (shiftType s ≠ cooking)
    && bool_decide (shiftType s ≠ part_time)
    && bool_decide (position s ≠ Director)) (this_staff this).

(** The shift of the staff member the [while (true)] pulls in. *)
Definition topUpShift (sch : ShiftSchedule) (d : nat) (candidate : Staff)
  : ShiftPatternId :=
  let shift :=
    if isEarlyShiftLimitExceeded sch (id candidate) then PC else PB in
  if hasIncompatibleConflict sch d (id candidate) shift then
    if decide (shift = PB) then PC
    else if decide (shift = PC) then PD
    else shift
  else shift.

(** The [while (true)] of phase 6, allotted [fuel] turns. *)
Fixpoint totalTopUp (fuel : nat) (d : nat) (sch : ShiftSchedule)
  : Outcome ShiftSchedule :=
  match fuel with
  | 0 => OutOfFuel
  | S fuel' =>
      let totalWorking := countWorkingStaff sch d in
      if decide (8 <= totalWorking) then Done sch else
      let available := availableStaff sch d in
      if decide (length available = 0) then Done sch else
      let available := jsSort (sortByBurden sch) available in
      match available with
      | [] => Throws  (* [candidate] is [undefined] *)
      | candidate :: _ =>
          totalTopUp fuel' d
            (setShift d (id candidate) (topUpShift sch d candidate) sch)
      end
  end.

Definition minCountDay (fuel : nat) (sch : ShiftSchedule) (d : nat)
  : Outcome ShiftSchedule :=
  if gen_isHoliday d || isSaturday d then Done sch else
  let sch := foldl (patternMinimum d) sch SHIFT_PATTERNS in
  totalTopUp fuel d sch.

Definition phase6_MinCountAdjustment (fuel : nat) (sch : ShiftSchedule)
  : Outcome ShiftSchedule :=
  forEachO (minCountDay fuel) sch (monthDays (this_daysInMonth this)).

(** *** Phase 7: the chief as backup *)

Definition tryReassignBStaff (d : nat) (pattern : ShiftPatternId)
    (minCount : nat) (sch : ShiftSchedule) : Outcome (bool * ShiftSchedule) :=
  let currentCount := countPattern sch d pattern in
  if decide (minCount <= currentCount) then Done (false, sch) else
  let dateStr := dateOf d in
  let bStaff :=
    List.filter (fun s =>
      if decide (position s = Director \/ position s = Chief) then false
      else if decide (shiftType s ≠ regular) then false
      else bool_decide (cellAt sch dateStr (id s) = Some PB))
      (this_staff this) in
  let bStaff :=
    jsSort (fun a b =>
              (Z.of_nat (countTotalShifts sch (id a) pattern)
               - Z.of_nat (countTotalShifts sch (id b) pattern))%Z) bStaff in
  match List.find (fun s => negb (candidateBlocked sch d s pattern false))
          bStaff with
  | Some s =>
      (* direct assignment, bypassing setShift *)
      sch ← assignCell sch dateStr (id s) pattern;
      Done (true, sch)
  | None => Done (false, sch)
  end.

Definition assignIfShort (chief : Staff) (d : nat) (pattern : ShiftPatternId)
    (minCount : nat) (st : ShiftSchedule * nat)
  : Outcome (bool * (ShiftSchedule * nat)) :=
  let '(sch, backupCount) := st in
  '(reassigned, sch) ← tryReassignBStaff d pattern minCount sch;
  if (reassigned : bool) then Done (false, (sch, backupCount)) else
  if decide (countPattern sch d pattern < minCount) then
    let prevDay := gen_getPreviousWorkDay d in
    if bool_decide (pattern = PA) && bool_decide (0 < prevDay)
       && bool_decide (gen_getShift sch prevDay (id chief) = PJ)
    then Done (false, (sch, backupCount))
    else Done (true, (setShift d (id chief) pattern sch, backupCount + 1))
  else Done (false, (sch, backupCount)).

(** [if (assignIfShort(p, n)) continue; rest] *)
Definition orElse (first : Outcome (bool * (ShiftSchedule * nat)))
    (rest : ShiftSchedule * nat -> Outcome (ShiftSchedule * nat))
  : Outcome (ShiftSchedule * nat) :=
  '(assigned, st) ← first;
  if (assigned : bool) then Done st else rest st.

Definition LIMIT : nat := 8.

Definition chiefDay (chief : Staff) (st : ShiftSchedule * nat) (d : nat)
  : Outcome (ShiftSchedule * nat) :=
  let '(sch, backupCount) := st in
  if gen_isHoliday d then Done (setShift d (id chief) Kokyu sch, backupCount)
  else if isSaturday d then Done st
  else if decide (LIMIT <= backupCount) then
    if decide (gen_getShift sch d (id chief) = NoShift)
    then Done (setShift d (id chief) Kokyu sch, backupCount)
    else Done st
  else
    orElse (assignIfShort chief d PA 2 st) (fun st =>
    orElse (assignIfShort chief d PJ 2 st) (fun st =>
    orElse (assignIfShort chief d PD 1 st) (fun st =>
    orElse (assignIfShort chief d PE 1 st) (fun st =>
    orElse (assignIfShort chief d PC 1 st) (fun '(sch, backupCount) =>
    let total := countWorkingStaff sch d in
    if decide (total < 8)
    then Done (setShift d (id chief) PB sch, backupCount + 1)
    else if decide (gen_getShift sch d (id chief) = NoShift)
    then Done (setShift d (id chief) Kokyu sch, backupCount)
    else Done (sch, backupCount)))))).

Definition phase7_ChiefBackup (sch : ShiftSchedule)
  : Outcome ShiftSchedule :=
  match findPosition Chief with
  | None => Done sch
  | Some chief =>
      st ← forEachO (chiefDay chief) (sch, 0)
             (monthDays (this_daysInMonth this));
      Done (fst st)
  end.

Definition phase8_CompensatoryOff (sch : ShiftSchedule) : ShiftSchedule :=
  sch.

(** *** Phases 9 and 10, and the final fill *)

Definition phase9_FillEmpty (sch : ShiftSchedule) : ShiftSchedule :=
  foldl (fun sch d =>
    let dateStr := dateOf d in
    let sch := ensureRow sch dateStr in
    foldl (fun sch s =>
      let shift := cellAt sch dateStr (id s) in
      if decide ((shift = None \/ shift = Some NoShift)
                 /\ shiftType s ≠ part_time)
      then putCell sch dateStr (id s) Kokyu
      else sch) sch (this_staff this))
    sch (monthDays (this_daysInMonth this)).

Definition validateOne (prevDay d : nat) (sch : ShiftSchedule) (s : Staff)
  : ShiftSchedule :=
  if decide (shiftType s = part_time) then sch else
  let prevShift := gen_getShift sch prevDay (id s) in
  let currShift := gen_getShift sch d (id s) in
  let sch := if decide (prevShift = PJ /\ currShift = PA)
             then setShift d (id s) PB sch else sch in
  let sch := if decide (prevShift = PA /\ currShift = PA)
             then setShift d (id s) PB sch else sch in
  let sch := if decide (prevShift = PJ /\ currShift = PJ)
             then setShift d (id s) PB sch else sch in
  sch.

Definition validateDay (sch : ShiftSchedule) (d : nat) : ShiftSchedule :=
  if gen_isHoliday d then sch else
  let prevDay := gen_getPreviousWorkDay d in
  if decide (prevDay = 0) then sch else
  foldl (validateOne prevDay d) sch (this_staff this).

Definition phase10_Validation (sch : ShiftSchedule) : ShiftSchedule :=
  foldl validateDay sch (monthDays (this_daysInMonth this)).

Definition finalSafetyFill (sch : ShiftSchedule) : ShiftSchedule :=
  foldl (fun sch d =>
    let dateStr := dateOf d in
    let sch := ensureRow sch dateStr in
    foldl (fun sch s =>
      let shift := cellAt sch dateStr (id s) in
      if negb (truthy shift) && bool_decide (shiftType s ≠ part_time)
      then putCell sch dateStr (id s) Kokyu
      else sch) sch (this_staff this))
    sch (monthDays (this_daysInMonth this)).

(** [generate], the [while (true)] of phase 6 being allotted [fuel] turns
    each time it is entered. *)
Definition generate (fuel : nat) (sch : ShiftSchedule)
  : Outcome ShiftSchedule :=
  let sch := phase1_Director sch in
  let sch := phase2_Chief sch in
  let sch := phase2_5_Cooking sch in
  let sch := phase3_Saturday sch in
  sch ← phase4_RegularWeekday sch;
  let sch := phase4_5_LateShiftCoverage sch in
  let sch := phase5_PartTime sch in
  sch ← phase6_MinCountAdjustment fuel sch;
  sch ← phase7_ChiefBackup sch;
  let sch := phase8_CompensatoryOff sch in
  let sch := phase9_FillEmpty sch in
  let sch := phase10_Validation sch in
  let sch := finalSafetyFill sch in
  Done sch.

End Methods.

(** [new ShiftGenerator(staff, holidays, year, month, settings,
    currentSchedule, timeRangeSchedule).generate()] *)
Definition runGenerator (fuel : nat) (staff : list Staff)
    (holidays : list Holiday) (year month : Z) (settings : Settings)
    (currentSchedule : ShiftSchedule) (timeRangeSchedule : TimeRangeSchedule)
  : Outcome ShiftSchedule :=
  let '(this, sch) :=
    constructor staff holidays year month settings currentSchedule
      timeRangeSchedule in
  generate this fuel sch.

(** ** What a swap suggestion says

    A suggestion for [shortagePattern] names two eligible staff members of
    different ids with their shifts of the day: the first is on a work band
    other than the one that is short and may take the short one with no
    hard violation; the second is on neither '有' nor '振' nor on the band
    of the first, and may take that band with no hard violation. *)
Definition validSwap (ctx : ConstraintContext) (day : nat)
    (shortagePattern : ShiftPatternId) (sg : SwapSuggestion) : Prop :=
  exists a b : Staff,
    a ∈ staff ctx /\ b ∈ staff ctx /\ isEligible a /\ isEligible b
    /\ id a ≠ id b
    /\ staffA sg = mkParty (id a) (name a) (getShift ctx day (id a))
    /\ staffB sg = mkParty (id b) (name b) (getShift ctx day (id b))
    /\ getShift ctx day (id a) ∈ [PA; PB; PC; PD; PE; PJ]
    /\ getShift ctx day (id a) ≠ shortagePattern
    /\ hasHard (checkConstraints ctx day (id a) shortagePattern) = false
    /\ getShift ctx day (id b) ≠ Yukyu
    /\ getShift ctx day (id b) ≠ Furikyu
    /\ getShift ctx day (id b) ≠ getShift ctx day (id a)
    /\ hasHard (checkConstraints ctx day (id b) (getShift ctx day (id a)))
       = false.

(** ** What a reset may do to a schedule *)

(** [handleReset] clears a cell that holds [v] on account of [s]: the cell
    is not falsy, [s] is not part-time, and this is not the paid leave of a
    regular staff member or of the chief. *)
Definition resets (s : Staff) (v : option ShiftPatternId) : Prop :=
  truthy v = true /\ shiftType s ≠ part_time
  /\ ¬ ((shiftType s = regular \/ position s = Chief) /\ v = Some Yukyu).

(** [sch'] has the rows of [sch], and its cells but for some of days of the
    month, each cleared on account of a member of [staff]. *)
Definition cleared (staff : list Staff) (year month : Z)
    (sch sch' : ShiftSchedule) : Prop :=
  (forall k, is_Some (sch' !! k) <-> is_Some (sch !! k))
  /\ forall k i,
       cellAt sch' k i = cellAt sch k i
       \/ (cellAt sch' k i = Some NoShift
           /\ exists d s,
                d ∈ monthDays (getDaysInMonth year month)
                /\ k = getFormattedDate year month d
                /\ s ∈ staff /\ id s = i /\ resets s (cellAt sch k i)).

(** ** What a run may do to a schedule *)

(** [sch'] comes from [sch] by writes that delete no row and no cell and
    leave every '有' and every '振' in place. *)
Record extends (sch sch' : ShiftSchedule) : Prop := mkExtends {
  ext_rows : forall k, is_Some (sch !! k) -> is_Some (sch' !! k);
  ext_cells : forall k i, is_Some (cellAt sch k i) ->
                          is_Some (cellAt sch' k i);
  ext_leave : forall k i v, v = Yukyu \/ v = Furikyu ->
                            cellAt sch k i = Some v ->
                            cellAt sch' k i = Some v
}.

(** [sch'] has no 'A' and no 'J' that [sch] does not have in the same
    cell. *)
Definition calm (sch sch' : ShiftSchedule) : Prop :=
  forall k i, cellAt sch' k i = Some PA \/ cellAt sch' k i = Some PJ ->
              cellAt sch' k i = cellAt sch k i.

(** Every staff member has a cell on every day of the month. *)
Definition monthCells (this : ShiftGenerator) (sch : ShiftSchedule) : Prop :=
  forall d s, d ∈ monthDays (this_daysInMonth this) -> s ∈ this_staff this ->
              is_Some (cellAt sch (dateOf this d) (id s)).

(** The pairs of shifts on adjacent work days that must not occur. *)
Definition badPair (previous current : ShiftPatternId) : Prop :=
  (previous = PJ /\ current = PA)
  \/ (previous = PA /\ current = PA)
  \/ (previous = PJ /\ current = PJ).

(** No staff member who is not part-time has the id of a part-time one. *)
Definition idsApart (staff : list Staff) : Prop :=
  forall s p, s ∈ staff -> p ∈ staff ->
              shiftType s ≠ part_time -> shiftType p = part_time ->
              id s ≠ id p.

(** A preorder on the schedule, on a state that carries the schedule
    first. *)
Definition onFst {X : Type} (R : relation ShiftSchedule)
  : relation (ShiftSchedule * X) :=
  fun st st' => R (fst st) (fst st').

(** [sch'] has a truthy cell wherever [sch] has one. *)
Definition grows (sch sch' : ShiftSchedule) : Prop :=
  forall k i, truthy (cellAt sch k i) = true ->
              truthy (cellAt sch' k i) = true.

(** A work day: neither a Sunday nor a listed holiday. *)
Definition workDay (holidays : list Holiday) (year month : Z) (d : nat)
  : Prop :=
  getDayOfWeek year month d ≠ 0
  /\ checkIsHoliday (getFormattedDate year month d) holidays = false.

(** ** The writes of a run

    Every write of the generator to [this.schedule] is one of four: a
    [setShift] on a day of the month, with a day off when the day is a
    Sunday or a holiday; a row made for a day of the month; '休' put into a
    falsy cell of a staff member who is not part-time; and the direct
    assignment of phase 7 to a regular staff member on 'B', on a day that
    is neither a Sunday nor a holiday. *)
Inductive step (this : ShiftGenerator) (sch : ShiftSchedule)
  : ShiftSchedule -> Prop :=
| step_set d i v :
    d ∈ monthDays (this_daysInMonth this) ->
    gen_isHoliday this d = false \/ v = Kokyu \/ v = Furikyu ->
    step this sch (setShift this d i v sch)
| step_row d :
    d ∈ monthDays (this_daysInMonth this) ->
    step this sch (ensureRow sch (dateOf this d))
| step_fill d s :
    d ∈ monthDays (this_daysInMonth this) ->
    s ∈ this_staff this -> shiftType s ≠ part_time ->
    truthy (cellAt sch (dateOf this d) (id s)) = false ->
    step this sch (putCell sch (dateOf this d) (id s) Kokyu)
| step_direct d s v :
    d ∈ monthDays (this_daysInMonth this) ->
    gen_isHoliday this d = false ->
    s ∈ this_staff this -> shiftType s = regular ->
    cellAt sch (dateOf this d) (id s) = Some PB ->
    step this sch (putCell sch (dateOf this d) (id s) v).

(** [sch'] comes from [sch] by such writes. *)
Definition steps (this : ShiftGenerator) : relation ShiftSchedule :=
  rtc (step this).

(** The entries of the part-time staff other than '' and '休' are in
    place. *)
Definition keeps (staff : list Staff) (sch sch' : ShiftSchedule) : Prop :=
  forall k i v,
    (shiftType <$> findStaff staff i) = Some part_time ->
    cellAt sch k i = Some v -> v ≠ NoShift -> v ≠ Kokyu ->
    cellAt sch' k i = Some v.

(** On a Sunday or a holiday of the month, [sch'] holds nothing that [sch]
    does not hold but '休' and '振'. *)
Definition rests (this : ShiftGenerator) (sch sch' : ShiftSchedule) : Prop :=
  forall d i v,
    d ∈ monthDays (this_daysInMonth this) -> gen_isHoliday this d = true ->
    cellAt sch' (dateOf this d) i = Some v ->
    v = Kokyu \/ v = Furikyu \/ cellAt sch (dateOf this d) i = Some v.

(** [sch'] has the rows of [sch], and the same row under every key that is
    not the date of a day of the month. *)
Definition sameRows (this : ShiftGenerator) (sch sch' : ShiftSchedule)
  : Prop :=
  (forall k, is_Some (sch !! k) -> is_Some (sch' !! k))
  /\ forall k,
       (forall d, d ∈ monthDays (this_daysInMonth this) ->
                  dateOf this d ≠ k) ->
       sch' !! k = sch !! k.

(** The days of the month have dates of their own. *)
Definition datesApart (year month : Z) : Prop :=
  forall d d',
    1 <= d <= getDaysInMonth year month ->
    1 <= d' <= getDaysInMonth year month ->
    getFormattedDate year month d = getFormattedDate year month d' ->
    d = d'.

(** ** Whom a phase writes to, and what

    Every write of a phase to [this.schedule] is one of three: a
    [setShift] on a day of the month on the cell of a roster member [s]
    whom the phase has selected, or a direct assignment to it,
    [allowed d s v cur] saying how the phase selects the day [d], the
    member [s] and the shift [v], [cur] being the shift the cell holds; and
    a row made for a day. *)
Inductive touch (this : ShiftGenerator)
    (allowed : nat -> Staff -> ShiftPatternId -> ShiftPatternId -> Prop)
    (sch : ShiftSchedule) : ShiftSchedule -> Prop :=
| touch_set d s v :
    d ∈ monthDays (this_daysInMonth this) -> s ∈ this_staff this ->
    allowed d s v (gen_getShift this sch d (id s)) ->
    touch this allowed sch (setShift this d (id s) v sch)
| touch_direct d s v :
    d ∈ monthDays (this_daysInMonth this) -> s ∈ this_staff this ->
    allowed d s v (gen_getShift this sch d (id s)) ->
    touch this allowed sch (putCell sch (dateOf this d) (id s) v)
| touch_row d :
    touch this allowed sch (ensureRow sch (dateOf this d)).

(** [sch'] comes from [sch] by such writes. *)
Definition touches (this : ShiftGenerator)
    (allowed : nat -> Staff -> ShiftPatternId -> ShiftPatternId -> Prop)
  : relation ShiftSchedule :=
  rtc (touch this allowed).

(** The work shifts. *)
Definition workShift (v : ShiftPatternId) : Prop :=
  v ∈ [PA; PB; PC; PD; PE; PJ].

(** How the phases from 3 on select the staff member whose cell they
    write: a regular staff member (phases 3, 4 and 7); the chief (phase 7);
    a member who is neither cooking staff nor part-time nor the director
    (phases 3 and 6); a member of role infant or toddler on 'B' or 'C'
    (phase 4.5); a member who is not part-time and on 'A' or 'J'
    (phase 10). *)
Definition selectedLater (s : Staff) (cur : ShiftPatternId) : Prop :=
  shiftType s = regular
  \/ position s = Chief
  \/ (shiftType s ≠ cooking /\ shiftType s ≠ part_time
      /\ position s ≠ Director)
  \/ ((role s = Some infant \/ role s = Some toddler)
      /\ (cur = PB \/ cur = PC))
  \/ (shiftType s ≠ part_time /\ (cur = PA \/ cur = PJ)).

(** The fills of phase 9 and of the final fill: '休' into the empty cell of
    a staff member who is not part-time. *)
Definition fillWrite (s : Staff) (v cur : ShiftPatternId) : Prop :=
  shiftType s ≠ part_time /\ v = Kokyu /\ cur = NoShift.

(** A write to a staff member selected as the phases from 3 on do, or a
    fill. *)
Definition selectedOrFill (d : nat) (s : Staff) (v cur : ShiftPatternId)
  : Prop :=
  selectedLater s cur \/ fillWrite s v cur.

(** The writes of phase 1: '休' for a director. *)
Definition phase1Write (d : nat) (s : Staff) (v cur : ShiftPatternId)
  : Prop :=
  position s = Director /\ v = Kokyu.

(** The writes of phase 2.5: 'B' or '休' for the cooking staff. *)
Definition phase2_5Write (d : nat) (s : Staff) (v cur : ShiftPatternId)
  : Prop :=
  shiftType s = cooking /\ (v = PB \/ v = Kokyu).

(** The staff phase 3 draws the Saturday workers from. *)
Definition qualifiedRegular (s : Staff) : Prop :=
  hasQualification s = true /\ shiftType s = regular
  /\ position s ≠ Director.

(** The writes of phase 3: '休' on a Saturday; and for a Saturday worker
    the Saturday pattern on the Saturday, or '振'. *)
Definition phase3Write (this : ShiftGenerator) (d : nat) (s : Staff)
    (v cur : ShiftPatternId) : Prop :=
  selectedLater s cur
  /\ ((isSaturday this d = true /\ v = Kokyu)
      \/ (qualifiedRegular s
          /\ ((isSaturday this d = true
               /\ v = saturdayShiftPattern (this_settings this))
              \/ v = Furikyu))).

(** The writes of phase 4: a work shift for a regular staff member on a
    weekday. *)
Definition phase4Write (this : ShiftGenerator) (d : nat) (s : Staff)
    (v cur : ShiftPatternId) : Prop :=
  shiftType s = regular
  /\ gen_isHoliday this d = false /\ isSaturday this d = false
  /\ workShift v.

(** The shifts the phases from 4.5 on write: a work shift on a weekday;
    'B' over 'A' or 'J' (phase 10); '休' on a Sunday or a holiday, or into
    an empty cell. *)
Definition laterValue (this : ShiftGenerator) (d : nat)
    (v cur : ShiftPatternId) : Prop :=
  (gen_isHoliday this d = false /\ isSaturday this d = false /\ workShift v)
  \/ (v = PB /\ (cur = PA \/ cur = PJ))
  \/ (v = Kokyu /\ (gen_isHoliday this d = true \/ cur = NoShift)).

(** The writes of the phases from 4.5 on. *)
Definition laterWrite (this : ShiftGenerator) (d : nat) (s : Staff)
    (v cur : ShiftPatternId) : Prop :=
  (selectedLater s cur /\ laterValue this d v cur) \/ fillWrite s v cur.

(** The staff phase 4 draws from. *)
Definition regularStaff (this : ShiftGenerator) (l : list Staff) : Prop :=
  forall s, s ∈ l -> s ∈ this_staff this /\ shiftType s = regular.

(** The staff phase 6 draws from. *)
Definition floorStaff (this : ShiftGenerator) (l : list Staff) : Prop :=
  forall s, s ∈ l ->
            s ∈ this_staff this
            /\ shiftType s ≠ cooking /\ shiftType s ≠ part_time
            /\ position s ≠ Director.

(** The cells of [i] that hold a shift in [P] are as they were, but for
    falsy ones that now hold '休'. *)
Definition spared (P : ShiftPatternId -> Prop) (i : Z)
    (sch sch' : ShiftSchedule) : Prop :=
  forall k, P (orEmpty (cellAt sch k i)) ->
            cellAt sch' k i = cellAt sch k i
            \/ (truthy (cellAt sch k i) = false
                /\ cellAt sch' k i = Some Kokyu).

(** Every cell of [sch'] is the cell of [sch] or holds '休'. *)
Definition offOrSame (sch sch' : ShiftSchedule) : Prop :=
  forall k i, cellAt sch' k i = cellAt sch k i
              \/ cellAt sch' k i = Some Kokyu.

(** The shift phase 2.5 gives the cook of index [idx] among the [cooks] on
    day [d]: '休' on a Sunday or a holiday, 'B' on a weekday, and on a
    Saturday 'B' for the one cook whose turn it is, the Saturdays of the
    month being counted from 0, and '休' for the others. *)
Definition cookShift (this : ShiftGenerator) (cooks : nat) (d idx : nat)
  : ShiftPatternId :=
  if gen_isHoliday this d then Kokyu
  else if isSaturday this d then
    if decide (idx = length (List.filter (isSaturday this)
                                         (monthDays (d - 1))) mod cooks)
    then PB else Kokyu
  else PB.

(** A cell holds '有' or '振', which [setShift] does not overwrite. *)
Abbreviation onLeave c := (c = Some Yukyu \/ c = Some Furikyu).

(** The cooking staff of phase 2.5, in the order of the roster. *)
Definition cooksOf (staff : list Staff) : list Staff :=
  List.filter (fun s => bool_decide (shiftType s = cooking)) staff.

(** The cells of the staff in [assignedIds] hold a work shift on the date
    [k]. *)
Definition assignedWork (k : string) (sch : ShiftSchedule)
    (assignedIds : gset Z) : Prop :=
  forall i, i ∈ assignedIds ->
            exists v, cellAt sch k i = Some v /\ workShift v.

(** A cell as the constructor leaves it for a staff member who is not
    part-time. *)
Definition seeded (c : option ShiftPatternId) : Prop :=
  c = Some NoShift \/ c = Some Yukyu \/ c = Some Furikyu.

(** A cell that holds a work shift, '有' or '振'. *)
Definition atWorkOrLeave (c : option ShiftPatternId) : Prop :=
  exists v, c = Some v /\ (workShift v \/ v = Yukyu \/ v = Furikyu).

(** A cell that holds the Saturday pattern of the settings, 'B' or a day
    off, or that is empty. *)
Definition saturdayCell (this : ShiftGenerator)
    (c : option ShiftPatternId) : Prop :=
  exists v, c = Some v
            /\ (v = saturdayShiftPattern (this_settings this) \/ v = PB
                \/ v = Kokyu \/ v = Yukyu \/ v = Furikyu \/ v = NoShift).

(** The candidates of a loop of phase 4 on day [d]: regular staff with ids
    of their own and an empty cell. *)
Definition freeRegulars (this : ShiftGenerator) (d : nat)
    (sch : ShiftSchedule) (l : list Staff) : Prop :=
  NoDup (id <$> l)
  /\ forall s, s ∈ l ->
       s ∈ this_staff this /\ shiftType s = regular
       /\ cellAt sch (dateOf this d) (id s) = Some NoShift.

(** * Properties of the constraint engine *)

Set Default Proof Using "Type".

Lemma elem_of_pushIf (o : option ConstraintViolation) vs v :
  v ∈ pushIf o vs <-> v ∈ vs \/ o = Some v.
Proof.
  destruct o as [x|]; simpl.
  - rewrite elem_of_app, list_elem_of_singleton.
    split; [intros [?| ->]; auto|intros [?|[= ->]]; auto].
  - split; [auto|intros [?|?]; [assumption|discriminate]].
Qed.

(** A violation is reported exactly when one of the eight checks finds it. *)
Lemma elem_of_checkConstraints ctx day staffId newShift v :
  v ∈ checkConstraints ctx day staffId newShift <->
    checkJToAViolation ctx day staffId newShift = Some v
    \/ checkAToJViolation ctx day staffId newShift = Some v
    \/ checkConsecutiveViolation ctx day staffId newShift = Some v
    \/ checkIncompatibleViolation ctx day staffId newShift = Some v
    \/ checkWeeklyAJLimitViolation ctx day staffId newShift = Some v
    \/ checkMinCountViolation ctx day staffId newShift = Some v
    \/ checkEarlyLimitViolation ctx day staffId newShift = Some v
    \/ checkFairnessViolation ctx day staffId newShift = Some v.
Proof.
  unfold checkConstraints. rewrite !elem_of_pushIf, elem_of_nil.
  clear. tauto.
Qed.

(** What each check can return. *)
Ltac returned :=
  let H := fresh in
  intros H; first [discriminate H | injection H as <-; simpl; auto].

Lemma checkJToAViolation_code ctx day staffId shift v :
  checkJToAViolation ctx day staffId shift = Some v -> code v = J_TO_A.
Proof. unfold checkJToAViolation. repeat case_decide; returned. Qed.

Lemma checkAToJViolation_code ctx day staffId shift v :
  checkAToJViolation ctx day staffId shift = Some v -> code v = J_TO_A.
Proof. unfold checkAToJViolation. repeat case_decide; returned. Qed.

Lemma checkConsecutiveViolation_code ctx day staffId shift v :
  checkConsecutiveViolation ctx day staffId shift = Some v ->
  code v = CONSECUTIVE_A \/ code v = CONSECUTIVE_J.
Proof.
  unfold checkConsecutiveViolation, consecutiveCode.
  repeat case_decide; returned.
Qed.

Lemma checkIncompatibleViolation_code ctx day staffId shift v :
  checkIncompatibleViolation ctx day staffId shift = Some v ->
  v = mkViolation hard INCOMPATIBLE.
Proof.
  unfold checkIncompatibleViolation.
  destruct (findStaff _ _); [|done]. destruct (existsb _ _); returned.
Qed.

Lemma checkWeeklyAJLimitViolation_code ctx day staffId shift v :
  checkWeeklyAJLimitViolation ctx day staffId shift = Some v ->
  code v = WEEKLY_AJ_LIMIT.
Proof. unfold checkWeeklyAJLimitViolation. repeat case_decide; returned. Qed.

Lemma checkMinCountViolation_code ctx day staffId shift v :
  checkMinCountViolation ctx day staffId shift = Some v ->
  vtype v = hard /\ (code v = MIN_COUNT_A \/ code v = MIN_COUNT_J).
Proof. unfold checkMinCountViolation. repeat case_decide; returned. Qed.

Lemma checkEarlyLimitViolation_code ctx day staffId shift v :
  checkEarlyLimitViolation ctx day staffId shift = Some v ->
  code v = EARLY_LIMIT.
Proof.
  unfold checkEarlyLimitViolation. case_decide; [done|].
  destruct (findStaff _ _) as [t|]; [|done].
  destruct (earlyShiftLimit t); [|done]. case_decide; returned.
Qed.

Lemma checkFairnessViolation_code ctx day staffId shift v :
  checkFairnessViolation ctx day staffId shift = Some v ->
  code v = FAIRNESS_A \/ code v = FAIRNESS_J.
Proof.
  unfold checkFairnessViolation. case_decide; [done|]. simpl.
  case_decide; [done|]. destruct (findStaff _ _) as [t|]; [|done].
  repeat case_decide; returned.
Qed.

(** The incompatibility check reads the list of the queried staff member
    only. *)
Lemma checkIncompatibleViolation_Some ctx day staffId shift :
  checkIncompatibleViolation ctx day staffId shift
    = Some (mkViolation hard INCOMPATIBLE) <->
  exists queried other,
    findStaff (staff ctx) staffId = Some queried
    /\ other ∈ incompatibleWith queried
    /\ cellAt (schedule ctx)
         (getFormattedDate (year ctx) (month ctx) day) other = Some shift.
Proof.
  unfold checkIncompatibleViolation.
  destruct (findStaff _ _) as [t|];
    [|split; [discriminate|intros (? & ? & ? & _); discriminate]].
  destruct (existsb _ _) eqn:E.
  - apply existsb_exists in E as (other & Hin & Hc).
    apply bool_decide_eq_true in Hc. apply list_elem_of_In in Hin.
    split; [intros _; exists t, other; auto|reflexivity].
  - split; [discriminate|]. intros (q & other & [= <-] & Hin & Hc).
    assert (existsb (fun incompatibleId =>
              bool_decide (cellAt (schedule ctx)
                (getFormattedDate (year ctx) (month ctx) day) incompatibleId
                = Some shift)) (incompatibleWith t) = true) as E'.
    { apply existsb_exists. exists other. split.
      - by apply list_elem_of_In.
      - by apply bool_decide_eq_true. }
    congruence.
Qed.

(** The minimum-count check does not read the candidate shift. *)
Lemma checkMinCountViolation_Some ctx day staffId newShift v :
  checkMinCountViolation ctx day staffId newShift = Some v <->
  (getShift ctx day staffId = PA
   /\ countDayPattern ctx day PA <= 2 /\ v = mkViolation hard MIN_COUNT_A)
  \/ (getShift ctx day staffId = PJ
      /\ countDayPattern ctx day PJ <= 2 /\ v = mkViolation hard MIN_COUNT_J).
Proof.
  unfold checkMinCountViolation.
  destruct (decide (getShift ctx day staffId = PA)) as [EA|NA].
  - rewrite EA. rewrite decide_True by (by left).
    destruct (decide (countDayPattern ctx day PA <= 2)) as [Hc|Hc].
    + split.
      * intros [= <-]. left. auto.
      * intros [(_ & _ & ->)|(? & _)]; [reflexivity|discriminate].
    + split; [discriminate|].
      intros [(_ & ? & _)|(? & _)]; [contradiction|discriminate].
  - destruct (decide (getShift ctx day staffId = PJ)) as [EJ|NJ].
    + rewrite EJ. rewrite decide_True by (by right).
      destruct (decide (countDayPattern ctx day PJ <= 2)) as [Hc|Hc].
      * split.
        -- intros [= <-]. right. auto.
        -- intros [(? & _)|(_ & _ & ->)]; [discriminate|reflexivity].
      * split; [discriminate|].
        intros [(? & _)|(_ & ? & _)]; [discriminate|contradiction].
    + rewrite decide_False by (intros [?|?]; contradiction).
      split; [discriminate|].
      intros [(? & _)|(? & _)]; contradiction.
Qed.

(** ** The stable sort *)

Section SortFacts.
Context {T : Type} (cmp : T -> T -> Z).

Lemma sortInsert_Permutation x l : sortInsert cmp x l ≡ₚ x :: l.
Proof.
  induction l as [|y l IH]; simpl; [done|].
  case_decide; [done|]. rewrite IH. apply Permutation_swap.
Qed.

Lemma jsSort_Permutation l : jsSort cmp l ≡ₚ l.
Proof.
  induction l as [|x l IH]; simpl; [done|].
  by rewrite sortInsert_Permutation, IH.
Qed.

Lemma jsSort_length l : length (jsSort cmp l) = length l.
Proof. by rewrite jsSort_Permutation. Qed.

Lemma jsSort_elem_of x l : x ∈ jsSort cmp l <-> x ∈ l.
Proof. by rewrite jsSort_Permutation. Qed.

Hypothesis cmp_total : forall a b, (cmp a b <= 0 \/ cmp b a <= 0)%Z.
Hypothesis cmp_trans :
  forall a b c, (cmp a b <= 0 -> cmp b c <= 0 -> cmp a c <= 0)%Z.

Lemma sortInsert_sorted x l :
  StronglySorted (fun a b => (cmp a b <= 0)%Z) l ->
  StronglySorted (fun a b => (cmp a b <= 0)%Z) (sortInsert cmp x l).
Proof using cmp_total cmp_trans.
  induction 1 as [|y l Hs IH Hall]; simpl.
  - repeat constructor.
  - case_decide as Hxy.
    + constructor; [by constructor|]. constructor; [done|].
      eapply Forall_impl; [exact Hall|]. intros z Hz. by eapply cmp_trans.
    + constructor; [done|].
      rewrite sortInsert_Permutation. constructor; [|done].
      destruct (cmp_total x y); [done|done].
Qed.

Lemma jsSort_sorted l :
  StronglySorted (fun a b => (cmp a b <= 0)%Z) (jsSort cmp l).
Proof using cmp_total cmp_trans.
  induction l; simpl; [constructor|]. by apply sortInsert_sorted.
Qed.
End SortFacts.

Lemma StronglySorted_lookup_lt {T : Type} (R : T -> T -> Prop) (l : list T)
    i j a b :
  StronglySorted R l -> i < j -> l !! i = Some a -> l !! j = Some b -> R a b.
Proof.
  intros Hs. revert i j. induction Hs as [|x l Hs IH Hall]; intros i j Hij.
  - by rewrite lookup_nil.
  - destruct j as [|j]; [lia|]. destruct i as [|i]; simpl.
    + intros [= <-] Hb. rewrite Forall_forall in Hall. apply Hall.
      by eapply list_elem_of_lookup_2.
    + apply IH. lia.
Qed.

Lemma candidateOrder_total a b :
  (candidateOrder a b <= 0 \/ candidateOrder b a <= 0)%Z.
Proof.
  unfold candidateOrder.
  destruct (isAssignable a), (isAssignable b); repeat case_decide;
    try congruence; lia.
Qed.

Lemma candidateOrder_trans a b c :
  (candidateOrder a b <= 0 -> candidateOrder b c <= 0 ->
   candidateOrder a c <= 0)%Z.
Proof.
  unfold candidateOrder.
  destruct (isAssignable a), (isAssignable b), (isAssignable c);
    repeat case_decide; try congruence; lia.
Qed.

Lemma candidateOrder_le a b :
  (candidateOrder a b <= 0)%Z ->
  (isAssignable b = true -> isAssignable a = true)
  /\ (isAssignable a = isAssignable b ->
      length (violations a) <= length (violations b)).
Proof.
  unfold candidateOrder.
  destruct (isAssignable a), (isAssignable b); repeat case_decide;
    try congruence; intros; split; intros; try congruence; lia.
Qed.

Lemma evaluateOne_isCandidate ctx day targetShift (l : list Staff) :
  omap (evaluateOne ctx day targetShift) (filter isEligible l)
  = evaluation ctx day targetShift
      <$> filter (isCandidate ctx day targetShift) l.
Proof.
  induction l as [|s l IH]; [done|].
  rewrite !filter_cons.
  destruct (decide (isEligible s)) as [He|He].
  - simpl. unfold evaluateOne at 1.
    destruct (decide (isCandidate ctx day targetShift s)) as [Hc|Hc].
    + destruct Hc as (_ & H1 & H2 & H3).
      rewrite decide_False by done.
      rewrite decide_False by (intros [?|?]; done).
      simpl. f_equal. exact IH.
    + case_decide as H1; [exact IH|]. case_decide as H2; [exact IH|].
      exfalso. apply Hc. unfold isCandidate. naive_solver.
  - rewrite decide_False; [exact IH|]. intros [? _]. done.
Qed.

(** ** The claims on the constraint engine *)

(** C4, as the code has it: [evaluateCandidates] keeps exactly the regular
    and backup staff who are not already on the target shift and not on
    paid leave '有' or on a compensatory day off '振' (a regular day off '休'
    does not exclude), records for each the violations [checkConstraints]
    finds and whether none is hard, and returns them sorted: an assignable
    candidate never comes after one that is not, and among candidates of the
    same assignability the number of violations never decreases. *)
Theorem evaluateCandidates_ranking ctx day targetShift :
  evaluateCandidates ctx day targetShift
    ≡ₚ evaluation ctx day targetShift
         <$> filter (isCandidate ctx day targetShift) (staff ctx)
  /\ forall i j a b,
       i < j ->
       evaluateCandidates ctx day targetShift !! i = Some a ->
       evaluateCandidates ctx day targetShift !! j = Some b ->
       (isAssignable b = true -> isAssignable a = true)
       /\ (isAssignable a = isAssignable b ->
           length (violations a) <= length (violations b)).
Proof.
  unfold evaluateCandidates. split.
  - by rewrite jsSort_Permutation, evaluateOne_isCandidate.
  - intros i j a b Hij Ha Hb. apply candidateOrder_le.
    eapply (StronglySorted_lookup_lt
              (fun a b => (candidateOrder a b <= 0)%Z));
      [|exact Hij|exact Ha|exact Hb].
    apply jsSort_sorted.
    + apply candidateOrder_total.
    + apply candidateOrder_trans.
Qed.

(** C5, as the code has it: a hard minimum-count violation is reported
    exactly when the staff member's current shift that day is 'A' or 'J'
    and that band holds at most two staff that day, so that taking the
    member away would leave it below its floor of 2. *)
Theorem min_count_threshold ctx day staffId newShift :
  (exists v, v ∈ checkConstraints ctx day staffId newShift
             /\ (code v = MIN_COUNT_A \/ code v = MIN_COUNT_J))
  <-> (getShift ctx day staffId = PA \/ getShift ctx day staffId = PJ)
      /\ countDayPattern ctx day (getShift ctx day staffId) <= 2.
Proof.
  split.
  - intros (v & Hin & Hcode). apply elem_of_checkConstraints in Hin.
    destruct Hin as [H|[H|[H|[H|[H|[H|[H|H]]]]]]].
    + apply checkJToAViolation_code in H. destruct Hcode; congruence.
    + apply checkAToJViolation_code in H. destruct Hcode; congruence.
    + apply checkConsecutiveViolation_code in H.
      destruct H, Hcode; congruence.
    + apply checkIncompatibleViolation_code in H. subst v.
      destruct Hcode; discriminate.
    + apply checkWeeklyAJLimitViolation_code in H.
      destruct Hcode; congruence.
    + apply checkMinCountViolation_Some in H.
      destruct H as [(E & Hc & _)|(E & Hc & _)]; rewrite E; auto.
    + apply checkEarlyLimitViolation_code in H. destruct Hcode; congruence.
    + apply checkFairnessViolation_code in H. destruct H, Hcode; congruence.
  - intros [[E|E] Hc]; rewrite E in Hc.
    + exists (mkViolation hard MIN_COUNT_A). split; [|by left].
      apply elem_of_checkConstraints. do 5 right. left.
      apply checkMinCountViolation_Some. by left.
    + exists (mkViolation hard MIN_COUNT_J). split; [|by right].
      apply elem_of_checkConstraints. do 5 right. left.
      apply checkMinCountViolation_Some. by right.
Qed.

(** C6, as the code has it: [checkConstraints] for a staff member and a
    shift reports a hard incompatibility violation exactly when the roster
    entry of that very staff member lists somebody whose cell that day
    holds the shift.  So when A lists B and B holds X, the check for A and X
    reports it; the entry of the other side is never read. *)
Theorem incompatibility_reads_own_list ctx day staffId shift :
  mkViolation hard INCOMPATIBLE ∈ checkConstraints ctx day staffId shift
  <-> exists queried other,
        findStaff (staff ctx) staffId = Some queried
        /\ other ∈ incompatibleWith queried
        /\ cellAt (schedule ctx)
             (getFormattedDate (year ctx) (month ctx) day) other
           = Some shift.
Proof.
  rewrite <- checkIncompatibleViolation_Some, elem_of_checkConstraints.
  split; [|intros H; do 3 right; left; exact H].
  intros [H|[H|[H|[H|[H|[H|[H|H]]]]]]]; try exact H.
  - apply checkJToAViolation_code in H. discriminate.
  - apply checkAToJViolation_code in H. discriminate.
  - apply checkConsecutiveViolation_code in H. destruct H; discriminate.
  - apply checkWeeklyAJLimitViolation_code in H. discriminate.
  - apply checkMinCountViolation_code in H.
    destruct H as [_ [?|?]]; discriminate.
  - apply checkEarlyLimitViolation_code in H. discriminate.
  - apply checkFairnessViolation_code in H. destruct H; discriminate.
Qed.

(** C9: whatever the candidate code, a leave code or the empty one
    included, if the roster entry of A lists B and the cell of B that day
    holds exactly that code, [checkConstraints] for A and that code reports
    a hard INCOMPATIBLE violation. *)
Theorem incompatibility_on_any_code ctx day (a : Staff) (idB : Z)
    (candidate : ShiftPatternId) :
  findStaff (staff ctx) (id a) = Some a ->
  idB ∈ incompatibleWith a ->
  cellAt (schedule ctx) (getFormattedDate (year ctx) (month ctx) day) idB
    = Some candidate ->
  exists v, v ∈ checkConstraints ctx day (id a) candidate
            /\ vtype v = hard /\ code v = INCOMPATIBLE.
Proof.
  intros Hfind Hin Hcell. exists (mkViolation hard INCOMPATIBLE).
  split; [|done]. apply elem_of_checkConstraints. do 3 right. left.
  apply checkIncompatibleViolation_Some. eauto.
Qed.

(** C10: the minimum-count check does not look at the candidate shift.  If
    the current shift of the staff member that day is 'A' (or 'J') and the
    band holds at most two staff, [checkConstraints] reports the hard
    violation MIN_COUNT_A (or MIN_COUNT_J) for every candidate shift, the
    current one included. *)
Theorem min_count_ignores_candidate ctx day staffId :
  (getShift ctx day staffId = PA -> countDayPattern ctx day PA <= 2 ->
   forall candidate,
     mkViolation hard MIN_COUNT_A ∈ checkConstraints ctx day staffId candidate)
  /\ (getShift ctx day staffId = PJ -> countDayPattern ctx day PJ <= 2 ->
      forall candidate,
        mkViolation hard MIN_COUNT_J
          ∈ checkConstraints ctx day staffId candidate).
Proof.
  split; intros E Hc candidate; apply elem_of_checkConstraints;
    do 5 right; left; apply checkMinCountViolation_Some; auto.
Qed.

(** ** Further properties of the constraint engine *)

(** *** What each check reports, and when *)

Lemma pushIf_app (o : option ConstraintViolation) vs :
  pushIf o vs = vs ++ option_list o.
Proof. destruct o; simpl; [done|by rewrite app_nil_r]. Qed.

Lemma checkJToAViolation_Some ctx day staffId shift v :
  checkJToAViolation ctx day staffId shift = Some v <->
  v = mkViolation hard J_TO_A /\ shift = PA
  /\ getPreviousWorkDay ctx day ≠ 0
  /\ getShift ctx (getPreviousWorkDay ctx day) staffId = PJ.
Proof.
  unfold checkJToAViolation.
  destruct (decide (shift ≠ PA)) as [Hs|Hs].
  { split; [discriminate|]. intros (_ & ? & _). done. }
  apply dec_stable in Hs. cbn zeta.
  destruct (decide (getPreviousWorkDay ctx day = 0)) as [Hp|Hp].
  { split; [discriminate|]. intros (_ & _ & ? & _). done. }
  destruct (decide (getShift ctx (getPreviousWorkDay ctx day) staffId = PJ))
    as [Hj|Hj].
  - split; [intros [= <-]; done|]. intros (-> & _). done.
  - split; [discriminate|]. intros (_ & _ & _ & ?). done.
Qed.

Lemma checkAToJViolation_Some ctx day staffId shift v :
  checkAToJViolation ctx day staffId shift = Some v <->
  v = mkViolation hard J_TO_A /\ shift = PJ
  /\ getNextWorkDay ctx day ≠ 0
  /\ getShift ctx (getNextWorkDay ctx day) staffId = PA.
Proof.
  unfold checkAToJViolation.
  destruct (decide (shift ≠ PJ)) as [Hs|Hs].
  { split; [discriminate|]. intros (_ & ? & _). done. }
  apply dec_stable in Hs. cbn zeta.
  destruct (decide (getNextWorkDay ctx day = 0)) as [Hp|Hp].
  { split; [discriminate|]. intros (_ & _ & ? & _). done. }
  destruct (decide (getShift ctx (getNextWorkDay ctx day) staffId = PA))
    as [Hj|Hj].
  - split; [intros [= <-]; done|]. intros (-> & _). done.
  - split; [discriminate|]. intros (_ & _ & _ & ?). done.
Qed.

Lemma checkConsecutiveViolation_Some ctx day staffId shift v :
  checkConsecutiveViolation ctx day staffId shift = Some v <->
  v = mkViolation hard (consecutiveCode shift)
  /\ (shift = PA \/ shift = PJ)
  /\ ((getPreviousWorkDay ctx day ≠ 0
       /\ getShift ctx (getPreviousWorkDay ctx day) staffId = shift)
      \/ (getNextWorkDay ctx day ≠ 0
          /\ getShift ctx (getNextWorkDay ctx day) staffId = shift)).
Proof.
  unfold checkConsecutiveViolation.
  destruct (decide (shift ≠ PA /\ shift ≠ PJ)) as [Hs|Hs].
  { split; [discriminate|]. intros (_ & [?|?] & _); destruct Hs; done. }
  assert (shift = PA \/ shift = PJ) as Hs'.
  { destruct (decide (shift = PA)); [by left|].
    destruct (decide (shift = PJ)); [by right|]. exfalso. by apply Hs. }
  cbn zeta.
  destruct (decide (0 < getPreviousWorkDay ctx day
                    /\ getShift ctx (getPreviousWorkDay ctx day) staffId
                       = shift)) as [[Hp Hps]|Hp].
  { split; [intros [= <-]|intros (-> & _); done].
    split; [done|]. split; [done|]. left. split; [lia|done]. }
  destruct (decide (0 < getNextWorkDay ctx day
                    /\ getShift ctx (getNextWorkDay ctx day) staffId
                       = shift)) as [[Hn Hns]|Hn].
  { split; [intros [= <-]|intros (-> & _); done].
    split; [done|]. split; [done|]. right. split; [lia|done]. }
  split; [discriminate|].
  intros (_ & _ & [[H1 H2]|[H1 H2]]); exfalso; [apply Hp|apply Hn]; split;
    (lia || done).
Qed.

Lemma checkWeeklyAJLimitViolation_inv ctx day staffId shift v :
  checkWeeklyAJLimitViolation ctx day staffId shift = Some v ->
  v = mkViolation hard WEEKLY_AJ_LIMIT /\ (shift = PA \/ shift = PJ).
Proof.
  unfold checkWeeklyAJLimitViolation.
  destruct (decide (shift ≠ PA /\ shift ≠ PJ)) as [Hs|Hs]; [done|].
  assert (shift = PA \/ shift = PJ) as Hs'.
  { destruct (decide (shift = PA)); [by left|].
    destruct (decide (shift = PJ)); [by right|]. exfalso. by apply Hs. }
  cbn zeta. repeat case_decide; try done. by intros [= <-].
Qed.

Lemma checkEarlyLimitViolation_inv ctx day staffId shift v :
  checkEarlyLimitViolation ctx day staffId shift = Some v ->
  v = mkViolation soft EARLY_LIMIT /\ (shift = PA \/ shift = PB).
Proof.
  unfold checkEarlyLimitViolation.
  destruct (decide (shift ≠ PA /\ shift ≠ PB)) as [Hs|Hs]; [done|].
  assert (shift = PA \/ shift = PB) as Hs'.
  { destruct (decide (shift = PA)); [by left|].
    destruct (decide (shift = PB)); [by right|]. exfalso. by apply Hs. }
  destruct (findStaff _ _) as [t|]; [|done].
  destruct (earlyShiftLimit t); [|done]. cbn zeta.
  case_decide; [|done]. by intros [= <-].
Qed.

Lemma checkFairnessViolation_inv ctx day staffId shift v :
  checkFairnessViolation ctx day staffId shift = Some v ->
  (v = mkViolation soft FAIRNESS_A /\ shift = PA)
  \/ (v = mkViolation soft FAIRNESS_J /\ shift = PJ).
Proof.
  unfold checkFairnessViolation.
  destruct (decide (shift ≠ PA /\ shift ≠ PJ)) as [Hs|Hs]; [done|].
  assert (shift = PA \/ shift = PJ) as Hs'.
  { destruct (decide (shift = PA)); [by left|].
    destruct (decide (shift = PJ)); [by right|]. exfalso. by apply Hs. }
  cbn zeta. case_decide; [done|].
  destruct (findStaff _ _) as [t|]; [|done].
  case_decide; [done|]. case_decide; [|done].
  intros [= <-]. destruct Hs' as [-> | ->]; [left|right]; done.
Qed.

(** Every violation [checkConstraints] reports is one of these ten, each
    for the candidate shifts named. *)
Lemma checkConstraints_inv ctx day staffId newShift v :
  v ∈ checkConstraints ctx day staffId newShift ->
  (v = mkViolation hard J_TO_A /\ (newShift = PA \/ newShift = PJ))
  \/ (v = mkViolation hard CONSECUTIVE_A /\ newShift = PA)
  \/ (v = mkViolation hard CONSECUTIVE_J /\ newShift = PJ)
  \/ v = mkViolation hard INCOMPATIBLE
  \/ (v = mkViolation hard WEEKLY_AJ_LIMIT
      /\ (newShift = PA \/ newShift = PJ))
  \/ v = mkViolation hard MIN_COUNT_A
  \/ v = mkViolation hard MIN_COUNT_J
  \/ (v = mkViolation soft EARLY_LIMIT /\ (newShift = PA \/ newShift = PB))
  \/ (v = mkViolation soft FAIRNESS_A /\ newShift = PA)
  \/ (v = mkViolation soft FAIRNESS_J /\ newShift = PJ).
Proof.
  intros Hin. apply elem_of_checkConstraints in Hin.
  destruct Hin as [H|[H|[H|[H|[H|[H|[H|H]]]]]]].
  - apply checkJToAViolation_Some in H as (-> & -> & _). auto.
  - apply checkAToJViolation_Some in H as (-> & -> & _). auto.
  - apply checkConsecutiveViolation_Some in H as (-> & [-> | ->] & _).
    + right. left. done.
    + do 2 right. left. done.
  - apply checkIncompatibleViolation_code in H. auto.
  - apply checkWeeklyAJLimitViolation_inv in H as [-> H]. do 4 right. auto.
  - apply checkMinCountViolation_Some in H
      as [(_ & _ & ->)|(_ & _ & ->)]; [do 5 right|do 6 right]; auto.
  - apply checkEarlyLimitViolation_inv in H as [-> H]. do 7 right. auto.
  - apply checkFairnessViolation_inv in H as [[-> ->]|[-> ->]];
      [do 8 right|do 9 right]; auto.
Qed.

Lemma length_option_list {A : Type} (o : option A) :
  length (option_list o) <= 1.
Proof. destruct o; simpl; lia. Qed.

Lemma filter_option_list (t t' : ViolationType)
    (o : option ConstraintViolation) :
  (forall v, o = Some v -> vtype v = t) ->
  filter (fun v => vtype v = t') (option_list o)
  = if decide (t = t') then option_list o else [].
Proof.
  intros H. destruct o as [v|]; simpl; [|by case_decide].
  rewrite filter_cons. rewrite (H v eq_refl). by case_decide.
Qed.

(** X1: the violations come with the hard ones first: the list is its hard
    violations followed by its soft ones, at most six and at most two. *)
Theorem checkConstraints_hard_first ctx day staffId newShift :
  let violations := checkConstraints ctx day staffId newShift in
  violations
  = filter (fun v => vtype v = hard) violations
    ++ filter (fun v => vtype v = soft) violations
  /\ length (filter (fun v => vtype v = hard) violations) <= 6
  /\ length (filter (fun v => vtype v = soft) violations) <= 2.
Proof.
  cbn zeta. unfold checkConstraints. rewrite !pushIf_app, app_nil_l.
  rewrite !filter_app.
  rewrite !(filter_option_list hard _ (checkJToAViolation _ _ _ _));
    [|by intros v (-> & _)%checkJToAViolation_Some..].
  rewrite !(filter_option_list hard _ (checkAToJViolation _ _ _ _));
    [|by intros v (-> & _)%checkAToJViolation_Some..].
  rewrite !(filter_option_list hard _ (checkConsecutiveViolation _ _ _ _));
    [|by intros v (-> & _)%checkConsecutiveViolation_Some..].
  rewrite !(filter_option_list hard _ (checkIncompatibleViolation _ _ _ _));
    [|by intros v ->%checkIncompatibleViolation_code..].
  rewrite !(filter_option_list hard _ (checkWeeklyAJLimitViolation _ _ _ _));
    [|by intros v [-> _]%checkWeeklyAJLimitViolation_inv..].
  rewrite !(filter_option_list hard _ (checkMinCountViolation _ _ _ _));
    [|by intros v [? _]%checkMinCountViolation_code..].
  rewrite !(filter_option_list soft _ (checkEarlyLimitViolation _ _ _ _));
    [|by intros v [-> _]%checkEarlyLimitViolation_inv..].
  rewrite !(filter_option_list soft _ (checkFairnessViolation _ _ _ _));
    [|by intros v [[-> _]|[-> _]]%checkFairnessViolation_inv..].
  simpl. rewrite !app_nil_r. split; [by rewrite <- !app_assoc|].
  rewrite !length_app.
  pose proof (length_option_list (checkJToAViolation ctx day staffId newShift)).
  pose proof (length_option_list (checkAToJViolation ctx day staffId newShift)).
  pose proof (length_option_list
                (checkConsecutiveViolation ctx day staffId newShift)).
  pose proof (length_option_list
                (checkIncompatibleViolation ctx day staffId newShift)).
  pose proof (length_option_list
                (checkWeeklyAJLimitViolation ctx day staffId newShift)).
  pose proof (length_option_list
                (checkMinCountViolation ctx day staffId newShift)).
  pose proof (length_option_list
                (checkEarlyLimitViolation ctx day staffId newShift)).
  pose proof (length_option_list
                (checkFairnessViolation ctx day staffId newShift)).
  lia.
Qed.

(** X2: a violation is soft exactly when its code is EARLY_LIMIT, FAIRNESS_A
    or FAIRNESS_J, hard otherwise, and the codes MIN_TOTAL and FAIRNESS_SAT
    are never reported. *)
Theorem violation_type_by_code ctx day staffId newShift v :
  v ∈ checkConstraints ctx day staffId newShift ->
  code v ≠ MIN_TOTAL /\ code v ≠ FAIRNESS_SAT
  /\ (vtype v = soft <->
      code v = EARLY_LIMIT \/ code v = FAIRNESS_A \/ code v = FAIRNESS_J)
  /\ (vtype v = hard <->
      code v ∈ [J_TO_A; CONSECUTIVE_A; CONSECUTIVE_J; INCOMPATIBLE;
                WEEKLY_AJ_LIMIT; MIN_COUNT_A; MIN_COUNT_J]).
Proof.
  intros Hin. apply checkConstraints_inv in Hin.
  destruct Hin as [[-> _]|[[-> _]|[[-> _]|[->|[[-> _]|[->|[->|[[-> _]|
                  [[-> _]|[-> _]]]]]]]]]]; simpl;
    (split; [done|]); (split; [done|]); split.
  all: split; intros H; try discriminate H; try reflexivity; auto.
  all: try (destruct H as [H|[H|H]]; discriminate H).
  all: try (repeat (apply elem_of_cons; first [left; reflexivity|right]);
            fail).
  all: repeat (apply elem_of_cons in H as [H|H]; [discriminate H|]);
         by apply elem_of_nil in H.
Qed.

(** X3: for a candidate shift other than 'A' and 'J', a day off for
    instance, the only violations reported are an incompatibility, the
    minimum count of the band the staff member is on, and, for 'B' alone,
    the early-shift limit. *)
Theorem checks_on_a_middle_shift ctx day staffId newShift v :
  newShift ≠ PA -> newShift ≠ PJ ->
  v ∈ checkConstraints ctx day staffId newShift ->
  v = mkViolation hard INCOMPATIBLE
  \/ v = mkViolation hard MIN_COUNT_A
  \/ v = mkViolation hard MIN_COUNT_J
  \/ (newShift = PB /\ v = mkViolation soft EARLY_LIMIT).
Proof.
  intros HA HJ Hin. apply checkConstraints_inv in Hin.
  destruct Hin as [[_ [?|?]]|[[_ ?]|[[_ ?]|[->|[[_ [?|?]]|[->|[->|
                  [[-> [?|?]]|[[_ ?]|[_ ?]]]]]]]]]]; try done; auto.
Qed.

(** X4: a J_TO_A or CONSECUTIVE violation is reported exactly when the
    candidate shift would form one of the pairs ('J','A'), ('A','A') and
    ('J','J') with the shift of the previous work day or with that of the
    next one. *)
Theorem bad_pairs_are_reported ctx day staffId newShift :
  (exists v, v ∈ checkConstraints ctx day staffId newShift
             /\ (code v = J_TO_A \/ code v = CONSECUTIVE_A
                 \/ code v = CONSECUTIVE_J))
  <-> (getPreviousWorkDay ctx day ≠ 0
       /\ badPair (getShift ctx (getPreviousWorkDay ctx day) staffId)
                  newShift)
      \/ (getNextWorkDay ctx day ≠ 0
          /\ badPair newShift
                     (getShift ctx (getNextWorkDay ctx day) staffId)).
Proof.
  split.
  - intros (v & Hin & Hcode). apply elem_of_checkConstraints in Hin.
    destruct Hin as [H|[H|[H|[H|[H|[H|[H|H]]]]]]].
    + apply checkJToAViolation_Some in H as (_ & -> & Hp & E).
      left. split; [done|]. left. done.
    + apply checkAToJViolation_Some in H as (_ & -> & Hp & E).
      right. split; [done|]. left. done.
    + apply checkConsecutiveViolation_Some in H
        as (_ & Hs & [[Hp E]|[Hp E]]); [left|right]; (split; [done|]);
        rewrite E; destruct Hs as [-> | ->]; unfold badPair; auto.
    + apply checkIncompatibleViolation_code in H. subst v.
      destruct Hcode as [?|[?|?]]; discriminate.
    + apply checkWeeklyAJLimitViolation_inv in H as [-> _].
      destruct Hcode as [?|[?|?]]; discriminate.
    + apply checkMinCountViolation_code in H as [_ [E|E]];
        destruct Hcode as [?|[?|?]]; congruence.
    + apply checkEarlyLimitViolation_inv in H as [-> _].
      destruct Hcode as [?|[?|?]]; discriminate.
    + apply checkFairnessViolation_inv in H as [[-> _]|[-> _]];
        destruct Hcode as [?|[?|?]]; discriminate.
  - intros [[Hp Hbad]|[Hn Hbad]].
    + destruct Hbad as [[E ->]|[[E ->]|[E ->]]].
      * exists (mkViolation hard J_TO_A). split; [|by left].
        apply elem_of_checkConstraints. left.
        apply checkJToAViolation_Some. done.
      * exists (mkViolation hard (consecutiveCode PA)).
        split; [|right; left; done].
        apply elem_of_checkConstraints. do 2 right. left.
        apply checkConsecutiveViolation_Some. auto.
      * exists (mkViolation hard (consecutiveCode PJ)).
        split; [|right; right; done].
        apply elem_of_checkConstraints. do 2 right. left.
        apply checkConsecutiveViolation_Some. auto.
    + destruct Hbad as [[-> E]|[[-> E]|[-> E]]].
      * exists (mkViolation hard J_TO_A). split; [|by left].
        apply elem_of_checkConstraints. right. left.
        apply checkAToJViolation_Some. done.
      * exists (mkViolation hard (consecutiveCode PA)).
        split; [|right; left; done].
        apply elem_of_checkConstraints. do 2 right. left.
        apply checkConsecutiveViolation_Some. auto.
      * exists (mkViolation hard (consecutiveCode PJ)).
        split; [|right; right; done].
        apply elem_of_checkConstraints. do 2 right. left.
        apply checkConsecutiveViolation_Some. auto.
Qed.

(** *** The neighbouring work days *)

Lemma scanBack_spec (work : nat -> bool) (n : nat) :
  (scanBack work n = 0 /\ forall d, 1 <= d <= n -> work d = false)
  \/ (1 <= scanBack work n <= n /\ work (scanBack work n) = true
      /\ forall d, scanBack work n < d <= n -> work d = false).
Proof.
  induction n as [|n IH]; [left; split; [done|intros; lia]|].
  cbn [scanBack]. destruct (work (S n)) eqn:E.
  - right. split; [lia|]. split; [done|]. intros; lia.
  - destruct IH as [[E0 H]|(Hr & Hw & H)].
    + left. split; [done|]. intros d Hd.
      destruct (decide (d = S n)) as [->|]; [done|]. apply H. lia.
    + right. split; [lia|]. split; [done|]. intros d Hd.
      destruct (decide (d = S n)) as [->|]; [done|]. apply H. lia.
Qed.

Lemma scanForward_spec (work : nat -> bool) (d n : nat) :
  0 < d ->
  (scanForward work d n = 0 /\ forall x, d <= x < d + n -> work x = false)
  \/ (d <= scanForward work d n < d + n
      /\ work (scanForward work d n) = true
      /\ forall x, d <= x < scanForward work d n -> work x = false).
Proof.
  revert d. induction n as [|n IH]; intros d Hd;
    [left; split; [done|intros; lia]|].
  cbn [scanForward]. destruct (work d) eqn:E.
  - right. split; [lia|]. split; [done|]. intros; lia.
  - destruct (IH (S d)) as [[E0 H]|(Hr & Hw & H)]; [lia| |].
    + left. split; [done|]. intros x Hx.
      destruct (decide (x = d)) as [->|]; [done|]. apply H. lia.
    + right. split; [lia|]. split; [done|]. intros x Hx.
      destruct (decide (x = d)) as [->|]; [done|]. apply H. lia.
Qed.

(** X5: [getPreviousWorkDay] returns the nearest day before [day] that is
    neither a Sunday nor a listed holiday, and 0 when the month has none;
    [getNextWorkDay] returns the nearest such day after [day] up to the
    last day of the month, and 0 when there is none. *)
Theorem neighbouring_work_days ctx day :
  ((getPreviousWorkDay ctx day = 0
    /\ forall d, 1 <= d < day -> isWorkDay ctx d = false)
   \/ (1 <= getPreviousWorkDay ctx day < day
       /\ isWorkDay ctx (getPreviousWorkDay ctx day) = true
       /\ forall d, getPreviousWorkDay ctx day < d < day ->
                    isWorkDay ctx d = false))
  /\ ((getNextWorkDay ctx day = 0
       /\ forall d, day < d <= getDaysInMonth (year ctx) (month ctx) ->
                    isWorkDay ctx d = false)
      \/ (day < getNextWorkDay ctx day <= getDaysInMonth (year ctx) (month ctx)
          /\ isWorkDay ctx (getNextWorkDay ctx day) = true
          /\ forall d, day < d < getNextWorkDay ctx day ->
                       isWorkDay ctx d = false)).
Proof.
  unfold getPreviousWorkDay, getNextWorkDay. cbn zeta. split.
  - destruct (scanBack_spec (isWorkDay ctx) (day - 1))
      as [[E H]|(Hr & Hw & H)].
    + left. split; [done|]. intros d Hd. apply H. lia.
    + right. split; [lia|]. split; [done|]. intros d Hd. apply H. lia.
  - destruct (scanForward_spec (isWorkDay ctx) (day + 1)
                (getDaysInMonth (year ctx) (month ctx) - day))
      as [[E H]|(Hr & Hw & H)]; [lia| |].
    + left. split; [done|]. intros d Hd. apply H. lia.
    + right. split; [lia|]. split; [done|]. intros d Hd. apply H. lia.
Qed.

(** *** Swap suggestions *)

Lemma swapInner_length ctx day shortagePattern candidateA currentShiftA bs
    suggestions :
  length suggestions < 3 ->
  match swapInner ctx day shortagePattern candidateA currentShiftA bs
          suggestions with
  | Return r => length r = 3
  | Continue r => length r < 3
  end.
Proof.
  revert suggestions.
  induction bs as [|b bs IH]; intros acc Hacc; cbn [swapInner]; [done|].
  cbv zeta. case_decide; [by apply IH|]. case_decide; [by apply IH|].
  destruct (hasHard _); cbn [negb]; [by apply IH|].
  case_decide as Hlen; rewrite length_app in Hlen; simpl in Hlen.
  - rewrite length_app. simpl. lia.
  - apply IH. rewrite length_app. simpl. lia.
Qed.

Lemma swapOuter_length ctx day shortagePattern regularStaff azs suggestions :
  length suggestions < 3 ->
  length (swapOuter ctx day shortagePattern regularStaff azs suggestions)
  <= 3.
Proof.
  revert suggestions.
  induction azs as [|a azs IH]; intros acc Hacc; cbn [swapOuter]; [lia|].
  cbv zeta. case_decide; [by apply IH|].
  destruct (hasHard _); cbn [negb]; [by apply IH|].
  match goal with
  | |- context [swapInner ?c ?d ?p ?a ?ca ?bs acc] =>
      pose proof (swapInner_length c d p a ca bs acc Hacc) as Hin;
      destruct (swapInner c d p a ca bs acc) as [r|r]
  end; [by apply IH|lia].
Qed.

(** X6: [findSwapSuggestions] returns at most three suggestions. *)
Theorem findSwapSuggestions_at_most_three ctx day shortagePattern :
  length (findSwapSuggestions ctx day shortagePattern) <= 3.
Proof.
  unfold findSwapSuggestions. apply swapOuter_length. simpl. lia.
Qed.

Lemma swapInner_valid ctx day shortagePattern a bs suggestions :
  a ∈ staff ctx -> isEligible a ->
  getShift ctx day (id a) ∈ [PA; PB; PC; PD; PE; PJ] ->
  getShift ctx day (id a) ≠ shortagePattern ->
  hasHard (checkConstraints ctx day (id a) shortagePattern) = false ->
  (forall b, b ∈ bs -> b ∈ staff ctx /\ isEligible b) ->
  Forall (validSwap ctx day shortagePattern) suggestions ->
  match swapInner ctx day shortagePattern a (getShift ctx day (id a)) bs
          suggestions with
  | Return r | Continue r => Forall (validSwap ctx day shortagePattern) r
  end.
Proof.
  intros Ha Hea Hband Hne Hcan. revert suggestions.
  induction bs as [|b bs IH]; intros acc Hbs Hacc; cbn [swapInner];
    [done|].
  assert (forall x, x ∈ bs -> x ∈ staff ctx /\ isEligible x) as Hbs'.
  { intros x Hx. apply Hbs. by right. }
  destruct (Hbs b) as [Hb Heb]; [by left|].
  cbv zeta. case_decide as Hid; [by apply IH|].
  change (orEmpty (cellAt (schedule ctx)
            (getFormattedDate (year ctx) (month ctx) day) (id b)))
    with (getShift ctx day (id b)).
  case_decide as Hskip; [by apply IH|].
  destruct (hasHard (checkConstraints ctx day (id b)
                       (getShift ctx day (id a)))) eqn:Eh; cbn [negb];
    [by apply IH|].
  match goal with
  | |- context [acc ++ [?sg]] =>
      assert (Forall (validSwap ctx day shortagePattern) (acc ++ [sg]))
        as Hacc'
  end.
  { apply Forall_app. split; [done|]. apply Forall_singleton.
    exists a, b. cbn [staffA staffB].
    repeat (split; [done|]).
    split; [intros E; apply Hskip; auto|].
    split; [intros E; apply Hskip; auto|].
    split; [intros E; apply Hskip; auto|]. done. }
  case_decide; [done|]. by apply IH.
Qed.

Lemma swapOuter_valid ctx day shortagePattern regularStaff azs suggestions :
  (forall s, s ∈ regularStaff -> s ∈ staff ctx /\ isEligible s) ->
  (forall s, s ∈ azs -> s ∈ staff ctx /\ isEligible s) ->
  Forall (validSwap ctx day shortagePattern) suggestions ->
  Forall (validSwap ctx day shortagePattern)
    (swapOuter ctx day shortagePattern regularStaff azs suggestions).
Proof.
  intros Hreg. revert suggestions.
  induction azs as [|a azs IH]; intros acc Hazs Hacc; cbn [swapOuter];
    [done|].
  assert (forall x, x ∈ azs -> x ∈ staff ctx /\ isEligible x) as Hazs'.
  { intros x Hx. apply Hazs. by right. }
  destruct (Hazs a) as [Ha Hea]; [by left|].
  cbv zeta.
  change (orEmpty (cellAt (schedule ctx)
            (getFormattedDate (year ctx) (month ctx) day) (id a)))
    with (getShift ctx day (id a)).
  case_decide as Hskip; [by apply IH|].
  destruct (hasHard (checkConstraints ctx day (id a) shortagePattern))
    eqn:Eh; cbn [negb]; [by apply IH|].
  assert (getShift ctx day (id a) ∈ [PA; PB; PC; PD; PE; PJ]) as Hband.
  { clear -Hskip. destruct (getShift ctx day (id a));
      try (exfalso; apply Hskip; auto; fail);
      repeat (apply elem_of_cons; first [left; reflexivity|right]). }
  pose proof (swapInner_valid ctx day shortagePattern a regularStaff acc
                Ha Hea Hband (fun E => Hskip (or_introl E)) Eh Hreg Hacc)
    as H.
  destruct (swapInner _ _ _ _ _ _ _) as [r|r]; [by apply IH|done].
Qed.

(** X7: every suggestion of [findSwapSuggestions] names two eligible staff
    members of the roster with different ids and their shifts of the day;
    the first is on a work band other than the short one and may take the
    short one with no hard violation, the second is on neither '有' nor '振'
    nor on the band of the first and may take that band with no hard
    violation. *)
Theorem findSwapSuggestions_sound ctx day shortagePattern sg :
  sg ∈ findSwapSuggestions ctx day shortagePattern ->
  validSwap ctx day shortagePattern sg.
Proof.
  unfold findSwapSuggestions. cbn zeta.
  assert (forall s, s ∈ filter isEligible (staff ctx) ->
                    s ∈ staff ctx /\ isEligible s) as Hreg.
  { intros s Hs. apply list_elem_of_filter in Hs. tauto. }
  pose proof (swapOuter_valid ctx day shortagePattern _ _ [] Hreg Hreg
                (Forall_nil_2 _)) as H.
  rewrite Forall_forall in H. apply H.
Qed.

(** *** The preview of a change *)

Lemma hasHard_filter vs :
  hasHard vs = false <-> filter (fun v => vtype v = hard) vs = [].
Proof.
  unfold hasHard. induction vs as [|v vs IH]; [done|].
  cbn [existsb]. rewrite filter_cons, orb_false_iff, IH.
  case_decide as Hv.
  - rewrite bool_decide_eq_false. split; [intros [? _]; done|done].
  - rewrite bool_decide_eq_false. split; [by intros [_ ?]|done].
Qed.

Lemma isAllowed_hasHard ctx day staffId newShift :
  isAllowed (getImpactPreview ctx day staffId newShift)
  = negb (hasHard (checkConstraints ctx day staffId newShift)).
Proof.
  unfold getImpactPreview. cbn [isAllowed].
  destruct (hasHard _) eqn:Eh; cbn [negb].
  - apply bool_decide_eq_false. intros El.
    apply length_zero_iff_nil, hasHard_filter in El. congruence.
  - apply bool_decide_eq_true. apply hasHard_filter in Eh. by rewrite Eh.
Qed.

(** X8: for every candidate [evaluateCandidates] returns for a shift, the
    preview [getImpactPreview] gives for that staff member and shift lists
    the same violations, and allows the change exactly when the candidate
    is assignable. *)
Theorem getImpactPreview_matches_candidates ctx day targetShift c :
  c ∈ evaluateCandidates ctx day targetShift ->
  preview_violations (getImpactPreview ctx day (staffId c) targetShift)
  = violations c
  /\ isAllowed (getImpactPreview ctx day (staffId c) targetShift)
     = isAssignable c.
Proof.
  unfold evaluateCandidates. cbn zeta.
  rewrite jsSort_elem_of, evaluateOne_isCandidate, list_elem_of_fmap.
  intros (s & -> & _). split; [done|]. apply isAllowed_hasHard.
Qed.

(** *** Shortages *)

Lemma elem_of_findShortages ctx day sh :
  sh ∈ findShortages ctx day <->
  (sh = mkShortage PA (countDayPattern ctx day PA) 2
   /\ countDayPattern ctx day PA < 2)
  \/ (sh = mkShortage PJ (countDayPattern ctx day PJ) 2
      /\ countDayPattern ctx day PJ < 2).
Proof.
  unfold findShortages, countDayPattern. cbn [omap list_omap].
  destruct (decide (countRow PA _ < 2)) as [Ha|Ha];
    destruct (decide (countRow PJ _ < 2)) as [Hj|Hj];
    rewrite ?elem_of_cons, elem_of_nil; split.
  all: try (intros [->|[->|[]]]; auto; fail).
  all: try (intros [->|[]]; auto; fail).
  all: try (intros []; fail).
  all: intros [[-> G]|[-> G]]; auto; contradiction.
Qed.

(** Some violation with a minimum-count code is reported exactly when the
    staff member is on 'A' or 'J' and that band holds at most two. *)
Lemma min_count_reported ctx day staffId newShift :
  (exists v, v ∈ checkConstraints ctx day staffId newShift
             /\ (code v = MIN_COUNT_A \/ code v = MIN_COUNT_J))
  <-> (getShift ctx day staffId = PA \/ getShift ctx day staffId = PJ)
      /\ countDayPattern ctx day (getShift ctx day staffId) <= 2.
Proof.
  split.
  - intros (v & Hin & Hcode). apply elem_of_checkConstraints in Hin.
    destruct Hin as [H|[H|[H|[H|[H|[H|[H|H]]]]]]].
    + apply checkJToAViolation_code in H. destruct Hcode; congruence.
    + apply checkAToJViolation_code in H. destruct Hcode; congruence.
    + apply checkConsecutiveViolation_code in H.
      destruct H, Hcode; congruence.
    + apply checkIncompatibleViolation_code in H. subst v.
      destruct Hcode; discriminate.
    + apply checkWeeklyAJLimitViolation_code in H.
      destruct Hcode; congruence.
    + apply checkMinCountViolation_Some in H.
      destruct H as [(E & Hc & _)|(E & Hc & _)]; rewrite E; auto.
    + apply checkEarlyLimitViolation_code in H. destruct Hcode; congruence.
    + apply checkFairnessViolation_code in H. destruct H, Hcode; congruence.
  - intros [[E|E] Hc]; rewrite E in Hc.
    + exists (mkViolation hard MIN_COUNT_A). split; [|by left].
      apply elem_of_checkConstraints. do 5 right. left.
      apply checkMinCountViolation_Some. by left.
    + exists (mkViolation hard MIN_COUNT_J). split; [|by right].
      apply elem_of_checkConstraints. do 5 right. left.
      apply checkMinCountViolation_Some. by right.
Qed.

(** X9: a staff member on a band that [findShortages] lists as short
    cannot be moved: for every candidate shift [checkConstraints] reports a
    hard minimum-count violation, so that neither [evaluateCandidates] nor
    [findSwapSuggestions] ever proposes to take the member off that band. *)
Theorem short_band_is_locked ctx day sh staffId newShift :
  sh ∈ findShortages ctx day ->
  getShift ctx day staffId = pattern sh ->
  hasHard (checkConstraints ctx day staffId newShift) = true.
Proof.
  intros Hsh Hon.
  assert ((getShift ctx day staffId = PA \/ getShift ctx day staffId = PJ)
          /\ countDayPattern ctx day (getShift ctx day staffId) <= 2) as H.
  { apply elem_of_findShortages in Hsh as [[-> H]|[-> H]];
      simpl in Hon; rewrite Hon; split; auto; lia. }
  apply min_count_reported with (newShift := newShift) in H
    as (v & Hin & Hcode).
  unfold hasHard. apply existsb_exists. exists v.
  split; [by apply list_elem_of_In|]. apply bool_decide_eq_true.
  apply elem_of_checkConstraints in Hin.
  destruct Hin as [G|[G|[G|[G|[G|[G|[G|G]]]]]]].
  - by apply checkJToAViolation_Some in G as (-> & _).
  - by apply checkAToJViolation_Some in G as (-> & _).
  - by apply checkConsecutiveViolation_Some in G as (-> & _).
  - by apply checkIncompatibleViolation_code in G as ->.
  - by apply checkWeeklyAJLimitViolation_inv in G as [-> _].
  - by apply checkMinCountViolation_code in G as [? _].
  - apply checkEarlyLimitViolation_inv in G as [-> _].
    destruct Hcode; discriminate.
  - apply checkFairnessViolation_inv in G as [[-> _]|[-> _]];
      destruct Hcode; discriminate.
Qed.

(** X10: the two staff members of a suggested swap are assignable
    candidates in the sense of [evaluateCandidates]: the first for the band
    that is short, the second for the band of the first, each with the
    shift the suggestion shows. *)
Theorem suggested_staff_are_assignable_candidates ctx day shortagePattern
    sg :
  sg ∈ findSwapSuggestions ctx day shortagePattern ->
  (exists c, c ∈ evaluateCandidates ctx day shortagePattern
             /\ staffId c = party_id (staffA sg)
             /\ currentShift c = party_currentShift (staffA sg)
             /\ isAssignable c = true)
  /\ (exists c, c ∈ evaluateCandidates ctx day
                     (party_currentShift (staffA sg))
                /\ staffId c = party_id (staffB sg)
                /\ currentShift c = party_currentShift (staffB sg)
                /\ isAssignable c = true).
Proof.
  unfold findSwapSuggestions. cbn zeta. intros Hsg.
  assert (forall s, s ∈ filter isEligible (staff ctx) ->
                    s ∈ staff ctx /\ isEligible s) as Hreg.
  { intros s Hs. apply list_elem_of_filter in Hs. clear -Hs. tauto. }
  pose proof (swapOuter_valid ctx day shortagePattern _ _ [] Hreg Hreg
                (Forall_nil_2 _)) as H.
  rewrite Forall_forall in H. apply H in Hsg. clear H.
  destruct Hsg as (a & b & Ha & Hb & Hea & Heb & _ & -> & -> & Hband & Hne
                   & Hcan & Hy & Hf & Hab & Hcan').
  cbn [party_id party_currentShift].
  assert (forall target s,
            s ∈ staff ctx -> isCandidate ctx day target s ->
            evaluation ctx day target s ∈ evaluateCandidates ctx day target)
    as Hin.
  { intros target s Hs Hc. unfold evaluateCandidates. cbn zeta.
    rewrite jsSort_elem_of, evaluateOne_isCandidate.
    apply list_elem_of_fmap_2. by apply list_elem_of_filter. }
  split.
  - exists (evaluation ctx day shortagePattern a). split.
    + apply Hin; [done|]. split; [done|]. split; [done|].
      clear -Hband. split; intros E; rewrite E in Hband;
        repeat (apply elem_of_cons in Hband as [Hband|Hband];
                [discriminate Hband|]); by apply elem_of_nil in Hband.
    + cbn. by rewrite Hcan.
  - exists (evaluation ctx day (getShift ctx day (id a)) b). split.
    + apply Hin; [done|]. by split.
    + cbn. by rewrite Hcan'.
Qed.

(** *** Fairness *)

Lemma foldl_add_shift (a : nat) (l : list nat) :
  foldl Nat.add a l = a + foldl Nat.add 0 l.
Proof.
  revert a. induction l as [|x l IH]; intros a; simpl; [lia|].
  rewrite (IH (a + x)), (IH x). lia.
Qed.

Lemma sum_bounded_below (m : nat) (l : list nat) :
  Forall (fun c => m <= c + 1) l ->
  m * length l <= foldl Nat.add 0 l + length l.
Proof.
  induction 1 as [|c l Hc Hl IH]; simpl; [lia|].
  rewrite foldl_add_shift. lia.
Qed.

(** X11: a fairness violation is reported for a staff member and a shift
    only when some regular staff member has at least two fewer of that
    shift in the month. *)
Theorem fairness_needs_a_gap ctx day staffId shift v :
  v ∈ checkConstraints ctx day staffId shift ->
  code v = FAIRNESS_A \/ code v = FAIRNESS_J ->
  exists s, s ∈ staff ctx /\ shiftType s = regular
            /\ countMonthlyPattern ctx (id s) shift + 2
               <= countMonthlyPattern ctx staffId shift.
Proof.
  intros Hin Hcode. apply elem_of_checkConstraints in Hin.
  destruct Hin as [H|[H|[H|[H|[H|[H|[H|H]]]]]]].
  - apply checkJToAViolation_code in H. destruct Hcode; congruence.
  - apply checkAToJViolation_code in H. destruct Hcode; congruence.
  - apply checkConsecutiveViolation_code in H.
    destruct H, Hcode; congruence.
  - apply checkIncompatibleViolation_code in H. subst v.
    destruct Hcode; discriminate.
  - apply checkWeeklyAJLimitViolation_code in H. destruct Hcode; congruence.
  - apply checkMinCountViolation_code in H as [_ [?|?]];
      destruct Hcode; congruence.
  - apply checkEarlyLimitViolation_code in H. destruct Hcode; congruence.
  - clear Hcode. revert H. unfold checkFairnessViolation.
    case_decide; [done|]. cbn zeta. case_decide; [done|].
    destruct (findStaff _ _) as [t|]; [|done].
    case_decide; [done|]. case_decide as Hgap; [|done]. intros _.
    rewrite length_map in Hgap.
    set (m := countMonthlyPattern ctx staffId shift) in *.
    destruct (decide (Forall (fun s => m <= countMonthlyPattern ctx (id s)
                                              shift + 1)
                        (filter (fun s => shiftType s = regular)
                                (staff ctx)))) as [Hall|Hsome].
    + exfalso.
      assert (Forall (fun c => m <= c + 1)
                (map (fun s => countMonthlyPattern ctx (id s) shift)
                   (filter (fun s => shiftType s = regular) (staff ctx))))
        as Hall'.
      { apply Forall_forall. intros c Hc.
        apply list_elem_of_In, in_map_iff in Hc as (s & <- & Hs).
        rewrite Forall_forall in Hall. apply Hall.
        by apply list_elem_of_In. }
      apply sum_bounded_below in Hall'. rewrite length_map in Hall'. lia.
    + apply not_Forall_Exists in Hsome; [|apply _].
      apply Exists_exists in Hsome as (s & Hs & Hlt).
      apply list_elem_of_filter in Hs as [Hr Hs].
      exists s. split; [done|]. split; [done|]. simpl in Hlt. lia.
Qed.

(** * Properties of the shift generator *)

Unset Default Proof Using.

(** ** Cells and writes *)

Lemma cellAt_putCell sch k i v k' i' :
  cellAt (putCell sch k i v) k' i'
  = if decide (k = k' /\ i = i') then Some v else cellAt sch k' i'.
Proof.
  unfold cellAt, putCell. destruct (decide (k = k')) as [<-|Hk].
  - rewrite lookup_insert_eq. simpl. destruct (decide (i = i')) as [<-|Hi].
    + rewrite lookup_insert_eq. by rewrite decide_True.
    + rewrite lookup_insert_ne by done.
      rewrite decide_False by (by intros [_ ?]).
      by destruct (sch !! k).
  - rewrite lookup_insert_ne by done.
    by rewrite decide_False by (by intros [? _]).
Qed.

Lemma putCell_rows sch k i v k' :
  is_Some (sch !! k') -> is_Some (putCell sch k i v !! k').
Proof.
  unfold putCell. destruct (decide (k = k')) as [<-|Hk].
  - rewrite lookup_insert_eq. eauto.
  - by rewrite lookup_insert_ne.
Qed.

Lemma cellAt_ensureRow sch k k' i :
  cellAt (ensureRow sch k) k' i = cellAt sch k' i.
Proof.
  unfold ensureRow, cellAt. case_decide as Hn; [|done].
  destruct (decide (k = k')) as [<-|Hk].
  - rewrite lookup_insert_eq, Hn. done.
  - by rewrite lookup_insert_ne.
Qed.

Lemma ensureRow_rows sch k k' :
  is_Some (sch !! k') -> is_Some (ensureRow sch k !! k').
Proof.
  unfold ensureRow. case_decide as Hn; [|done].
  destruct (decide (k = k')) as [<-|Hk].
  - rewrite Hn. by intros [? ?].
  - by rewrite lookup_insert_ne.
Qed.

Lemma cellAt_row sch k i : is_Some (cellAt sch k i) -> is_Some (sch !! k).
Proof. unfold cellAt. destruct (sch !! k); [eauto|]. by intros [? ?]. Qed.

(** ** [extends] and [calm] are preorders *)

#[local] Instance extends_refl : Reflexive extends.
Proof. intros sch. by constructor. Qed.

#[local] Instance extends_trans : Transitive extends.
Proof.
  intros a b c [R1 C1 L1] [R2 C2 L2]. constructor.
  - intros k H. by apply R2, R1.
  - intros k i H. by apply C2, C1.
  - intros k i v Hv H. apply L2; [done|]. by apply L1.
Qed.

#[local] Instance calm_refl : Reflexive calm.
Proof. by intros sch k i _. Qed.

#[local] Instance calm_trans : Transitive calm.
Proof.
  intros a b c H1 H2 k i Hc. rewrite (H2 k i Hc) in Hc |- *. by apply H1.
Qed.

(** The one way a cell is written: [putCell] on a cell that holds neither
    '有' nor '振'. *)
Lemma putCell_extends sch k i v :
  cellAt sch k i ≠ Some Yukyu -> cellAt sch k i ≠ Some Furikyu ->
  extends sch (putCell sch k i v).
Proof.
  intros H1 H2. constructor.
  - intros k'. apply putCell_rows.
  - intros k' i'. rewrite cellAt_putCell. case_decide; eauto.
  - intros k' i' w Hw Hc. rewrite cellAt_putCell.
    case_decide as Hki; [|done]. destruct Hki as [<- <-].
    destruct Hw; congruence.
Qed.

Lemma ensureRow_extends sch k : extends sch (ensureRow sch k).
Proof.
  constructor.
  - intros k'. apply ensureRow_rows.
  - intros k' i. by rewrite cellAt_ensureRow.
  - intros k' i v _. by rewrite cellAt_ensureRow.
Qed.

Lemma putCell_calm sch k i v : v ≠ PA -> v ≠ PJ -> calm sch (putCell sch k i v).
Proof.
  intros HA HJ k' i'. rewrite cellAt_putCell. case_decide; [|done].
  intros [?|?]; congruence.
Qed.

Lemma ensureRow_calm sch k : calm sch (ensureRow sch k).
Proof. intros k' i _. by rewrite cellAt_ensureRow. Qed.

(** Folding steps that each stay within a preorder stays within it. *)
Lemma foldl_preorder {S A : Type} (R : relation S) `{!PreOrder R}
    (f : S -> A -> S) (l : list A) (st : S) :
  (forall st x, x ∈ l -> R st (f st x)) -> R st (foldl f st l).
Proof.
  revert st. induction l as [|x l IH]; intros st Hf; simpl; [done|].
  transitivity (f st x).
  - apply Hf. by left.
  - apply IH. intros st' y Hy. apply Hf. by right.
Qed.

#[local] Instance extends_preorder : PreOrder extends.
Proof. split; apply _. Qed.

#[local] Instance calm_preorder : PreOrder calm.
Proof. split; apply _. Qed.

Section GeneratorFacts.

Variable this : ShiftGenerator.

(** ** [setShift] *)

(** A cell after [setShift] is the cell before, or the one written. *)
Lemma cellAt_setShift d i v sch k' i' :
  cellAt (setShift this d i v sch) k' i' = cellAt sch k' i'
  \/ (k' = dateOf this d /\ i' = i
      /\ cellAt (setShift this d i v sch) k' i' = Some v
      /\ cellAt sch k' i' ≠ Some Yukyu /\ cellAt sch k' i' ≠ Some Furikyu).
Proof.
  unfold setShift. simpl. rewrite !cellAt_ensureRow.
  case_decide as Hp; [left; apply cellAt_ensureRow|].
  case_decide as Hg; [left; apply cellAt_ensureRow|].
  rewrite cellAt_putCell, cellAt_ensureRow.
  case_decide as Hki; [|by left]. destruct Hki as [<- <-]. right.
  repeat split; try done; intros E; apply Hp; auto.
Qed.

Lemma setShift_rows d i v sch k :
  is_Some (sch !! k) -> is_Some (setShift this d i v sch !! k).
Proof.
  intros H. unfold setShift. simpl.
  repeat case_decide; try apply putCell_rows; by apply ensureRow_rows.
Qed.

Lemma setShift_extends d i v sch : extends sch (setShift this d i v sch).
Proof.
  constructor.
  - intros k. apply setShift_rows.
  - intros k' i' H.
    destruct (cellAt_setShift d i v sch k' i') as [->|(_ & _ & -> & _)];
      eauto.
  - intros k' i' w Hw Hc.
    destruct (cellAt_setShift d i v sch k' i') as [->|(_ & _ & _ & H1 & H2)];
      [done|]. destruct Hw; congruence.
Qed.

Lemma setShift_calm d i v sch :
  v ≠ PA -> v ≠ PJ -> calm sch (setShift this d i v sch).
Proof.
  intros HA HJ k' i' Hc.
  destruct (cellAt_setShift d i v sch k' i') as [->|(_ & _ & E & _)];
    [done|]. rewrite E in Hc. destruct Hc; congruence.
Qed.

(** [setShift] does write when the cell holds neither '有' nor '振' and the
    guard for part-timers lets it pass. *)
Lemma setShift_writes d i v sch :
  cellAt sch (dateOf this d) i ≠ Some Yukyu ->
  cellAt sch (dateOf this d) i ≠ Some Furikyu ->
  ((shiftType <$> findStaff (this_staff this) i) ≠ Some part_time
   \/ cellAt sch (dateOf this d) i = Some NoShift
   \/ cellAt sch (dateOf this d) i = Some Kokyu) ->
  cellAt (setShift this d i v sch) (dateOf this d) i = Some v.
Proof.
  intros H1 H2 H3. unfold setShift. simpl.
  rewrite !cellAt_ensureRow.
  rewrite decide_False by (intros [?|?]; done).
  rewrite decide_False by (intros (? & ? & ?); destruct H3 as [?|[?|?]]; done).
  rewrite cellAt_putCell. by rewrite decide_True.
Qed.

(** Upward closure of [monthCells]. *)
Lemma monthCells_extends sch sch' :
  extends sch sch' -> monthCells this sch -> monthCells this sch'.
Proof. intros [_ C _] H d s Hd Hs. apply C. by apply H. Qed.

(** ** Phases 1 to 3 *)

Lemma phase1_Director_extends sch : extends sch (phase1_Director this sch).
Proof.
  unfold phase1_Director. destruct (findPosition this Director); [|done].
  apply (foldl_preorder extends). intros. apply setShift_extends.
Qed.

Lemma phase2_Chief_extends sch : extends sch (phase2_Chief this sch).
Proof. unfold phase2_Chief. by destruct (findPosition this Chief). Qed.

#[local] Instance onFst_preorder {X : Type} (R : relation ShiftSchedule)
  `{!PreOrder R} : PreOrder (@onFst X R).
Proof.
  split.
  - intros st. unfold onFst. reflexivity.
  - intros a b c. unfold onFst. intros. by etransitivity.
Qed.

Lemma phase2_5_Cooking_extends sch :
  extends sch (phase2_5_Cooking this sch).
Proof.
  unfold phase2_5_Cooking. case_decide; [done|].
  apply (foldl_preorder (onFst extends) _ _ (sch, 0)).
  intros [sch' n] d _. unfold onFst. simpl.
  destruct (gen_isHoliday this d); [|destruct (isSaturday this d)]; simpl.
  - apply (foldl_preorder extends). intros. apply setShift_extends.
  - apply (foldl_preorder extends). intros st [idx c] _.
    case_decide; apply setShift_extends.
  - apply (foldl_preorder extends). intros. apply setShift_extends.
Qed.

Lemma saturdayStep_extends qualifiedRegulars st day :
  onFst extends st (saturdayStep this qualifiedRegulars st day).
Proof.
  destruct st as [sch satCounts]. unfold saturdayStep, onFst.
  match goal with
  | |- context [foldl ?f (sch, satCounts) ?l] =>
      pose proof (foldl_preorder (onFst extends) f l (sch, satCounts)) as H1;
      destruct (foldl f (sch, satCounts) l) as [sch1 satCounts1]
  end.
  simpl. transitivity sch1.
  - apply H1. intros [sch' c'] s _. unfold onFst. cbn [fst].
    destruct (bestOffDay this _ day (id s) _ None 999); cbn [fst].
    + etransitivity; apply setShift_extends.
    + apply setShift_extends.
  - apply (foldl_preorder extends). intros sch' s _.
    case_decide; [done|].
    destruct (List.find _ _); [done|]. apply setShift_extends.
Qed.

Lemma phase3_Saturday_extends sch :
  extends sch (phase3_Saturday this sch).
Proof.
  unfold phase3_Saturday.
  match goal with
  | |- context [foldl ?f (sch, ?c) ?l] =>
      apply (foldl_preorder (onFst extends) f l (sch, c))
  end.
  intros st d _. apply saturdayStep_extends.
Qed.

(** ** Loops that may raise *)

Lemma forEachO_preorder {S A : Type} (R : relation S) `{!PreOrder R}
    (I : S -> Prop) (f : S -> A -> Outcome S) (l : list A) (st : S) :
  (forall st st', R st st' -> I st -> I st') ->
  (forall st x, x ∈ l -> I st -> exists st', f st x = Done st' /\ R st st') ->
  I st -> exists st', forEachO f st l = Done st' /\ R st st'.
Proof.
  intros HI. revert st. induction l as [|x l IH]; intros st Hf Hst; simpl.
  - by exists st.
  - destruct (Hf st x) as (st1 & E1 & R1); [by left|done|].
    rewrite E1. simpl.
    destruct (IH st1) as (st2 & E2 & R2).
    + intros st' y Hy. apply Hf. by right.
    + by eapply HI.
    + exists st2. split; [done|]. by etransitivity.
Qed.

(** ** Phase 4 *)

Lemma notAssigned_done sch d assignedIds regulars :
  (forall s, s ∈ regulars -> s ∈ this_staff this) ->
  d ∈ monthDays (this_daysInMonth this) ->
  monthCells this sch ->
  exists l, notAssigned sch (dateOf this d) assignedIds regulars = Done l.
Proof.
  intros Hsub Hd Hcells. unfold notAssigned.
  destruct regulars as [|s regulars]; [by eexists|].
  destruct (cellAt_row sch (dateOf this d) (id s)) as [row ->].
  - apply Hcells; [done|]. apply Hsub. by left.
  - by eexists.
Qed.

Lemma assignLoop_extends d pattern neededCount checkWeekly candidates sch
    assignedIds count :
  extends sch
    (assignLoop this d pattern neededCount checkWeekly candidates sch
       assignedIds count).1.1.
Proof.
  revert sch assignedIds count.
  induction candidates as [|s l IH]; intros sch assignedIds count; simpl;
    [done|].
  case_decide; [done|].
  destruct (candidateBlocked _ _ _ _ _ _); [apply IH|].
  etransitivity; [apply setShift_extends|apply IH].
Qed.

Lemma assignPattern_done regulars d pattern targetCount relax sortFn st :
  (forall s, s ∈ regulars -> s ∈ this_staff this) ->
  d ∈ monthDays (this_daysInMonth this) ->
  monthCells this st.1 ->
  exists st',
    assignPattern this regulars d pattern targetCount relax sortFn st
      = Done st'
    /\ extends st.1 st'.1.
Proof.
  intros Hsub Hd Hcells. destruct st as [sch assignedIds].
  unfold assignPattern. cbn [fst] in *.
  case_decide; [by eexists|].
  destruct (notAssigned_done sch d assignedIds regulars) as [l ->];
    [done..|].
  cbn [mbind Outcome_bind].
  match goal with
  | |- context [assignLoop this d pattern ?n ?w ?c sch assignedIds 0] =>
      pose proof (assignLoop_extends d pattern n w c sch assignedIds 0) as X1;
      destruct (assignLoop this d pattern n w c sch assignedIds 0)
        as [[sch1 ids1] count1]
  end.
  cbn [fst] in X1.
  destruct (bool_decide _ && negb relax); [|by eexists].
  destruct (notAssigned_done sch1 d ids1 regulars) as [l' ->]; [done..| |].
  { by eapply monthCells_extends. }
  cbn [mbind Outcome_bind].
  match goal with
  | |- context [assignLoop this d pattern ?n ?w ?c sch1 ids1 count1] =>
      pose proof (assignLoop_extends d pattern n w c sch1 ids1 count1) as X2;
      destruct (assignLoop this d pattern n w c sch1 ids1 count1)
        as [[sch2 ids2] count2]
  end.
  cbn [fst] in X2. eexists. split; [done|]. cbn [fst]. by etransitivity.
Qed.

Lemma regularWeekday_done regulars sch d :
  (forall s, s ∈ regulars -> s ∈ this_staff this) ->
  d ∈ monthDays (this_daysInMonth this) ->
  monthCells this sch ->
  exists sch',
    regularWeekday this regulars sch d = Done sch' /\ extends sch sch'.
Proof.
  intros Hsub Hd Hcells. unfold regularWeekday.
  destruct (gen_isHoliday this d || isSaturday this d); [by eexists|].
  cbn zeta.
  assert (forall st0 p1 n1 f1 p2 n2 f2,
    monthCells this st0.1 ->
    exists st2,
      (st ← assignPattern this regulars d p1 n1 false f1 st0;
       assignPattern this regulars d p2 n2 false f2 st) = Done st2
      /\ extends st0.1 st2.1) as Htwo.
  { intros st0 p1 n1 f1 p2 n2 f2 H0.
    destruct (assignPattern_done regulars d p1 n1 false f1 st0)
      as (st1 & -> & X1); [done..|].
    cbn [mbind Outcome_bind].
    destruct (assignPattern_done regulars d p2 n2 false f2 st1)
      as (st2 & -> & X2); [done..| |].
    { by eapply monthCells_extends. }
    exists st2. split; [done|]. by etransitivity. }
  match goal with
  | |- context [mbind ?k (if ?c then ?a else ?b)] =>
      assert (exists st2, (if c then a else b) = Done st2
                          /\ extends sch st2.1) as (st2 & -> & X2)
  end.
  { destruct (_ && _); apply (Htwo (sch, ∅)); done. }
  cbn [mbind Outcome_bind].
  assert (monthCells this st2.1) as H2 by by eapply monthCells_extends.
  destruct (assignPattern_done regulars d PD 1 false None st2)
    as (st3 & -> & X3); [done..|].
  cbn [mbind Outcome_bind].
  assert (monthCells this st3.1) as H3 by by eapply monthCells_extends.
  destruct (assignPattern_done regulars d PE 1 false None st3)
    as (st4 & -> & X4); [done..|].
  cbn [mbind Outcome_bind].
  assert (monthCells this st4.1) as H4 by by eapply monthCells_extends.
  destruct (assignPattern_done regulars d PC 1 false None st4)
    as (st5 & -> & X5); [done..|].
  cbn [mbind Outcome_bind].
  assert (monthCells this st5.1) as H5 by by eapply monthCells_extends.
  destruct st5 as [sch5 ids5]. cbn [fst] in *.
  destruct (notAssigned_done sch5 d ids5 regulars) as [l ->]; [done..|].
  cbn [mbind Outcome_bind]. eexists. split; [done|].
  do 4 (etransitivity; [eassumption|]).
  apply (foldl_preorder extends). intros. apply setShift_extends.
Qed.

Lemma phase4_RegularWeekday_done sch :
  monthCells this sch ->
  exists sch', phase4_RegularWeekday this sch = Done sch' /\ extends sch sch'.
Proof.
  intros Hcells. unfold phase4_RegularWeekday.
  apply (forEachO_preorder extends (monthCells this)); [|
    |done].
  - intros ? ? ?. by apply monthCells_extends.
  - intros st d Hd Hst. apply regularWeekday_done; [|done..].
    intros s Hs. apply list_elem_of_In in Hs. apply filter_In in Hs.
    apply list_elem_of_In. tauto.
Qed.

(** ** Phase 4.5 *)

Lemma lateMove_extends (b : bool) d r sch0 sch1 :
  extends sch0 sch1 ->
  extends sch0
    (if b then
       match lateCandidate this sch1 d r with
       | Some candidate => setShift this d (id candidate) PD sch1
       | None => sch1
       end
     else sch1).
Proof.
  intros H. destruct b; [|done].
  destruct (lateCandidate _ _ _ _); [|done].
  etransitivity; [exact H|apply setShift_extends].
Qed.

Lemma phase4_5_LateShiftCoverage_extends sch :
  extends sch (phase4_5_LateShiftCoverage this sch).
Proof.
  apply (foldl_preorder extends). intros sch' d _. unfold lateShiftDay.
  destruct (_ || _); [done|]. cbn zeta.
  apply lateMove_extends, lateMove_extends. reflexivity.
Qed.

(** ** Phase 6 *)

Lemma pullLoop_extends d pattern minimum candidates sch currentCount :
  extends sch (pullLoop this d pattern minimum candidates sch currentCount).
Proof.
  revert sch currentCount.
  induction candidates as [|s l IH]; intros sch currentCount; simpl; [done|].
  case_decide; [done|].
  destruct (candidateBlocked _ _ _ _ _ _); [apply IH|].
  etransitivity; [apply setShift_extends|apply IH].
Qed.

Lemma patternMinimum_extends d sch pattern :
  extends sch (patternMinimum this d sch pattern).
Proof.
  unfold patternMinimum. case_decide; [|done]. apply pullLoop_extends.
Qed.

(** A filter that lets through less, and not some member it let through
    before, is strictly shorter. *)
Lemma filter_length_lt {A : Type} (p q : A -> bool) (l : list A) (c : A) :
  (forall x, x ∈ l -> q x = true -> p x = true) ->
  c ∈ l -> p c = true -> q c = false ->
  length (List.filter q l) < length (List.filter p l).
Proof.
  intros Hqp Hc Hpc Hqc.
  assert (forall l' : list A, (forall x, x ∈ l' -> q x = true -> p x = true) ->
            length (List.filter q l') <= length (List.filter p l')) as Hle.
  { induction l' as [|x l' IH]; intros H; simpl; [done|].
    assert (length (List.filter q l') <= length (List.filter p l')) as IH'.
    { apply IH. intros y Hy. apply H. by right. }
    destruct (q x) eqn:Eq.
    - rewrite (H x) by (done || by left). simpl. lia.
    - destruct (p x); simpl; lia. }
  induction l as [|x l IH]; [by apply elem_of_nil in Hc|].
  apply elem_of_cons in Hc as [<-|Hc]; simpl.
  - rewrite Hpc, Hqc. simpl.
    assert (length (List.filter q l) <= length (List.filter p l)); [|lia].
    apply Hle. intros y Hy. apply Hqp. by right.
  - assert (length (List.filter q l) < length (List.filter p l)) as IH'.
    { apply IH; [|done]. intros y Hy. apply Hqp. by right. }
    destruct (q x) eqn:Eq.
    + rewrite (Hqp x) by (done || by left). simpl. lia.
    + destruct (p x); simpl; lia.
Qed.

Lemma gen_getShift_NoShift sch d i :
  is_Some (cellAt sch (dateOf this d) i) ->
  gen_getShift this sch d i = NoShift ->
  cellAt sch (dateOf this d) i = Some NoShift.
Proof.
  unfold gen_getShift, orEmpty. intros [v ->]. simpl. by intros ->.
Qed.

Lemma topUpShift_working sch d candidate :
  topUpShift this sch d candidate ≠ NoShift.
Proof.
  unfold topUpShift.
  destruct (isEarlyShiftLimitExceeded _ _ _);
    destruct (hasIncompatibleConflict _ _ _ _ _); repeat case_decide; done.
Qed.

(** Each turn of the [while (true)] of phase 6 gives a shift to a staff
    member who had none, so there are fewer left to pull in. *)
Lemma availableStaff_shrinks sch d candidate :
  d ∈ monthDays (this_daysInMonth this) ->
  monthCells this sch ->
  candidate ∈ availableStaff this sch d ->
  length (availableStaff this
            (setShift this d (id candidate)
               (topUpShift this sch d candidate) sch) d)
  < length (availableStaff this sch d).
Proof.
  intros Hd Hcells Hc. unfold availableStaff in *.
  apply list_elem_of_In, filter_In in Hc as [Hin Hc].
  apply list_elem_of_In in Hin.
  rewrite !andb_true_iff, !bool_decide_eq_true in Hc.
  destruct Hc as [[[Hempty Hcook] Hpart] Hdir].
  assert (cellAt sch (dateOf this d) (id candidate) = Some NoShift) as Hcell.
  { apply gen_getShift_NoShift; [|done]. by apply Hcells. }
  assert (cellAt (setShift this d (id candidate)
                    (topUpShift this sch d candidate) sch)
            (dateOf this d) (id candidate)
          = Some (topUpShift this sch d candidate)) as Hnew.
  { apply setShift_writes; rewrite Hcell; auto; done. }
  apply (filter_length_lt _ _ _ candidate); [|done| |].
  - intros x Hx. rewrite !andb_true_iff, !bool_decide_eq_true.
    intros [[[Hx1 ?] ?] ?]. repeat split; try done.
    unfold gen_getShift in *.
    destruct (cellAt_setShift d (id candidate)
                (topUpShift this sch d candidate) sch
                (dateOf this d) (id x)) as [E|(_ & _ & E & _)].
    + by rewrite <- E.
    + rewrite E in Hx1. simpl in Hx1.
      by apply topUpShift_working in Hx1.
  - rewrite !andb_true_iff, !bool_decide_eq_true. done.
  - apply andb_false_iff. left. apply andb_false_iff. left.
    apply andb_false_iff. left. apply bool_decide_eq_false.
    unfold gen_getShift. rewrite Hnew. simpl. apply topUpShift_working.
Qed.

Lemma totalTopUp_done fuel d sch :
  d ∈ monthDays (this_daysInMonth this) ->
  monthCells this sch ->
  length (availableStaff this sch d) < fuel ->
  exists sch', totalTopUp this fuel d sch = Done sch' /\ extends sch sch'.
Proof.
  intros Hd. revert sch.
  induction fuel as [|fuel IH]; intros sch Hcells Hfuel; [lia|].
  simpl. case_decide; [by eexists|]. case_decide as Hlen; [by eexists|].
  destruct (jsSort (sortByBurden this sch) (availableStaff this sch d))
    as [|candidate rest] eqn:Es.
  { apply (f_equal length) in Es. rewrite jsSort_length in Es. done. }
  assert (candidate ∈ availableStaff this sch d) as Hc.
  { apply (jsSort_elem_of (sortByBurden this sch)). rewrite Es. by left. }
  pose proof (availableStaff_shrinks sch d candidate Hd Hcells Hc) as Hlt.
  destruct (IH (setShift this d (id candidate)
                  (topUpShift this sch d candidate) sch))
    as (sch' & E & X).
  - eapply monthCells_extends; [apply setShift_extends|done].
  - lia.
  - exists sch'. split; [done|].
    etransitivity; [apply setShift_extends|done].
Qed.

Lemma availableStaff_length sch d :
  length (availableStaff this sch d) <= length (this_staff this).
Proof. unfold availableStaff. apply List.filter_length_le. Qed.

Lemma phase6_MinCountAdjustment_done fuel sch :
  length (this_staff this) < fuel ->
  monthCells this sch ->
  exists sch',
    phase6_MinCountAdjustment this fuel sch = Done sch' /\ extends sch sch'.
Proof.
  intros Hfuel Hcells. unfold phase6_MinCountAdjustment.
  apply (forEachO_preorder extends (monthCells this)); [| |done].
  - intros ? ? ?. by apply monthCells_extends.
  - intros st d Hd Hst. unfold minCountDay.
    destruct (_ || _); [by eexists|].
    assert (extends st (foldl (patternMinimum this d) st SHIFT_PATTERNS))
      as X1.
    { apply (foldl_preorder extends). intros. apply patternMinimum_extends. }
    destruct (totalTopUp_done fuel d
                (foldl (patternMinimum this d) st SHIFT_PATTERNS))
      as (sch' & E & X2); [done| | |].
    + by eapply monthCells_extends.
    + pose proof (availableStaff_length
                    (foldl (patternMinimum this d) st SHIFT_PATTERNS) d).
      lia.
    + exists sch'. split; [done|]. by etransitivity.
Qed.

(** ** Phase 7 *)

(** The direct assignment of phase 7 lands on a cell that holds 'B'. *)
Lemma tryReassignBStaff_done d pattern minimum sch :
  exists r,
    tryReassignBStaff this d pattern minimum sch = Done r
    /\ extends sch r.2.
Proof.
  unfold tryReassignBStaff. case_decide; [by eexists|]. cbn zeta.
  match goal with
  | |- context [List.find ?f ?l] => destruct (List.find f l) as [s|] eqn:Ef
  end; [|by eexists].
  apply find_some in Ef as [Hin _].
  apply list_elem_of_In, jsSort_elem_of, list_elem_of_In, filter_In in Hin
    as [_ Hb].
  repeat case_decide; try done. apply bool_decide_eq_true in Hb.
  unfold assignCell.
  destruct (cellAt_row sch (dateOf this d) (id s)) as [row Hrow];
    [by rewrite Hb|].
  rewrite Hrow. cbn [mbind Outcome_bind]. eexists. split; [done|].
  cbn [snd].
  replace (<[dateOf this d:=<[id s:=pattern]> row]> sch)
    with (putCell sch (dateOf this d) (id s) pattern)
    by (unfold putCell; by rewrite Hrow).
  apply putCell_extends; by rewrite Hb.
Qed.

Lemma assignIfShort_done chief d pattern minimum st :
  exists r,
    assignIfShort this chief d pattern minimum st = Done r
    /\ extends st.1 r.2.1.
Proof.
  destruct st as [sch backupCount]. unfold assignIfShort.
  destruct (tryReassignBStaff_done d pattern minimum sch)
    as ([reassigned sch1] & -> & X1).
  cbn [mbind Outcome_bind fst snd] in *.
  destruct reassigned; [by eexists|].
  case_decide; [|by eexists].
  destruct (_ && _); eexists; (split; [done|]); cbn [fst snd]; [done|].
  etransitivity; [exact X1|apply setShift_extends].
Qed.

Lemma orElse_done (first : Outcome (bool * (ShiftSchedule * nat)))
    (rest : ShiftSchedule * nat -> Outcome (ShiftSchedule * nat))
    (sch : ShiftSchedule) :
  (exists r, first = Done r /\ extends sch r.2.1) ->
  (forall st, extends sch st.1 ->
              exists st', rest st = Done st' /\ extends sch st'.1) ->
  exists st', orElse first rest = Done st' /\ extends sch st'.1.
Proof.
  intros ([assigned st] & -> & X) Hrest. unfold orElse.
  cbn [mbind Outcome_bind fst snd] in *.
  destruct assigned; [by eexists|]. by apply Hrest.
Qed.

Lemma chiefDay_done chief st d :
  exists st', chiefDay this chief st d = Done st' /\ extends st.1 st'.1.
Proof.
  destruct st as [sch backupCount]. unfold chiefDay. cbn [fst].
  destruct (gen_isHoliday this d).
  { eexists. split; [done|]. apply setShift_extends. }
  destruct (isSaturday this d); [by eexists|].
  case_decide.
  { case_decide; eexists; (split; [done|]); [apply setShift_extends|done]. }
  assert (forall p n st0, extends sch st0.1 ->
            exists r, assignIfShort this chief d p n st0 = Done r
                      /\ extends sch r.2.1) as Hstep.
  { intros p n st0 X0.
    destruct (assignIfShort_done chief d p n st0) as (r & E & X).
    exists r. split; [done|]. by etransitivity. }
  apply orElse_done; [by apply Hstep|]. intros st1 X1.
  apply orElse_done; [by apply Hstep|]. intros st2 X2.
  apply orElse_done; [by apply Hstep|]. intros st3 X3.
  apply orElse_done; [by apply Hstep|]. intros st4 X4.
  apply orElse_done; [by apply Hstep|]. intros [sch5 count5] X5.
  cbn [fst] in *.
  case_decide; [|case_decide]; eexists; (split; [reflexivity|]); cbn [fst];
    [|
     |exact X5];
    (etransitivity; [exact X5|apply setShift_extends]).
Qed.

Lemma phase7_ChiefBackup_done sch :
  exists sch', phase7_ChiefBackup this sch = Done sch' /\ extends sch sch'.
Proof.
  unfold phase7_ChiefBackup.
  destruct (findPosition this Chief) as [chief|]; [|by eexists].
  destruct (forEachO_preorder (onFst extends) (fun _ => True)
              (chiefDay this chief) (monthDays (this_daysInMonth this))
              (sch, 0)) as (st & -> & X); [done| |done|].
  - intros st d _ _. apply chiefDay_done.
  - cbn [mbind Outcome_bind]. by eexists.
Qed.

(** ** Phases 9 and 10, and the final fill *)

(** What the two fills do to a cell: '休' into a cell that is falsy. *)
Lemma fill_extends sch k i :
  truthy (cellAt sch k i) = false -> extends sch (putCell sch k i Kokyu).
Proof.
  intros H. apply putCell_extends; intros E; by rewrite E in H.
Qed.

Lemma phase9_FillEmpty_extends sch : extends sch (phase9_FillEmpty this sch).
Proof.
  apply (foldl_preorder extends). intros sch1 d _. cbn zeta.
  etransitivity; [apply ensureRow_extends|].
  apply (foldl_preorder extends). intros sch2 s _. cbn zeta.
  case_decide as H; [|done]. apply fill_extends.
  destruct H as [[->| ->] _]; done.
Qed.

(** A conditional [setShift], within a preorder that [setShift] respects. *)
Lemma setShift_if (R : relation ShiftSchedule) `{!PreOrder R} (P : Prop)
    `{!Decision P} d i v sch0 sch :
  (forall sch1, R sch1 (setShift this d i v sch1)) ->
  R sch0 sch ->
  R sch0 (if decide P then setShift this d i v sch else sch).
Proof.
  intros Hset H. case_decide; [|done]. by etransitivity.
Qed.

Lemma validateOne_extends prevDay d sch s :
  extends sch (validateOne this prevDay d sch s).
Proof.
  unfold validateOne. case_decide; [done|]. cbn zeta.
  do 3 (apply (setShift_if extends); [intros; apply setShift_extends|]).
  done.
Qed.

Lemma phase10_Validation_extends sch :
  extends sch (phase10_Validation this sch).
Proof.
  apply (foldl_preorder extends). intros sch1 d _. unfold validateDay.
  destruct (gen_isHoliday this d); [done|]. cbn zeta.
  case_decide; [done|].
  apply (foldl_preorder extends). intros. apply validateOne_extends.
Qed.

Lemma finalSafetyFill_extends sch : extends sch (finalSafetyFill this sch).
Proof.
  apply (foldl_preorder extends). intros sch1 d _. cbn zeta.
  etransitivity; [apply ensureRow_extends|].
  apply (foldl_preorder extends). intros sch2 s _. cbn zeta.
  destruct (negb _) eqn:E; [|done]. simpl.
  case_bool_decide; [|done]. apply fill_extends. by apply negb_true_iff.
Qed.

(** ** Establishing a property member by member *)

Lemma foldl_establish {S A : Type} (R : relation S) `{!PreOrder R}
    (P : A -> S -> Prop) (f : S -> A -> S) (l : list A) (st : S) :
  (forall x st st', R st st' -> P x st -> P x st') ->
  (forall st x, x ∈ l -> R st (f st x)) ->
  (forall st x, x ∈ l -> P x (f st x)) ->
  forall x, x ∈ l -> P x (foldl f st l).
Proof.
  intros Hstable. revert st.
  induction l as [|y l IH]; intros st HR HP x Hx; [by apply elem_of_nil in Hx|].
  simpl. apply elem_of_cons in Hx as [->|Hx].
  - apply (Hstable y (f st y)); [|apply HP; by left].
    apply (foldl_preorder R). intros st' z Hz. apply HR. by right.
  - apply IH; [| |done].
    + intros st' z Hz. apply HR. by right.
    + intros st' z Hz. apply HP. by right.
Qed.

(** ** Completeness after the final fill *)

#[local] Instance grows_preorder : PreOrder grows.
Proof.
  split.
  - by intros sch k i.
  - intros a b c H1 H2 k i H. by apply H2, H1.
Qed.

Lemma putCell_grows sch k i v : v ≠ NoShift -> grows sch (putCell sch k i v).
Proof.
  intros Hv k' i'. rewrite cellAt_putCell. case_decide; [|done].
  by destruct v.
Qed.

Lemma ensureRow_grows sch k : grows sch (ensureRow sch k).
Proof. intros k' i. by rewrite cellAt_ensureRow. Qed.

Lemma finalSafetyFill_complete sch d s :
  d ∈ monthDays (this_daysInMonth this) ->
  s ∈ this_staff this ->
  shiftType s ≠ part_time ->
  truthy (cellAt (finalSafetyFill this sch) (dateOf this d) (id s)) = true.
Proof.
  intros Hd Hs Hpt. unfold finalSafetyFill.
  match goal with
  | |- context [foldl ?f sch ?l] =>
      apply (foldl_establish grows
               (fun d sch => forall s, s ∈ this_staff this ->
                  shiftType s ≠ part_time ->
                  truthy (cellAt sch (dateOf this d) (id s)) = true)
               f l sch); try done
  end.
  - intros d' st st' HR HP s' Hs' Hpt'. by apply HR, HP.
  - intros st d' _. cbn zeta.
    etransitivity; [apply ensureRow_grows|].
    apply (foldl_preorder grows). intros st' s' _. cbn zeta.
    destruct (_ && _); [|done]. by apply putCell_grows.
  - intros st d' _. cbn zeta.
    match goal with
    | |- forall s, s ∈ ?l -> _ =>
        intros s' Hs' Hpt';
        revert s' Hs' Hpt'
    end.
    match goal with
    | |- context [foldl ?g ?st0 ?l] =>
        apply (foldl_establish grows
                 (fun s sch => shiftType s ≠ part_time ->
                    truthy (cellAt sch (dateOf this d') (id s)) = true)
                 g l st0)
    end.
    + intros s' st1 st2 HR HP Hpt'. by apply HR, HP.
    + intros st' s' _. cbn zeta.
      destruct (_ && _); [|done]. by apply putCell_grows.
    + intros st' s' _ Hpt'. cbn zeta.
      rewrite (bool_decide_eq_true_2 _ Hpt'), andb_true_r.
      destruct (truthy (cellAt st' (dateOf this d') (id s'))) eqn:E;
        simpl; [done|].
      rewrite cellAt_putCell. by rewrite decide_True.
Qed.

(** ** Adjacent work days after phase 10 *)

Lemma gen_getShift_cell sch d i v :
  v ≠ NoShift ->
  gen_getShift this sch d i = v <-> cellAt sch (dateOf this d) i = Some v.
Proof.
  intros Hv. unfold gen_getShift, orEmpty.
  destruct (cellAt sch (dateOf this d) i); simpl; naive_solver.
Qed.

Lemma badPair_extreme previous current :
  badPair previous current ->
  (previous = PA \/ previous = PJ) /\ (current = PA \/ current = PJ).
Proof.
  intros [[-> ->]|[[-> ->]|[-> ->]]]; auto.
Qed.

(** A bad pair in a calm successor was there before. *)
Lemma badPair_calm sch sch' prevDay d i :
  calm sch sch' ->
  badPair (gen_getShift this sch' prevDay i) (gen_getShift this sch' d i) ->
  badPair (gen_getShift this sch prevDay i) (gen_getShift this sch d i).
Proof.
  intros Hcalm Hbad.
  assert (forall day, (gen_getShift this sch' day i = PA
                       \/ gen_getShift this sch' day i = PJ) ->
            gen_getShift this sch day i = gen_getShift this sch' day i) as E.
  { intros day H. unfold gen_getShift. f_equal. symmetry. apply Hcalm.
    destruct H as [H|H]; apply gen_getShift_cell in H; auto. }
  destruct (badPair_extreme _ _ Hbad) as [H1 H2].
  by rewrite (E prevDay H1), (E d H2).
Qed.

Lemma findStaff_elem_of staff i s :
  findStaff staff i = Some s -> s ∈ staff /\ id s = i.
Proof.
  unfold findStaff. intros H. apply find_some in H as [Hin Hid].
  apply bool_decide_eq_true in Hid. by apply list_elem_of_In in Hin.
Qed.

Lemma findStaff_idsApart s :
  idsApart (this_staff this) ->
  s ∈ this_staff this -> shiftType s ≠ part_time ->
  (shiftType <$> findStaff (this_staff this) (id s)) ≠ Some part_time.
Proof.
  intros Hids Hs Hpt.
  destruct (findStaff (this_staff this) (id s)) as [p|] eqn:E; [|done].
  apply findStaff_elem_of in E as [Hp Hid]. simpl. intros [= Hpp].
  by apply (Hids s p).
Qed.

Lemma validateOne_calm prevDay d sch s :
  calm sch (validateOne this prevDay d sch s).
Proof.
  unfold validateOne. case_decide; [done|]. cbn zeta.
  do 3 (apply (setShift_if calm); [intros; by apply setShift_calm|]).
  done.
Qed.

Lemma validateOne_fixes prevDay d sch s :
  idsApart (this_staff this) ->
  s ∈ this_staff this -> shiftType s ≠ part_time ->
  ¬ badPair (gen_getShift this (validateOne this prevDay d sch s) prevDay
               (id s))
            (gen_getShift this (validateOne this prevDay d sch s) d (id s)).
Proof.
  intros Hids Hs Hpt.
  pose proof (findStaff_idsApart s Hids Hs Hpt) as Hfind.
  assert (forall sch0,
            (gen_getShift this sch0 d (id s) = PA
             \/ gen_getShift this sch0 d (id s) = PJ) ->
            gen_getShift this (setShift this d (id s) PB sch0) d (id s) = PB)
    as Hfix.
  { intros sch0 H. apply gen_getShift_cell; [done|].
    apply setShift_writes; [| |by left];
      destruct H as [H|H]; apply gen_getShift_cell in H; try done;
      by rewrite H. }
  unfold validateOne. rewrite decide_False by done. cbn zeta.
  destruct (decide (badPair (gen_getShift this sch prevDay (id s))
                            (gen_getShift this sch d (id s)))) as [Hbad|Hok].
  - assert (forall sch1 : ShiftSchedule,
              gen_getShift this sch1 d (id s) = PB ->
              ¬ badPair (gen_getShift this sch1 prevDay (id s))
                        (gen_getShift this sch1 d (id s))) as Hdone.
    { intros sch1 E Hb. apply badPair_extreme in Hb as [_ [?|?]]; congruence. }
    destruct Hbad as [[E1 E2]|[[E1 E2]|[E1 E2]]]; rewrite E1, E2;
      repeat (rewrite decide_True by done);
      repeat (rewrite decide_False by (intros [? ?]; congruence));
      apply Hdone, Hfix; auto.
  - unfold badPair in Hok.
    rewrite !decide_False by tauto. unfold badPair. tauto.
Qed.

Lemma validateDay_calm sch d : calm sch (validateDay this sch d).
Proof.
  unfold validateDay. destruct (gen_isHoliday this d); [done|]. cbn zeta.
  case_decide; [done|].
  apply (foldl_preorder calm). intros. apply validateOne_calm.
Qed.

Lemma phase10_Validation_fixes sch d s :
  idsApart (this_staff this) ->
  d ∈ monthDays (this_daysInMonth this) ->
  gen_isHoliday this d = false ->
  gen_getPreviousWorkDay this d ≠ 0 ->
  s ∈ this_staff this -> shiftType s ≠ part_time ->
  ¬ badPair (gen_getShift this (phase10_Validation this sch)
               (gen_getPreviousWorkDay this d) (id s))
            (gen_getShift this (phase10_Validation this sch) d (id s)).
Proof.
  intros Hids Hd Hwork Hprev Hs Hpt. unfold phase10_Validation.
  revert s Hs Hpt Hwork Hprev.
  apply (foldl_establish calm
           (fun d sch => forall s, s ∈ this_staff this ->
              shiftType s ≠ part_time ->
              gen_isHoliday this d = false ->
              gen_getPreviousWorkDay this d ≠ 0 ->
              ¬ badPair (gen_getShift this sch
                           (gen_getPreviousWorkDay this d) (id s))
                        (gen_getShift this sch d (id s)))
           (validateDay this)); [| | |done].
  - intros d' st st' HR HP s Hs Hpt Hw Hp Hbad.
    apply (HP s Hs Hpt Hw Hp). by eapply badPair_calm.
  - intros st d' _. apply validateDay_calm.
  - intros st d' _ s Hs Hpt Hw Hp. unfold validateDay.
    rewrite Hw. cbn zeta. rewrite decide_False by done.
    revert s Hs Hpt.
    apply (foldl_establish calm
             (fun s sch => shiftType s ≠ part_time ->
                ¬ badPair (gen_getShift this sch
                             (gen_getPreviousWorkDay this d') (id s))
                          (gen_getShift this sch d' (id s)))
             (validateOne this (gen_getPreviousWorkDay this d') d')).
    + intros s st1 st2 HR HP Hpt Hbad. apply (HP Hpt).
      by eapply badPair_calm.
    + intros st' s _. apply validateOne_calm.
    + intros st' s Hs Hpt. by apply validateOne_fixes.
Qed.

Lemma finalSafetyFill_calm sch : calm sch (finalSafetyFill this sch).
Proof.
  apply (foldl_preorder calm). intros sch1 d _. cbn zeta.
  etransitivity; [apply ensureRow_calm|].
  apply (foldl_preorder calm). intros sch2 s _. cbn zeta.
  destruct (_ && _); [|done]. by apply putCell_calm.
Qed.

(** The previous work day is the nearest earlier day that is one. *)
Lemma scanBack_nearest (work : nat -> bool) (d1 n : nat) :
  1 <= d1 <= n -> work d1 = true ->
  (forall d, d1 < d <= n -> work d = false) ->
  scanBack work n = d1.
Proof.
  induction n as [|n IH]; intros Hd Hw Hgap; [lia|].
  destruct (decide (d1 = S n)) as [->|Hne].
  - simpl. by rewrite Hw.
  - cbn [scanBack]. rewrite (Hgap (S n)) by lia. apply IH; [lia|done|].
    intros d Hdn. apply Hgap. lia.
Qed.

(** ** Fuel *)

(** Once the [while (true)] has returned, more turns change nothing. *)
Lemma totalTopUp_fuel fuel fuel' d sch out :
  totalTopUp this fuel d sch = Done out -> fuel <= fuel' ->
  totalTopUp this fuel' d sch = Done out.
Proof.
  revert fuel' sch. induction fuel as [|fuel IH]; intros fuel' sch E Hle;
    [discriminate E|].
  destruct fuel' as [|fuel']; [lia|]. simpl in *.
  case_decide; [done|]. case_decide; [done|].
  destruct (jsSort _ _); [done|]. apply IH; [done|lia].
Qed.

Lemma forEachO_agree {S A : Type} (f g : S -> A -> Outcome S) (l : list A)
    (st out : S) :
  (forall st x out, f st x = Done out -> g st x = Done out) ->
  forEachO f st l = Done out -> forEachO g st l = Done out.
Proof.
  intros Hfg. revert st. induction l as [|x l IH]; intros st; simpl; [done|].
  destruct (f st x) as [st1| |] eqn:E; try discriminate.
  rewrite (Hfg _ _ _ E). simpl. apply IH.
Qed.

Lemma phase6_MinCountAdjustment_fuel fuel fuel' sch out :
  phase6_MinCountAdjustment this fuel sch = Done out -> fuel <= fuel' ->
  phase6_MinCountAdjustment this fuel' sch = Done out.
Proof.
  intros E Hle. unfold phase6_MinCountAdjustment in *.
  apply (forEachO_agree (minCountDay this fuel)); [|done].
  intros st d o. unfold minCountDay. destruct (_ || _); [done|].
  intros H. by eapply totalTopUp_fuel.
Qed.

Lemma generate_fuel fuel fuel' sch out :
  generate this fuel sch = Done out -> fuel <= fuel' ->
  generate this fuel' sch = Done out.
Proof.
  intros E Hle. unfold generate in *. cbn zeta in *.
  destruct (phase4_RegularWeekday this _) as [sch5| |]; try discriminate.
  cbn [mbind Outcome_bind] in *.
  destruct (phase6_MinCountAdjustment this fuel _) as [sch7| |] eqn:E6;
    try discriminate.
  by rewrite (phase6_MinCountAdjustment_fuel _ _ _ _ E6 Hle).
Qed.

(** ** The whole run *)

Lemma generate_done fuel sch :
  length (this_staff this) < fuel ->
  monthCells this sch ->
  exists mid,
    generate this fuel sch
      = Done (finalSafetyFill this (phase10_Validation this mid))
    /\ extends sch mid.
Proof.
  intros Hfuel Hcells. unfold generate.
  pose proof (phase1_Director_extends sch) as X1.
  pose proof (phase2_Chief_extends (phase1_Director this sch)) as X2.
  pose proof (phase2_5_Cooking_extends
                (phase2_Chief this (phase1_Director this sch))) as X3.
  pose proof (phase3_Saturday_extends
                (phase2_5_Cooking this
                   (phase2_Chief this (phase1_Director this sch)))) as X4.
  set (sch4 := phase3_Saturday this _) in *.
  assert (extends sch sch4) as Y4.
  { etransitivity; [exact X1|]. etransitivity; [exact X2|].
    etransitivity; [exact X3|exact X4]. }
  cbn zeta. fold sch4.
  destruct (phase4_RegularWeekday_done sch4) as (sch5 & -> & X5).
  { by eapply monthCells_extends. }
  cbn [mbind Outcome_bind].
  pose proof (phase4_5_LateShiftCoverage_extends sch5) as X6.
  assert (extends sch (phase4_5_LateShiftCoverage this sch5)) as Y6.
  { etransitivity; [exact Y4|]. etransitivity; [exact X5|exact X6]. }
  unfold phase5_PartTime.
  destruct (phase6_MinCountAdjustment_done fuel
              (phase4_5_LateShiftCoverage this sch5)) as (sch7 & -> & X7);
    [done| |].
  { by eapply monthCells_extends. }
  cbn [mbind Outcome_bind].
  destruct (phase7_ChiefBackup_done sch7) as (sch8 & -> & X8).
  cbn [mbind Outcome_bind]. unfold phase8_CompensatoryOff.
  exists (phase9_FillEmpty this sch8). split; [done|].
  etransitivity; [exact Y6|]. etransitivity; [exact X7|].
  etransitivity; [exact X8|]. apply phase9_FillEmpty_extends.
Qed.

End GeneratorFacts.

(** ** The constructor *)

Section ConstructorFacts.

Variables (rosterOf : list Staff) (current : ShiftSchedule).

(** The row of one date, as the constructor fills it. *)
Lemma seedRow k (l : list Staff) (sch : ShiftSchedule) :
  let r := foldl (fun sch s =>
                    putCell sch k (id s)
                      (seedCell s (cellAt current k (id s)))) sch l in
  (forall k' i, k' ≠ k -> cellAt r k' i = cellAt sch k' i)
  /\ (forall i, cellAt r k i = cellAt sch k i
                \/ exists s', s' ∈ l /\ id s' = i
                     /\ cellAt r k i
                        = Some (seedCell s' (cellAt current k i)))
  /\ (forall s, s ∈ l ->
        exists s', s' ∈ l /\ id s' = id s
          /\ cellAt r k (id s)
             = Some (seedCell s' (cellAt current k (id s)))).
Proof.
  revert sch. induction l as [|x l IH]; intros sch; cbn zeta.
  - split; [done|]. split; [by left|]. intros s Hs.
    by apply elem_of_nil in Hs.
  - simpl.
    destruct (IH (putCell sch k (id x)
                    (seedCell x (cellAt current k (id x)))))
      as (IH1 & IH2 & IH3). cbn zeta in *.
    assert (forall i, i = id x ->
      exists s', s' ∈ x :: l /\ id s' = i
        /\ cellAt (foldl (fun sch s => putCell sch k (id s)
                            (seedCell s (cellAt current k (id s))))
                     (putCell sch k (id x)
                        (seedCell x (cellAt current k (id x)))) l) k i
           = Some (seedCell s' (cellAt current k i))) as Hx.
    { intros i ->. destruct (IH2 (id x)) as [E|(s' & Hs' & Hid & E)].
      - exists x. split; [by left|]. split; [done|]. rewrite E.
        rewrite cellAt_putCell. by rewrite decide_True.
      - exists s'. split; [by right|]. done. }
    split; [|split].
    + intros k' i Hk. rewrite IH1 by done. rewrite cellAt_putCell.
      rewrite decide_False; [done|]. intros [? _]. congruence.
    + intros i. destruct (decide (i = id x)) as [Hi|Hi].
      * right. by apply Hx.
      * destruct (IH2 i) as [E|(s' & Hs' & Hid & E)].
        -- left. rewrite E, cellAt_putCell.
           rewrite decide_False; [done|]. intros [_ ?]. congruence.
        -- right. exists s'. split; [by right|]. done.
    + intros s Hs. apply elem_of_cons in Hs as [->|Hs]; [by apply Hx|].
      destruct (IH3 s Hs) as (s' & Hs' & Hid & E).
      exists s'. split; [by right|]. done.
Qed.

(** After the constructor, every cell of the month holds what [seedCell]
    gives for a member of the roster with that id. *)
Lemma constructor_seeds holidays year month settings timeRangeSchedule d s :
  d ∈ monthDays (getDaysInMonth year month) -> s ∈ rosterOf ->
  exists s', s' ∈ rosterOf /\ id s' = id s
    /\ cellAt (constructor rosterOf holidays year month settings current
                 timeRangeSchedule).2
         (getFormattedDate year month d) (id s)
       = Some (seedCell s' (cellAt current (getFormattedDate year month d)
                              (id s))).
Proof.
  unfold constructor. cbn [snd].
  generalize (monthDays (getDaysInMonth year month)).
  intros days. revert d s.
  induction days as [|d0 days IH] using rev_ind; intros d s Hd Hs.
  { by apply elem_of_nil in Hd. }
  rewrite foldl_app. cbn [foldl].
  match goal with
  | |- context [foldl ?g (<[?k:=∅]> ?sch0) rosterOf] =>
      destruct (seedRow k rosterOf (<[k:=∅]> sch0)) as (R1 & R2 & R3);
      cbn zeta in R1, R2, R3
  end.
  destruct (decide (getFormattedDate year month d
                    = getFormattedDate year month d0)) as [Ek|Ek].
  - rewrite Ek. by apply R3.
  - rewrite R1 by done.
    apply elem_of_app in Hd as [Hd|Hd].
    + destruct (IH d s Hd Hs) as (s' & Hs' & Hid & E).
      exists s'. split; [done|]. split; [done|]. rewrite <- E.
      unfold cellAt. by rewrite lookup_insert_ne.
    + apply list_elem_of_singleton in Hd. congruence.
Qed.

Lemma seedCell_leave s v :
  v = Yukyu \/ v = Furikyu -> seedCell s (Some v) = v.
Proof.
  intros Hv. unfold seedCell. case_decide; [done|].
  rewrite decide_True; [done|]. destruct Hv as [->| ->]; auto.
Qed.

End ConstructorFacts.

(** ** The claims on the generator *)

Lemma elem_of_monthDays d n : d ∈ monthDays n <-> 1 <= d <= n.
Proof. unfold monthDays. rewrite elem_of_seq. lia. Qed.

Lemma constructor_monthCells staff holidays year month settings
    currentSchedule timeRangeSchedule :
  monthCells
    (constructor staff holidays year month settings currentSchedule
       timeRangeSchedule).1
    (constructor staff holidays year month settings currentSchedule
       timeRangeSchedule).2.
Proof.
  intros d s Hd Hs.
  destruct (constructor_seeds staff currentSchedule holidays year month
              settings timeRangeSchedule d s) as (s' & _ & _ & E);
    [exact Hd|exact Hs|].
  unfold dateOf, constructor in *.
  cbn [fst snd this_year this_month] in *. rewrite E. eauto.
Qed.

Lemma runGenerator_done staff holidays year month settings currentSchedule
    timeRangeSchedule :
  exists mid,
    (forall fuel, length staff < fuel ->
       runGenerator fuel staff holidays year month settings currentSchedule
         timeRangeSchedule
       = Done (finalSafetyFill
                 (constructor staff holidays year month settings
                    currentSchedule timeRangeSchedule).1
                 (phase10_Validation
                    (constructor staff holidays year month settings
                       currentSchedule timeRangeSchedule).1 mid)))
    /\ extends
         (constructor staff holidays year month settings currentSchedule
            timeRangeSchedule).2 mid.
Proof.
  unfold runGenerator.
  pose proof (constructor_monthCells staff holidays year month settings
                currentSchedule timeRangeSchedule) as Hcells.
  destruct (constructor staff holidays year month settings currentSchedule
              timeRangeSchedule) as [this sch0] eqn:Ec.
  cbn [fst snd] in *.
  assert (this_staff this = staff) as Hstaff.
  { unfold constructor in Ec. by injection Ec as <- _. }
  destruct (generate_done this (S (length staff)) sch0) as (mid & E & X);
    [rewrite Hstaff; lia|done|].
  exists mid. split; [|done]. intros fuel Hfuel.
  apply (generate_fuel this (S (length staff))); [done|lia].
Qed.

(** C7: [generate] returns on every input: it raises nowhere, and the
    [while (true)] of the minimum-count phase, which gives a shift to a
    staff member without one at each turn, stops within as many turns as
    the roster has members plus one, whether or not the minimums can be
    met.  The schedule returned is the same however many more turns the loop
    is allotted. *)
Theorem generate_total staff holidays year month settings currentSchedule
    timeRangeSchedule :
  exists out,
    forall fuel, length staff < fuel ->
      runGenerator fuel staff holidays year month settings currentSchedule
        timeRangeSchedule = Done out.
Proof.
  destruct (runGenerator_done staff holidays year month settings
              currentSchedule timeRangeSchedule) as (mid & E & _).
  eauto.
Qed.

(** C1: the run returns a schedule in which every cell of a day of the
    month and of a staff member of the roster that held '有' or '振' in the
    existing schedule holds the same value. *)
Theorem manual_leave_protected staff holidays year month settings
    currentSchedule timeRangeSchedule :
  exists out,
    (forall fuel, length staff < fuel ->
       runGenerator fuel staff holidays year month settings currentSchedule
         timeRangeSchedule = Done out)
    /\ forall d s v,
         1 <= d <= getDaysInMonth year month -> s ∈ staff ->
         v = Yukyu \/ v = Furikyu ->
         cellAt currentSchedule (getFormattedDate year month d) (id s)
           = Some v ->
         cellAt out (getFormattedDate year month d) (id s) = Some v.
Proof.
  destruct (runGenerator_done staff holidays year month settings
              currentSchedule timeRangeSchedule) as (mid & E & X).
  eexists. split; [exact E|]. intros d s v Hd Hs Hv Hcur.
  apply elem_of_monthDays in Hd.
  destruct (constructor_seeds staff currentSchedule holidays year month
              settings timeRangeSchedule d s Hd Hs) as (s' & _ & _ & E0).
  rewrite Hcur, seedCell_leave in E0 by done.
  eapply ext_leave; [apply finalSafetyFill_extends|done|].
  eapply ext_leave; [apply phase10_Validation_extends|done|].
  eapply ext_leave; [exact X|done|exact E0].
Qed.

(** C2: the run returns a schedule in which every staff member of the
    roster who is not part-time has, on every day of the month, a cell that
    holds a work band or one of '振', '有' and '休'. *)
Theorem generated_schedule_complete staff holidays year month settings
    currentSchedule timeRangeSchedule :
  exists out,
    (forall fuel, length staff < fuel ->
       runGenerator fuel staff holidays year month settings currentSchedule
         timeRangeSchedule = Done out)
    /\ forall d s,
         1 <= d <= getDaysInMonth year month -> s ∈ staff ->
         shiftType s ≠ part_time ->
         exists v, cellAt out (getFormattedDate year month d) (id s) = Some v
                   /\ v ≠ NoShift.
Proof.
  destruct (runGenerator_done staff holidays year month settings
              currentSchedule timeRangeSchedule) as (mid & E & _).
  eexists. split; [exact E|]. intros d s Hd Hs Hpt.
  apply elem_of_monthDays in Hd.
  match goal with
  | |- context [finalSafetyFill ?this ?sch] =>
      pose proof (finalSafetyFill_complete this sch d s Hd Hs Hpt) as Ht
  end.
  unfold dateOf in Ht. cbn [constructor fst this_year this_month] in Ht.
  destruct (cellAt _ _ _) as [v|]; [|done].
  exists v. split; [done|]. by intros ->.
Qed.

(** *** The ids of a roster

    A roster is built by the staff editor, which gives every member an id
    of their own; the schedule is keyed by these ids. *)

Lemma NoDup_id_inj (staff : list Staff) s s' :
  NoDup (id <$> staff) -> s ∈ staff -> s' ∈ staff -> id s = id s' -> s = s'.
Proof.
  induction staff as [|x l IH]; [by intros _ ?%elem_of_nil|].
  rewrite fmap_cons, NoDup_cons. intros [Hx Hl] Hs Hs' Hid.
  apply elem_of_cons in Hs as [->|Hs]; apply elem_of_cons in Hs' as [->|Hs'].
  - done.
  - exfalso. apply Hx. rewrite Hid. by apply list_elem_of_fmap_2.
  - exfalso. apply Hx. rewrite <- Hid. by apply list_elem_of_fmap_2.
  - by apply IH.
Qed.

(** In a roster with pairwise distinct ids, no staff member who is not
    part-time has the id of a part-time one. *)
Lemma NoDup_idsApart (staff : list Staff) :
  NoDup (id <$> staff) -> idsApart staff.
Proof.
  intros Hids s p Hs Hp Hs' Hp' Hid.
  apply Hs'. by rewrite (NoDup_id_inj staff s p Hids Hs Hp Hid).
Qed.

Lemma foldr_max_ge (l : list Z) x : x ∈ l -> (x <= foldr Z.max 0 l)%Z.
Proof.
  induction l as [|y l IH]; [by intros ?%elem_of_nil|].
  intros [-> | Hx]%elem_of_cons; cbn [foldr]; [lia|].
  specialize (IH Hx). lia.
Qed.

(** [handleAdd] keeps the ids pairwise distinct. *)
Lemma handleAdd_ids (staff : list Staff) :
  NoDup (id <$> staff) -> NoDup (id <$> handleAdd staff).
Proof.
  intros Hids. unfold handleAdd. cbv zeta.
  rewrite fmap_app. apply NoDup_app. split; [done|].
  split; [|apply NoDup_singleton].
  intros x Hx Hnew. cbn in Hnew.
  apply elem_of_cons in Hnew as [-> | Hnew]; [|by apply elem_of_nil in Hnew].
  apply foldr_max_ge in Hx. lia.
Qed.

(** [handleDelete] keeps the ids pairwise distinct. *)
Lemma handleDelete_ids confirmed staffId (staff newStaff : list Staff) :
  NoDup (id <$> staff) ->
  handleDelete confirmed staffId staff = Some newStaff ->
  NoDup (id <$> newStaff).
Proof.
  unfold handleDelete. destruct confirmed; [|done].
  cbn [negb]. intros Hids [= <-]. revert Hids.
  induction staff as [|s l IH]; [done|].
  rewrite fmap_cons, NoDup_cons. intros [Hs Hl]. cbn [List.filter].
  destruct (negb _); [|by apply IH].
  rewrite fmap_cons, NoDup_cons. split; [|by apply IH].
  intros Hin. apply Hs. apply list_elem_of_fmap in Hin as (s' & -> & Hin).
  apply list_elem_of_fmap_2. apply list_elem_of_In in Hin.
  apply list_elem_of_In. by apply List.filter_In in Hin as [Hin _].
Qed.

(** C3: whenever no staff member who is not part-time has the id of a
    part-time one, which holds of every roster with pairwise distinct ids
    ([NoDup_idsApart]), the run returns a schedule in which, for every staff
    member of the roster who is not part-time and every two work days of
    the month with no work day in between, the shifts of the earlier and of
    the later day are never ('J','A'), ('A','A') or ('J','J'). *)
Theorem adjacent_work_days_repaired staff holidays year month settings
    currentSchedule timeRangeSchedule :
  idsApart staff ->
  exists out,
    (forall fuel, length staff < fuel ->
       runGenerator fuel staff holidays year month settings currentSchedule
         timeRangeSchedule = Done out)
    /\ forall s d1 d2,
         s ∈ staff -> shiftType s ≠ part_time ->
         1 <= d1 -> d1 < d2 -> d2 <= getDaysInMonth year month ->
         workDay holidays year month d1 ->
         workDay holidays year month d2 ->
         (forall d, d1 < d < d2 -> ¬ workDay holidays year month d) ->
         ¬ badPair
             (orEmpty (cellAt out (getFormattedDate year month d1) (id s)))
             (orEmpty (cellAt out (getFormattedDate year month d2) (id s))).
Proof.
  intros Hids.
  destruct (runGenerator_done staff holidays year month settings
              currentSchedule timeRangeSchedule) as (mid & E & _).
  eexists. split; [exact E|].
  intros s d1 d2 Hs Hpt H1 H12 H2 Hw1 Hw2 Hgap.
  set (this := (constructor staff holidays year month settings
                  currentSchedule timeRangeSchedule).1) in *.
  assert (forall d, gen_isHoliday this d = false
                    <-> workDay holidays year month d) as Hwork.
  { intros d. unfold gen_isHoliday, workDay, dateOf.
    cbn [this constructor fst this_year this_month this_holidays].
    rewrite orb_false_iff, bool_decide_eq_false. done. }
  assert (gen_getPreviousWorkDay this d2 = d1) as Hprev.
  { unfold gen_getPreviousWorkDay. apply scanBack_nearest; [lia| |].
    - apply negb_true_iff. by apply Hwork.
    - intros d Hd. apply negb_false_iff.
      destruct (gen_isHoliday this d) eqn:Eh; [done|].
      apply Hwork in Eh. exfalso. apply (Hgap d); [lia|done]. }
  intros Hbad.
  apply (phase10_Validation_fixes this mid d2 s); try done.
  - apply elem_of_monthDays. cbn [this constructor fst this_daysInMonth]. lia.
  - by apply Hwork.
  - rewrite Hprev. lia.
  - rewrite Hprev.
    apply (badPair_calm this _ (finalSafetyFill this
                                  (phase10_Validation this mid)));
      [apply finalSafetyFill_calm|].
    exact Hbad.
Qed.

(** * Further properties of the shift generator *)

(** ** Every phase is a sequence of writes *)

Lemma bind_Done {A B : Type} (m : Outcome A) (k : A -> Outcome B) (r : B) :
  mbind k m = Done r -> exists a, m = Done a /\ k a = Done r.
Proof. destruct m as [a| |]; [|done..]. intros E. by exists a. Qed.

Lemma forEachO_rel {S A : Type} (R : relation S) `{!PreOrder R}
    (f : S -> A -> Outcome S) (l : list A) (st st' : S) :
  (forall st x st', x ∈ l -> f st x = Done st' -> R st st') ->
  forEachO f st l = Done st' -> R st st'.
Proof.
  revert st. induction l as [|x l IH]; intros st Hf; simpl.
  - by intros [= <-].
  - intros (st1 & E1 & E)%bind_Done. transitivity st1.
    + eapply Hf; [by left|done].
    + apply IH; [|done]. intros st0 y st0' Hy. apply Hf. by right.
Qed.

Section StepFacts.

Variable this : ShiftGenerator.

#[local] Instance steps_preorder : PreOrder (steps this).
Proof. unfold steps. apply _. Qed.

#[local] Existing Instance onFst_preorder.

Lemma steps_set d i v sch :
  d ∈ monthDays (this_daysInMonth this) ->
  gen_isHoliday this d = false \/ v = Kokyu \/ v = Furikyu ->
  steps this sch (setShift this d i v sch).
Proof. intros. apply rtc_once. by constructor. Qed.

Lemma steps_row d sch :
  d ∈ monthDays (this_daysInMonth this) ->
  steps this sch (ensureRow sch (dateOf this d)).
Proof. intros. apply rtc_once. by constructor. Qed.

Lemma steps_fill d s sch :
  d ∈ monthDays (this_daysInMonth this) ->
  s ∈ this_staff this -> shiftType s ≠ part_time ->
  truthy (cellAt sch (dateOf this d) (id s)) = false ->
  steps this sch (putCell sch (dateOf this d) (id s) Kokyu).
Proof. intros. apply rtc_once. by constructor. Qed.

Lemma isSaturday_work d : isSaturday this d = true -> gen_isHoliday this d = false.
Proof.
  unfold isSaturday. cbn zeta. intros [_ H]%andb_true_iff.
  by apply negb_true_iff.
Qed.

Lemma weekday_work d :
  gen_isHoliday this d || isSaturday this d = false ->
  gen_isHoliday this d = false.
Proof. by intros [? _]%orb_false_iff. Qed.

Lemma phase1_Director_steps sch : steps this sch (phase1_Director this sch).
Proof.
  unfold phase1_Director. destruct (findPosition this Director); [|done].
  apply (foldl_preorder (steps this)). intros st d Hd.
  apply steps_set; auto.
Qed.

Lemma phase2_Chief_steps sch : steps this sch (phase2_Chief this sch).
Proof. unfold phase2_Chief. by destruct (findPosition this Chief). Qed.

Lemma phase2_5_Cooking_steps sch :
  steps this sch (phase2_5_Cooking this sch).
Proof.
  unfold phase2_5_Cooking. case_decide; [done|].
  apply (foldl_preorder (onFst (steps this)) _ _ (sch, 0)).
  intros [sch' n] d Hd. unfold onFst. simpl.
  destruct (gen_isHoliday this d) eqn:Eh;
    [|destruct (isSaturday this d)]; simpl.
  - apply (foldl_preorder (steps this)). intros. apply steps_set; auto.
  - apply (foldl_preorder (steps this)). intros st [idx c] _.
    case_decide; apply steps_set; auto.
  - apply (foldl_preorder (steps this)). intros. apply steps_set; auto.
Qed.

(** The day phase 3 finds for the compensatory day off lies before the
    Saturday worked. *)
Lemma bestOffDay_range sch day i offsets bestDay minOffCount r :
  Forall (fun offset => 1 <= offset) offsets ->
  (forall b, bestDay = Some b -> 1 <= b < day) ->
  bestOffDay this sch day i offsets bestDay minOffCount = Some r ->
  1 <= r < day.
Proof.
  intros Hoff. revert bestDay minOffCount.
  induction Hoff as [|offset offsets Ho Hoff IH]; intros bestDay minOffCount Hb;
    cbn [bestOffDay]; [by apply Hb|].
  cbv zeta. case_decide; [by apply IH|].
  destruct (gen_isHoliday this (day - offset)); [by apply IH|].
  case_decide; [by apply IH|]. case_decide; [|by apply IH].
  apply IH. intros b [= <-]. lia.
Qed.

Lemma saturdayStep_steps qualifiedRegulars st day :
  day ∈ monthDays (this_daysInMonth this) ->
  isSaturday this day = true ->
  onFst (steps this) st (saturdayStep this qualifiedRegulars st day).
Proof.
  intros Hd Hsat. pose proof (isSaturday_work day Hsat) as Hw.
  destruct st as [sch satCounts]. unfold saturdayStep, onFst.
  match goal with
  | |- context [foldl ?f (sch, satCounts) ?l] =>
      pose proof (foldl_preorder (onFst (steps this)) f l (sch, satCounts))
        as H1;
      destruct (foldl f (sch, satCounts) l) as [sch1 satCounts1]
  end.
  simpl. transitivity sch1.
  - apply H1. intros [sch' c'] s _. unfold onFst. cbn [fst].
    destruct (bestOffDay this _ day (id s) _ None 999) as [r|] eqn:Eb;
      cbn [fst].
    + apply bestOffDay_range in Eb; [|repeat constructor; lia|done].
      etransitivity; [|apply steps_set; [|auto]].
      * apply steps_set; auto.
      * apply elem_of_monthDays. apply elem_of_monthDays in Hd. lia.
    + apply steps_set; auto.
  - apply (foldl_preorder (steps this)). intros sch' s _.
    case_decide; [done|].
    destruct (List.find _ _); [done|]. apply steps_set; auto.
Qed.

Lemma phase3_Saturday_steps sch : steps this sch (phase3_Saturday this sch).
Proof.
  unfold phase3_Saturday.
  match goal with
  | |- context [foldl ?f (sch, ?c) ?l] =>
      apply (foldl_preorder (onFst (steps this)) f l (sch, c))
  end.
  intros st d Hd. apply list_elem_of_In, filter_In in Hd as [Hd Hsat].
  apply saturdayStep_steps; [by apply list_elem_of_In|done].
Qed.

Lemma assignLoop_steps d pattern neededCount checkWeekly candidates sch
    assignedIds count :
  d ∈ monthDays (this_daysInMonth this) -> gen_isHoliday this d = false ->
  steps this sch
    (assignLoop this d pattern neededCount checkWeekly candidates sch
       assignedIds count).1.1.
Proof.
  intros Hd Hw. revert sch assignedIds count.
  induction candidates as [|s l IH]; intros sch assignedIds count; simpl;
    [done|].
  case_decide; [done|].
  destruct (candidateBlocked _ _ _ _ _ _); [apply IH|].
  etransitivity; [|apply IH]. apply steps_set; auto.
Qed.

Lemma assignPattern_steps regulars d pattern targetCount relax sortFn st st' :
  d ∈ monthDays (this_daysInMonth this) -> gen_isHoliday this d = false ->
  assignPattern this regulars d pattern targetCount relax sortFn st
    = Done st' ->
  steps this st.1 st'.1.
Proof.
  intros Hd Hw. destruct st as [sch assignedIds].
  unfold assignPattern. cbn [fst].
  case_decide; [by intros [= <-]|].
  intros (l & _ & E)%bind_Done. revert E.
  match goal with
  | |- context [assignLoop this d pattern ?n ?w ?c sch assignedIds 0] =>
      pose proof (assignLoop_steps d pattern n w c sch assignedIds 0 Hd Hw)
        as X1;
      destruct (assignLoop this d pattern n w c sch assignedIds 0)
        as [[sch1 ids1] count1]
  end.
  cbn [fst] in X1.
  destruct (bool_decide _ && negb relax); [|by intros [= <-]].
  intros (l' & _ & E)%bind_Done. revert E.
  match goal with
  | |- context [assignLoop this d pattern ?n ?w ?c sch1 ids1 count1] =>
      pose proof (assignLoop_steps d pattern n w c sch1 ids1 count1 Hd Hw)
        as X2;
      destruct (assignLoop this d pattern n w c sch1 ids1 count1)
        as [[sch2 ids2] count2]
  end.
  cbn [fst] in X2. intros [= <-]. cbn [fst]. by etransitivity.
Qed.

Lemma regularWeekday_steps regulars sch d sch' :
  d ∈ monthDays (this_daysInMonth this) ->
  regularWeekday this regulars sch d = Done sch' -> steps this sch sch'.
Proof.
  intros Hd. unfold regularWeekday.
  destruct (gen_isHoliday this d || isSaturday this d) eqn:Hday;
    [by intros [= <-]|].
  apply weekday_work in Hday. cbn zeta.
  intros (st1 & E1 & E)%bind_Done.
  apply bind_Done in E as (st2 & E2 & E).
  apply bind_Done in E as (st3 & E3 & E).
  apply bind_Done in E as (st4 & E4 & E).
  destruct st4 as [sch4 ids4].
  apply bind_Done in E as (remaining & _ & [= <-]).
  assert (steps this sch st1.1) as X1.
  { destruct (_ && _); apply bind_Done in E1 as (st0 & E0 & E1);
      apply assignPattern_steps in E0, E1; try done;
      cbn [fst] in E0; by etransitivity. }
  apply assignPattern_steps in E2, E3, E4; try done. cbn [fst] in E4.
  transitivity st1.1; [done|]. transitivity st2.1; [done|].
  transitivity st3.1; [done|]. transitivity sch4; [done|].
  apply (foldl_preorder (steps this)). intros. apply steps_set; auto.
Qed.

Lemma phase4_RegularWeekday_steps sch sch' :
  phase4_RegularWeekday this sch = Done sch' -> steps this sch sch'.
Proof.
  unfold phase4_RegularWeekday. apply (forEachO_rel (steps this)).
  intros st d st' Hd. by apply regularWeekday_steps.
Qed.

Lemma phase4_5_LateShiftCoverage_steps sch :
  steps this sch (phase4_5_LateShiftCoverage this sch).
Proof.
  apply (foldl_preorder (steps this)). intros sch' d Hd.
  unfold lateShiftDay.
  destruct (gen_isHoliday this d || isSaturday this d) eqn:Hday; [done|].
  apply weekday_work in Hday. cbn zeta.
  assert (forall (b : bool) r sch0 sch1,
            steps this sch0 sch1 ->
            steps this sch0
              (if b then
                 match lateCandidate this sch1 d r with
                 | Some candidate => setShift this d (id candidate) PD sch1
                 | None => sch1
                 end
               else sch1)) as Hmove.
  { intros b r sch0 sch1 H. destruct b; [|done].
    destruct (lateCandidate _ _ _ _); [|done].
    etransitivity; [exact H|apply steps_set; auto]. }
  apply Hmove, Hmove. reflexivity.
Qed.

Lemma pullLoop_steps d pattern minimum candidates sch currentCount :
  d ∈ monthDays (this_daysInMonth this) -> gen_isHoliday this d = false ->
  steps this sch (pullLoop this d pattern minimum candidates sch currentCount).
Proof.
  intros Hd Hw. revert sch currentCount.
  induction candidates as [|s l IH]; intros sch currentCount; simpl; [done|].
  case_decide; [done|].
  destruct (candidateBlocked _ _ _ _ _ _); [apply IH|].
  etransitivity; [|apply IH]. apply steps_set; auto.
Qed.

Lemma totalTopUp_steps fuel d sch sch' :
  d ∈ monthDays (this_daysInMonth this) -> gen_isHoliday this d = false ->
  totalTopUp this fuel d sch = Done sch' -> steps this sch sch'.
Proof.
  intros Hd Hw. revert sch.
  induction fuel as [|fuel IH]; intros sch; [done|]. simpl.
  case_decide; [by intros [= <-]|]. case_decide; [by intros [= <-]|].
  destruct (jsSort _ _) as [|candidate rest]; [done|].
  intros E. etransitivity; [|by apply IH]. apply steps_set; auto.
Qed.

Lemma phase6_MinCountAdjustment_steps fuel sch sch' :
  phase6_MinCountAdjustment this fuel sch = Done sch' -> steps this sch sch'.
Proof.
  unfold phase6_MinCountAdjustment. apply (forEachO_rel (steps this)).
  intros st d st' Hd. unfold minCountDay.
  destruct (gen_isHoliday this d || isSaturday this d) eqn:Hday;
    [by intros [= <-]|].
  apply weekday_work in Hday. intros E%totalTopUp_steps; [|done..].
  etransitivity; [|exact E].
  apply (foldl_preorder (steps this)). intros st0 p _.
  unfold patternMinimum. case_decide; [|done]. by apply pullLoop_steps.
Qed.

Lemma tryReassignBStaff_steps d pattern minimum sch r :
  d ∈ monthDays (this_daysInMonth this) -> gen_isHoliday this d = false ->
  tryReassignBStaff this d pattern minimum sch = Done r ->
  steps this sch r.2.
Proof.
  intros Hd Hw. unfold tryReassignBStaff.
  case_decide; [by intros [= <-]|]. cbn zeta.
  match goal with
  | |- context [List.find ?f ?l] => destruct (List.find f l) as [s|] eqn:Ef
  end; [|by intros [= <-]].
  apply find_some in Ef as [Hin _].
  apply list_elem_of_In, jsSort_elem_of, list_elem_of_In, filter_In in Hin
    as [Hs Hb].
  apply list_elem_of_In in Hs.
  destruct (decide (position s = Director \/ position s = Chief));
    [done|].
  destruct (decide (shiftType s ≠ regular)) as [|Hreg]; [done|].
  apply dec_stable in Hreg. apply bool_decide_eq_true in Hb.
  unfold assignCell.
  destruct (cellAt_row sch (dateOf this d) (id s)) as [row Hrow];
    [by rewrite Hb|].
  rewrite Hrow. cbn [mbind Outcome_bind]. intros [= <-]. cbn [snd].
  replace (<[dateOf this d:=<[id s:=pattern]> row]> sch)
    with (putCell sch (dateOf this d) (id s) pattern)
    by (unfold putCell; by rewrite Hrow).
  apply rtc_once. by apply step_direct.
Qed.

Lemma assignIfShort_steps chief d pattern minimum st r :
  d ∈ monthDays (this_daysInMonth this) -> gen_isHoliday this d = false ->
  assignIfShort this chief d pattern minimum st = Done r ->
  steps this st.1 r.2.1.
Proof.
  intros Hd Hw. destruct st as [sch backupCount]. unfold assignIfShort.
  intros ([reassigned sch1] & E1 & E)%bind_Done.
  apply tryReassignBStaff_steps in E1; [|done..]. cbn [fst snd] in *.
  destruct reassigned; [by injection E as <-|].
  case_decide; [|by injection E as <-].
  destruct (_ && _); injection E as <-; cbn [fst snd]; [done|].
  etransitivity; [exact E1|apply steps_set; auto].
Qed.

Lemma orElse_steps (first : Outcome (bool * (ShiftSchedule * nat)))
    (rest : ShiftSchedule * nat -> Outcome (ShiftSchedule * nat))
    (sch : ShiftSchedule) st' :
  orElse first rest = Done st' ->
  (forall r, first = Done r -> steps this sch r.2.1) ->
  (forall st, steps this sch st.1 -> rest st = Done st' ->
              steps this sch st'.1) ->
  steps this sch st'.1.
Proof.
  unfold orElse. intros ([assigned st] & -> & E)%bind_Done Hf Hr.
  specialize (Hf _ eq_refl). cbn [fst snd] in Hf.
  destruct assigned; [by injection E as <-|]. by eapply Hr.
Qed.

Lemma chiefDay_steps chief st d st' :
  d ∈ monthDays (this_daysInMonth this) ->
  chiefDay this chief st d = Done st' -> steps this st.1 st'.1.
Proof.
  intros Hd. destruct st as [sch backupCount]. unfold chiefDay. cbn [fst].
  destruct (gen_isHoliday this d) eqn:Hw.
  { intros [= <-]. apply steps_set; auto. }
  destruct (isSaturday this d); [by intros [= <-]|].
  case_decide.
  { case_decide; intros [= <-]; [apply steps_set; auto|done]. }
  assert (forall p n st0 r, steps this sch st0.1 ->
            assignIfShort this chief d p n st0 = Done r ->
            steps this sch r.2.1) as Hstep.
  { intros p n st0 r X0 E. etransitivity; [exact X0|].
    by eapply assignIfShort_steps. }
  intros E.
  eapply orElse_steps;
    [exact E|intros r Er; eapply Hstep; [|exact Er]; done|].
  clear E. intros st1 X1 E.
  eapply orElse_steps;
    [exact E|intros r Er; eapply Hstep; [|exact Er]; done|].
  clear E. intros st2 X2 E.
  eapply orElse_steps;
    [exact E|intros r Er; eapply Hstep; [|exact Er]; done|].
  clear E. intros st3 X3 E.
  eapply orElse_steps;
    [exact E|intros r Er; eapply Hstep; [|exact Er]; done|].
  clear E. intros st4 X4 E.
  eapply orElse_steps;
    [exact E|intros r Er; eapply Hstep; [|exact Er]; done|].
  clear E.
  intros [sch5 count5] X5. cbn [fst] in *.
  case_decide; [|case_decide]; intros [= <-]; cbn [fst]; [| |exact X5];
    (etransitivity; [exact X5|apply steps_set; auto]).
Qed.

Lemma phase7_ChiefBackup_steps sch sch' :
  phase7_ChiefBackup this sch = Done sch' -> steps this sch sch'.
Proof.
  unfold phase7_ChiefBackup.
  destruct (findPosition this Chief) as [chief|]; [|by intros [= <-]].
  intros (st & E & [= <-])%bind_Done.
  apply (forEachO_rel (onFst (steps this))) in E; [exact E|].
  intros st0 d st0' Hd. by apply chiefDay_steps.
Qed.

Lemma phase9_FillEmpty_steps sch : steps this sch (phase9_FillEmpty this sch).
Proof.
  apply (foldl_preorder (steps this)). intros sch1 d Hd. cbn zeta.
  transitivity (ensureRow sch1 (dateOf this d)); [by apply steps_row|].
  apply (foldl_preorder (steps this)). intros sch2 s Hs. cbn zeta.
  case_decide as H; [|done]. destruct H as [Hc Hpt].
  apply steps_fill; try done. by destruct Hc as [-> | ->].
Qed.

Lemma phase10_Validation_steps sch :
  steps this sch (phase10_Validation this sch).
Proof.
  apply (foldl_preorder (steps this)). intros sch1 d Hd. unfold validateDay.
  destruct (gen_isHoliday this d) eqn:Hw; [done|]. cbn zeta.
  case_decide; [done|].
  apply (foldl_preorder (steps this)). intros sch2 s _.
  unfold validateOne. case_decide; [done|]. cbn zeta.
  do 3 (apply (setShift_if this (steps this));
        [intros; apply steps_set; auto|]).
  done.
Qed.

Lemma finalSafetyFill_steps sch : steps this sch (finalSafetyFill this sch).
Proof.
  apply (foldl_preorder (steps this)). intros sch1 d Hd. cbn zeta.
  transitivity (ensureRow sch1 (dateOf this d)); [by apply steps_row|].
  apply (foldl_preorder (steps this)). intros sch2 s Hs. cbn zeta.
  destruct (negb _) eqn:E; [|done]. simpl.
  case_bool_decide; [|done]. apply steps_fill; try done.
  by apply negb_true_iff.
Qed.

Lemma generate_steps fuel sch out :
  generate this fuel sch = Done out -> steps this sch out.
Proof.
  unfold generate. cbn zeta.
  intros (sch5 & E5%phase4_RegularWeekday_steps & E)%bind_Done.
  apply bind_Done in E as (sch7 & E7%phase6_MinCountAdjustment_steps & E).
  apply bind_Done in E as (sch8 & E8%phase7_ChiefBackup_steps & [= <-]).
  unfold phase5_PartTime in E7. unfold phase8_CompensatoryOff.
  etransitivity; [apply phase1_Director_steps|].
  etransitivity; [apply phase2_Chief_steps|].
  etransitivity; [apply phase2_5_Cooking_steps|].
  etransitivity; [apply phase3_Saturday_steps|].
  etransitivity; [exact E5|].
  etransitivity; [apply phase4_5_LateShiftCoverage_steps|].
  etransitivity; [exact E7|]. etransitivity; [exact E8|].
  etransitivity; [apply phase9_FillEmpty_steps|].
  etransitivity; [apply phase10_Validation_steps|].
  apply finalSafetyFill_steps.
Qed.

End StepFacts.

(** ** What the writes respect *)

Lemma putCell_rows_iff sch k i v k' :
  is_Some (sch !! k) ->
  is_Some (putCell sch k i v !! k') <-> is_Some (sch !! k').
Proof.
  intros Hk. unfold putCell. destruct (decide (k = k')) as [<-|Hne].
  - rewrite lookup_insert_eq. split; eauto.
  - by rewrite lookup_insert_ne.
Qed.

Lemma putCell_other sch k i v k' : k ≠ k' -> putCell sch k i v !! k' = sch !! k'.
Proof. intros Hk. unfold putCell. by rewrite lookup_insert_ne. Qed.

Lemma ensureRow_other sch k k' : k ≠ k' -> ensureRow sch k !! k' = sch !! k'.
Proof.
  intros Hk. unfold ensureRow. case_decide; [|done].
  by rewrite lookup_insert_ne.
Qed.

Section Invariants.

Variable this : ShiftGenerator.

(** The guard of [setShift] for the part-time staff. *)
Lemma setShift_guard d i v sch v0 :
  (shiftType <$> findStaff (this_staff this) i) = Some part_time ->
  cellAt sch (dateOf this d) i = Some v0 -> v0 ≠ NoShift -> v0 ≠ Kokyu ->
  forall k' i', cellAt (setShift this d i v sch) k' i' = cellAt sch k' i'.
Proof.
  intros Hpt Hc H1 H2 k' i'. unfold setShift. cbn zeta.
  rewrite !cellAt_ensureRow. case_decide; [apply cellAt_ensureRow|].
  rewrite decide_True; [apply cellAt_ensureRow|].
  rewrite Hc. split; [done|]. split; congruence.
Qed.

Lemma setShift_other d i v sch k :
  dateOf this d ≠ k -> setShift this d i v sch !! k = sch !! k.
Proof.
  intros Hk. unfold setShift. cbn zeta.
  repeat case_decide; rewrite ?putCell_other by done;
    by apply ensureRow_other.
Qed.

Lemma step_keeps sch sch' :
  idsApart (this_staff this) -> step this sch sch' ->
  keeps (this_staff this) sch sch'.
Proof.
  intros Hids Hstep k i v Hpt Hc H1 H2.
  destruct Hstep as [d i' v' Hd Hv|d Hd|d s Hd Hs Hnpt Hf
                    |d s v' Hd Hw Hs Hreg Hb].
  - destruct (cellAt_setShift this d i' v' sch k i)
      as [->|(Ek & Ei & _)]; [done|]. subst k i.
    by rewrite (setShift_guard d i' v' sch v).
  - by rewrite cellAt_ensureRow.
  - rewrite cellAt_putCell. case_decide as Hki; [|done].
    destruct Hki as [<- <-]. rewrite Hc in Hf. by destruct v.
  - rewrite cellAt_putCell. case_decide as Hki; [|done].
    destruct Hki as [<- <-]. exfalso.
    apply (findStaff_idsApart this s Hids Hs); [by rewrite Hreg|done].
Qed.

Lemma steps_keeps sch sch' :
  idsApart (this_staff this) -> steps this sch sch' ->
  keeps (this_staff this) sch sch'.
Proof.
  intros Hids. induction 1 as [sch|a b c Hab Hbc IH].
  - by intros k i v.
  - intros k i v Hpt Hc H1 H2. apply IH; try done.
    by apply (step_keeps a b Hids Hab).
Qed.

Lemma step_rests sch sch' :
  (forall d d', d ∈ monthDays (this_daysInMonth this) ->
                d' ∈ monthDays (this_daysInMonth this) ->
                dateOf this d = dateOf this d' -> d = d') ->
  step this sch sch' -> rests this sch sch'.
Proof.
  intros Hdates Hstep d i v Hd Hh Hc.
  destruct Hstep as [d' i' v' Hd' Hv|d' Hd'|d' s Hd' Hs Hnpt Hf
                    |d' s v' Hd' Hw Hs Hreg Hb].
  - destruct (cellAt_setShift this d' i' v' sch (dateOf this d) i)
      as [E|(Ek & -> & E & _)].
    + right. right. by rewrite <- E.
    + rewrite E in Hc. injection Hc as <-.
      apply Hdates in Ek; [|done..]. subst d'.
      destruct Hv as [Hv|[->| ->]]; [congruence|auto..].
  - rewrite cellAt_ensureRow in Hc. auto.
  - rewrite cellAt_putCell in Hc.
    case_decide; [injection Hc as <-|]; auto.
  - rewrite cellAt_putCell in Hc. case_decide as Hki; [|auto].
    destruct Hki as [Ek _]. apply Hdates in Ek; [|done..]. congruence.
Qed.

Lemma steps_rests sch sch' :
  (forall d d', d ∈ monthDays (this_daysInMonth this) ->
                d' ∈ monthDays (this_daysInMonth this) ->
                dateOf this d = dateOf this d' -> d = d') ->
  steps this sch sch' -> rests this sch sch'.
Proof.
  intros Hdates. induction 1 as [sch|a b c Hab Hbc IH].
  - intros d i v _ _ Hc. auto.
  - intros d i v Hd Hh Hc.
    destruct (IH d i v Hd Hh Hc) as [?|[?|Hb]]; auto.
    apply (step_rests a b Hdates Hab d i v Hd Hh Hb).
Qed.

Lemma step_sameRows sch sch' : step this sch sch' -> sameRows this sch sch'.
Proof.
  intros [d i v Hd _|d Hd|d s Hd _ _ _|d s v Hd _ _ _ _]; split.
  - intros k. apply setShift_rows.
  - intros k Hk. apply setShift_other. by apply Hk.
  - intros k. apply ensureRow_rows.
  - intros k Hk. apply ensureRow_other. by apply Hk.
  - intros k. apply putCell_rows.
  - intros k Hk. apply putCell_other. by apply Hk.
  - intros k. apply putCell_rows.
  - intros k Hk. apply putCell_other. by apply Hk.
Qed.

Lemma steps_sameRows sch sch' : steps this sch sch' -> sameRows this sch sch'.
Proof.
  induction 1 as [sch|a b c Hab Hbc [IH1 IH2]]; [by split|].
  destruct (step_sameRows a b Hab) as [S1 S2]. split.
  - intros k Hk. by apply IH1, S1.
  - intros k Hk. rewrite IH2 by done. by apply S2.
Qed.

End Invariants.

(** ** The whole run, write by write *)

Lemma findStaff_part_time staff p :
  idsApart staff -> p ∈ staff -> shiftType p = part_time ->
  (shiftType <$> findStaff staff (id p)) = Some part_time.
Proof.
  intros Hids Hp Hpt.
  destruct (findStaff staff (id p)) as [s|] eqn:E.
  - apply findStaff_elem_of in E as [Hs Hid]. simpl. f_equal.
    destruct (decide (shiftType s = part_time)) as [|Hn]; [done|].
    exfalso. by apply (Hids s p).
  - exfalso. unfold findStaff in E.
    apply list_elem_of_In in Hp. apply (find_none _ _ E) in Hp.
    by apply bool_decide_eq_false in Hp.
Qed.

(** The rows the constructor makes are those of the days of the month. *)
Lemma constructor_rows staff holidays year month settings currentSchedule
    timeRangeSchedule k :
  is_Some ((constructor staff holidays year month settings currentSchedule
              timeRangeSchedule).2 !! k)
  <-> exists d, d ∈ monthDays (getDaysInMonth year month)
                /\ k = getFormattedDate year month d.
Proof.
  unfold constructor. cbn [snd].
  generalize (monthDays (getDaysInMonth year month)). intros days.
  induction days as [|d0 days IH] using rev_ind.
  { simpl. rewrite lookup_empty. split; [by intros [? ?]|].
    intros (d & Hd & _). by apply elem_of_nil in Hd. }
  rewrite foldl_app. cbn [foldl].
  match goal with
  | |- context [foldl ?g (<[?k0:=∅]> ?sch0) staff] =>
      assert (forall l (sch : ShiftSchedule),
                is_Some (sch !! k0) ->
                is_Some (foldl g sch l !! k) <-> is_Some (sch !! k)) as Hrow
  end.
  { induction l as [|s l IHl]; intros sch Hk0; [done|]. simpl.
    rewrite IHl; [by apply putCell_rows_iff|]. by apply putCell_rows. }
  rewrite Hrow by (rewrite lookup_insert_eq; eauto).
  destruct (decide (getFormattedDate year month d0 = k)) as [<-|Hk].
  - rewrite lookup_insert_eq. split; [|eauto]. intros _.
    exists d0. split; [|done]. apply elem_of_app. right. by left.
  - rewrite lookup_insert_ne by done. rewrite IH. split.
    + intros (d & Hd & E). exists d. split; [|done].
      apply elem_of_app. by left.
    + intros (d & Hd & E). apply elem_of_app in Hd as [Hd|Hd]; [eauto|].
      apply list_elem_of_singleton in Hd. congruence.
Qed.

(** The run returns, and what it returns comes from the schedule of the
    constructor write by write and holds no falsy cell of a staff member
    who is not part-time. *)
Lemma runGenerator_writes staff holidays year month settings currentSchedule
    timeRangeSchedule :
  exists out,
    (forall fuel, length staff < fuel ->
       runGenerator fuel staff holidays year month settings currentSchedule
         timeRangeSchedule = Done out)
    /\ steps
         (constructor staff holidays year month settings currentSchedule
            timeRangeSchedule).1
         (constructor staff holidays year month settings currentSchedule
            timeRangeSchedule).2 out
    /\ forall d s,
         d ∈ monthDays (getDaysInMonth year month) -> s ∈ staff ->
         shiftType s ≠ part_time ->
         truthy (cellAt out (getFormattedDate year month d) (id s)) = true.
Proof.
  destruct (runGenerator_done staff holidays year month settings
              currentSchedule timeRangeSchedule) as (mid & E & _).
  eexists. split; [exact E|]. split.
  - specialize (E (S (length staff)) (Nat.lt_succ_diag_r _)).
    unfold runGenerator in E.
    destruct (constructor staff holidays year month settings currentSchedule
                timeRangeSchedule) as [this sch0].
    cbn [fst snd] in *. by eapply generate_steps.
  - intros d s Hd Hs Hpt.
    match goal with
    | |- context [finalSafetyFill ?this ?sch] =>
        exact (finalSafetyFill_complete this sch d s Hd Hs Hpt)
    end.
Qed.

(** X12: when no staff member who is not part-time shares an id with a
    part-time one, the run returns a schedule in which every entry of a
    part-time staff member on a day of the month that the existing schedule
    holds, '' and '休' apart, is in place. *)
Theorem part_time_entries_kept staff holidays year month settings
    currentSchedule timeRangeSchedule :
  idsApart staff ->
  exists out,
    (forall fuel, length staff < fuel ->
       runGenerator fuel staff holidays year month settings currentSchedule
         timeRangeSchedule = Done out)
    /\ forall d p v,
         1 <= d <= getDaysInMonth year month -> p ∈ staff ->
         shiftType p = part_time ->
         cellAt currentSchedule (getFormattedDate year month d) (id p)
           = Some v ->
         v ≠ NoShift -> v ≠ Kokyu ->
         cellAt out (getFormattedDate year month d) (id p) = Some v.
Proof.
  intros Hids.
  destruct (runGenerator_writes staff holidays year month settings
              currentSchedule timeRangeSchedule) as (out & E & X & _).
  exists out. split; [exact E|]. intros d p v Hd Hp Hpt Hcur Hv1 Hv2.
  apply elem_of_monthDays in Hd.
  destruct (constructor_seeds staff currentSchedule holidays year month
              settings timeRangeSchedule d p Hd Hp) as (s' & Hs' & Hid & E0).
  assert (shiftType s' = part_time) as Hpt'.
  { destruct (decide (shiftType s' = part_time)) as [|Hn]; [done|].
    exfalso. by apply (Hids s' p). }
  rewrite Hcur in E0. unfold seedCell in E0.
  rewrite decide_True in E0 by done. cbn in E0.
  apply steps_keeps in X; [|exact Hids].
  apply (X _ _ v); try done.
  by apply findStaff_part_time.
Qed.

(** X13: when no staff member who is not part-time shares an id with a
    part-time one and the days of the month have dates of their own, the
    run returns a schedule in which, on every Sunday and every listed
    holiday of the month, every staff member who is not part-time is on
    '休', '有' or '振'. *)
Theorem no_work_on_holidays staff holidays year month settings
    currentSchedule timeRangeSchedule :
  idsApart staff -> datesApart year month ->
  exists out,
    (forall fuel, length staff < fuel ->
       runGenerator fuel staff holidays year month settings currentSchedule
         timeRangeSchedule = Done out)
    /\ forall d s,
         1 <= d <= getDaysInMonth year month -> s ∈ staff ->
         shiftType s ≠ part_time ->
         ¬ workDay holidays year month d ->
         cellAt out (getFormattedDate year month d) (id s) = Some Kokyu
         \/ cellAt out (getFormattedDate year month d) (id s) = Some Yukyu
         \/ cellAt out (getFormattedDate year month d) (id s)
            = Some Furikyu.
Proof.
  intros Hids Hdates.
  destruct (runGenerator_writes staff holidays year month settings
              currentSchedule timeRangeSchedule) as (out & E & X & T).
  exists out. split; [exact E|]. intros d s Hd Hs Hpt Hoff.
  apply elem_of_monthDays in Hd.
  destruct (constructor_seeds staff currentSchedule holidays year month
              settings timeRangeSchedule d s Hd Hs) as (s' & Hs' & Hid & E0).
  assert (shiftType s' ≠ part_time) as Hpt'.
  { intros Hn. by apply (Hids s s'). }
  specialize (T d s Hd Hs Hpt).
  apply steps_rests in X.
  2:{ intros d1 d2 Hd1 Hd2. cbn. apply Hdates; by apply elem_of_monthDays. }
  destruct (cellAt out (getFormattedDate year month d) (id s)) as [v|] eqn:Ev;
    [|done].
  assert (gen_isHoliday
            (constructor staff holidays year month settings currentSchedule
               timeRangeSchedule).1 d = true) as Hh.
  { unfold gen_isHoliday, dateOf. cbn.
    destruct (bool_decide (getDayOfWeek year month d = 0)) eqn:Eb; [done|].
    destruct (checkIsHoliday (getFormattedDate year month d) holidays)
      eqn:Eh; [done|].
    exfalso. apply Hoff. apply bool_decide_eq_false in Eb. by split. }
  destruct (X d (id s) v Hd Hh Ev) as [->|[->|E1]]; [by left|auto|].
  change (cellAt
            (constructor staff holidays year month settings currentSchedule
               timeRangeSchedule).2
            (getFormattedDate year month d) (id s) = Some v) in E1.
  rewrite E1 in E0. injection E0 as ->.
  unfold seedCell in T |- *. rewrite decide_False in T |- * by done.
  case_decide as Hl; [|done]. destruct Hl as [-> | ->]; auto.
Qed.

(** X14: the run returns a schedule whose rows are exactly those of the
    days of the month: a row of the existing schedule under any other key
    is not in it. *)
Theorem only_rows_of_the_month staff holidays year month settings
    currentSchedule timeRangeSchedule :
  exists out,
    (forall fuel, length staff < fuel ->
       runGenerator fuel staff holidays year month settings currentSchedule
         timeRangeSchedule = Done out)
    /\ forall k,
         is_Some (out !! k)
         <-> exists d, 1 <= d <= getDaysInMonth year month
                       /\ k = getFormattedDate year month d.
Proof.
  destruct (runGenerator_writes staff holidays year month settings
              currentSchedule timeRangeSchedule) as (out & E & X & _).
  exists out. split; [exact E|]. intros k.
  apply steps_sameRows in X as [R1 R2].
  pose proof (constructor_rows staff holidays year month settings
                currentSchedule timeRangeSchedule k) as Hrows.
  split.
  - intros Hk.
    destruct (decide (is_Some ((constructor staff holidays year month
                                  settings currentSchedule
                                  timeRangeSchedule).2 !! k))) as [H0|H0].
    + apply Hrows in H0 as (d & Hd & ->). exists d.
      by apply elem_of_monthDays in Hd.
    + exfalso. apply H0. rewrite <- R2; [done|].
      intros d Hd Ek. apply H0, Hrows. exists d. split; [exact Hd|].
      by rewrite <- Ek.
  - intros (d & Hd & ->). apply R1, Hrows. exists d.
    by rewrite elem_of_monthDays.
Qed.

(** ** The two fills *)

Lemma foldl_fixed {S A : Type} (f : S -> A -> S) (l : list A) (st : S) :
  (forall x, x ∈ l -> f st x = st) -> foldl f st l = st.
Proof.
  induction l as [|x l IH]; intros H; simpl; [done|].
  rewrite H by (by left). apply IH. intros y Hy. apply H. by right.
Qed.

Lemma ensureRow_row sch k : is_Some (ensureRow sch k !! k).
Proof.
  unfold ensureRow. case_decide as Hn.
  - rewrite lookup_insert_eq. eauto.
  - by apply not_eq_None_Some.
Qed.

Section FillFacts.

Variable this : ShiftGenerator.

#[local] Existing Instance grows_preorder.

(** Where every row of the month is there and no cell of a staff member
    who is not part-time is falsy, the final fill has nothing to do. *)
Lemma finalSafetyFill_fixed sch :
  (forall d, d ∈ monthDays (this_daysInMonth this) ->
             is_Some (sch !! dateOf this d)) ->
  (forall d s, d ∈ monthDays (this_daysInMonth this) ->
               s ∈ this_staff this -> shiftType s ≠ part_time ->
               truthy (cellAt sch (dateOf this d) (id s)) = true) ->
  finalSafetyFill this sch = sch.
Proof.
  intros Hrows Hcells. unfold finalSafetyFill.
  apply foldl_fixed. intros d Hd. cbn zeta.
  assert (ensureRow sch (dateOf this d) = sch) as ->.
  { unfold ensureRow. rewrite decide_False; [done|].
    destruct (Hrows d Hd) as [row ->]. done. }
  apply foldl_fixed. intros s Hs. cbn zeta.
  destruct (decide (shiftType s = part_time)) as [Hpt|Hpt].
  - rewrite (bool_decide_eq_false_2 _ (fun H => H Hpt)).
    by rewrite andb_false_r.
  - by rewrite Hcells.
Qed.

Lemma foldl_rows (f : ShiftSchedule -> nat -> ShiftSchedule)
    (l : list nat) sch d :
  (forall st d', extends st (f st d')) ->
  (forall st d', is_Some (f st d' !! dateOf this d')) ->
  d ∈ l -> is_Some (foldl f sch l !! dateOf this d).
Proof.
  intros Hext Hrow Hd.
  apply (foldl_establish extends
           (fun d sch => is_Some (sch !! dateOf this d)) f l sch);
    [| | |exact Hd].
  - intros d' st st' [R _ _] H. by apply R.
  - intros st d' _. apply Hext.
  - intros st d' _. apply Hrow.
Qed.

Lemma finalSafetyFill_rows sch d :
  d ∈ monthDays (this_daysInMonth this) ->
  is_Some (finalSafetyFill this sch !! dateOf this d).
Proof.
  intros Hd. unfold finalSafetyFill.
  assert (forall st k,
    extends (ensureRow st k)
      (foldl (fun sch s =>
                let shift := cellAt sch k (id s) in
                if negb (truthy shift)
                   && bool_decide (shiftType s ≠ part_time)
                then putCell sch k (id s) Kokyu else sch)
             (ensureRow st k) (this_staff this))) as Hin.
  { intros st k. apply (foldl_preorder extends). intros st' s _. cbn zeta.
    destruct (negb _) eqn:E; [|done]. simpl.
    case_bool_decide; [|done]. apply fill_extends. by apply negb_true_iff. }
  apply foldl_rows; [| |done].
  - intros st d'. cbn zeta.
    etransitivity; [apply ensureRow_extends|apply Hin].
  - intros st d'. cbn zeta.
    destruct (Hin st (dateOf this d')) as [R _ _]. apply R, ensureRow_row.
Qed.

Lemma phase9_FillEmpty_rows sch d :
  d ∈ monthDays (this_daysInMonth this) ->
  is_Some (phase9_FillEmpty this sch !! dateOf this d).
Proof.
  intros Hd.
  assert (forall st k,
    extends (ensureRow st k)
      (foldl (fun sch s =>
                let shift := cellAt sch k (id s) in
                if decide ((shift = None \/ shift = Some NoShift)
                           /\ shiftType s ≠ part_time)
                then putCell sch k (id s) Kokyu else sch)
             (ensureRow st k) (this_staff this))) as Hin.
  { intros st k. apply (foldl_preorder extends). intros st' s _. cbn zeta.
    case_decide as H; [|done]. apply fill_extends.
    by destruct H as [[-> | ->] _]. }
  unfold phase9_FillEmpty. apply foldl_rows; [| |done].
  - intros st d'. cbn zeta.
    etransitivity; [apply ensureRow_extends|apply Hin].
  - intros st d'. cbn zeta.
    destruct (Hin st (dateOf this d')) as [R' _ _]. apply R', ensureRow_row.
Qed.

Lemma phase9_FillEmpty_complete sch d s :
  d ∈ monthDays (this_daysInMonth this) ->
  s ∈ this_staff this ->
  shiftType s ≠ part_time ->
  truthy (cellAt (phase9_FillEmpty this sch) (dateOf this d) (id s)) = true.
Proof.
  intros Hd Hs Hpt. unfold phase9_FillEmpty.
  match goal with
  | |- context [foldl ?f sch ?l] =>
      apply (foldl_establish grows
               (fun d sch => forall s, s ∈ this_staff this ->
                  shiftType s ≠ part_time ->
                  truthy (cellAt sch (dateOf this d) (id s)) = true)
               f l sch); try done
  end.
  - intros d' st st' HR HP s' Hs' Hpt'. by apply HR, HP.
  - intros st d' _. cbn zeta.
    etransitivity; [apply ensureRow_grows|].
    apply (foldl_preorder grows). intros st' s' _. cbn zeta.
    case_decide; [|done]. by apply putCell_grows.
  - intros st d' _. cbn zeta.
    match goal with
    | |- forall s, s ∈ ?l -> _ =>
        intros s' Hs' Hpt';
        revert s' Hs' Hpt'
    end.
    match goal with
    | |- context [foldl ?g ?st0 ?l] =>
        apply (foldl_establish grows
                 (fun s sch => shiftType s ≠ part_time ->
                    truthy (cellAt sch (dateOf this d') (id s)) = true)
                 g l st0)
    end.
    + intros s' st1 st2 HR HP Hpt'. by apply HR, HP.
    + intros st' s' _. cbn zeta.
      case_decide; [|done]. by apply putCell_grows.
    + intros st' s' _ Hpt'. cbn zeta. case_decide as Hc.
      * rewrite cellAt_putCell. by rewrite decide_True.
      * destruct (cellAt st' (dateOf this d') (id s')) as [[]|] eqn:Ec;
          try done; exfalso; apply Hc; auto.
Qed.

Lemma setShift_grows d i v sch :
  v ≠ NoShift -> grows sch (setShift this d i v sch).
Proof.
  intros Hv k' i' Ht.
  destruct (cellAt_setShift this d i v sch k' i') as [->|(_ & _ & -> & _)];
    [done|]. by destruct v.
Qed.

Lemma phase10_Validation_grows sch : grows sch (phase10_Validation this sch).
Proof.
  apply (foldl_preorder grows). intros sch1 d _. unfold validateDay.
  destruct (gen_isHoliday this d); [done|]. cbn zeta.
  case_decide; [done|].
  apply (foldl_preorder grows). intros sch2 s _.
  unfold validateOne. case_decide; [done|]. cbn zeta.
  do 3 (apply (setShift_if this grows);
        [intros; by apply setShift_grows|]).
  done.
Qed.

(** X15: the final safety fill finds nothing to fill in [generate]: after
    phases 9 and 10 it returns the schedule it is given.  It is idempotent
    on every schedule. *)
Theorem final_fill_finds_nothing sch :
  finalSafetyFill this (phase10_Validation this (phase9_FillEmpty this sch))
  = phase10_Validation this (phase9_FillEmpty this sch)
  /\ finalSafetyFill this (finalSafetyFill this sch)
     = finalSafetyFill this sch.
Proof.
  split.
  - apply finalSafetyFill_fixed.
    + intros d Hd.
      destruct (phase10_Validation_extends this (phase9_FillEmpty this sch))
        as [R _ _].
      by apply R, phase9_FillEmpty_rows.
    + intros d s Hd Hs Hpt. apply phase10_Validation_grows.
      by apply phase9_FillEmpty_complete.
  - apply finalSafetyFill_fixed.
    + intros d Hd. by apply finalSafetyFill_rows.
    + intros d s Hd Hs Hpt. by apply finalSafetyFill_complete.
Qed.

(** ** [setShift] once more *)

Lemma ensureRow_idem sch k : ensureRow (ensureRow sch k) k = ensureRow sch k.
Proof.
  unfold ensureRow at 1. rewrite decide_False; [done|].
  destruct (ensureRow_row sch k) as [row ->]. done.
Qed.

Lemma ensureRow_putCell sch k i v :
  ensureRow (putCell sch k i v) k = putCell sch k i v.
Proof.
  unfold ensureRow. rewrite decide_False; [done|].
  unfold putCell. by rewrite lookup_insert_eq.
Qed.

Lemma putCell_idem sch k i v :
  putCell (putCell sch k i v) k i v = putCell sch k i v.
Proof.
  unfold putCell. rewrite lookup_insert_eq. simpl.
  by rewrite !insert_insert_eq.
Qed.

(** X16: [setShift] is idempotent: writing the same shift into the same
    cell a second time changes nothing, whether the first call wrote or
    was refused. *)
Theorem setShift_idempotent d staffId shift sch :
  setShift this d staffId shift (setShift this d staffId shift sch)
  = setShift this d staffId shift sch.
Proof.
  assert (forall X : ShiftSchedule, is_Some (X !! dateOf this d) ->
    setShift this d staffId shift X
    = if decide (cellAt X (dateOf this d) staffId = Some Yukyu
                 \/ cellAt X (dateOf this d) staffId = Some Furikyu)
      then X
      else if decide ((shiftType <$> findStaff (this_staff this) staffId)
                      = Some part_time
                      /\ cellAt X (dateOf this d) staffId ≠ Some NoShift
                      /\ cellAt X (dateOf this d) staffId ≠ Some Kokyu)
           then X
           else putCell X (dateOf this d) staffId shift) as Hrow.
  { intros X [row HX]. unfold setShift. cbn zeta.
    assert (ensureRow X (dateOf this d) = X) as ->; [|done].
    unfold ensureRow. rewrite decide_False; [done|]. by rewrite HX. }
  assert (setShift this d staffId shift sch
          = setShift this d staffId shift (ensureRow sch (dateOf this d)))
    as ->.
  { unfold setShift. cbn zeta. by rewrite ensureRow_idem. }
  pose proof (ensureRow_row sch (dateOf this d)) as H1.
  set (sch1 := ensureRow sch (dateOf this d)) in *.
  rewrite (Hrow sch1 H1).
  destruct (decide (cellAt sch1 (dateOf this d) staffId = Some Yukyu
                    \/ cellAt sch1 (dateOf this d) staffId = Some Furikyu))
    as [G1|G1]; [rewrite (Hrow sch1 H1); by rewrite decide_True|].
  destruct (decide ((shiftType <$> findStaff (this_staff this) staffId)
                    = Some part_time
                    /\ cellAt sch1 (dateOf this d) staffId ≠ Some NoShift
                    /\ cellAt sch1 (dateOf this d) staffId ≠ Some Kokyu))
    as [G2|G2].
  { rewrite (Hrow sch1 H1). rewrite decide_False by done.
    by rewrite decide_True. }
  rewrite Hrow by (by apply putCell_rows).
  repeat case_decide; try done; apply putCell_idem.
Qed.

End FillFacts.

(** ** The generator and the engine *)

Lemma filter_length_pos {A : Type} (P : A -> Prop) `{!forall x, Decision (P x)}
    (l : list A) :
  1 <= length (filter P l) <-> exists x, x ∈ l /\ P x.
Proof.
  split.
  - destruct (filter P l) as [|x l'] eqn:E; [simpl; lia|]. intros _.
    assert (x ∈ filter P l) as Hx by (rewrite E; by left).
    apply list_elem_of_filter in Hx. exists x. tauto.
  - intros (x & Hx & HP).
    assert (x ∈ filter P l) as Hin by by apply list_elem_of_filter.
    destruct (filter P l); [by apply elem_of_nil in Hin|simpl; lia].
Qed.

(** X17: the generator and the engine apply one incompatibility rule: on
    the schedule of the generator, [hasIncompatibleConflict] holds exactly
    when [checkIncompatibleViolation] reports a violation. *)
Theorem same_incompatibility_rule this sch day staffId shift :
  hasIncompatibleConflict this sch day staffId shift = true
  <-> checkIncompatibleViolation
        (createConstraintContext sch (this_staff this) (this_holidays this)
           (this_settings this) (this_year this) (this_month this))
        day staffId shift
      = Some (mkViolation hard INCOMPATIBLE).
Proof.
  unfold hasIncompatibleConflict, checkIncompatibleViolation,
    createConstraintContext, dateOf. simpl.
  destruct (findStaff (this_staff this) staffId); [|done].
  destruct (existsb _ _); done.
Qed.

(** X18: the generator and the engine apply one early-shift limit: where
    [this.daysInMonth] is the number of days of the month, as the
    constructor sets it, [isEarlyShiftLimitExceeded] holds exactly when
    [checkEarlyLimitViolation] reports a violation for 'A', and for 'B'. *)
Theorem same_early_limit_rule this sch day staffId shift :
  this_daysInMonth this = getDaysInMonth (this_year this) (this_month this) ->
  shift = PA \/ shift = PB ->
  isEarlyShiftLimitExceeded this sch staffId = true
  <-> checkEarlyLimitViolation
        (createConstraintContext sch (this_staff this) (this_holidays this)
           (this_settings this) (this_year this) (this_month this))
        day staffId shift
      = Some (mkViolation soft EARLY_LIMIT).
Proof.
  intros Hdays Hshift.
  unfold isEarlyShiftLimitExceeded, checkEarlyLimitViolation,
    createConstraintContext, countEarlyShifts, gen_getShift, getShift,
    dateOf. simpl.
  rewrite decide_False by (intros [? ?]; destruct Hshift; done).
  destruct (findStaff (this_staff this) staffId) as [t|]; [|done].
  destruct (earlyShiftLimit t) as [limit|]; [|done].
  rewrite Hdays. case_decide.
  - by rewrite bool_decide_eq_true_2.
  - by rewrite bool_decide_eq_false_2.
Qed.

(** X19: what the generator refuses under the weekly limit, the engine
    reports: on a day of the month whose day of the week is at most 6, if
    [hasWeeklyAJLimitConflict] holds, [checkWeeklyAJLimitViolation] reports
    a violation for 'A' and for 'J'. *)
Theorem weekly_limit_is_reported this sch day staffId shift :
  day <= getDaysInMonth (this_year this) (this_month this) ->
  dateGetDay (this_year this) (this_month this) day <= 6 ->
  shift = PA \/ shift = PJ ->
  hasWeeklyAJLimitConflict this sch day staffId = true ->
  checkWeeklyAJLimitViolation
    (createConstraintContext sch (this_staff this) (this_holidays this)
       (this_settings this) (this_year this) (this_month this))
    day staffId shift
  = Some (mkViolation hard WEEKLY_AJ_LIMIT).
Proof.
  intros Hday Hdow Hshift.
  unfold hasWeeklyAJLimitConflict, checkWeeklyAJLimitViolation,
    createConstraintContext, gen_getShift, getShift, dateOf. simpl.
  rewrite (decide_False (P := shift ≠ PA /\ shift ≠ PJ))
    by (intros [? ?]; destruct Hshift; done).
  case_decide as Hsun; [done|].
  rewrite bool_decide_eq_true, filter_length_pos.
  intros (d & Hin & Hd1 & Hsh).
  rewrite decide_True; [done|]. apply filter_length_pos.
  unfold weekSoFar in Hin. unfold weekDays.
  apply list_elem_of_fmap in Hin as (n & -> & Hn).
  apply elem_of_seq in Hn.
  exists (Z.of_nat day
          - (Z.of_nat (dateGetDay (this_year this) (this_month this) day) - 1)
          + Z.of_nat n)%Z.
  split.
  - apply list_elem_of_fmap. exists n. split; [done|].
    apply elem_of_seq. lia.
  - split; [lia|]. split; [lia|done].
Qed.

(** ** Counting with the part-time staff *)

Lemma filter_length_sum {A : Type} (p q r : A -> bool) (l : list A) :
  (forall x, Nat.b2n (p x) = Nat.b2n (q x) + Nat.b2n (r x)) ->
  length (List.filter p l)
  = length (List.filter q l) + length (List.filter r l).
Proof.
  intros H. induction l as [|x l IH]; [done|]. cbn [List.filter].
  specialize (H x). destruct (p x), (q x), (r x); simpl in *; lia.
Qed.

Lemma filter_length_mono {A : Type} (p q : A -> bool) (l : list A) :
  (forall x, p x = true -> q x = true) ->
  length (List.filter p l) <= length (List.filter q l).
Proof.
  intros H. induction l as [|x l IH]; [done|]. cbn [List.filter].
  specialize (H x). destruct (p x), (q x); simpl in *; try lia.
Qed.

(** X20: [countEffectiveShift] restricted to qualified staff counts the
    qualified part-timers that [countQualifiedPartTimers] counts and the
    qualified staff who are not part-time and hold the pattern in the
    schedule; it never counts more than the unrestricted count. *)
Theorem countEffectiveShift_qualified staff sch timeRangeSchedule dateStr
    pattern :
  countEffectiveShift staff sch timeRangeSchedule dateStr pattern true
  = countQualifiedPartTimers staff timeRangeSchedule dateStr pattern
    + length (List.filter
                (fun s => bool_decide (shiftType s ≠ part_time)
                          && hasQualification s
                          && bool_decide (cellAt sch dateStr (id s)
                                          = Some pattern)) staff)
  /\ countEffectiveShift staff sch timeRangeSchedule dateStr pattern true
     <= countEffectiveShift staff sch timeRangeSchedule dateStr pattern
          false.
Proof.
  unfold countEffectiveShift, countQualifiedPartTimers. split.
  - apply filter_length_sum. intros s.
    destruct (decide (shiftType s = part_time)) as [Hpt|Hpt].
    + rewrite (bool_decide_eq_false_2 (shiftType s ≠ part_time))
        by (intros H; by apply H).
      destruct (hasQualification s) eqn:Hq; cbn [negb andb].
      * rewrite decide_False by (intros [?|?]; done).
        destruct (creditedTo _ _); simpl; lia.
      * rewrite decide_True by (by right). done.
    + rewrite (bool_decide_eq_true_2 (shiftType s ≠ part_time)) by done.
      rewrite decide_True by (by left).
      destruct (hasQualification s) eqn:Hq; cbn [negb andb]; [|done].
      destruct (bool_decide _); done.
  - apply filter_length_mono. intros s.
    destruct (decide (shiftType s = part_time));
      destruct (hasQualification s); cbn [negb andb]; done.
Qed.

(** ** The schedule the constructor starts from *)

(** A cell of a day of the month that no roster member has the id of is
    not in the schedule of the constructor. *)
Lemma constructor_no_cell staff holidays year month settings currentSchedule
    timeRangeSchedule d i :
  d ∈ monthDays (getDaysInMonth year month) ->
  (forall s, s ∈ staff -> id s ≠ i) ->
  cellAt (constructor staff holidays year month settings currentSchedule
            timeRangeSchedule).2
    (getFormattedDate year month d) i = None.
Proof.
  unfold constructor. cbn [snd].
  generalize (monthDays (getDaysInMonth year month)). intros days.
  revert d.
  induction days as [|d0 days IH] using rev_ind; intros d Hd Hi.
  { by apply elem_of_nil in Hd. }
  rewrite foldl_app. cbn [foldl].
  match goal with
  | |- context [foldl ?g (<[?k:=∅]> ?sch0) staff] =>
      destruct (seedRow currentSchedule k staff (<[k:=∅]> sch0))
        as (R1 & R2 & _);
      cbn zeta in R1, R2
  end.
  destruct (decide (getFormattedDate year month d
                    = getFormattedDate year month d0)) as [Ek|Ek].
  - rewrite Ek.
    destruct (R2 i) as [->|(s' & Hs' & Hid & _)];
      [|by apply Hi in Hs'].
    unfold cellAt. by rewrite lookup_insert_eq.
  - rewrite R1 by done.
    apply elem_of_app in Hd as [Hd|Hd].
    + rewrite <- (IH d Hd Hi). unfold cellAt. by rewrite lookup_insert_ne.
    + apply list_elem_of_singleton in Hd. congruence.
Qed.

(** X21: when every roster member has an id of their own, the schedule the
    constructor starts the run from holds, on each day of the month, a
    cell for each roster member and no other: for a part-time member the
    entry of the existing schedule ('' when there is none), for any other
    member the '有' or '振' of the existing schedule and '' otherwise.
    Nothing else of the existing schedule is taken over. *)
Theorem constructor_blank_month staff holidays year month settings
    currentSchedule timeRangeSchedule d :
  NoDup (id <$> staff) ->
  1 <= d <= getDaysInMonth year month ->
  let start :=
    (constructor staff holidays year month settings currentSchedule
       timeRangeSchedule).2 in
  let dateStr := getFormattedDate year month d in
  (forall i, is_Some (cellAt start dateStr i)
             <-> exists s, s ∈ staff /\ id s = i)
  /\ forall s, s ∈ staff ->
       let existingShift := cellAt currentSchedule dateStr (id s) in
       (shiftType s = part_time ->
        cellAt start dateStr (id s) = Some (orEmpty existingShift))
       /\ (shiftType s ≠ part_time ->
           existingShift = Some Yukyu \/ existingShift = Some Furikyu ->
           cellAt start dateStr (id s) = existingShift)
       /\ (shiftType s ≠ part_time ->
           existingShift ≠ Some Yukyu -> existingShift ≠ Some Furikyu ->
           cellAt start dateStr (id s) = Some NoShift).
Proof.
  intros Hids Hd. apply elem_of_monthDays in Hd. cbn zeta.
  assert (forall s, s ∈ staff ->
            cellAt (constructor staff holidays year month settings
                      currentSchedule timeRangeSchedule).2
              (getFormattedDate year month d) (id s)
            = Some (seedCell s (cellAt currentSchedule
                                  (getFormattedDate year month d) (id s))))
    as Hseed.
  { intros s Hs.
    destruct (constructor_seeds staff currentSchedule holidays year month
                settings timeRangeSchedule d s Hd Hs)
      as (s' & Hs' & Hid & E).
    assert (s' = s) as -> by by apply (NoDup_id_inj staff).
    exact E. }
  split.
  - intros i. split.
    + intros Hc. destruct (findStaff staff i) as [s|] eqn:Ef.
      { exists s. by apply findStaff_elem_of. }
      exfalso.
      rewrite (constructor_no_cell staff holidays year month settings
                 currentSchedule timeRangeSchedule d i Hd) in Hc.
      * by destruct Hc.
      * intros s Hs Hid. unfold findStaff in Ef.
        apply list_elem_of_In in Hs. apply (find_none _ _ Ef) in Hs.
        by apply bool_decide_eq_false in Hs.
    + intros (s & Hs & <-). rewrite Hseed by done. eauto.
  - intros s Hs. rewrite Hseed by done. unfold seedCell.
    split; [|split].
    + intros Hpt. by rewrite decide_True.
    + intros Hpt Hl. rewrite decide_False, decide_True by done.
      by destruct Hl as [-> | ->].
    + intros Hpt H1 H2. rewrite decide_False by done.
      rewrite decide_False; [done|]. by intros [?|?].
Qed.

(** ** Whom the phases write to, and what *)

Unset Default Proof Using.

Lemma elem_of_List_filter {A : Type} (p : A -> bool) (l : list A) x :
  x ∈ List.filter p l <-> x ∈ l /\ p x = true.
Proof. by rewrite !list_elem_of_In, filter_In. Qed.

Lemma elem_of_take_list {A : Type} (n : nat) (l : list A) x :
  x ∈ take n l -> x ∈ l.
Proof. intros H. eapply elem_of_sublist; [exact H|apply sublist_take]. Qed.

Lemma workShift_cases v :
  workShift v
  <-> v = PA \/ v = PB \/ v = PC \/ v = PD \/ v = PE \/ v = PJ.
Proof.
  unfold workShift. rewrite !elem_of_cons, elem_of_nil.
  split; intros H; repeat destruct H as [H|H]; auto 10; done.
Qed.

Ltac work_shift := apply workShift_cases; by repeat ((by left) || right).

Section TouchFacts.

Variable this : ShiftGenerator.

(** A sort with a comparator that draws from [Math.random] reorders the
    list. *)
Hypothesis randomSort_reorders : forall site l, randomSort site l ≡ₚ l.

#[local] Instance touches_preorder allowed : PreOrder (touches this allowed).
Proof. unfold touches. apply _. Qed.

#[local] Existing Instance onFst_preorder.

Lemma touches_set allowed d s v sch :
  d ∈ monthDays (this_daysInMonth this) -> s ∈ this_staff this ->
  allowed d s v (gen_getShift this sch d (id s)) ->
  touches this allowed sch (setShift this d (id s) v sch).
Proof. intros. apply rtc_once. by constructor. Qed.

Lemma touches_mono (allowed allowed' : nat -> Staff -> ShiftPatternId ->
                                       ShiftPatternId -> Prop) sch sch' :
  (forall d s v cur, allowed d s v cur -> allowed' d s v cur) ->
  touches this allowed sch sch' -> touches this allowed' sch sch'.
Proof.
  intros Hsub. apply rtc_subrel. intros sch1 sch2 H.
  destruct H; constructor; auto.
Qed.

Lemma both_false d :
  gen_isHoliday this d || isSaturday this d = false ->
  gen_isHoliday this d = false /\ isSaturday this d = false.
Proof. apply orb_false_iff. Qed.

(** *** Phases 1 to 3 *)

Lemma findPosition_Some p s :
  findPosition this p = Some s -> s ∈ this_staff this /\ position s = p.
Proof.
  unfold findPosition. intros [Hin Hp%bool_decide_eq_true]%find_some.
  by apply list_elem_of_In in Hin.
Qed.

Lemma phase1_Director_touches sch :
  touches this phase1Write sch (phase1_Director this sch).
Proof.
  unfold phase1_Director.
  destruct (findPosition this Director) as [director|] eqn:E; [|done].
  apply findPosition_Some in E as [Hs Hp].
  apply (foldl_preorder (touches this phase1Write)). intros st d Hd.
  by apply touches_set.
Qed.

Lemma phase2_Chief_same sch : phase2_Chief this sch = sch.
Proof. unfold phase2_Chief. by destruct (findPosition this Chief). Qed.

Lemma phase2_5_Cooking_touches sch :
  touches this phase2_5Write sch (phase2_5_Cooking this sch).
Proof.
  unfold phase2_5_Cooking. case_decide as Hn; [done|].
  assert (forall c, c ∈ List.filter
                      (fun s => bool_decide (shiftType s = cooking))
                      (this_staff this) ->
                    forall d v st,
                      d ∈ monthDays (this_daysInMonth this) ->
                      v = PB \/ v = Kokyu ->
                      touches this phase2_5Write st
                        (setShift this d (id c) v st)) as Hset.
  { intros c [Hc Hp%bool_decide_eq_true]%elem_of_List_filter d v st Hd Hv.
    by apply touches_set. }
  match goal with
  | |- context [foldl ?f (sch, 0) ?l] =>
      apply (foldl_preorder (onFst (touches this phase2_5Write)) f l (sch, 0))
  end.
  intros [sch' n] d Hd. unfold onFst. simpl.
  destruct (gen_isHoliday this d); [|destruct (isSaturday this d)]; simpl.
  - apply (foldl_preorder (touches this _)). intros. apply Hset; auto.
  - apply (foldl_preorder (touches this _)).
    intros st [idx c] Hc%elem_of_zip_r.
    case_decide; apply Hset; auto.
  - apply (foldl_preorder (touches this _)). intros. apply Hset; auto.
Qed.

Lemma saturdayStep_touches qualifiedRegulars st day :
  day ∈ monthDays (this_daysInMonth this) ->
  isSaturday this day = true ->
  (forall s, s ∈ qualifiedRegulars ->
             s ∈ this_staff this /\ qualifiedRegular s) ->
  onFst (touches this (phase3Write this)) st
    (saturdayStep this qualifiedRegulars st day).
Proof.
  intros Hd Hsat Hq. destruct st as [sch satCounts].
  unfold saturdayStep, onFst.
  match goal with
  | |- context [foldl ?f (sch, satCounts) (take ?n ?l)] =>
      pose proof (foldl_preorder (onFst (touches this (phase3Write this))) f
                    (take n l) (sch, satCounts)) as H1;
      assert (forall s, s ∈ take n l ->
                        s ∈ this_staff this /\ qualifiedRegular s) as Hsel;
      [|destruct (foldl f (sch, satCounts) (take n l)) as [sch1 satCounts1]]
  end.
  { intros s Hs%elem_of_take_list%jsSort_elem_of. apply Hq.
    by rewrite <- (randomSort_reorders (SaturdayShuffle day)). }
  simpl. transitivity sch1.
  - apply H1. intros [sch' c'] s [Hs Hr]%Hsel. unfold onFst. cbn [fst].
    assert (forall cur, selectedLater s cur) as Hsl
      by (left; by destruct Hr as (_ & ? & _)).
    destruct (bestOffDay this _ day (id s) _ None 999) as [r|] eqn:Eb;
      cbn [fst].
    + apply bestOffDay_range in Eb; [|repeat constructor; lia|done].
      etransitivity; [apply touches_set; [done|done|]|
                      apply touches_set; [|done|]].
      * split; [apply Hsl|right; auto].
      * apply elem_of_monthDays. apply elem_of_monthDays in Hd. lia.
      * split; [apply Hsl|right; auto].
    + apply touches_set; [done|done|]. split; [apply Hsl|right; auto].
  - apply (foldl_preorder (touches this (phase3Write this))).
    intros sch' s Hs. case_decide as Hc; [done|].
    destruct (List.find _ _); [done|]. apply touches_set; [done|done|].
    split; [|left; auto].
    right. right. left. split; [|split]; intros ?; apply Hc; auto.
Qed.

Lemma phase3_Saturday_touches sch :
  touches this (phase3Write this) sch (phase3_Saturday this sch).
Proof.
  unfold phase3_Saturday.
  match goal with
  | |- context [foldl ?f (sch, ?c) ?l] =>
      apply (foldl_preorder (onFst (touches this (phase3Write this))) f l
               (sch, c))
  end.
  intros st d [Hd Hsat]%elem_of_List_filter.
  apply saturdayStep_touches; [done|done|].
  intros s [Hs Hp]%elem_of_List_filter. split; [done|].
  apply andb_true_iff in Hp as [[Hq Hr%bool_decide_eq_true]%andb_true_iff
                                  Hd'%bool_decide_eq_true].
  done.
Qed.

(** *** Phase 4 *)

Section Weekday.

Variable d : nat.
Hypothesis d_in_month : d ∈ monthDays (this_daysInMonth this).
Hypothesis d_no_holiday : gen_isHoliday this d = false.
Hypothesis d_no_saturday : isSaturday this d = false.

Lemma assignLoop_touches pattern neededCount checkWeekly candidates sch
    assignedIds count :
  workShift pattern -> regularStaff this candidates ->
  touches this (phase4Write this) sch
    (assignLoop this d pattern neededCount checkWeekly candidates sch
       assignedIds count).1.1.
Proof.
  intros Hp. revert sch assignedIds count.
  induction candidates as [|s l IH]; intros sch assignedIds count Hc; simpl;
    [done|].
  assert (regularStaff this l) as Hl by (intros x Hx; apply Hc; by right).
  destruct (Hc s) as [Hs Hr]; [by left|].
  case_decide; [done|].
  destruct (candidateBlocked _ _ _ _ _ _); [by apply IH|].
  etransitivity; [|by apply IH]. by apply touches_set.
Qed.

Lemma notAssigned_regular sch dateStr assignedIds regulars l :
  regularStaff this regulars ->
  notAssigned sch dateStr assignedIds regulars = Done l ->
  regularStaff this l.
Proof.
  intros Hr.
  assert (forall p, regularStaff this (List.filter p regulars)) as Hf.
  { intros p s [Hs _]%elem_of_List_filter. by apply Hr. }
  unfold notAssigned. destruct regulars as [|r regulars].
  { intros [= <-] s Hs. by apply elem_of_nil in Hs. }
  destruct (sch !! dateStr) as [row|]; [|done].
  intros [= <-].
  apply (Hf (fun s => negb (bool_decide (row !! id s ≠ Some NoShift)
                            || bool_decide (id s ∈ assignedIds)))).
Qed.

Lemma sortCandidates_regular sortFn site sch l :
  regularStaff this l ->
  regularStaff this (sortCandidates sortFn site sch l).
Proof.
  intros Hl s. unfold sortCandidates. destruct sortFn.
  - intros Hs%jsSort_elem_of. by apply Hl.
  - rewrite (randomSort_reorders site). apply Hl.
Qed.

Lemma assignPattern_touches regulars pattern targetCount relax sortFn st
    st' :
  workShift pattern -> regularStaff this regulars ->
  assignPattern this regulars d pattern targetCount relax sortFn st
    = Done st' ->
  touches this (phase4Write this) st.1 st'.1.
Proof.
  intros Hp Hr. destruct st as [sch assignedIds].
  unfold assignPattern. cbn [fst].
  case_decide; [by intros [= <-]|].
  intros (l & El & E)%bind_Done. revert E.
  apply (notAssigned_regular _ _ _ _ _ Hr) in El.
  match goal with
  | |- context [assignLoop this d pattern ?n ?w ?c sch assignedIds 0] =>
      pose proof (assignLoop_touches pattern n w c sch assignedIds 0 Hp)
        as X1;
      destruct (assignLoop this d pattern n w c sch assignedIds 0)
        as [[sch1 ids1] count1]
  end.
  cbn [fst] in X1.
  specialize (X1 (sortCandidates_regular _ _ _ _ El)).
  destruct (bool_decide _ && negb relax); [|by intros [= <-]].
  intros (l' & El' & E)%bind_Done. revert E.
  apply (notAssigned_regular _ _ _ _ _ Hr) in El'.
  match goal with
  | |- context [assignLoop this d pattern ?n ?w ?c sch1 ids1 count1] =>
      pose proof (assignLoop_touches pattern n w c sch1 ids1 count1 Hp)
        as X2;
      destruct (assignLoop this d pattern n w c sch1 ids1 count1)
        as [[sch2 ids2] count2]
  end.
  cbn [fst] in X2.
  specialize (X2 (sortCandidates_regular _ _ _ _ El')).
  intros [= <-]. cbn [fst]. by etransitivity.
Qed.

Lemma workShift_fallbackShift sch s : workShift (fallbackShift this sch d s).
Proof.
  unfold fallbackShift.
  destruct (isEarlyShiftLimitExceeded this sch (id s));
    destruct (hasIncompatibleConflict this sch d (id s) _);
    repeat case_decide; work_shift.
Qed.

End Weekday.

Lemma regularWeekday_touches regulars sch d sch' :
  d ∈ monthDays (this_daysInMonth this) ->
  regularStaff this regulars ->
  regularWeekday this regulars sch d = Done sch' ->
  touches this (phase4Write this) sch sch'.
Proof.
  intros Hd Hr. unfold regularWeekday.
  destruct (gen_isHoliday this d || isSaturday this d) eqn:Hday;
    [by intros [= <-]|].
  apply both_false in Hday as [Hh Hsat]. cbn zeta.
  intros (st1 & E1 & E)%bind_Done.
  apply bind_Done in E as (st2 & E2 & E).
  apply bind_Done in E as (st3 & E3 & E).
  apply bind_Done in E as (st4 & E4 & E).
  destruct st4 as [sch4 ids4].
  apply bind_Done in E as (remaining & Erem & [= <-]).
  assert (forall p t r f st st', workShift p ->
            assignPattern this regulars d p t r f st = Done st' ->
            touches this (phase4Write this) st.1 st'.1) as Hap
    by (intros; by eapply assignPattern_touches).
  assert (touches this (phase4Write this) sch st1.1) as X1.
  { destruct (_ && _); apply bind_Done in E1 as (st0 & E0 & E1);
      apply Hap in E0, E1; try work_shift;
      cbn [fst] in E0; by etransitivity. }
  apply Hap in E2, E3, E4; try work_shift.
  cbn [fst] in E4.
  transitivity st1.1; [done|]. transitivity st2.1; [done|].
  transitivity st3.1; [done|]. transitivity sch4; [done|].
  apply (notAssigned_regular _ _ _ _ _ Hr) in Erem.
  apply (foldl_preorder (touches this (phase4Write this))).
  intros st s [Hs Hreg]%jsSort_elem_of%Erem.
  apply touches_set; [done|done|].
  split; [done|]. split; [done|]. split; [done|].
  apply workShift_fallbackShift.
Qed.

Lemma regulars_regular :
  regularStaff this
    (List.filter (fun s => bool_decide (shiftType s = regular))
                 (this_staff this)).
Proof.
  intros s [Hs Hp%bool_decide_eq_true]%elem_of_List_filter. done.
Qed.

Lemma phase4_RegularWeekday_touches sch sch' :
  phase4_RegularWeekday this sch = Done sch' ->
  touches this (phase4Write this) sch sch'.
Proof.
  unfold phase4_RegularWeekday.
  apply (forEachO_rel (touches this (phase4Write this))).
  intros st d st' Hd. apply regularWeekday_touches; [done|].
  apply regulars_regular.
Qed.

(** *** Phases 4.5 to 10 and the final fill *)

Lemma lateCandidate_Some sch d r candidate :
  lateCandidate this sch d r = Some candidate ->
  candidate ∈ this_staff this /\ role candidate = Some r
  /\ (gen_getShift this sch d (id candidate) = PB
      \/ gen_getShift this sch d (id candidate) = PC).
Proof.
  unfold lateCandidate. intros [Hin Hp]%find_some.
  apply list_elem_of_In in Hin.
  apply andb_true_iff in Hp as [[Hr%bool_decide_eq_true
                                   Hs%bool_decide_eq_true]%andb_true_iff _].
  split; [done|]. split; [done|].
  apply elem_of_cons in Hs as [Hs|Hs]; [by left|].
  apply elem_of_cons in Hs as [Hs|Hs]; [by right|].
  by apply elem_of_nil in Hs.
Qed.

(** A work shift written on a weekday to a member of the floor staff. *)
Lemma laterWrite_weekday d s v cur :
  gen_isHoliday this d = false -> isSaturday this d = false ->
  workShift v ->
  selectedLater s cur -> laterWrite this d s v cur.
Proof. intros Hh Hsat Hv Hs. left. split; [done|]. by left. Qed.

Lemma phase4_5_LateShiftCoverage_touches sch :
  touches this (laterWrite this) sch (phase4_5_LateShiftCoverage this sch).
Proof.
  apply (foldl_preorder (touches this (laterWrite this))). intros sch' d Hd.
  unfold lateShiftDay.
  destruct (gen_isHoliday this d || isSaturday this d) eqn:Hday; [done|].
  apply both_false in Hday as [Hh Hsat]. cbn zeta.
  assert (forall (b : bool) r sch0 sch1,
            r = infant \/ r = toddler ->
            touches this (laterWrite this) sch0 sch1 ->
            touches this (laterWrite this) sch0
              (if b then
                 match lateCandidate this sch1 d r with
                 | Some candidate => setShift this d (id candidate) PD sch1
                 | None => sch1
                 end
               else sch1)) as Hmove.
  { intros b r sch0 sch1 Hr H. destruct b; [|done].
    destruct (lateCandidate _ _ _ _) as [candidate|] eqn:Ec; [|done].
    apply lateCandidate_Some in Ec as (Hin & Hrole & Hcur).
    etransitivity; [exact H|]. apply touches_set; [done|done|].
    apply laterWrite_weekday; [done|done|work_shift|].
    right. right. right. left. split; [|done].
    destruct Hr as [-> | ->]; auto. }
  apply Hmove; [by right|]. apply Hmove; [by left|]. reflexivity.
Qed.

Lemma pullLoop_touches d pattern minimum candidates sch currentCount :
  d ∈ monthDays (this_daysInMonth this) ->
  gen_isHoliday this d = false -> isSaturday this d = false ->
  workShift pattern -> floorStaff this candidates ->
  touches this (laterWrite this) sch
    (pullLoop this d pattern minimum candidates sch currentCount).
Proof.
  intros Hd Hh Hsat Hp. revert sch currentCount.
  induction candidates as [|s l IH]; intros sch currentCount Hc; simpl;
    [done|].
  assert (floorStaff this l) as Hl by (intros x Hx; apply Hc; by right).
  destruct (Hc s) as [Hs Hf]; [by left|].
  case_decide; [done|].
  destruct (candidateBlocked _ _ _ _ _ _); [by apply IH|].
  etransitivity; [|by apply IH]. apply touches_set; [done|done|].
  apply laterWrite_weekday; [done..|]. right. right. by left.
Qed.

Lemma patternMinimum_touches d sch p :
  d ∈ monthDays (this_daysInMonth this) ->
  gen_isHoliday this d = false -> isSaturday this d = false ->
  p ∈ SHIFT_PATTERNS ->
  touches this (laterWrite this) sch (patternMinimum this d sch p).
Proof.
  intros Hd Hh Hsat Hp. unfold patternMinimum. case_decide; [|done].
  apply pullLoop_touches; [done..| |].
  { unfold SHIFT_PATTERNS in Hp.
    repeat (apply elem_of_cons in Hp as [->|Hp]; [work_shift|]).
    by apply elem_of_nil in Hp. }
  intros s [Hs Hf]%jsSort_elem_of%elem_of_List_filter. split; [done|].
  repeat (apply andb_true_iff in Hf as [Hf ?%bool_decide_eq_true]).
  done.
Qed.

Lemma availableStaff_floor sch d : floorStaff this (availableStaff this sch d).
Proof.
  intros s [Hs Hp]%elem_of_List_filter. split; [done|].
  repeat (apply andb_true_iff in Hp as [Hp ?%bool_decide_eq_true]).
  done.
Qed.

Lemma workShift_topUpShift sch d s : workShift (topUpShift this sch d s).
Proof.
  unfold topUpShift.
  destruct (isEarlyShiftLimitExceeded this sch (id s));
    destruct (hasIncompatibleConflict this sch d (id s) _);
    repeat case_decide; work_shift.
Qed.

Lemma totalTopUp_touches fuel d sch sch' :
  d ∈ monthDays (this_daysInMonth this) ->
  gen_isHoliday this d = false -> isSaturday this d = false ->
  totalTopUp this fuel d sch = Done sch' ->
  touches this (laterWrite this) sch sch'.
Proof.
  intros Hd Hh Hsat. revert sch.
  induction fuel as [|fuel IH]; intros sch; [done|]. simpl.
  case_decide; [by intros [= <-]|]. case_decide; [by intros [= <-]|].
  destruct (jsSort _ _) as [|candidate rest] eqn:Es; [done|].
  assert (candidate ∈ availableStaff this sch d) as Hc.
  { eapply jsSort_elem_of. rewrite Es. by left. }
  apply availableStaff_floor in Hc as [Hs Hf].
  intros E. etransitivity; [|by apply IH]. apply touches_set; [done|done|].
  apply laterWrite_weekday; [done|done|apply workShift_topUpShift|].
  right. right. by left.
Qed.

Lemma phase6_MinCountAdjustment_touches fuel sch sch' :
  phase6_MinCountAdjustment this fuel sch = Done sch' ->
  touches this (laterWrite this) sch sch'.
Proof.
  unfold phase6_MinCountAdjustment.
  apply (forEachO_rel (touches this (laterWrite this))).
  intros st d st' Hd. unfold minCountDay.
  destruct (gen_isHoliday this d || isSaturday this d) eqn:Hday;
    [by intros [= <-]|].
  apply both_false in Hday as [Hh Hsat].
  intros E%totalTopUp_touches; [|done..].
  etransitivity; [|exact E].
  apply (foldl_preorder (touches this (laterWrite this))). intros st0 p Hp.
  by apply patternMinimum_touches.
Qed.

Lemma tryReassignBStaff_touches d pattern minimum sch r :
  d ∈ monthDays (this_daysInMonth this) ->
  gen_isHoliday this d = false -> isSaturday this d = false ->
  workShift pattern ->
  tryReassignBStaff this d pattern minimum sch = Done r ->
  touches this (laterWrite this) sch r.2.
Proof.
  intros Hd Hh Hsat Hp. unfold tryReassignBStaff.
  case_decide; [by intros [= <-]|]. cbn zeta.
  match goal with
  | |- context [List.find ?f ?l] => destruct (List.find f l) as [s|] eqn:Ef
  end; [|by intros [= <-]].
  apply find_some in Ef as [Hin _].
  apply list_elem_of_In, jsSort_elem_of, elem_of_List_filter in Hin
    as [Hs Hb].
  destruct (decide (position s = Director \/ position s = Chief));
    [done|].
  destruct (decide (shiftType s ≠ regular)) as [|Hreg]; [done|].
  apply dec_stable in Hreg. apply bool_decide_eq_true in Hb.
  unfold assignCell.
  destruct (cellAt_row sch (dateOf this d) (id s)) as [row Hrow];
    [by rewrite Hb|].
  rewrite Hrow. cbn [mbind Outcome_bind]. intros [= <-]. cbn [snd].
  replace (<[dateOf this d:=<[id s:=pattern]> row]> sch)
    with (putCell sch (dateOf this d) (id s) pattern)
    by (unfold putCell; by rewrite Hrow).
  apply rtc_once. apply touch_direct; [done|done|].
  apply laterWrite_weekday; [done..|]. by left.
Qed.

Lemma assignIfShort_touches chief d pattern minimum st r :
  d ∈ monthDays (this_daysInMonth this) ->
  gen_isHoliday this d = false -> isSaturday this d = false ->
  workShift pattern ->
  chief ∈ this_staff this -> position chief = Chief ->
  assignIfShort this chief d pattern minimum st = Done r ->
  touches this (laterWrite this) st.1 r.2.1.
Proof.
  intros Hd Hh Hsat Hw Hc Hp. destruct st as [sch backupCount].
  unfold assignIfShort.
  intros ([reassigned sch1] & E1 & E)%bind_Done.
  apply tryReassignBStaff_touches in E1; [|done..]. cbn [fst snd] in *.
  destruct reassigned; [by injection E as <-|].
  case_decide; [|by injection E as <-].
  destruct (_ && _); injection E as <-; cbn [fst snd]; [done|].
  etransitivity; [exact E1|]. apply touches_set; [done|done|].
  apply laterWrite_weekday; [done..|]. right. by left.
Qed.

Lemma orElse_touches (first : Outcome (bool * (ShiftSchedule * nat)))
    (rest : ShiftSchedule * nat -> Outcome (ShiftSchedule * nat))
    (sch : ShiftSchedule) st' :
  orElse first rest = Done st' ->
  (forall r, first = Done r -> touches this (laterWrite this) sch r.2.1) ->
  (forall st, touches this (laterWrite this) sch st.1 ->
              rest st = Done st' ->
              touches this (laterWrite this) sch st'.1) ->
  touches this (laterWrite this) sch st'.1.
Proof.
  unfold orElse. intros ([assigned st] & -> & E)%bind_Done Hf Hr.
  specialize (Hf _ eq_refl). cbn [fst snd] in Hf.
  destruct assigned; [by injection E as <-|]. by eapply Hr.
Qed.

Lemma chiefDay_touches chief st d st' :
  d ∈ monthDays (this_daysInMonth this) ->
  chief ∈ this_staff this -> position chief = Chief ->
  chiefDay this chief st d = Done st' ->
  touches this (laterWrite this) st.1 st'.1.
Proof.
  intros Hd Hc Hp. destruct st as [sch backupCount]. unfold chiefDay.
  cbn [fst].
  assert (forall cur, selectedLater chief cur) as Hsl by (right; by left).
  destruct (gen_isHoliday this d) eqn:Hh.
  { intros [= <-]. apply touches_set; [done|done|].
    left. split; [apply Hsl|]. right. right. auto. }
  destruct (isSaturday this d) eqn:Hsat; [by intros [= <-]|].
  assert (forall sch0, gen_getShift this sch0 d (id chief) = NoShift ->
            touches this (laterWrite this) sch0
              (setShift this d (id chief) Kokyu sch0)) as Hoff.
  { intros sch0 E. apply touches_set; [done|done|].
    left. split; [apply Hsl|]. right. right. rewrite E. auto. }
  case_decide.
  { case_decide; intros [= <-]; [by apply Hoff|done]. }
  assert (forall p n st0 r, workShift p ->
            touches this (laterWrite this) sch st0.1 ->
            assignIfShort this chief d p n st0 = Done r ->
            touches this (laterWrite this) sch r.2.1) as Hstep.
  { intros p n st0 r Hw X0 E. etransitivity; [exact X0|].
    by eapply assignIfShort_touches. }
  intros E.
  eapply orElse_touches;
    [exact E
    |intros r Er; refine (Hstep _ _ _ _ _ _ Er); [work_shift|done]|].
  clear E. intros st1 X1 E.
  eapply orElse_touches;
    [exact E
    |intros r Er; refine (Hstep _ _ _ _ _ _ Er); [work_shift|done]|].
  clear E. intros st2 X2 E.
  eapply orElse_touches;
    [exact E
    |intros r Er; refine (Hstep _ _ _ _ _ _ Er); [work_shift|done]|].
  clear E. intros st3 X3 E.
  eapply orElse_touches;
    [exact E
    |intros r Er; refine (Hstep _ _ _ _ _ _ Er); [work_shift|done]|].
  clear E. intros st4 X4 E.
  eapply orElse_touches;
    [exact E
    |intros r Er; refine (Hstep _ _ _ _ _ _ Er); [work_shift|done]|].
  clear E.
  intros [sch5 count5] X5. cbn [fst] in *.
  case_decide; [|case_decide]; intros [= <-]; cbn [fst]; [| |exact X5];
    (etransitivity; [exact X5|]).
  - apply touches_set; [done|done|].
    apply laterWrite_weekday; [done|done|work_shift|apply Hsl].
  - by apply Hoff.
Qed.

Lemma phase7_ChiefBackup_touches sch sch' :
  phase7_ChiefBackup this sch = Done sch' ->
  touches this (laterWrite this) sch sch'.
Proof.
  unfold phase7_ChiefBackup.
  destruct (findPosition this Chief) as [chief|] eqn:Ec;
    [|by intros [= <-]].
  apply findPosition_Some in Ec as [Hc Hp].
  intros (st & E & [= <-])%bind_Done.
  apply (forEachO_rel (onFst (touches this (laterWrite this)))) in E;
    [exact E|].
  intros st0 d st0' Hd. by apply chiefDay_touches.
Qed.

(** '休' put into a falsy cell. *)
Lemma touches_fill d s sch :
  d ∈ monthDays (this_daysInMonth this) -> s ∈ this_staff this ->
  shiftType s ≠ part_time ->
  truthy (cellAt sch (dateOf this d) (id s)) = false ->
  touches this (laterWrite this) sch
    (putCell sch (dateOf this d) (id s) Kokyu).
Proof.
  intros Hd Hs Hpt Hf. apply rtc_once. apply touch_direct; [done|done|].
  right. split; [done|]. split; [done|]. unfold gen_getShift.
  by destruct (cellAt sch (dateOf this d) (id s)) as [[]|].
Qed.

Lemma phase9_FillEmpty_touches sch :
  touches this (laterWrite this) sch (phase9_FillEmpty this sch).
Proof.
  apply (foldl_preorder (touches this (laterWrite this))).
  intros sch1 d Hd. cbn zeta.
  transitivity (ensureRow sch1 (dateOf this d)).
  { apply rtc_once. constructor. }
  apply (foldl_preorder (touches this (laterWrite this))).
  intros sch2 s Hs. cbn zeta.
  case_decide as H; [|done]. destruct H as [Hc Hpt].
  apply touches_fill; try done. by destruct Hc as [-> | ->].
Qed.

Lemma validateOne_touches prevDay d sch s :
  d ∈ monthDays (this_daysInMonth this) -> s ∈ this_staff this ->
  touches this (laterWrite this) sch (validateOne this prevDay d sch s).
Proof.
  intros Hd Hs. unfold validateOne. case_decide as Hpt; [done|]. cbn zeta.
  assert (forall cur, cur = PA \/ cur = PJ ->
            gen_getShift this sch d (id s) = cur ->
            touches this (laterWrite this) sch
              (setShift this d (id s) PB sch))
    as Hfix.
  { intros cur Hcur E. apply touches_set; [done|done|]. rewrite E.
    left. split.
    - do 4 right. by split.
    - right. left. by split. }
  destruct (decide (gen_getShift this sch prevDay (id s) = PJ
                    /\ gen_getShift this sch d (id s) = PA)) as [[E1 E2]|N1];
    destruct (decide (gen_getShift this sch prevDay (id s) = PA
                      /\ gen_getShift this sch d (id s) = PA))
      as [[E3 E4]|N2];
    destruct (decide (gen_getShift this sch prevDay (id s) = PJ
                      /\ gen_getShift this sch d (id s) = PJ))
      as [[E5 E6]|N3];
    try congruence; try done.
  - apply (Hfix PA); auto.
  - apply (Hfix PA); auto.
  - apply (Hfix PJ); auto.
Qed.

Lemma phase10_Validation_touches sch :
  touches this (laterWrite this) sch (phase10_Validation this sch).
Proof.
  apply (foldl_preorder (touches this (laterWrite this))). intros sch1 d Hd.
  unfold validateDay.
  destruct (gen_isHoliday this d); [done|]. cbn zeta.
  case_decide; [done|].
  apply (foldl_preorder (touches this (laterWrite this))). intros sch2 s Hs.
  by apply validateOne_touches.
Qed.

Lemma finalSafetyFill_touches sch :
  touches this (laterWrite this) sch (finalSafetyFill this sch).
Proof.
  apply (foldl_preorder (touches this (laterWrite this))).
  intros sch1 d Hd. cbn zeta.
  transitivity (ensureRow sch1 (dateOf this d)).
  { apply rtc_once. constructor. }
  apply (foldl_preorder (touches this (laterWrite this))).
  intros sch2 s Hs. cbn zeta.
  destruct (negb _) eqn:E; [|done]. simpl.
  case_bool_decide; [|done]. apply touches_fill; try done.
  by apply negb_true_iff.
Qed.

(** *** The run, phase by phase *)

Lemma generate_phases fuel sch out :
  generate this fuel sch = Done out ->
  exists sch4,
    phase4_RegularWeekday this
      (phase3_Saturday this
         (phase2_5_Cooking this (phase1_Director this sch))) = Done sch4
    /\ touches this (laterWrite this) sch4 out.
Proof.
  unfold generate. cbn zeta. rewrite phase2_Chief_same.
  intros (sch5 & E5 & E)%bind_Done. exists sch5. split; [exact E5|].
  apply bind_Done in E as (sch7 & E7%phase6_MinCountAdjustment_touches & E).
  apply bind_Done in E as (sch8 & E8%phase7_ChiefBackup_touches & [= <-]).
  unfold phase5_PartTime in E7. unfold phase8_CompensatoryOff.
  etransitivity; [apply phase4_5_LateShiftCoverage_touches|].
  etransitivity; [exact E7|]. etransitivity; [exact E8|].
  etransitivity; [apply phase9_FillEmpty_touches|].
  etransitivity; [apply phase10_Validation_touches|].
  apply finalSafetyFill_touches.
Qed.

(** From phase 3 on, a run writes only to the staff it selects. *)
Lemma generate_touches fuel sch out :
  generate this fuel sch = Done out ->
  touches this selectedOrFill
    (phase2_5_Cooking this (phase1_Director this sch)) out.
Proof.
  intros (sch4 & E4%phase4_RegularWeekday_touches & X)%generate_phases.
  etransitivity; [|etransitivity].
  - eapply touches_mono; [|apply phase3_Saturday_touches].
    intros d s v cur [H _]. by left.
  - eapply touches_mono; [|exact E4].
    intros d s v cur [H _]. left. by left.
  - eapply touches_mono; [|exact X].
    intros d s v cur [[H _]|H]; [by left|by right].
Qed.

End TouchFacts.

(** ** The staff a phase does not select *)

Lemma spared_preorder P i : P Kokyu -> PreOrder (spared P i).
Proof.
  intros Hoff. split.
  - intros sch k _. by left.
  - intros sch1 sch2 sch3 H12 H23 k HP.
    destruct (H12 k HP) as [E|[Hf E]].
    + rewrite <- E. apply H23. by rewrite E.
    + destruct (H23 k) as [E'|[Hf' _]].
      * by rewrite E.
      * right. by rewrite E'.
      * by rewrite E in Hf'.
Qed.

Section Spared.

Variable this : ShiftGenerator.
Variable allowed : nat -> Staff -> ShiftPatternId -> ShiftPatternId -> Prop.
Variable P : ShiftPatternId -> Prop.
Variable s0 : Staff.

Hypothesis ids_distinct : NoDup (id <$> this_staff this).
Hypothesis s0_listed : s0 ∈ this_staff this.
Hypothesis s0_not_selected :
  forall d v cur, P cur -> allowed d s0 v cur -> v = Kokyu /\ cur = NoShift.
Hypothesis off_in_P : P Kokyu.

Lemma touch_spared sch sch' :
  touch this allowed sch sch' -> spared P (id s0) sch sch'.
Proof.
  intros H k HP. destruct H as [d s v Hd Hs Ha|d s v Hd Hs Ha|d].
  - destruct (cellAt_setShift this d (id s) v sch k (id s0))
      as [E|(-> & Ei & E & _)]; [by left|].
    assert (s0 = s) as -> by (by apply (NoDup_id_inj (this_staff this))).
    destruct (s0_not_selected d v _ HP Ha) as [-> Hcur].
    right. split; [|done]. unfold gen_getShift in Hcur.
    by destruct (cellAt sch (dateOf this d) (id s)) as [[]|].
  - rewrite cellAt_putCell. case_decide as Hk; [|by left].
    destruct Hk as [<- Ei].
    assert (s0 = s) as -> by (by apply (NoDup_id_inj (this_staff this))).
    destruct (s0_not_selected d v _ HP Ha) as [-> Hcur].
    right. split; [|done]. unfold gen_getShift in Hcur.
    by destruct (cellAt sch (dateOf this d) (id s)) as [[]|].
  - left. apply cellAt_ensureRow.
Qed.

Lemma touches_spared sch sch' :
  touches this allowed sch sch' -> spared P (id s0) sch sch'.
Proof.
  pose proof (spared_preorder P (id s0) off_in_P) as Hpre.
  intros H. induction H as [|sch1 sch2 sch3 H12 _ IH]; [reflexivity|].
  etransitivity; [by apply touch_spared|exact IH].
Qed.

End Spared.

Section EarlyPhases.

Variable this : ShiftGenerator.

#[local] Instance offOrSame_preorder : PreOrder offOrSame.
Proof.
  split.
  - intros sch k i. by left.
  - intros sch1 sch2 sch3 H12 H23 k i.
    destruct (H23 k i) as [E|E]; [|by right].
    rewrite E. apply H12.
Qed.

Lemma phase1_Director_offOrSame sch :
  offOrSame sch (phase1_Director this sch).
Proof.
  unfold phase1_Director. destruct (findPosition this Director); [|done].
  apply (foldl_preorder offOrSame). intros st d _ k i.
  destruct (cellAt_setShift this d (id s) Kokyu st k i)
    as [E|(_ & _ & E & _)]; [by left|by right].
Qed.

End EarlyPhases.

(** The run as the writes of the first phases followed by those of the
    phases that select the staff they write to. *)
Lemma runGenerator_touches staff holidays year month settings
    currentSchedule timeRangeSchedule :
  (forall site l, randomSort site l ≡ₚ l) ->
  let this := (constructor staff holidays year month settings
                 currentSchedule timeRangeSchedule).1 in
  let start := (constructor staff holidays year month settings
                  currentSchedule timeRangeSchedule).2 in
  exists out,
    (forall fuel, length staff < fuel ->
       runGenerator fuel staff holidays year month settings currentSchedule
         timeRangeSchedule = Done out)
    /\ extends start out
    /\ touches this selectedOrFill
         (phase2_5_Cooking this (phase1_Director this start)) out
    /\ forall d s,
         d ∈ monthDays (getDaysInMonth year month) -> s ∈ staff ->
         shiftType s ≠ part_time ->
         truthy (cellAt out (getFormattedDate year month d) (id s)) = true.
Proof.
  intros Hsort this start.
  destruct (runGenerator_done staff holidays year month settings
              currentSchedule timeRangeSchedule) as (mid & E & X).
  eexists. split; [exact E|]. split; [|split].
  - etransitivity; [exact X|].
    etransitivity; [apply phase10_Validation_extends|].
    apply finalSafetyFill_extends.
  - specialize (E (S (length staff)) (Nat.lt_succ_diag_r _)).
    unfold runGenerator in E. subst this start.
    destruct (constructor staff holidays year month settings currentSchedule
                timeRangeSchedule) as [this sch0].
    cbn [fst snd] in *.
    by apply (generate_touches this Hsort) in E.
  - intros d s Hd Hs Hpt.
    match goal with
    | |- context [finalSafetyFill ?this ?sch] =>
        exact (finalSafetyFill_complete this sch d s Hd Hs Hpt)
    end.
Qed.

(** The constructor seeds the cell of a staff member by their own entry
    of the roster when ids are distinct. *)
Lemma constructor_seeds_own staff holidays year month settings
    currentSchedule timeRangeSchedule d s :
  NoDup (id <$> staff) ->
  d ∈ monthDays (getDaysInMonth year month) -> s ∈ staff ->
  cellAt (constructor staff holidays year month settings currentSchedule
            timeRangeSchedule).2
    (getFormattedDate year month d) (id s)
  = Some (seedCell s (cellAt currentSchedule
                        (getFormattedDate year month d) (id s))).
Proof.
  intros Hids Hd Hs.
  destruct (constructor_seeds staff currentSchedule holidays year month
              settings timeRangeSchedule d s Hd Hs) as (s' & Hs' & Hid & E0).
  assert (s' = s) as -> by (by apply (NoDup_id_inj staff)).
  exact E0.
Qed.

(** X26: when every roster member has an id of their own and the random
    sorts reorder their lists, the run returns a schedule in which a staff
    member in the position of director whose shift type is neither
    regular nor cooking nor part-time is on '休' on every day of the
    month, but for the '有' and '振' of the existing schedule, which are in
    place. *)
Theorem director_is_off staff holidays year month settings currentSchedule
    timeRangeSchedule director :
  NoDup (id <$> staff) ->
  (forall site l, randomSort site l ≡ₚ l) ->
  director ∈ staff -> position director = Director ->
  shiftType director = no_shift \/ shiftType director = backup ->
  exists out,
    (forall fuel, length staff < fuel ->
       runGenerator fuel staff holidays year month settings currentSchedule
         timeRangeSchedule = Done out)
    /\ forall d,
         1 <= d <= getDaysInMonth year month ->
         let existingShift :=
           cellAt currentSchedule (getFormattedDate year month d)
             (id director) in
         cellAt out (getFormattedDate year month d) (id director)
         = if decide (existingShift = Some Yukyu
                      \/ existingShift = Some Furikyu)
           then existingShift else Some Kokyu.
Proof.
  intros Hids Hsort Hin Hpos Htype.
  destruct (runGenerator_touches staff holidays year month settings
              currentSchedule timeRangeSchedule Hsort)
    as (out & E & Xext & Xt & T).
  exists out. split; [exact E|]. intros d Hd%elem_of_monthDays existingShift.
  pose proof (constructor_seeds_own staff holidays year month settings
                currentSchedule timeRangeSchedule d director Hids Hd Hin)
    as E0.
  fold existingShift in E0.
  assert (shiftType director ≠ part_time) as Hpt
    by (destruct Htype as [-> | ->]; done).
  specialize (T d director Hd Hin Hpt).
  unfold seedCell in E0. rewrite decide_False in E0 by done.
  case_decide as Hl.
  { eapply ext_leave in Xext; [| |by rewrite E0].
    - rewrite Xext. by destruct Hl as [-> | ->].
    - destruct Hl as [-> | ->]; auto. }
  set (this := (constructor staff holidays year month settings
                  currentSchedule timeRangeSchedule).1) in *.
  set (start := (constructor staff holidays year month settings
                   currentSchedule timeRangeSchedule).2) in *.
  set (k := getFormattedDate year month d) in *.
  pose proof (phase1_Director_offOrSame this start k (id director)) as X1.
  rewrite E0 in X1.
  pose proof (touches_spared this phase2_5Write
                (fun _ => True) director Hids Hin) as X2.
  specialize (X2 ltac:(intros d0 v cur _ [Hc _]; exfalso;
                       destruct Htype as [Ht|Ht];
                       rewrite Ht in Hc; discriminate Hc) I _ _
                (phase2_5_Cooking_touches this (phase1_Director this start))
                k I).
  pose proof (touches_spared this selectedOrFill
                (fun cur => cur = NoShift \/ cur = Kokyu) director Hids Hin)
    as X3.
  specialize (X3 ltac:(
    intros d0 v cur Hcur [Hsel|(_ & Hv & Hc)]; [exfalso|done];
    destruct Hsel as [Hr|[Hc|[(_ & _ & Hd')|[[_ Hb]|[_ Ha]]]]];
    [destruct Htype as [Ht|Ht]; rewrite Ht in Hr; discriminate Hr
    |rewrite Hpos in Hc; discriminate Hc
    |done
    |destruct Hcur as [-> | ->], Hb as [Hb|Hb]; discriminate Hb
    |destruct Hcur as [-> | ->], Ha as [Ha|Ha]; discriminate Ha])
    ltac:(by right) _ _ Xt k).
  assert (cellAt (phase2_5_Cooking this (phase1_Director this start)) k
            (id director) = Some NoShift
          \/ cellAt (phase2_5_Cooking this (phase1_Director this start)) k
               (id director) = Some Kokyu) as H2.
  { destruct X2 as [-> |[_ ->]]; [|by right]. destruct X1; auto. }
  destruct X3 as [E3|[_ E3]]; [| |exact E3].
  - destruct H2 as [-> | ->]; [by left|by right].
  - rewrite E3 in T |- *.
    destruct H2 as [H2|H2]; rewrite H2 in T |- *; done.
Qed.

(** ** The cooking staff *)

Lemma NoDup_fmap_List_filter {A B : Type} (f : A -> B) (p : A -> bool)
    (l : list A) :
  NoDup (f <$> l) -> NoDup (f <$> List.filter p l).
Proof.
  induction l as [|x l IH]; [done|]. rewrite fmap_cons, NoDup_cons.
  intros [Hx Hl]. simpl. destruct (p x); [|by apply IH].
  rewrite fmap_cons, NoDup_cons. split; [|by apply IH].
  intros (y & E & [Hy _]%elem_of_List_filter)%list_elem_of_fmap.
  apply Hx. apply list_elem_of_fmap. by exists y.
Qed.

Lemma findStaff_own (staff : list Staff) s :
  NoDup (id <$> staff) -> s ∈ staff -> findStaff staff (id s) = Some s.
Proof.
  intros Hids Hs. destruct (findStaff staff (id s)) as [s'|] eqn:E.
  - apply findStaff_elem_of in E as [Hs' Hid].
    by rewrite (NoDup_id_inj staff s' s Hids Hs' Hs Hid).
  - unfold findStaff in E. apply list_elem_of_In in Hs.
    apply (find_none _ _ E) in Hs. by apply bool_decide_eq_false in Hs.
Qed.

Section CookFacts.

Variable this : ShiftGenerator.

Hypothesis ids_distinct : NoDup (id <$> this_staff this).
Hypothesis dates_distinct :
  forall d d', d ∈ monthDays (this_daysInMonth this) ->
               d' ∈ monthDays (this_daysInMonth this) ->
               dateOf this d = dateOf this d' -> d = d'.

(** [setShift] on the cell of a roster member who is not part-time writes
    it unless it holds '有' or '振'. *)
Lemma setShift_own d s v sch :
  s ∈ this_staff this -> shiftType s ≠ part_time ->
  cellAt (setShift this d (id s) v sch) (dateOf this d) (id s)
  = if decide (onLeave (cellAt sch (dateOf this d) (id s)))
    then cellAt sch (dateOf this d) (id s) else Some v.
Proof.
  intros Hs Hpt. unfold setShift. cbn zeta.
  rewrite cellAt_ensureRow, (findStaff_own _ s ids_distinct Hs).
  destruct (decide (cellAt sch (dateOf this d) (id s) = Some Yukyu
                    \/ cellAt sch (dateOf this d) (id s) = Some Furikyu));
    [apply cellAt_ensureRow|].
  case_decide as Hg; [by destruct Hg as [[= Hg] _]|].
  rewrite cellAt_putCell. by rewrite decide_True.
Qed.

(** A loop that calls [setShift] once for each member of a list, on one
    day. *)
Lemma setShift_each {X : Type} (g : X -> Staff) (val : X -> ShiftPatternId)
    (f : ShiftSchedule -> X -> ShiftSchedule) d (l : list X) sch :
  (forall sch x, f sch x = setShift this d (id (g x)) (val x) sch) ->
  NoDup ((fun x => id (g x)) <$> l) ->
  (forall x, x ∈ l -> g x ∈ this_staff this /\ shiftType (g x) ≠ part_time) ->
  (forall x, x ∈ l ->
     cellAt (foldl f sch l) (dateOf this d) (id (g x))
     = if decide (onLeave (cellAt sch (dateOf this d) (id (g x))))
       then cellAt sch (dateOf this d) (id (g x)) else Some (val x))
  /\ (forall k i, k ≠ dateOf this d \/ (forall x, x ∈ l -> id (g x) ≠ i) ->
        cellAt (foldl f sch l) k i = cellAt sch k i).
Proof.
  intros Hf. revert sch. induction l as [|x l IH]; intros sch Hnd Hl.
  { split; [|done]. intros x Hx. by apply elem_of_nil in Hx. }
  rewrite fmap_cons, NoDup_cons in Hnd. destruct Hnd as [Hx Hnd].
  assert (forall y, y ∈ l -> id (g y) ≠ id (g x)) as Hne.
  { intros y Hy E. apply Hx. rewrite <- E.
    apply list_elem_of_fmap. by exists y. }
  destruct (IH (f sch x) Hnd) as [IH1 IH2].
  { intros y Hy. apply Hl. by right. }
  assert (forall k i, k ≠ dateOf this d \/ id (g x) ≠ i ->
            cellAt (f sch x) k i = cellAt sch k i) as Hother.
  { intros k i Hki. rewrite Hf.
    destruct (cellAt_setShift this d (id (g x)) (val x) sch k i)
      as [E|(-> & -> & _)]; [done|]. by destruct Hki. }
  cbn [foldl]. split.
  - intros y [->|Hy]%elem_of_cons.
    + rewrite IH2 by (right; exact Hne). rewrite Hf.
      apply setShift_own; by apply Hl; left.
    + rewrite (IH1 y Hy), Hother; [done|]. right. intros E. by apply (Hne y).
  - intros k i Hki. rewrite IH2, Hother; [done| |].
    + destruct Hki as [Hk|Hi]; [by left|]. right. apply Hi. by left.
    + destruct Hki as [Hk|Hi]; [by left|]. right. intros y Hy.
      apply Hi. by right.
Qed.

Lemma cooks_listed c :
  c ∈ cooksOf (this_staff this) ->
  c ∈ this_staff this /\ shiftType c ≠ part_time.
Proof.
  intros [Hc Hp%bool_decide_eq_true]%elem_of_List_filter.
  split; [done|]. by rewrite Hp.
Qed.

(** The shift of the cook of index [j] on day [d], [saturdayIndex]
    Saturdays having gone by. *)
Lemma cookDay sch saturdayIndex d :
  let cooks := cooksOf (this_staff this) in
  let st :=
    (if gen_isHoliday this d then
       (foldl (fun sch c => setShift this d (id c) Kokyu sch) sch cooks,
        saturdayIndex)
     else if isSaturday this d then
       let workingCookIndex := saturdayIndex mod length cooks in
       (foldl (fun sch '(idx, c) =>
                 if decide (idx = workingCookIndex)
                 then setShift this d (id c) PB sch
                 else setShift this d (id c) Kokyu sch)
              sch (indexed cooks),
        saturdayIndex + 1)
     else
       (foldl (fun sch c => setShift this d (id c) PB sch) sch cooks,
        saturdayIndex)) in
  st.2 = saturdayIndex + length (List.filter (isSaturday this) [d])
  /\ (forall j c, cooks !! j = Some c ->
        cellAt st.1 (dateOf this d) (id c)
        = if decide (onLeave (cellAt sch (dateOf this d) (id c)))
          then cellAt sch (dateOf this d) (id c)
          else Some (if gen_isHoliday this d then Kokyu
                     else if isSaturday this d then
                       if decide (j = saturdayIndex mod length cooks)
                       then PB else Kokyu
                     else PB))
  /\ (forall k i, k ≠ dateOf this d -> cellAt st.1 k i = cellAt sch k i).
Proof.
  intros cooks.
  assert (NoDup (id <$> cooks)) as Hnd
    by (by apply NoDup_fmap_List_filter).
  assert (forall v,
            let r := foldl (fun sch c => setShift this d (id c) v sch) sch
                       cooks in
            (forall j c, cooks !! j = Some c ->
               cellAt r (dateOf this d) (id c)
               = if decide (onLeave (cellAt sch (dateOf this d) (id c)))
                 then cellAt sch (dateOf this d) (id c) else Some v)
            /\ (forall k i, k ≠ dateOf this d ->
                  cellAt r k i = cellAt sch k i)) as Hall.
  { intros v r.
    destruct (setShift_each (fun c => c) (fun _ => v)
                (fun sch c => setShift this d (id c) v sch) d cooks sch)
      as [H1 H2]; [done|done|apply cooks_listed|].
    split.
    - intros j c Hj. apply H1. by eapply list_elem_of_lookup_2.
    - intros k i Hk. apply H2. by left. }
  cbn zeta. cbn [List.filter].
  destruct (gen_isHoliday this d) eqn:Eh.
  { assert (isSaturday this d = false) as ->.
    { unfold isSaturday. cbn zeta. rewrite Eh. apply andb_false_r. }
    cbn [snd fst length]. rewrite Nat.add_0_r. split; [done|]. apply Hall. }
  destruct (isSaturday this d); cbn [snd fst length].
  2:{ rewrite Nat.add_0_r. split; [done|]. apply Hall. }
  split; [done|].
  destruct (setShift_each snd
              (fun x : nat * Staff =>
                 if decide (x.1 = saturdayIndex mod length cooks)
                 then PB else Kokyu)
              (fun sch '(idx, c) =>
                 if decide (idx = saturdayIndex mod length cooks)
                 then setShift this d (id c) PB sch
                 else setShift this d (id c) Kokyu sch)
              d (indexed cooks) sch) as [H1 H2].
  - intros sch0 [idx c]. cbn [fst snd]. by case_decide.
  - unfold indexed.
    change (NoDup ((id ∘ snd) <$> zip (seq 0 (length cooks)) cooks)).
    rewrite (list_fmap_compose snd id), snd_zip; [done|].
    by rewrite length_seq.
  - intros [idx c] Hc%elem_of_zip_r. by apply cooks_listed.
  - split.
    + intros j c Hj.
      assert ((j, c) ∈ indexed cooks) as Hin.
      { apply (list_elem_of_lookup_2 _ j). unfold indexed.
        apply lookup_zip_Some. split; [|done].
        apply lookup_seq. split; [done|]. by eapply lookup_lt_Some. }
      apply (H1 (j, c) Hin).
    + intros k i Hk. apply H2. by left.
Qed.

Lemma cooking_prefix sch m :
  m <= this_daysInMonth this ->
  let cooks := cooksOf (this_staff this) in
  let st :=
    foldl (fun '(sch, saturdayIndex) d =>
      if gen_isHoliday this d then
        (foldl (fun sch c => setShift this d (id c) Kokyu sch) sch cooks,
         saturdayIndex)
      else if isSaturday this d then
        let workingCookIndex := saturdayIndex mod length cooks in
        (foldl (fun sch '(idx, c) =>
                  if decide (idx = workingCookIndex)
                  then setShift this d (id c) PB sch
                  else setShift this d (id c) Kokyu sch)
               sch (indexed cooks),
         saturdayIndex + 1)
      else
        (foldl (fun sch c => setShift this d (id c) PB sch) sch cooks,
         saturdayIndex))
      (sch, 0) (monthDays m) in
  st.2 = length (List.filter (isSaturday this) (monthDays m))
  /\ (forall d j c, 1 <= d <= m -> cooks !! j = Some c ->
        cellAt st.1 (dateOf this d) (id c)
        = if decide (onLeave (cellAt sch (dateOf this d) (id c)))
          then cellAt sch (dateOf this d) (id c)
          else Some (cookShift this (length cooks) d j))
  /\ (forall k i, (forall d, 1 <= d <= m -> dateOf this d ≠ k) ->
        cellAt st.1 k i = cellAt sch k i).
Proof.
  intros Hm cooks. induction m as [|m IH].
  { cbn. split; [done|]. split; [intros; lia|done]. }
  unfold monthDays in *. rewrite seq_S, foldl_snoc. cbn [Nat.add].
  destruct IH as (IHn & IHc & IHo); [lia|].
  match type of IHn with
  | (foldl ?f ?a ?l).2 = _ => destruct (foldl f a l) as [schm idx] eqn:Est
  end.
  cbn [fst snd] in *.
  destruct (cookDay schm idx (S m)) as (Dn & Dc & Do).
  fold cooks in Dn, Dc, Do. cbv zeta in Dn, Dc, Do |- *.
  split; [|split].
  - rewrite Dn, IHn. rewrite List.filter_app, length_app. done.
  - intros d j c Hd Hj. destruct (decide (d = S m)) as [->|Hne].
    + rewrite (Dc j c Hj), IHo.
      2:{ intros d' Hd' E. apply dates_distinct in E;
            [lia|apply elem_of_monthDays; lia..]. }
      case_decide; [done|]. f_equal. unfold cookShift.
      replace (S m - 1) with m by lia. unfold monthDays. by rewrite IHn.
    + rewrite Do.
      2:{ intros E. apply dates_distinct in E;
            [lia|apply elem_of_monthDays; lia..]. }
      apply IHc; [lia|done].
  - intros k i Hk. rewrite Do, IHo; [done| |].
    + intros d Hd. apply Hk. lia.
    + intros E. apply (Hk (S m)); [lia|done].
Qed.

Lemma phase2_5_Cooking_cells sch d j c :
  1 <= d <= this_daysInMonth this ->
  cooksOf (this_staff this) !! j = Some c ->
  cellAt (phase2_5_Cooking this sch) (dateOf this d) (id c)
  = if decide (onLeave (cellAt sch (dateOf this d) (id c)))
    then cellAt sch (dateOf this d) (id c)
    else Some (cookShift this (length (cooksOf (this_staff this))) d j).
Proof.
  intros Hd Hj. unfold phase2_5_Cooking. fold (cooksOf (this_staff this)).
  case_decide as Hn.
  { apply lookup_lt_Some in Hj. lia. }
  destruct (cooking_prefix sch (this_daysInMonth this) (le_n _))
    as (_ & Hc & _).
  by apply Hc.
Qed.

End CookFacts.

(** X27: when every roster member has an id of their own, the days of the
    month have dates of their own and the random sorts reorder their
    lists, the run returns a schedule in which a member of the cooking
    staff who is not the chief and whose role is neither infant nor
    toddler holds, on every day of the month, the shift of phase 2.5: '休'
    on a Sunday or a holiday, 'B' on a weekday, and on a Saturday 'B' when
    it is their turn and '休' when it is not; but for the '有' and '振' of
    the existing schedule, which are in place. *)
Theorem cooks_follow_the_calendar staff holidays year month settings
    currentSchedule timeRangeSchedule :
  NoDup (id <$> staff) -> datesApart year month ->
  (forall site l, randomSort site l ≡ₚ l) ->
  let this := (constructor staff holidays year month settings
                 currentSchedule timeRangeSchedule).1 in
  exists out,
    (forall fuel, length staff < fuel ->
       runGenerator fuel staff holidays year month settings currentSchedule
         timeRangeSchedule = Done out)
    /\ forall d idx cook,
         1 <= d <= getDaysInMonth year month ->
         cooksOf staff !! idx = Some cook ->
         position cook ≠ Chief ->
         role cook ≠ Some infant -> role cook ≠ Some toddler ->
         let existingShift :=
           cellAt currentSchedule (getFormattedDate year month d)
             (id cook) in
         cellAt out (getFormattedDate year month d) (id cook)
         = if decide (existingShift = Some Yukyu
                      \/ existingShift = Some Furikyu)
           then existingShift
           else Some (cookShift this (length (cooksOf staff)) d idx).
Proof.
  intros Hids Hdates Hsort this.
  destruct (runGenerator_touches staff holidays year month settings
              currentSchedule timeRangeSchedule Hsort)
    as (out & E & Xext & Xt & T).
  exists out. split; [exact E|].
  intros d idx cook Hd Hidx Hpos Hr1 Hr2 existingShift.
  assert (cook ∈ staff /\ shiftType cook = cooking) as [Hin Hcook].
  { apply list_elem_of_lookup_2, elem_of_List_filter in Hidx as [? Hp].
    by apply bool_decide_eq_true in Hp. }
  assert (d ∈ monthDays (getDaysInMonth year month)) as Hd'
    by (by apply elem_of_monthDays).
  pose proof (constructor_seeds_own staff holidays year month settings
                currentSchedule timeRangeSchedule d cook Hids Hd' Hin)
    as E0.
  fold existingShift in E0.
  unfold seedCell in E0. rewrite decide_False in E0 by (by rewrite Hcook).
  case_decide as Hl.
  { eapply ext_leave in Xext; [| |by rewrite E0].
    - rewrite Xext. by destruct Hl as [-> | ->].
    - destruct Hl as [-> | ->]; auto. }
  fold this in Xt.
  set (start := (constructor staff holidays year month settings
                   currentSchedule timeRangeSchedule).2) in *.
  set (k := getFormattedDate year month d) in *.
  pose proof (phase1_Director_offOrSame this start k (id cook)) as X1.
  rewrite E0 in X1.
  pose proof (phase2_5_Cooking_cells this Hids) as X2.
  specialize (X2 ltac:(intros d1 d2 Hd1 Hd2; cbn;
                       apply Hdates; by apply elem_of_monthDays)
                (phase1_Director this start) d idx cook Hd Hidx).
  change (dateOf this d) with k in X2.
  change (this_staff this) with staff in X2.
  rewrite decide_False in X2
    by (intros [H|H]; destruct X1 as [X1|X1]; rewrite X1 in H;
        discriminate H).
  pose proof (touches_spared this selectedOrFill
                (fun cur => cur = PB \/ cur = Kokyu) cook Hids Hin) as X3.
  specialize (X3 ltac:(
    intros d0 v cur Hcur [Hsel|(_ & Hv & Hc)]; [exfalso|done];
    destruct Hsel as [Hr|[Hc|[(Hc & _)|[[Hc _]|[_ Ha]]]]];
    [rewrite Hcook in Hr; discriminate Hr
    |done
    |done
    |by destruct Hc
    |destruct Hcur as [-> | ->], Ha as [Ha|Ha]; discriminate Ha])
    ltac:(by right) _ _ Xt k).
  rewrite X2 in X3. cbn [orEmpty default] in X3.
  assert (cookShift this (length (cooksOf staff)) d idx = PB
          \/ cookShift this (length (cooksOf staff)) d idx = Kokyu) as Hv.
  { unfold cookShift. destruct (gen_isHoliday this d); [by right|].
    destruct (isSaturday this d); [|by left]. case_decide; auto. }
  destruct X3 as [E3|[Hf _]]; [exact Hv|by rewrite E3|].
  destruct Hv as [Hv|Hv]; rewrite Hv in Hf; discriminate Hf.
Qed.

(** ** What a cell holds after the writes *)

Section CellInvariant.

Variable this : ShiftGenerator.
Variable allowed : nat -> Staff -> ShiftPatternId -> ShiftPatternId -> Prop.
Variable k : string.
Variable i : Z.
Variable Inv : option ShiftPatternId -> Prop.

(** Every write that lands on the cell keeps [Inv]. *)
Hypothesis write_keeps :
  forall d s v c,
    d ∈ monthDays (this_daysInMonth this) -> s ∈ this_staff this ->
    dateOf this d = k -> id s = i ->
    Inv c -> allowed d s v (orEmpty c) -> Inv (Some v).

Lemma touch_cell sch sch' :
  touch this allowed sch sch' ->
  Inv (cellAt sch k i) -> Inv (cellAt sch' k i).
Proof.
  intros H HI. destruct H as [d s v Hd Hs Ha|d s v Hd Hs Ha|d].
  - destruct (cellAt_setShift this d (id s) v sch k i)
      as [E|(Ek & Ei & E & _)]; rewrite E; [done|].
    subst k i. by eapply write_keeps.
  - rewrite cellAt_putCell. case_decide as Hk; [|done].
    destruct Hk as [Ek Ei]. subst k i. by eapply write_keeps.
  - by rewrite cellAt_ensureRow.
Qed.

Lemma touches_cell sch sch' :
  touches this allowed sch sch' ->
  Inv (cellAt sch k i) -> Inv (cellAt sch' k i).
Proof.
  intros H. induction H as [|sch1 sch2 sch3 H12 _ IH]; [done|].
  intros HI. apply IH. by eapply touch_cell.
Qed.

End CellInvariant.

(** ** The regular staff on weekdays *)

Lemma forEachO_at {S A : Type} (R : relation S) `{!PreOrder R}
    (f : S -> A -> Outcome S) (l : list A) (st st' : S) x :
  (forall st y st', y ∈ l -> f st y = Done st' -> R st st') ->
  forEachO f st l = Done st' -> x ∈ l ->
  exists st1 st2, R st st1 /\ f st1 x = Done st2 /\ R st2 st'.
Proof.
  revert st. induction l as [|y l IH]; intros st Hf E Hx.
  { by apply elem_of_nil in Hx. }
  simpl in E. apply bind_Done in E as (st1 & E1 & E).
  assert (forall st0 z st0', z ∈ l -> f st0 z = Done st0' -> R st0 st0')
    as Hl by (intros st0 z st0' Hz; apply Hf; by right).
  apply elem_of_cons in Hx as [-> |Hx].
  - exists st, st1. split; [reflexivity|]. split; [done|].
    by apply (forEachO_rel R f l).
  - destruct (IH st1 Hl E Hx) as (st2 & st3 & X1 & E2 & X3).
    exists st2, st3. split; [|done]. etransitivity; [|exact X1].
    eapply Hf; [by left|done].
Qed.

Section RegularWeekday.

Variable this : ShiftGenerator.

Hypothesis randomSort_reorders : forall site l, randomSort site l ≡ₚ l.
Hypothesis ids_distinct : NoDup (id <$> this_staff this).

Variable d : nat.
Hypothesis d_in_month : d ∈ monthDays (this_daysInMonth this).
Hypothesis d_no_holiday : gen_isHoliday this d = false.
Hypothesis d_no_saturday : isSaturday this d = false.

#[local] Existing Instance touches_preorder.

Lemma setShift_assignedWork i v sch assignedIds :
  workShift v ->
  assignedWork (dateOf this d) sch assignedIds ->
  assignedWork (dateOf this d) (setShift this d i v sch) assignedIds.
Proof.
  intros Hv Hg j Hj.
  destruct (cellAt_setShift this d i v sch (dateOf this d) j)
    as [E|(_ & _ & E & _)]; rewrite E; [by apply Hg|by exists v].
Qed.

Lemma assignLoop_assignedWork pattern neededCount checkWeekly candidates sch
    assignedIds count :
  workShift pattern -> freeRegulars this d sch candidates ->
  assignedWork (dateOf this d) sch assignedIds ->
  assignedWork (dateOf this d)
    (assignLoop this d pattern neededCount checkWeekly candidates sch
       assignedIds count).1.1
    (assignLoop this d pattern neededCount checkWeekly candidates sch
       assignedIds count).1.2.
Proof.
  intros Hp. revert sch assignedIds count.
  induction candidates as [|s l IH]; intros sch assignedIds count [Hnd Hc] Hg;
    simpl; [done|].
  rewrite fmap_cons, NoDup_cons in Hnd. destruct Hnd as [Hs Hnd].
  destruct (Hc s) as (Hin & Hr & Hcell); [by left|].
  case_decide; [done|].
  destruct (candidateBlocked _ _ _ _ _ _).
  { apply IH; [|done]. split; [done|]. intros x Hx. apply Hc. by right. }
  assert (shiftType s ≠ part_time) as Hpt by (by rewrite Hr).
  apply IH.
  - split; [done|]. intros x Hx. destruct (Hc x) as (? & ? & Ex); [by right|].
    split; [done|]. split; [done|].
    destruct (cellAt_setShift this d (id s) pattern sch (dateOf this d)
                (id x)) as [E|(_ & Ei & _)]; [by rewrite E|].
    exfalso. apply Hs. rewrite <- Ei. apply list_elem_of_fmap. by exists x.
  - intros j [Hj|Hj]%elem_of_union.
    + apply elem_of_singleton in Hj as ->. exists pattern. split; [|done].
      rewrite (setShift_own this ids_distinct d s pattern sch Hin Hpt).
      rewrite decide_False; [done|]. rewrite Hcell. by intros [|].
    + by apply (setShift_assignedWork (id s) pattern sch assignedIds).
Qed.

Lemma notAssigned_free sch assignedIds regulars l :
  NoDup (id <$> regulars) -> regularStaff this regulars ->
  notAssigned sch (dateOf this d) assignedIds regulars = Done l ->
  freeRegulars this d sch l
  /\ forall s, s ∈ regulars ->
       cellAt sch (dateOf this d) (id s) = Some NoShift ->
       id s ∉ assignedIds -> s ∈ l.
Proof.
  intros Hnd Hr. unfold notAssigned.
  destruct regulars as [|r rest] eqn:Er.
  { intros [= <-]. split; [split; [constructor|]|];
      intros s Hs; by apply elem_of_nil in Hs. }
  rewrite <- Er in *. clear Er.
  destruct (sch !! dateOf this d) as [row|] eqn:Erow; [|done].
  assert (forall j, cellAt sch (dateOf this d) j = row !! j) as Hcell
    by (intros j; unfold cellAt; by rewrite Erow).
  intros [= <-]. split; [split|].
  - by apply NoDup_fmap_List_filter.
  - intros s [Hs Hp]%elem_of_List_filter.
    destruct (Hr s Hs) as [Hin Hreg]. split; [done|]. split; [done|].
    apply negb_true_iff, orb_false_iff in Hp as [Hp _].
    apply bool_decide_eq_false in Hp. rewrite Hcell.
    by apply dec_stable in Hp.
  - intros s Hs Hc Hi. apply elem_of_List_filter. split; [done|].
    apply negb_true_iff, orb_false_iff. rewrite Hcell in Hc. split.
    + apply bool_decide_eq_false. by intros ?.
    + by apply bool_decide_eq_false.
Qed.

Lemma sortCandidates_free sortFn site sch0 sch l :
  freeRegulars this d sch l -> freeRegulars this d sch (sortCandidates sortFn site sch0 l).
Proof.
  intros [Hnd Hl]. unfold sortCandidates. destruct sortFn as [cmp|].
  - split; [by rewrite jsSort_Permutation|].
    intros s Hs%jsSort_elem_of. by apply Hl.
  - split; [by rewrite randomSort_reorders|].
    intros s. rewrite (randomSort_reorders site). apply Hl.
Qed.

Lemma assignPattern_assignedWork regulars pattern targetCount relax sortFn
    st st' :
  workShift pattern ->
  NoDup (id <$> regulars) -> regularStaff this regulars ->
  assignPattern this regulars d pattern targetCount relax sortFn st
    = Done st' ->
  assignedWork (dateOf this d) st.1 st.2 ->
  assignedWork (dateOf this d) st'.1 st'.2.
Proof.
  intros Hp Hnd Hr. destruct st as [sch assignedIds].
  unfold assignPattern. cbn [fst snd].
  case_decide; [by intros [= <-]|].
  intros (l & El & E)%bind_Done Hg. revert E.
  apply (notAssigned_free _ _ _ _ Hnd Hr) in El as [El _].
  match goal with
  | |- context [assignLoop this d pattern ?n ?w ?c sch assignedIds 0] =>
      pose proof (assignLoop_assignedWork pattern n w c sch assignedIds 0 Hp)
        as X1;
      destruct (assignLoop this d pattern n w c sch assignedIds 0)
        as [[sch1 ids1] count1]
  end.
  cbn [fst snd] in X1.
  specialize (X1 (sortCandidates_free _ _ _ _ _ El) Hg).
  destruct (bool_decide _ && negb relax); [|by intros [= <-]].
  intros (l' & El' & E)%bind_Done. revert E.
  apply (notAssigned_free _ _ _ _ Hnd Hr) in El' as [El' _].
  match goal with
  | |- context [assignLoop this d pattern ?n ?w ?c sch1 ids1 count1] =>
      pose proof (assignLoop_assignedWork pattern n w c sch1 ids1 count1 Hp)
        as X2;
      destruct (assignLoop this d pattern n w c sch1 ids1 count1)
        as [[sch2 ids2] count2]
  end.
  cbn [fst snd] in X2.
  specialize (X2 (sortCandidates_free _ _ _ _ _ El') X1).
  by intros [= <-].
Qed.

(** The loop of phase 4 over the staff still without a shift. *)
Lemma fallback_each (l : list Staff) sch :
  freeRegulars this d sch l ->
  let r := foldl (fun sch s => setShift this d (id s)
                                 (fallbackShift this sch d s) sch) sch l in
  (forall s, s ∈ l ->
     exists v, cellAt r (dateOf this d) (id s) = Some v /\ workShift v)
  /\ (forall i, (forall s, s ∈ l -> id s ≠ i) ->
        cellAt r (dateOf this d) i = cellAt sch (dateOf this d) i).
Proof.
  revert sch. induction l as [|x l IH]; intros sch [Hnd Hl].
  { split; [|done]. intros s Hs. by apply elem_of_nil in Hs. }
  rewrite fmap_cons, NoDup_cons in Hnd. destruct Hnd as [Hx Hnd].
  destruct (Hl x) as (Hin & Hr & Hcell); [by left|].
  assert (shiftType x ≠ part_time) as Hpt by (by rewrite Hr).
  assert (forall y, y ∈ l -> id y ≠ id x) as Hne.
  { intros y Hy E. apply Hx. rewrite <- E.
    apply list_elem_of_fmap. by exists y. }
  set (sch1 := setShift this d (id x) (fallbackShift this sch d x) sch).
  assert (forall i, id x ≠ i ->
            cellAt sch1 (dateOf this d) i = cellAt sch (dateOf this d) i)
    as Hother.
  { intros i Hi. unfold sch1.
    destruct (cellAt_setShift this d (id x) (fallbackShift this sch d x) sch
                (dateOf this d) i) as [E|(_ & -> & _)]; done. }
  destruct (IH sch1) as [IH1 IH2].
  { split; [done|]. intros y Hy.
    destruct (Hl y) as (? & ? & Ey); [by right|].
    split; [done|]. split; [done|]. rewrite Hother; [done|].
    intros E. by apply (Hne y). }
  cbn [foldl]. fold sch1. split.
  - intros y [-> |Hy]%elem_of_cons; [|by apply IH1].
    rewrite IH2 by exact Hne. unfold sch1.
    rewrite (setShift_own this ids_distinct d x _ sch Hin Hpt).
    rewrite decide_False by (rewrite Hcell; by intros [|]).
    eexists. split; [done|]. apply workShift_fallbackShift.
  - intros i Hi. rewrite IH2, Hother; [done| |].
    + apply Hi. by left.
    + intros y Hy. apply Hi. by right.
Qed.

(** After phase 4 has passed a weekday, a regular staff member whose cell
    was empty holds a work shift. *)
Lemma regularWeekday_post regulars sch sch' s :
  NoDup (id <$> regulars) -> regularStaff this regulars ->
  regularWeekday this regulars sch d = Done sch' ->
  s ∈ regulars ->
  (exists v, cellAt sch' (dateOf this d) (id s) = Some v /\ workShift v)
  \/ (cellAt sch' (dateOf this d) (id s) = cellAt sch (dateOf this d) (id s)
      /\ cellAt sch (dateOf this d) (id s) ≠ Some NoShift).
Proof.
  intros Hnd Hr E Hs. unfold regularWeekday in E.
  rewrite d_no_holiday, d_no_saturday in E. cbn [orb] in E. cbn zeta in E.
  apply bind_Done in E as (st1 & E1 & E).
  apply bind_Done in E as (st2 & E2 & E).
  apply bind_Done in E as (st3 & E3 & E).
  apply bind_Done in E as (st4 & E4 & E).
  destruct st4 as [sch4 ids4].
  apply bind_Done in E as (remaining & Erem & [= <-]).
  assert (forall p t r f st st', workShift p ->
            assignPattern this regulars d p t r f st = Done st' ->
            (assignedWork (dateOf this d) st.1 st.2 ->
             assignedWork (dateOf this d) st'.1 st'.2)
            /\ touches this (phase4Write this) st.1 st'.1) as Hap.
  { intros p t r f st st' Hp Ep. split.
    - by eapply assignPattern_assignedWork.
    - by eapply (assignPattern_touches this randomSort_reorders d). }
  assert (assignedWork (dateOf this d) sch (∅ : gset Z)) as G0.
  { intros j Hj. by apply elem_of_empty in Hj. }
  assert (assignedWork (dateOf this d) st1.1 st1.2
          /\ touches this (phase4Write this) sch st1.1) as [G1 X1].
  { destruct (_ && _); apply bind_Done in E1 as (st0 & E0 & E1);
      apply Hap in E0 as [G X], E1 as [G' X']; try work_shift;
      cbn [fst snd] in *; (split; [auto|by etransitivity]). }
  cbn [fst snd] in *.
  apply Hap in E2 as [G2 X2], E3 as [G3 X3], E4 as [G4 X4]; try work_shift.
  cbn [fst snd] in *.
  specialize (G4 (G3 (G2 G1))). clear G1 G2 G3.
  assert (touches this (phase4Write this) sch sch4) as X.
  { transitivity st1.1; [done|]. transitivity st2.1; [done|].
    transitivity st3.1; [done|]. done. }
  assert ((exists v, cellAt sch4 (dateOf this d) (id s) = Some v
                     /\ workShift v)
          \/ cellAt sch4 (dateOf this d) (id s)
             = cellAt sch (dateOf this d) (id s)) as H4.
  { apply (touches_cell this (phase4Write this) (dateOf this d) (id s)
             (fun c => (exists v, c = Some v /\ workShift v)
                       \/ c = cellAt sch (dateOf this d) (id s)))
      with (sch := sch); [|done|by right].
    intros d0 s0 v c _ _ _ _ _ (_ & _ & _ & Hv). left. by exists v. }
  apply (notAssigned_free _ _ _ _ Hnd Hr) in Erem as [Hfree Hin].
  assert (freeRegulars this d sch4 (jsSort (sortByBurden this sch4) remaining))
    as Hfree'.
  { destruct Hfree as [Hn Hl]. split; [by rewrite jsSort_Permutation|].
    intros x Hx%jsSort_elem_of. by apply Hl. }
  destruct (fallback_each _ sch4 Hfree') as [F1 F2].
  destruct (decide (cellAt sch4 (dateOf this d) (id s) = Some NoShift))
    as [Hc|Hc].
  { left. apply F1, jsSort_elem_of, Hin; [done|done|].
    intros Hi. destruct (G4 (id s) Hi) as (v & Ev & Hv). rewrite Hc in Ev.
    injection Ev as <-. apply workShift_cases in Hv.
    by repeat destruct Hv as [Hv|Hv]. }
  rewrite F2.
  2:{ intros y Hy E. apply Hc. destruct Hfree' as [_ Hl].
      destruct (Hl y Hy) as (_ & _ & Ey). by rewrite <- E. }
  destruct H4 as [H4|H4]; [by left|]. right. split; [done|].
  by rewrite <- H4.
Qed.

End RegularWeekday.

Section Phase4.

Variable this : ShiftGenerator.

Hypothesis randomSort_reorders : forall site l, randomSort site l ≡ₚ l.
Hypothesis ids_distinct : NoDup (id <$> this_staff this).

#[local] Existing Instance touches_preorder.

Lemma phase4_RegularWeekday_post sch sch4 d s :
  phase4_RegularWeekday this sch = Done sch4 ->
  d ∈ monthDays (this_daysInMonth this) ->
  gen_isHoliday this d = false -> isSaturday this d = false ->
  s ∈ this_staff this -> shiftType s = regular ->
  seeded (cellAt sch (dateOf this d) (id s)) ->
  atWorkOrLeave (cellAt sch4 (dateOf this d) (id s)).
Proof.
  intros E Hd Hh Hsat Hs Hr H0. unfold phase4_RegularWeekday in E.
  pose proof (regulars_regular this) as Hreg.
  assert (NoDup (id <$> List.filter
                          (fun s => bool_decide (shiftType s = regular))
                          (this_staff this))) as Hnd
    by (by apply NoDup_fmap_List_filter).
  apply (forEachO_at (touches this (phase4Write this)) _ _ _ _ d) in E
    as (st1 & st2 & X1 & E2 & X3); [| |done].
  2:{ intros st y st' Hy.
      by apply (regularWeekday_touches this randomSort_reorders). }
  assert (seeded (cellAt st1 (dateOf this d) (id s))
          \/ exists v, cellAt st1 (dateOf this d) (id s) = Some v
                       /\ workShift v) as H1.
  { apply (touches_cell this (phase4Write this) (dateOf this d) (id s)
             (fun c => seeded c \/ exists v, c = Some v /\ workShift v))
      with (sch := sch); [|done|by left].
    intros d0 s0 v c _ _ _ _ _ (_ & _ & _ & Hv). right. by exists v. }
  assert (atWorkOrLeave (cellAt st2 (dateOf this d) (id s))) as H2.
  { destruct (regularWeekday_post this randomSort_reorders ids_distinct d Hd
                Hh Hsat _ st1 st2 s Hnd Hreg E2) as [(v & Ev & Hv)|[Ev Hne]].
    - apply elem_of_List_filter. split; [done|]. by apply bool_decide_eq_true.
    - exists v. auto.
    - rewrite Ev. destruct H1 as [[H1|[H1|H1]]|(v & H1 & Hv)].
      + done.
      + exists Yukyu. auto.
      + exists Furikyu. auto.
      + exists v. auto. }
  apply (touches_cell this (phase4Write this) (dateOf this d) (id s)
           atWorkOrLeave) with (sch := st2); [|done|done].
  intros d0 s0 v c _ _ _ _ _ (_ & _ & _ & Hv). exists v. auto.
Qed.

End Phase4.

(** The run, phase by phase. *)
Lemma runGenerator_phases staff holidays year month settings
    currentSchedule timeRangeSchedule :
  let this := (constructor staff holidays year month settings
                 currentSchedule timeRangeSchedule).1 in
  let start := (constructor staff holidays year month settings
                  currentSchedule timeRangeSchedule).2 in
  exists out sch4,
    (forall fuel, length staff < fuel ->
       runGenerator fuel staff holidays year month settings currentSchedule
         timeRangeSchedule = Done out)
    /\ phase4_RegularWeekday this
         (phase3_Saturday this
            (phase2_5_Cooking this (phase1_Director this start)))
       = Done sch4
    /\ touches this (laterWrite this) sch4 out
    /\ (forall d s,
          d ∈ monthDays (getDaysInMonth year month) -> s ∈ staff ->
          shiftType s ≠ part_time ->
          truthy (cellAt out (getFormattedDate year month d) (id s)) = true)
    /\ extends start out.
Proof.
  intros this start.
  destruct (runGenerator_done staff holidays year month settings
              currentSchedule timeRangeSchedule) as (mid & E & X).
  pose proof (E (S (length staff)) (Nat.lt_succ_diag_r _)) as E1.
  unfold runGenerator in E1. subst this start.
  destruct (constructor staff holidays year month settings currentSchedule
              timeRangeSchedule) as [this sch0] eqn:Ec.
  cbn [fst snd] in *.
  apply (generate_phases this) in E1 as (sch4 & E4 & X4).
  eexists _, sch4. split; [exact E|]. split; [exact E4|].
  split; [exact X4|]. split.
  - intros d s Hd Hs Hpt.
    assert (this = (constructor staff holidays year month settings
                      currentSchedule timeRangeSchedule).1) as ->
      by (by rewrite Ec).
    match goal with
    | |- context [finalSafetyFill ?this ?sch] =>
        exact (finalSafetyFill_complete this sch d s Hd Hs Hpt)
    end.
  - etransitivity; [exact X|].
    etransitivity; [apply phase10_Validation_extends|].
    apply finalSafetyFill_extends.
Qed.

(** X28: when every roster member has an id of their own, the days of the
    month have dates of their own and the random sorts reorder their
    lists, the run returns a schedule in which every regular staff member
    who is not the director holds, on every day of the month that is
    neither a Sunday, a holiday nor a Saturday, a work shift 'A' to 'J', or
    '有' or '振': on such a day no regular staff member is on '休' or left
    without a shift. *)
Theorem regulars_work_on_weekdays staff holidays year month settings
    currentSchedule timeRangeSchedule :
  NoDup (id <$> staff) -> datesApart year month ->
  (forall site l, randomSort site l ≡ₚ l) ->
  exists out,
    (forall fuel, length staff < fuel ->
       runGenerator fuel staff holidays year month settings currentSchedule
         timeRangeSchedule = Done out)
    /\ forall d s,
         1 <= d <= getDaysInMonth year month -> s ∈ staff ->
         shiftType s = regular -> position s ≠ Director ->
         workDay holidays year month d -> getDayOfWeek year month d ≠ 6 ->
         exists v,
           cellAt out (getFormattedDate year month d) (id s) = Some v
           /\ v ∈ [PA; PB; PC; PD; PE; PJ; Yukyu; Furikyu].
Proof.
  intros Hids Hdates Hsort.
  destruct (runGenerator_phases staff holidays year month settings
              currentSchedule timeRangeSchedule)
    as (out & sch4 & E & E4 & X & _).
  exists out. split; [exact E|].
  intros d s Hd%elem_of_monthDays Hs Hr Hpos [Hsun Hhol] Hsat.
  set (this := (constructor staff holidays year month settings
                  currentSchedule timeRangeSchedule).1) in *.
  set (start := (constructor staff holidays year month settings
                   currentSchedule timeRangeSchedule).2) in *.
  set (k := getFormattedDate year month d) in *.
  assert (gen_isHoliday this d = false) as Hh.
  { unfold gen_isHoliday, dateOf. cbn. fold k. rewrite Hhol.
    by rewrite bool_decide_eq_false_2. }
  assert (isSaturday this d = false) as Hns.
  { unfold isSaturday. cbn. by rewrite bool_decide_eq_false_2. }
  assert (forall d0, d0 ∈ monthDays (this_daysInMonth this) ->
                     dateOf this d0 = k -> d0 = d) as Hdate.
  { intros d0 Hd0 E0. apply Hdates; [by apply elem_of_monthDays..|done]. }
  assert (forall s0, s0 ∈ this_staff this -> id s0 = id s -> s0 = s) as Hid.
  { intros s0 Hs0 E0. by apply (NoDup_id_inj staff). }
  assert (seeded (cellAt start k (id s))) as H0.
  { unfold start, k.
    rewrite (constructor_seeds_own staff holidays year month settings
               currentSchedule timeRangeSchedule d s Hids Hd Hs).
    unfold seedCell. rewrite decide_False by (by rewrite Hr).
    case_decide as Hl; [|by left].
    destruct Hl as [-> | ->]; [right; by left|right; by right]. }
  assert (seeded (cellAt (phase1_Director this start) k (id s))) as H1.
  { apply (touches_cell this phase1Write k (id s) seeded) with (sch := start);
      [|apply phase1_Director_touches|done].
    intros d0 s0 v c _ Hs0 _ Ei _ [Hp _]. exfalso.
    apply Hpos. by rewrite <- (Hid s0 Hs0 Ei). }
  assert (seeded (cellAt (phase2_5_Cooking this (phase1_Director this start))
                    k (id s))) as H2.
  { apply (touches_cell this phase2_5Write k (id s) seeded)
      with (sch := phase1_Director this start);
      [|apply phase2_5_Cooking_touches|done].
    intros d0 s0 v c _ Hs0 _ Ei _ [Hc _]. exfalso.
    rewrite (Hid s0 Hs0 Ei), Hr in Hc. discriminate Hc. }
  assert (seeded (cellAt (phase3_Saturday this
                            (phase2_5_Cooking this
                               (phase1_Director this start))) k (id s)))
    as H3.
  { apply (touches_cell this (phase3Write this) k (id s) seeded)
      with (sch := phase2_5_Cooking this (phase1_Director this start));
      [|by apply phase3_Saturday_touches|done].
    intros d0 s0 v c Hd0 _ Ek _ _ [_ [[Hs0 _]|[_ [[Hs0 _]| ->]]]].
    - rewrite (Hdate d0 Hd0 Ek), Hns in Hs0. discriminate Hs0.
    - rewrite (Hdate d0 Hd0 Ek), Hns in Hs0. discriminate Hs0.
    - right. by right. }
  assert (atWorkOrLeave (cellAt sch4 k (id s))) as H4.
  { by apply (phase4_RegularWeekday_post this Hsort Hids _ sch4 d s E4). }
  assert (atWorkOrLeave (cellAt out k (id s))) as (v & Ev & Hv).
  { apply (touches_cell this (laterWrite this) k (id s) atWorkOrLeave)
      with (sch := sch4); [|done|done].
    intros d0 s0 v c Hd0 _ Ek _ (w & -> & Hw) [[_ Hlv]|(_ & _ & Hc)].
    - destruct Hlv as [(_ & _ & Hv)|[[-> _]|[-> [Hh0|Hc]]]].
      + exists v. auto.
      + exists PB. split; [done|]. left. work_shift.
      + rewrite (Hdate d0 Hd0 Ek), Hh in Hh0. discriminate Hh0.
      + cbn in Hc. subst w. exfalso.
        destruct Hw as [Hw%workShift_cases|[Hw|Hw]];
          [by repeat destruct Hw as [Hw|Hw]|done..].
    - cbn in Hc. subst w. exfalso.
      destruct Hw as [Hw%workShift_cases|[Hw|Hw]];
        [by repeat destruct Hw as [Hw|Hw]|done..]. }
  exists v. split; [exact Ev|].
  destruct Hv as [Hv%workShift_cases|[-> | ->]].
  - repeat destruct Hv as [Hv|Hv]; subst v;
      repeat ((by left) || right).
  - do 6 right. by left.
  - do 7 right. by left.
Qed.

(** X29: when no staff member who is not part-time shares an id with a
    part-time one, the days of the month have dates of their own and the
    random sorts reorder their lists, the run returns a schedule in which,
    on every Saturday of the month that is no holiday, every staff member
    who is not part-time is on the Saturday pattern of the settings, on
    'B', or on '休', '有' or '振'. *)
Theorem saturday_shifts staff holidays year month settings currentSchedule
    timeRangeSchedule :
  idsApart staff -> datesApart year month ->
  (forall site l, randomSort site l ≡ₚ l) ->
  exists out,
    (forall fuel, length staff < fuel ->
       runGenerator fuel staff holidays year month settings currentSchedule
         timeRangeSchedule = Done out)
    /\ forall d s,
         1 <= d <= getDaysInMonth year month -> s ∈ staff ->
         shiftType s ≠ part_time ->
         getDayOfWeek year month d = 6 ->
         checkIsHoliday (getFormattedDate year month d) holidays = false ->
         exists v,
           cellAt out (getFormattedDate year month d) (id s) = Some v
           /\ v ∈ [saturdayShiftPattern settings; PB; Kokyu; Yukyu;
                   Furikyu].
Proof.
  intros Hids Hdates Hsort.
  destruct (runGenerator_phases staff holidays year month settings
              currentSchedule timeRangeSchedule)
    as (out & sch4 & E & E4 & X & T & _).
  exists out. split; [exact E|].
  intros d s Hd%elem_of_monthDays Hs Hpt Hdow Hhol.
  specialize (T d s Hd Hs Hpt).
  set (this := (constructor staff holidays year month settings
                  currentSchedule timeRangeSchedule).1) in *.
  set (start := (constructor staff holidays year month settings
                   currentSchedule timeRangeSchedule).2) in *.
  set (k := getFormattedDate year month d) in *.
  assert (gen_isHoliday this d = false) as Hh.
  { unfold gen_isHoliday, dateOf. cbn. fold k. rewrite Hhol, Hdow. done. }
  assert (isSaturday this d = true) as Hsat.
  { unfold isSaturday. cbn zeta. rewrite Hh. cbn. rewrite Hdow. done. }
  assert (forall d0, d0 ∈ monthDays (this_daysInMonth this) ->
                     dateOf this d0 = k -> d0 = d) as Hdate.
  { intros d0 Hd0 E0. apply Hdates; [by apply elem_of_monthDays..|done]. }
  assert (saturdayCell this (cellAt start k (id s))) as H0.
  { destruct (constructor_seeds staff currentSchedule holidays year month
                settings timeRangeSchedule d s Hd Hs)
      as (s' & Hs' & Hid & E0).
    fold start k in E0. rewrite E0. eexists. split; [done|].
    assert (shiftType s' ≠ part_time) as Hpt'.
    { intros Hn. by apply (Hids s s'). }
    unfold seedCell. rewrite decide_False by done.
    case_decide as Hl; [|by do 5 right].
    destruct Hl as [-> | ->]; cbn; auto 10. }
  assert (forall allowed sch sch',
            (forall d0 s0 v cur, d0 ∈ monthDays (this_daysInMonth this) ->
               dateOf this d0 = k -> allowed d0 s0 v cur ->
               v = saturdayShiftPattern (this_settings this) \/ v = PB
               \/ v = Kokyu \/ v = Furikyu) ->
            touches this allowed sch sch' ->
            saturdayCell this (cellAt sch k (id s)) ->
            saturdayCell this (cellAt sch' k (id s))) as Hkeep.
  { intros allowed sch sch' Hv Ht.
    apply (touches_cell this allowed k (id s) (saturdayCell this));
      [|done].
    intros d0 s0 v c Hd0 _ Ek _ _ Ha. exists v. split; [done|].
    destruct (Hv d0 s0 v _ Hd0 Ek Ha) as [?|[?|[?|?]]]; auto 10. }
  assert (saturdayCell this (cellAt out k (id s))) as (v & Ev & Hv).
  { eapply Hkeep; [|exact X|].
    { intros d0 s0 v cur Hd0 Ek [[_ Hlv]|(_ & -> & _)]; [|auto].
      destruct Hlv as [(_ & Hs0 & _)|[[-> _]|[-> _]]]; [|auto..].
      rewrite (Hdate d0 Hd0 Ek), Hsat in Hs0. discriminate Hs0. }
    eapply Hkeep;
      [|by apply (phase4_RegularWeekday_touches this Hsort), E4|].
    { intros d0 s0 v cur Hd0 Ek (_ & _ & Hs0 & _).
      rewrite (Hdate d0 Hd0 Ek), Hsat in Hs0. discriminate Hs0. }
    eapply Hkeep; [|by apply phase3_Saturday_touches|].
    { intros d0 s0 v cur Hd0 Ek [_ [[_ ->]|[_ [[_ ->]| ->]]]]; auto. }
    eapply Hkeep; [|apply phase2_5_Cooking_touches|].
    { intros d0 s0 v cur Hd0 Ek [_ [-> | ->]]; auto. }
    eapply Hkeep; [|apply phase1_Director_touches|exact H0].
    intros d0 s0 v cur Hd0 Ek [_ ->]. auto. }
  exists v. split; [exact Ev|].
  rewrite Ev in T.
  destruct Hv as [-> |[-> |[-> |[-> |[-> | ->]]]]];
    [by left|right; by left|do 2 right; by left|do 3 right; by left
    |do 4 right; by left|done].
Qed.

(** X30: when every roster member has an id of their own, the days of the
    month have dates of their own and the random sorts reorder their
    lists, the run returns a schedule in which, on every Saturday of the
    month that is no holiday, a staff member who is neither part-time nor
    cooking staff and is not a qualified regular member of the staff other
    than the director is on '休', but for the '有' and '振' of the existing
    schedule, which are in place.  Such a member is never given a Saturday
    to work. *)
Theorem saturdays_are_for_qualified_regulars staff holidays year month
    settings currentSchedule timeRangeSchedule :
  NoDup (id <$> staff) -> datesApart year month ->
  (forall site l, randomSort site l ≡ₚ l) ->
  exists out,
    (forall fuel, length staff < fuel ->
       runGenerator fuel staff holidays year month settings currentSchedule
         timeRangeSchedule = Done out)
    /\ forall d s,
         1 <= d <= getDaysInMonth year month -> s ∈ staff ->
         shiftType s ≠ part_time -> shiftType s ≠ cooking ->
         ¬ qualifiedRegular s ->
         getDayOfWeek year month d = 6 ->
         checkIsHoliday (getFormattedDate year month d) holidays = false ->
         let existingShift :=
           cellAt currentSchedule (getFormattedDate year month d) (id s) in
         cellAt out (getFormattedDate year month d) (id s)
         = if decide (existingShift = Some Yukyu
                      \/ existingShift = Some Furikyu)
           then existingShift else Some Kokyu.
Proof.
  intros Hids Hdates Hsort.
  destruct (runGenerator_phases staff holidays year month settings
              currentSchedule timeRangeSchedule)
    as (out & sch4 & E & E4 & X & T & Xext).
  exists out. split; [exact E|].
  intros d s Hd%elem_of_monthDays Hs Hpt Hcook Hq Hdow Hhol existingShift.
  specialize (T d s Hd Hs Hpt).
  pose proof (constructor_seeds_own staff holidays year month settings
                currentSchedule timeRangeSchedule d s Hids Hd Hs) as E0.
  fold existingShift in E0.
  unfold seedCell in E0. rewrite decide_False in E0 by done.
  case_decide as Hl.
  { eapply ext_leave in Xext; [| |by rewrite E0].
    - rewrite Xext. by destruct Hl as [-> | ->].
    - destruct Hl as [-> | ->]; auto. }
  set (this := (constructor staff holidays year month settings
                  currentSchedule timeRangeSchedule).1) in *.
  set (start := (constructor staff holidays year month settings
                   currentSchedule timeRangeSchedule).2) in *.
  set (k := getFormattedDate year month d) in *.
  assert (gen_isHoliday this d = false) as Hh.
  { unfold gen_isHoliday, dateOf. cbn. fold k. rewrite Hhol, Hdow. done. }
  assert (isSaturday this d = true) as Hsat.
  { unfold isSaturday. cbn zeta. rewrite Hh. cbn. rewrite Hdow. done. }
  assert (forall d0, d0 ∈ monthDays (this_daysInMonth this) ->
                     dateOf this d0 = k -> d0 = d) as Hdate.
  { intros d0 Hd0 Ek. apply Hdates; [by apply elem_of_monthDays..|done]. }
  assert (forall s0, s0 ∈ this_staff this -> id s0 = id s -> s0 = s) as Hid.
  { intros s0 Hs0 Ei. by apply (NoDup_id_inj staff). }
  assert (forall allowed sch sch',
            (forall d0 s0 v cur, d0 ∈ monthDays (this_daysInMonth this) ->
               s0 ∈ this_staff this -> dateOf this d0 = k -> id s0 = id s ->
               cur = NoShift \/ cur = Kokyu ->
               allowed d0 s0 v cur -> v = Kokyu) ->
            touches this allowed sch sch' ->
            cellAt sch k (id s) = Some NoShift
            \/ cellAt sch k (id s) = Some Kokyu ->
            cellAt sch' k (id s) = Some NoShift
            \/ cellAt sch' k (id s) = Some Kokyu) as Hkeep.
  { intros allowed sch sch' Hv Ht.
    apply (touches_cell this allowed k (id s)
             (fun c => c = Some NoShift \/ c = Some Kokyu)); [|done].
    intros d0 s0 v c Hd0 Hs0 Ek Ei Hc Ha. right. f_equal.
    apply (Hv d0 s0 v (orEmpty c)); try done.
    destruct Hc as [-> | ->]; auto. }
  assert (cellAt out k (id s) = Some NoShift
          \/ cellAt out k (id s) = Some Kokyu) as Hout.
  { eapply Hkeep; [|exact X|].
    { intros d0 s0 v cur Hd0 Hs0 Ek Ei Hcur [[_ Hlv]|(_ & -> & _)]; [|done].
      destruct Hlv as [(_ & Hs1 & _)|[[_ Hc]|[-> _]]]; [| |done].
      - rewrite (Hdate d0 Hd0 Ek), Hsat in Hs1. discriminate Hs1.
      - destruct Hcur as [-> | ->], Hc as [Hc|Hc]; discriminate Hc. }
    eapply Hkeep;
      [|by apply (phase4_RegularWeekday_touches this Hsort), E4|].
    { intros d0 s0 v cur Hd0 Hs0 Ek Ei Hcur (_ & _ & Hs1 & _).
      rewrite (Hdate d0 Hd0 Ek), Hsat in Hs1. discriminate Hs1. }
    eapply Hkeep; [|by apply phase3_Saturday_touches|].
    { intros d0 s0 v cur Hd0 Hs0 Ek Ei Hcur [_ [[_ ->]|[Hq0 _]]]; [done|].
      exfalso. apply Hq. by rewrite <- (Hid s0 Hs0 Ei). }
    eapply Hkeep; [|apply phase2_5_Cooking_touches|].
    { intros d0 s0 v cur Hd0 Hs0 Ek Ei Hcur [Hc _].
      exfalso. apply Hcook. by rewrite <- (Hid s0 Hs0 Ei). }
    eapply Hkeep; [|apply phase1_Director_touches|by left].
    by intros d0 s0 v cur Hd0 Hs0 Ek Ei Hcur [_ ->]. }
  destruct Hout as [Hout|Hout]; rewrite Hout in T |- *; done.
Qed.

(** * Properties of the schedule editor *)

Set Default Proof Using "Type".

(** ** Editing a cell *)

(** X22: [handleShiftUpdate] and [handleSelectStaff] check the schedule
    they have already written the new shift into.  So among the violations
    they show, one with a minimum-count code occurs exactly when the shift
    just entered is 'A' or 'J' and that band, the new cell included, holds
    at most two staff; the band the staff member has left is not looked
    at. *)
Theorem edit_checks_the_band_entered schedule staff holidays settings year
    month staffId day shiftId :
  (forall newSchedule violations,
     handleShiftUpdate (Some (staffId, day)) schedule staff holidays
       settings year month shiftId = Some (newSchedule, violations) ->
     cellAt newSchedule (getFormattedDate year month day) staffId
       = Some shiftId
     /\ ((exists v, v ∈ violations
                    /\ (code v = MIN_COUNT_A \/ code v = MIN_COUNT_J))
         <-> (shiftId = PA \/ shiftId = PJ)
             /\ countRow shiftId
                  (default ∅ (newSchedule
                                !! getFormattedDate year month day)) <= 2))
  /\ (forall editedStaffId newSchedule violations,
        handleSelectStaff (Some (editedStaffId, day)) schedule staff holidays
          settings year month staffId shiftId
          = Some (newSchedule, violations) ->
        cellAt newSchedule (getFormattedDate year month day) staffId
          = Some shiftId
        /\ ((exists v, v ∈ violations
                       /\ (code v = MIN_COUNT_A \/ code v = MIN_COUNT_J))
            <-> (shiftId = PA \/ shiftId = PJ)
                /\ countRow shiftId
                     (default ∅ (newSchedule
                                   !! getFormattedDate year month day))
                   <= 2)).
Proof.
  assert (forall newSchedule violations,
    newSchedule = putCell schedule (getFormattedDate year month day)
                    staffId shiftId ->
    violations = checkConstraints
                   (createConstraintContext newSchedule staff holidays
                      settings year month) day staffId shiftId ->
    cellAt newSchedule (getFormattedDate year month day) staffId
      = Some shiftId
    /\ ((exists v, v ∈ violations
                   /\ (code v = MIN_COUNT_A \/ code v = MIN_COUNT_J))
        <-> (shiftId = PA \/ shiftId = PJ)
            /\ countRow shiftId
                 (default ∅ (newSchedule
                               !! getFormattedDate year month day)) <= 2))
    as Hboth.
  { intros newSchedule violations -> ->.
    assert (cellAt (putCell schedule (getFormattedDate year month day)
                      staffId shiftId)
              (getFormattedDate year month day) staffId = Some shiftId)
      as Hcell.
    { rewrite cellAt_putCell. by rewrite decide_True. }
    split; [exact Hcell|].
    rewrite min_count_reported.
    unfold getShift, countDayPattern, createConstraintContext.
    simpl. rewrite Hcell. done. }
  split.
  - intros newSchedule violations [= <- <-]. by apply Hboth.
  - intros editedStaffId newSchedule violations [= <- <-]. by apply Hboth.
Qed.

(** ** Swapping two cells *)

Lemma countRow_insert p (row : gmap Z ShiftPatternId) i v :
  countRow p (<[i:=v]> row)
  = countRow p (delete i row) + (if decide (v = p) then 1 else 0).
Proof.
  unfold countRow. rewrite <- insert_delete_eq.
  rewrite map_to_list_insert by apply lookup_delete_eq.
  rewrite filter_cons. simpl. case_decide; simpl; lia.
Qed.

Lemma countRow_delete p (row : gmap Z ShiftPatternId) i :
  countRow p row
  = countRow p (delete i row)
    + (if decide (row !! i = Some p) then 1 else 0).
Proof.
  destruct (row !! i) as [v|] eqn:E.
  - rewrite <- (insert_id row i v E) at 1. rewrite countRow_insert.
    repeat case_decide; congruence || lia.
  - rewrite delete_id by done. rewrite decide_False by done. lia.
Qed.

(** Two cells of a row exchanged: the number of cells that hold a given
    shift other than '' is the same. *)
Lemma countRow_swap p (row : gmap Z ShiftPatternId) a b :
  p ≠ NoShift ->
  countRow p (<[b:=default NoShift (row !! a)]>
                (<[a:=default NoShift (row !! b)]> row))
  = countRow p row.
Proof.
  intros Hp.
  assert (forall i, (if decide (default NoShift (row !! i) = p) then 1 else 0)
                    = (if decide (row !! i = Some p) then 1 else 0)) as Hsame.
  { intros i. destruct (row !! i) as [v|]; simpl; repeat case_decide;
      congruence. }
  destruct (decide (a = b)) as [->|Hab].
  - rewrite insert_insert_eq, countRow_insert, (countRow_delete p row b).
    by rewrite Hsame.
  - rewrite countRow_insert, delete_insert_ne by done.
    rewrite countRow_insert.
    rewrite (countRow_delete p row b), (countRow_delete p (delete b row) a).
    rewrite lookup_delete_ne by done. rewrite !Hsame. lia.
Qed.

(** X23: [handleSwap], with which a swap suggestion is applied, exchanges
    two cells of one day: the number of staff on each band that day stays
    what it was, and [findShortages] reports after the swap the shortages
    it reported before. *)
Theorem handleSwap_keeps_shortages schedule staff holidays settings year
    month staffId day staffAId staffBId newSchedule :
  handleSwap (Some (staffId, day)) schedule year month staffAId staffBId
    = Some newSchedule ->
  (forall p, p ≠ NoShift ->
     countDayPattern
       (createConstraintContext newSchedule staff holidays settings year
          month) day p
     = countDayPattern
         (createConstraintContext schedule staff holidays settings year
            month) day p)
  /\ findShortages
       (createConstraintContext newSchedule staff holidays settings year
          month) day
     = findShortages
         (createConstraintContext schedule staff holidays settings year
            month) day.
Proof.
  intros [= <-].
  assert (forall p, p ≠ NoShift ->
    countRow p
      (default ∅
         (putCell
            (putCell schedule (getFormattedDate year month day) staffAId
               (orEmpty (cellAt schedule (getFormattedDate year month day)
                           staffBId)))
            (getFormattedDate year month day) staffBId
            (orEmpty (cellAt schedule (getFormattedDate year month day)
                        staffAId))
          !! getFormattedDate year month day))
    = countRow p
        (default ∅ (schedule !! getFormattedDate year month day))) as Hcount.
  { intros p Hp. unfold putCell. rewrite !lookup_insert_eq. cbn [default].
    assert (forall i, orEmpty (cellAt schedule
                                 (getFormattedDate year month day) i)
                      = default NoShift
                          (default ∅ (schedule
                                        !! getFormattedDate year month day)
                           !! i)) as E.
    { intros i. unfold orEmpty, cellAt.
      destruct (schedule !! _); [done|]. simpl. by rewrite lookup_empty. }
    rewrite !E. by apply countRow_swap. }
  split.
  - intros p Hp. unfold countDayPattern, createConstraintContext.
    simpl. by apply Hcount.
  - unfold findShortages, createConstraintContext.
    simpl. cbn [omap list_omap].
    by rewrite !Hcount.
Qed.

(** ** Resetting the month *)

Lemma resets_empty s : ¬ resets s (Some NoShift).
Proof. by intros [? _]. Qed.

#[local] Instance cleared_preorder staff year month :
  PreOrder (cleared staff year month).
Proof.
  split.
  - intros sch. split; [done|]. by left.
  - intros a b c [R1 C1] [R2 C2]. split.
    + intros k. by rewrite R2, R1.
    + intros k i. destruct (C2 k i) as [->|(E & d & s & ? & ? & ? & ? & Hr)];
        [apply C1|].
      destruct (C1 k i) as [Eb|(Eb & _)].
      * right. split; [done|]. exists d, s. by rewrite <- Eb.
      * rewrite Eb in Hr. by apply resets_empty in Hr.
Qed.

Lemma resetCell_cleared staff year month d sch s :
  d ∈ monthDays (getDaysInMonth year month) -> s ∈ staff ->
  cleared staff year month sch
    (resetCell (getFormattedDate year month d) sch s).
Proof.
  intros Hd Hs.
  assert (resets s (cellAt sch (getFormattedDate year month d) (id s)) ->
          cleared staff year month sch
            (putCell sch (getFormattedDate year month d) (id s) NoShift))
    as Hput.
  { intros Hr. split.
    - intros k. apply putCell_rows_iff. apply cellAt_row with (i := id s).
      destruct Hr as [Ht _].
      destruct (cellAt sch _ (id s)); [eauto|done].
    - intros k i. rewrite cellAt_putCell.
      case_decide as Hki; [|by left]. destruct Hki as [<- <-].
      right. split; [done|]. by exists d, s. }
  unfold resetCell. cbn zeta.
  destruct (truthy _) eqn:Et; cbn [negb]; [|reflexivity].
  case_decide as Hpt; [reflexivity|].
  case_decide as Hreg.
  - case_decide as Hy; [reflexivity|]. apply Hput.
    split; [done|]. split; [done|]. by intros [_ ?].
  - apply Hput. split; [done|]. split; [done|]. by intros [? _].
Qed.

Lemma handleReset_cleared schedule staff year month newSchedule :
  handleReset true schedule staff year month = Some newSchedule ->
  cleared staff year month schedule newSchedule.
Proof.
  unfold handleReset. cbn [negb]. intros [= <-].
  apply (foldl_preorder (cleared staff year month)). intros sch d Hd.
  cbn zeta. case_decide; [reflexivity|].
  apply (foldl_preorder (cleared staff year month)). intros sch' s Hs.
  by apply resetCell_cleared.
Qed.

(** After the reset, no cell of a day of the month is left that the reset
    clears. *)
Lemma handleReset_settled schedule staff year month newSchedule d s :
  handleReset true schedule staff year month = Some newSchedule ->
  d ∈ monthDays (getDaysInMonth year month) -> s ∈ staff ->
  ¬ resets s (cellAt newSchedule (getFormattedDate year month d) (id s)).
Proof.
  unfold handleReset. cbn [negb]. intros [= <-] Hd Hs.
  assert (forall k i (st st' : ShiftSchedule) (x : Staff),
            cleared staff year month st st' ->
            ¬ resets x (cellAt st k i) -> ¬ resets x (cellAt st' k i))
    as Hstable.
  { intros k i st st' x [_ C] Hn.
    destruct (C k i) as [->|[-> _]]; [done|apply resets_empty]. }
  revert s Hs.
  match goal with
  | |- context [foldl ?f schedule ?l] =>
      apply (foldl_establish (cleared staff year month)
               (fun d sch => forall s, s ∈ staff ->
                  ¬ resets s (cellAt sch (getFormattedDate year month d)
                                (id s)))
               f l schedule); [| | |exact Hd]
  end.
  - intros d' st st' HR HP s Hs. eapply Hstable; [exact HR|]. by apply HP.
  - intros st d' Hd'. cbn zeta. case_decide; [reflexivity|].
    apply (foldl_preorder (cleared staff year month)). intros st' s Hs.
    by apply resetCell_cleared.
  - intros st d' Hd'. cbn zeta. case_decide as Hrow.
    { intros s Hs [Ht _]. unfold cellAt in Ht. by rewrite Hrow in Ht. }
    apply (foldl_establish (cleared staff year month)
             (fun s sch => ¬ resets s (cellAt sch
                                         (getFormattedDate year month d')
                                         (id s)))
             (resetCell (getFormattedDate year month d')) staff st).
    + intros s st1 st2 HR HP. by eapply Hstable.
    + intros st' s Hs. by apply resetCell_cleared.
    + intros st' s Hs. unfold resetCell. cbn zeta.
      destruct (truthy _) eqn:Et; cbn [negb];
        [|intros [Ht _]; congruence].
      case_decide as Hpt; [by intros (_ & ? & _)|].
      case_decide as Hreg.
      * case_decide as Hy; [intros (_ & _ & Hn); by apply Hn|].
        rewrite cellAt_putCell, decide_True by done. apply resets_empty.
      * rewrite cellAt_putCell, decide_True by done. apply resets_empty.
Qed.

(** X24: [handleReset], once confirmed, keeps the rows of the schedule and
    clears to '' exactly the cells of days of the month that are not falsy
    and belong to a roster member who is not part-time, but for the paid
    leave '有' of a regular staff member or of the chief; every other cell
    is left as it is.  A compensatory day off '振' is cleared, and so is the
    paid leave of a member who is neither regular nor the chief. *)
Theorem handleReset_spec schedule staff year month newSchedule :
  handleReset true schedule staff year month = Some newSchedule ->
  (forall k, is_Some (newSchedule !! k) <-> is_Some (schedule !! k))
  /\ forall k i,
       ((exists d s,
           1 <= d <= getDaysInMonth year month
           /\ k = getFormattedDate year month d
           /\ s ∈ staff /\ id s = i /\ resets s (cellAt schedule k i)) ->
        cellAt newSchedule k i = Some NoShift)
       /\ (¬ (exists d s,
                1 <= d <= getDaysInMonth year month
                /\ k = getFormattedDate year month d
                /\ s ∈ staff /\ id s = i /\ resets s (cellAt schedule k i)) ->
           cellAt newSchedule k i = cellAt schedule k i).
Proof.
  intros E. destruct (handleReset_cleared _ _ _ _ _ E) as [R C].
  split; [exact R|]. intros k i. split.
  - intros (d & s & Hd & -> & Hs & <- & Hr).
    apply elem_of_monthDays in Hd.
    destruct (C (getFormattedDate year month d) (id s)) as [Eq|[Eq _]];
      [|done].
    exfalso. rewrite <- Eq in Hr.
    by apply (handleReset_settled _ _ _ _ _ d s E).
  - intros Hn. destruct (C k i) as [Eq|(_ & d & s & Hd & ? & ? & ? & ?)];
      [done|].
    exfalso. apply Hn. exists d, s. apply elem_of_monthDays in Hd. done.
Qed.

(** X25: when every roster member has an id of their own, [handleReset]
    leaves every cell of a part-time member, and every paid leave '有' of a
    regular staff member or of the chief, as it is. *)
Theorem handleReset_keeps_manual_entries schedule staff year month
    newSchedule s k :
  NoDup (id <$> staff) ->
  handleReset true schedule staff year month = Some newSchedule ->
  s ∈ staff ->
  shiftType s = part_time
  \/ ((shiftType s = regular \/ position s = Chief)
      /\ cellAt schedule k (id s) = Some Yukyu) ->
  cellAt newSchedule k (id s) = cellAt schedule k (id s).
Proof.
  intros Hids E Hs Hkeep.
  destruct (handleReset_cleared _ _ _ _ _ E) as [_ C].
  destruct (C k (id s)) as [Eq|(_ & d & s' & _ & _ & Hs' & Hid & Hr)];
    [done|].
  exfalso. assert (s' = s) as -> by by apply (NoDup_id_inj staff).
  destruct Hr as (_ & Hpt & Hn).
  destruct Hkeep as [?|?]; [done|by apply Hn].
Qed.

End Calendar.

(** * The engine at work: November 2026 *)

Abbreviation check :=
  (checkConstraints november isoDate listedHoliday novemberDayOfWeek).
Abbreviation candidates :=
  (evaluateCandidates november isoDate listedHoliday novemberDayOfWeek).
Abbreviation swaps :=
  (findSwapSuggestions november isoDate listedHoliday novemberDayOfWeek).
Abbreviation run :=
  (runGenerator november isoDate novemberDayOfWeek listedHoliday
     novemberDayOfWeek reversing).
Abbreviation working :=
  (workDay isoDate novemberDayOfWeek listedHoliday culture 2026 11).

(** C1 at work: Hanako's paid leave and Mika's compensatory day off of the
    fourth come back untouched. *)
Lemma leave_of_the_fourth_kept :
  exists out,
    run 6 roster culture 2026 11 defaults leaveBooked ∅ = Done out
    /\ cellAt out "2026-11-04" 1 = Some Yukyu
    /\ cellAt out "2026-11-04" 4 = Some Furikyu.
Proof.
  destruct (manual_leave_protected november isoDate novemberDayOfWeek
              listedHoliday novemberDayOfWeek reversing roster culture
              2026 11 defaults leaveBooked ∅) as (out & E & H).
  exists out. split; [apply E; simpl; lia|]. split.
  - apply (H 4 hanako Yukyu).
    + clear. unfold november. lia.
    + clear. unfold roster. set_solver.
    + by left.
    + clear. vm_compute. reflexivity.
  - apply (H 4 mika Furikyu).
    + clear. unfold november. lia.
    + clear. unfold roster. set_solver.
    + by right.
    + clear. vm_compute. reflexivity.
Defined.

(** C2 at work: Taro has a cell on Sunday the first. *)
Lemma taro_has_a_cell_on_the_first :
  exists out,
    run 6 roster culture 2026 11 defaults leaveBooked ∅ = Done out
    /\ exists v, cellAt out "2026-11-01" 2 = Some v /\ v ≠ NoShift.
Proof.
  destruct (generated_schedule_complete november isoDate novemberDayOfWeek
              listedHoliday novemberDayOfWeek reversing roster culture
              2026 11 defaults leaveBooked ∅) as (out & E & H).
  exists out. split; [apply E; simpl; lia|].
  apply (H 1 taro).
  - clear. unfold november. lia.
  - clear. unfold roster. set_solver.
  - clear. vm_compute. discriminate.
Defined.

(** The roster of the examples gives every member an id of their own. *)
Lemma roster_idsApart : idsApart roster.
Proof.
  intros s p Hs Hp Hs' Hp'. unfold roster in *.
  repeat (apply elem_of_cons in Hp as [->|Hp]); try discriminate Hp';
    [|by apply elem_of_nil in Hp].
  repeat (apply elem_of_cons in Hs as [->|Hs]); try discriminate;
    try (by apply elem_of_nil in Hs); by exfalso.
Qed.

(** C3 at work: Friday the thirteenth and Saturday the fourteenth are
    adjacent work days, and Hanako's shifts on them are no bad pair. *)
Lemma hanako_rests_between_extremes :
  exists out,
    run 6 roster culture 2026 11 defaults leaveBooked ∅ = Done out
    /\ ¬ badPair (orEmpty (cellAt out "2026-11-13" 1))
                 (orEmpty (cellAt out "2026-11-14" 1)).
Proof.
  destruct (adjacent_work_days_repaired november isoDate novemberDayOfWeek
              listedHoliday novemberDayOfWeek reversing roster culture
              2026 11 defaults leaveBooked ∅) as (out & E & H).
  { exact roster_idsApart. }
  exists out. split; [apply E; simpl; lia|].
  apply (H hanako 13 14).
  - clear. unfold roster. set_solver.
  - clear. vm_compute. discriminate.
  - clear. lia.
  - clear. lia.
  - clear. unfold november. lia.
  - clear. split; vm_compute; [discriminate|reflexivity].
  - clear. split; vm_compute; [discriminate|reflexivity].
  - clear. intros d Hd. lia.
Defined.

(** Why the ids matter: [setShift] looks the member up by id.  Were a
    regular caregiver entered under the id of a part-timer listed first,
    which the staff editor never does, the repair of phase 10 would be
    refused, and 'J' on Friday the sixth and 'A' on Saturday the seventh,
    two adjacent work days, would stay. *)
Lemma shared_id_keeps_late_then_early :
  rin ∈ [shadow; rin]
  /\ shiftType rin ≠ part_time
  /\ workDay isoDate novemberDayOfWeek listedHoliday [] 2026 11 6
  /\ workDay isoDate novemberDayOfWeek listedHoliday [] 2026 11 7
  /\ exists out,
       run 3 [shadow; rin] [] 2026 11 earlySaturdays ∅ ∅ = Done out
       /\ cellAt out "2026-11-06" (id rin) = Some PJ
       /\ cellAt out "2026-11-07" (id rin) = Some PA
       /\ badPair (orEmpty (cellAt out "2026-11-06" (id rin)))
                  (orEmpty (cellAt out "2026-11-07" (id rin))).
Proof.
  split; [set_solver|]. split; [discriminate|].
  split; [split; vm_compute; [discriminate|reflexivity]|].
  split; [split; vm_compute; [discriminate|reflexivity]|].
  assert (match run 3 [shadow; rin] [] 2026 11 earlySaturdays ∅ ∅ with
          | Done out => cellAt out "2026-11-06" (id rin) = Some PJ
                        /\ cellAt out "2026-11-07" (id rin) = Some PA
          | _ => False
          end) as H.
  { vm_compute. split; reflexivity. }
  destruct (run 3 [shadow; rin] [] 2026 11 earlySaturdays ∅ ∅)
    as [out| |]; [|done..].
  exists out. destruct H as [H6 H7]. split; [done|].
  split; [done|]. split; [done|]. rewrite H6, H7. by left.
Qed.

(** C4 as stated fails: Yuki, a backup on a regular day off '休', is among
    the candidates for 'A'. *)
Lemma regular_day_off_is_a_candidate :
  isEligible yuki
  /\ getShift isoDate taroOnC 4 (id yuki) = Kokyu
  /\ exists e, e ∈ candidates taroOnC 4 PA
               /\ staffId e = id yuki /\ currentShift e = Kokyu.
Proof.
  split; [by right|]. split; [vm_compute; reflexivity|].
  exists (mkCandidate 3 "Yuki" [] true Kokyu).
  split; [|done]. vm_compute. set_solver.
Qed.

(** C5 as stated fails: with three staff on 'A', Hanako's move from 'A' to
    'B' raises no minimum-count violation. *)
Lemma three_on_the_band_may_leave :
  getShift isoDate threeEarly 4 1 = PA
  /\ countDayPattern isoDate threeEarly 4 PA = 3
  /\ forall v, v ∈ check threeEarly 4 1 PB ->
               code v ≠ MIN_COUNT_A /\ code v ≠ MIN_COUNT_J.
Proof.
  split; [vm_compute; reflexivity|]. split; [vm_compute; reflexivity|].
  intros v Hv. vm_compute in Hv. by apply elem_of_nil in Hv.
Qed.

(** C6 as stated fails: Hanako lists Taro and holds 'C'; Taro lists nobody,
    and the check for Taro and 'C' reports no incompatibility. *)
Lemma incompatibility_is_one_sided :
  findStaff (staff hanakoOnC) 1 = Some hanako
  /\ 2%Z ∈ incompatibleWith hanako
  /\ cellAt (schedule hanakoOnC) "2026-11-04" 1 = Some PC
  /\ findStaff (staff hanakoOnC) 2 = Some taro
  /\ incompatibleWith taro = []
  /\ forall v, v ∈ check hanakoOnC 4 2 PC -> code v ≠ INCOMPATIBLE.
Proof.
  split; [reflexivity|]. split; [set_solver|].
  split; [vm_compute; reflexivity|]. split; [reflexivity|].
  split; [reflexivity|].
  intros v Hv. vm_compute in Hv. by apply elem_of_nil in Hv.
Qed.

(** C7 at work: the run on the roster of five returns. *)
Lemma november_run_returns :
  exists out, run 6 roster culture 2026 11 defaults leaveBooked ∅ = Done out.
Proof.
  destruct (generate_total november isoDate novemberDayOfWeek listedHoliday
              novemberDayOfWeek reversing roster culture 2026 11 defaults
              leaveBooked ∅) as (out & E).
  exists out. apply E. simpl. lia.
Defined.

(** C9 at work: Taro is on '休'; proposing '休' for Hanako, who lists Taro,
    is reported as a hard incompatibility. *)
Lemma shared_day_off_is_reported :
  exists v, v ∈ check taroOff 4 (id hanako) Kokyu
            /\ vtype v = hard /\ code v = INCOMPATIBLE.
Proof.
  apply (incompatibility_on_any_code november isoDate listedHoliday
           novemberDayOfWeek taroOff 4 hanako 2 Kokyu).
  - reflexivity.
  - simpl. set_solver.
  - vm_compute. reflexivity.
Defined.

(** C10 at work: two staff are on 'A'; keeping Hanako on 'A' is reported as
    a hard MIN_COUNT_A violation. *)
Lemma keeping_the_shift_is_reported :
  mkViolation hard MIN_COUNT_A ∈ check twoEarly 4 1 PA.
Proof.
  apply (proj1 (min_count_ignores_candidate november isoDate
                  listedHoliday novemberDayOfWeek twoEarly 4 1)).
  - vm_compute. reflexivity.
  - vm_compute. lia.
Defined.

(** * More of the engine, the generator and the editor at work *)

Abbreviation reset := (handleReset november isoDate).
Abbreviation start :=
  (fun staff currentSchedule =>
     (constructor november isoDate staff culture 2026 11 defaults
        currentSchedule ∅).2).

(** Taro is on '休'; the violation reported when '休' is proposed for
    Hanako, who lists Taro, is of a hard code and of none that is never
    reported. *)
Lemma shared_day_off_has_a_hard_code :
  code (mkViolation hard INCOMPATIBLE) ≠ MIN_TOTAL
  /\ code (mkViolation hard INCOMPATIBLE) ≠ FAIRNESS_SAT
  /\ (vtype (mkViolation hard INCOMPATIBLE) = soft <->
      code (mkViolation hard INCOMPATIBLE) = EARLY_LIMIT
      \/ code (mkViolation hard INCOMPATIBLE) = FAIRNESS_A
      \/ code (mkViolation hard INCOMPATIBLE) = FAIRNESS_J)
  /\ (vtype (mkViolation hard INCOMPATIBLE) = hard <->
      code (mkViolation hard INCOMPATIBLE)
      ∈ [J_TO_A; CONSECUTIVE_A; CONSECUTIVE_J; INCOMPATIBLE;
         WEEKLY_AJ_LIMIT; MIN_COUNT_A; MIN_COUNT_J]).
Proof.
  apply (violation_type_by_code november isoDate listedHoliday
           novemberDayOfWeek taroOff 4 1 Kokyu).
  vm_compute. by left.
Defined.

(** Hanako is on 'A' with Taro; moving Hanako to 'B' raises the minimum
    count of 'A' and nothing about adjacent days or the week. *)
Lemma leaving_for_b_raises_the_minimum_only :
  mkViolation hard MIN_COUNT_A = mkViolation hard INCOMPATIBLE
  \/ mkViolation hard MIN_COUNT_A = mkViolation hard MIN_COUNT_A
  \/ mkViolation hard MIN_COUNT_A = mkViolation hard MIN_COUNT_J
  \/ (PB = PB /\ mkViolation hard MIN_COUNT_A = mkViolation soft EARLY_LIMIT).
Proof.
  apply (checks_on_a_middle_shift november isoDate listedHoliday
           novemberDayOfWeek twoEarly 4 1 PB).
  - discriminate.
  - discriminate.
  - vm_compute. by left.
Defined.

(** With three on 'A' and nobody on 'J', the first suggestion is Hanako
    with the chief: a valid swap. *)
Lemma hanako_and_the_chief_may_swap :
  validSwap november isoDate listedHoliday novemberDayOfWeek threeEarly 4 PJ
    (mkSwap (mkParty 1 "Hanako" PA) (mkParty 5 "Sensei" NoShift)
       "Hanako(A) ⇄ Sensei(休)" "J枠が確保されます").
Proof.
  apply (findSwapSuggestions_sound november isoDate listedHoliday
           novemberDayOfWeek threeEarly 4 PJ).
  vm_compute. by left.
Defined.

(** Yuki is a candidate for 'A'; the preview for Yuki and 'A' agrees with
    the candidate. *)
Lemma preview_agrees_on_yuki :
  preview_violations
    (getImpactPreview november isoDate listedHoliday novemberDayOfWeek
       taroOnC 4 3 PA) = []
  /\ isAllowed
       (getImpactPreview november isoDate listedHoliday novemberDayOfWeek
          taroOnC 4 3 PA) = true.
Proof.
  apply (getImpactPreview_matches_candidates november isoDate listedHoliday
           novemberDayOfWeek taroOnC 4 PA
           (mkCandidate 3 "Yuki" [] true Kokyu)).
  vm_compute. do 2 right. by left.
Defined.

(** Hanako is alone on 'A', which is short: no shift can be proposed for
    Hanako without a hard violation. *)
Lemma hanako_cannot_leave_the_short_band :
  hasHard (check aloneOnA 4 1 PC) = true.
Proof.
  apply (short_band_is_locked november isoDate listedHoliday
           novemberDayOfWeek aloneOnA 4 (mkShortage PA 1 2) 1 PC).
  - vm_compute. by left.
  - vm_compute. reflexivity.
Defined.

(** Hanako and Taro are on 'A'; when Hanako is edited to 'B', the handler
    writes 'B' and checks the band 'B', so that the violations it shows
    hold no minimum count. *)
Lemma leaving_a_band_of_two_is_not_checked :
  exists newSchedule,
    handleShiftUpdate november isoDate listedHoliday novemberDayOfWeek
      (Some (1%Z, 4)) (schedule twoEarly) roster culture defaults 2026 11 PB
    = Some (newSchedule, [])
    /\ cellAt newSchedule (isoDate 2026 11 4) 1 = Some PB
    /\ ((exists v, v ∈ @nil ConstraintViolation
                   /\ (code v = MIN_COUNT_A \/ code v = MIN_COUNT_J))
        <-> (PB = PA \/ PB = PJ)
            /\ countRow PB (default ∅ (newSchedule !! isoDate 2026 11 4))
               <= 2).
Proof.
  eexists. split; [reflexivity|].
  apply (proj1 (edit_checks_the_band_entered november isoDate listedHoliday
                  novemberDayOfWeek (schedule twoEarly) roster culture
                  defaults 2026 11 1 4 PB)).
  reflexivity.
Defined.

(** The swap of Hanako and the chief suggested for the shortage of 'J'
    leaves the shortage of 'J' as it was. *)
Lemma the_suggested_swap_leaves_the_shortage :
  exists newSchedule,
    handleSwap isoDate (Some (1%Z, 4)) (schedule threeEarly) 2026 11 1 5
      = Some newSchedule
    /\ findShortages isoDate
         (createConstraintContext newSchedule roster culture defaults 2026
            11) 4
       = findShortages isoDate
           (createConstraintContext (schedule threeEarly) roster culture
              defaults 2026 11) 4.
Proof.
  eexists. split; [reflexivity|].
  apply (handleSwap_keeps_shortages isoDate (schedule threeEarly) roster
           culture defaults 2026 11 1 4 1 5).
  reflexivity.
Defined.

(** The reset clears Taro's 'A' of the fourth. *)
Lemma reset_clears_the_band_of_taro :
  exists newSchedule,
    reset true leaveBooked roster 2026 11 = Some newSchedule
    /\ cellAt newSchedule "2026-11-04" 2 = Some NoShift.
Proof.
  eexists. split; [reflexivity|].
  apply (proj2 (handleReset_spec november isoDate leaveBooked roster 2026 11
                  _ eq_refl) "2026-11-04" 2%Z).
  exists 4, taro. split; [unfold november; lia|].
  split; [reflexivity|]. split; [unfold roster; set_solver|].
  split; [reflexivity|]. split; [reflexivity|].
  split; [discriminate|]. intros [_ H]. vm_compute in H. discriminate H.
Defined.

(** The roster of the examples gives every member an id of their own. *)
Lemma roster_ids : NoDup (id <$> roster).
Proof.
  apply NoDup_ListNoDup. vm_compute.
  repeat (constructor; [intros H; repeat destruct H as [H|H];
                          discriminate H || done|]).
  constructor.
Qed.

(** The reset leaves Hanako's paid leave of the fourth in place. *)
Lemma reset_keeps_the_leave_of_hanako :
  exists newSchedule,
    reset true leaveBooked roster 2026 11 = Some newSchedule
    /\ cellAt newSchedule "2026-11-04" 1 = cellAt leaveBooked "2026-11-04" 1.
Proof.
  eexists. split; [reflexivity|].
  apply (handleReset_keeps_manual_entries november isoDate leaveBooked roster
           2026 11 _ hanako "2026-11-04" roster_ids eq_refl).
  - unfold roster. set_solver.
  - right. split; [by left|]. vm_compute. reflexivity.
Defined.

(** Mika's 'C' of the fourth comes back from the run. *)
Lemma the_band_of_mika_is_kept :
  exists out,
    run 6 roster culture 2026 11 defaults partTimeBooked ∅ = Done out
    /\ cellAt out "2026-11-04" 4 = Some PC.
Proof.
  destruct (part_time_entries_kept november isoDate novemberDayOfWeek
              listedHoliday novemberDayOfWeek reversing roster culture
              2026 11 defaults partTimeBooked ∅ roster_idsApart)
    as (out & E & H).
  exists out. split; [apply E; simpl; lia|].
  apply (H 4 mika PC).
  - clear. unfold november. lia.
  - clear. unfold roster. set_solver.
  - clear. reflexivity.
  - clear. vm_compute. reflexivity.
  - clear. discriminate.
  - clear. discriminate.
Defined.

(** The thirty days of November 2026 have thirty dates. *)
Lemma november_datesApart : datesApart november isoDate 2026 11.
Proof.
  intros d d' Hd Hd' E. unfold november in *.
  assert (forallb (fun a =>
            forallb (fun b =>
                       implb (bool_decide (isoDate 2026 11 a
                                           = isoDate 2026 11 b))
                             (bool_decide (a = b)))
                    (seq 1 30)) (seq 1 30) = true) as H
    by (vm_compute; reflexivity).
  rewrite forallb_forall in H. specialize (H d).
  rewrite forallb_forall in H.
  assert (implb (bool_decide (isoDate 2026 11 d = isoDate 2026 11 d'))
                (bool_decide (d = d')) = true) as Hi.
  { apply H; apply in_seq; lia. }
  rewrite (bool_decide_eq_true_2 _ E) in Hi. simpl in Hi.
  by apply bool_decide_eq_true in Hi.
Qed.

(** Taro is off on Sunday the first. *)
Lemma taro_is_off_on_the_first :
  exists out,
    run 6 roster culture 2026 11 defaults leaveBooked ∅ = Done out
    /\ (cellAt out "2026-11-01" 2 = Some Kokyu
        \/ cellAt out "2026-11-01" 2 = Some Yukyu
        \/ cellAt out "2026-11-01" 2 = Some Furikyu).
Proof.
  destruct (no_work_on_holidays november isoDate novemberDayOfWeek
              listedHoliday novemberDayOfWeek reversing roster culture
              2026 11 defaults leaveBooked ∅ roster_idsApart
              november_datesApart) as (out & E & H).
  exists out. split; [apply E; simpl; lia|].
  apply (H 1 taro).
  - clear. unfold november. lia.
  - clear. unfold roster. set_solver.
  - clear. discriminate.
  - clear. intros [Hs _]. apply Hs. vm_compute. reflexivity.
Defined.

(** A row of December in the existing schedule is not in the schedule the
    run returns for November. *)
Lemma december_is_not_carried_over :
  exists out,
    run 6 roster culture 2026 11 defaults withDecember ∅ = Done out
    /\ out !! "2026-12-01" = None.
Proof.
  destruct (only_rows_of_the_month november isoDate novemberDayOfWeek
              listedHoliday novemberDayOfWeek reversing roster culture
              2026 11 defaults withDecember ∅) as (out & E & H).
  exists out. split; [apply E; simpl; lia|].
  apply eq_None_not_Some. intros Hk. apply H in Hk as (d & _ & Ed).
  clear -Ed. vm_compute in Ed. discriminate Ed.
Defined.

(** Kei may take one early shift and has one: the generator and the engine
    both find the limit reached. *)
Lemma the_limit_of_kei_is_reached_for_both :
  isEarlyShiftLimitExceeded isoDate (generatorOf [kei])
    (oneDay [(6, PA)]%Z) 6 = true
  <-> checkEarlyLimitViolation november isoDate
        (createConstraintContext (oneDay [(6, PA)]%Z) [kei] culture defaults
           2026 11) 5 6 PA
      = Some (mkViolation soft EARLY_LIMIT).
Proof.
  apply (same_early_limit_rule november isoDate (generatorOf [kei])
           (oneDay [(6, PA)]%Z) 5 6 PA).
  - reflexivity.
  - by left.
Defined.

(** Hanako is on 'A' on Wednesday the fourth: on Thursday the generator
    refuses Hanako a 'J', and the engine reports it. *)
Lemma a_second_extreme_in_the_week_is_reported :
  checkWeeklyAJLimitViolation november isoDate novemberDayOfWeek
    (createConstraintContext (schedule twoEarly) roster culture defaults
       2026 11) 5 1 PJ
  = Some (mkViolation hard WEEKLY_AJ_LIMIT).
Proof.
  apply (weekly_limit_is_reported november isoDate novemberDayOfWeek
           (generatorOf roster) (schedule twoEarly) 5 1 PJ).
  - unfold november. lia.
  - vm_compute. lia.
  - by right.
  - vm_compute. reflexivity.
Defined.

(** The run for November starts from a schedule without Taro's 'A' of the
    fourth and with Hanako's paid leave. *)
Lemma the_run_starts_without_the_band_of_taro :
  cellAt (start roster leaveBooked) "2026-11-04" 2 = Some NoShift
  /\ cellAt (start roster leaveBooked) "2026-11-04" 1
     = cellAt leaveBooked "2026-11-04" 1.
Proof.
  destruct (constructor_blank_month november isoDate roster culture 2026 11
              defaults leaveBooked ∅ 4 roster_ids) as [_ H].
  { unfold november. lia. }
  split.
  - apply (H taro).
    + clear. unfold roster. set_solver.
    + clear. discriminate.
    + clear. vm_compute. discriminate.
    + clear. vm_compute. discriminate.
  - apply (H hanako).
    + clear. unfold roster. set_solver.
    + clear. discriminate.
    + clear. left. vm_compute. reflexivity.
Defined.

(** Hanako and the chief, whom the engine suggests to swap, are assignable
    candidates: Hanako for 'J', the chief for Hanako's 'A'. *)
Lemma hanako_and_the_chief_are_candidates :
  (exists c, c ∈ candidates threeEarly 4 PJ
             /\ staffId c = 1%Z /\ currentShift c = PA
             /\ isAssignable c = true)
  /\ (exists c, c ∈ candidates threeEarly 4 PA
                /\ staffId c = 5%Z /\ currentShift c = NoShift
                /\ isAssignable c = true).
Proof.
  apply (suggested_staff_are_assignable_candidates november isoDate
           listedHoliday novemberDayOfWeek threeEarly 4 PJ
           (mkSwap (mkParty 1 "Hanako" PA) (mkParty 5 "Sensei" NoShift)
              "Hanako(A) ⇄ Sensei(休)" "J枠が確保されます")).
  vm_compute. by left.
Defined.

(** Hanako has two 'A' and Taro none: a third 'A' for Hanako is reported as
    unfair, and somebody has at least two fewer. *)
Lemma a_third_early_shift_is_unfair :
  mkViolation soft FAIRNESS_A ∈ check earlyTwice 9 1 PA
  /\ exists s, s ∈ roster /\ shiftType s = regular
               /\ countMonthlyPattern november isoDate earlyTwice (id s) PA
                    + 2
                  <= countMonthlyPattern november isoDate earlyTwice 1 PA.
Proof.
  assert (mkViolation soft FAIRNESS_A ∈ check earlyTwice 9 1 PA) as Hin.
  { vm_compute. by left. }
  split; [exact Hin|].
  apply (fairness_needs_a_gap november isoDate listedHoliday
           novemberDayOfWeek earlyTwice 9 1 PA (mkViolation soft FAIRNESS_A)
           Hin).
  by left.
Defined.

(** The roster with the director and the kitchen gives every member an id
    of their own. *)
Lemma nursery_ids : NoDup (id <$> nursery).
Proof.
  apply NoDup_ListNoDup. vm_compute.
  repeat (constructor; [intros H; repeat destruct H as [H|H];
                          discriminate H || done|]).
  constructor.
Qed.

(** Reversing a list reorders it. *)
Lemma reversing_reorders site l : reversing site l ≡ₚ l.
Proof. unfold reversing. symmetry. apply Permutation_rev. Qed.

(** The director is off on Wednesday the fourth. *)
Lemma the_director_is_off_on_the_fourth :
  exists out,
    run 9 nursery culture 2026 11 defaults leaveBooked ∅ = Done out
    /\ cellAt out "2026-11-04" 7 = Some Kokyu.
Proof.
  destruct (director_is_off november isoDate novemberDayOfWeek
              listedHoliday novemberDayOfWeek reversing nursery culture
              2026 11 defaults leaveBooked ∅ encho nursery_ids
              reversing_reorders) as (out & E & H).
  - clear. unfold nursery, roster. set_solver.
  - clear. reflexivity.
  - clear. by left.
  - exists out. split; [apply E; simpl; lia|].
    etransitivity; [apply (H 4); clear; unfold november; lia|].
    clear. vm_compute. reflexivity.
Defined.

(** Mai, the second cook, is off on the first Saturday of the month and
    on 'B' on the second, the fourteenth. *)
Lemma mai_cooks_on_the_second_saturday :
  exists out,
    run 9 nursery culture 2026 11 defaults leaveBooked ∅ = Done out
    /\ cellAt out "2026-11-07" 9 = Some Kokyu
    /\ cellAt out "2026-11-14" 9 = Some PB.
Proof.
  destruct (cooks_follow_the_calendar november isoDate novemberDayOfWeek
              listedHoliday novemberDayOfWeek reversing nursery culture
              2026 11 defaults leaveBooked ∅ nursery_ids
              november_datesApart reversing_reorders) as (out & E & H).
  exists out. split; [apply E; simpl; lia|]. split.
  - etransitivity; [apply (H 7 1 mai); clear|clear; vm_compute; reflexivity].
    + unfold november. lia.
    + reflexivity.
    + discriminate.
    + discriminate.
    + discriminate.
  - etransitivity; [apply (H 14 1 mai); clear|clear; vm_compute; reflexivity].
    + unfold november. lia.
    + reflexivity.
    + discriminate.
    + discriminate.
    + discriminate.
Defined.

(** Taro, a regular caregiver, holds a work shift or a leave on Wednesday
    the fourth. *)
Lemma taro_works_on_the_fourth :
  exists out,
    run 6 roster culture 2026 11 defaults leaveBooked ∅ = Done out
    /\ exists v, cellAt out "2026-11-04" 2 = Some v
                 /\ v ∈ [PA; PB; PC; PD; PE; PJ; Yukyu; Furikyu].
Proof.
  destruct (regulars_work_on_weekdays november isoDate novemberDayOfWeek
              listedHoliday novemberDayOfWeek reversing roster culture
              2026 11 defaults leaveBooked ∅ roster_ids
              november_datesApart reversing_reorders) as (out & E & H).
  exists out. split; [apply E; simpl; lia|].
  apply (H 4 taro).
  - clear. unfold november. lia.
  - clear. unfold roster. set_solver.
  - clear. reflexivity.
  - clear. discriminate.
  - clear. split; vm_compute; [discriminate|reflexivity].
  - clear. vm_compute. discriminate.
Defined.

(** On Saturday the seventh Hanako is on the Saturday pattern, on 'B' or
    off. *)
Lemma hanako_on_the_first_saturday :
  exists out,
    run 6 roster culture 2026 11 defaults leaveBooked ∅ = Done out
    /\ exists v, cellAt out "2026-11-07" 1 = Some v
                 /\ v ∈ [saturdayShiftPattern defaults; PB; Kokyu; Yukyu;
                         Furikyu].
Proof.
  destruct (saturday_shifts november isoDate novemberDayOfWeek
              listedHoliday novemberDayOfWeek reversing roster culture
              2026 11 defaults leaveBooked ∅ roster_idsApart
              november_datesApart reversing_reorders) as (out & E & H).
  exists out. split; [apply E; simpl; lia|].
  apply (H 7 hanako).
  - clear. unfold november. lia.
  - clear. unfold roster. set_solver.
  - clear. discriminate.
  - clear. vm_compute. reflexivity.
  - clear. vm_compute. reflexivity.
Defined.

(** Yuki, a backup caregiver, is off on Saturday the seventh. *)
Lemma yuki_is_off_on_the_first_saturday :
  exists out,
    run 6 roster culture 2026 11 defaults leaveBooked ∅ = Done out
    /\ cellAt out "2026-11-07" 3 = Some Kokyu.
Proof.
  destruct (saturdays_are_for_qualified_regulars november isoDate
              novemberDayOfWeek listedHoliday novemberDayOfWeek reversing
              roster culture 2026 11 defaults leaveBooked ∅ roster_ids
              november_datesApart reversing_reorders) as (out & E & H).
  exists out. split; [apply E; simpl; lia|].
  etransitivity; [apply (H 7 yuki); clear|clear; vm_compute; reflexivity].
  - unfold november. lia.
  - unfold roster. set_solver.
  - discriminate.
  - discriminate.
  - intros (_ & Hr & _). discriminate Hr.
  - vm_compute. reflexivity.
  - vm_compute. reflexivity.
Defined.
